(** * WebLayer3D: a shallow embedding of [src/three-web-layer.ts]

    The layer tree of [WebLayer3D] is embedded as a rose tree of layer
    records, the DOM as a forest of element records, and the root-only
    bookkeeping (rasterization queue, update guard, id counters) as a
    [World] record that is threaded through the operations.

    Conventions.
    - JS numbers that carry geometry or opacity are exact rationals [Q];
      comparisons are [Qeq_bool] / [Qle_bool].  Orientation (quaternions)
      is left out: every target orientation in the source is the identity.
    - A JS exception is the result [Throw]; a run that leaves the model
      (the recursion fuel ran out, or arithmetic met an [undefined] bounds
      field) is [Unmodelled].
    - DOM attributes are kept in decoded form: the class attribute as its
      token list, [data-layer-states] as the tokens that survive
      [trim().split(/\s+/).filter(Boolean)], [data-layer-hover-depth] as the
      value of [parseInt], [data-layer] as the parsed layer id.
    - [_states], a plain object, is an association list of its own
      properties in the order of a JS [for..in] (array indices in ascending
      order, then the other keys in insertion order).  A read [_states[k]]
      of a key that is not an own property finds what [Object.prototype]
      holds under that name: see [inherited].
    - The elements of the page are HTML elements, as the source types them
      ([className] is a string).
    - Object ids come from one counter.  A new layer takes six of them: its
      own first, then those of [content], [mesh], [target], [contentTarget]
      and [cursor].  Only the layers are nodes of the embedded tree, so
      [getObjectById] answers for layer ids alone; a [data-layer] attribute
      that carries the id of a [content], [mesh] or [cursor] object is
      outside what the statements cover, and they say so where it matters.
    - [Vector3.lerp] and [Math.lerp] are computed over [Q], without the
      rounding of IEEE doubles; no statement rests on an interpolation
      landing exactly on its target.
    - Left out: the pixel ratio and the idle-time pacing of
      [_scheduleRasterizations]; [_rasterize] stands for one queue entry
      run from start to finish.  [hitTest], the event listeners and the
      resize observer of the constructor come after the vocabulary of the
      statements. *)

From Stdlib Require Import List String ZArith QArith Qminmax Lqa Lia Bool Arith.
Import ListNotations.

Local Open Scope string_scope.
Local Open Scope list_scope.

(** ** Results of fallible code *)

Inductive Result (A : Type) : Type :=
| Ok (a : A)
| Throw
| Unmodelled.

Arguments Ok {A} a.
Arguments Throw {A}.
Arguments Unmodelled {A}.

Definition bind {A B : Type} (r : Result A) (k : A -> Result B) : Result B :=
  match r with
  | Ok a => k a
  | Throw => Throw
  | Unmodelled => Unmodelled
  end.

Notation "'do' x <- e ; k" := (bind e (fun x => k))
  (at level 10, x pattern, e at level 100, k at level 200).

(** ** Numbers, vectors, bounds *)

Inductive JSInt : Type :=
| NaN
| Int (z : Z).

Record Vec3 : Type := vec3 { vx : Q; vy : Q; vz : Q }.

Record Bounds : Type := mkBounds { b_left : Q; b_top : Q; b_width : Q; b_height : Q }.

Definition ZERO_BOUNDS : Bounds := mkBounds 0 0 0 0.

Definition DEFAULT_LAYER_SEPARATION : Q := 5 # 1000.
Definition DEFAULT_PIXEL_DIMENSIONS : Q := 1 # 1000.

(** [THREE.Math.lerp(x, y, t)] is [(1 - t) * x + t * y]. *)
Definition lerp (x y t : Q) : Q := ((1 - t) * x + t * y)%Q.

(** [Vector3.lerp(v, alpha)] adds [(v - this) * alpha] componentwise. *)
Definition Vec3_lerp (a v : Vec3) (alpha : Q) : Vec3 :=
  vec3 (vx a + (vx v - vx a) * alpha)
       (vy a + (vy v - vy a) * alpha)
       (vz a + (vz v - vz a) * alpha).

(** JS truthiness of a number (no NaN in the model): nonzero. *)
Definition truthyQ (q : Q) : bool := negb (Qeq_bool q 0).

Definition Qlt_bool (a b : Q) : bool := negb (Qle_bool b a).

(** ** The DOM *)

Record ElementData : Type := mkElementData {
  el_id : nat;
  nodeName : string;
  (** [getAttribute('data-layer')]: [None] when absent, [Some None] when
      present but [parseInt] gives NaN, [Some (Some n)] otherwise. *)
  layerAttribute : option (option nat);
  statesAttribute : list string;
  hoverDepthAttribute : JSInt;
  (** the class attribute: [None] when absent, else its tokens. *)
  classAttribute : option (list string);
  (** what the geometry probe reports for the element as it stands. *)
  el_bounds : Bounds
}.

#[local] Unset Elimination Schemes.

Inductive Element : Type :=
| ENode (e : ElementData) (childNodes : list Element).

#[local] Set Elimination Schemes.

Definition edata (e : Element) : ElementData := let 'ENode d _ := e in d.
Definition childNodes (e : Element) : list Element := let 'ENode _ cs := e in cs.

(** An element the model does not know: it behaves as a bare element that is
    not laid out. *)
Definition unknownElement (eid : nat) : Element :=
  ENode (mkElementData eid "div" None [] (Int 0) None ZERO_BOUNDS) [].

Fixpoint findElement (eid : nat) (e : Element) : option Element :=
  let 'ENode d cs := e in
  if Nat.eqb (el_id d) eid then Some e
  else (fix go (l : list Element) : option Element :=
          match l with
          | [] => None
          | c :: rest => match findElement eid c with
                         | Some r => Some r
                         | None => go rest
                         end
          end) cs.

Fixpoint findInForest (eid : nat) (f : list Element) : option Element :=
  match f with
  | [] => None
  | e :: rest => match findElement eid e with
                 | Some r => Some r
                 | None => findInForest eid rest
                 end
  end.

Definition getElement (eid : nat) (dom : list Element) : Element :=
  match findInForest eid dom with
  | Some e => e
  | None => unknownElement eid
  end.

Fixpoint mapElements (g : ElementData -> ElementData) (e : Element) : Element :=
  let 'ENode d cs := e in ENode (g d) (List.map (mapElements g) cs).

(** [node.contains(other)]: [other] is [node] or one of its descendants. *)
Definition contains (node : Element) (other : nat) : bool :=
  match findElement other node with Some _ => true | None => false end.

(** [element.closest('[data-layer]')]: the nearest inclusive ancestor that
    carries the layer attribute.  [closestIn] walks down from a root and
    keeps the innermost candidate on the path to [eid]. *)
Fixpoint closestIn (eid : nat) (best : option ElementData) (e : Element)
  : option (option ElementData) :=
  let 'ENode d cs := e in
  let best' := match layerAttribute d with Some _ => Some d | None => best end in
  if Nat.eqb (el_id d) eid then Some best'
  else (fix go (l : list Element) : option (option ElementData) :=
          match l with
          | [] => None
          | c :: rest => match closestIn eid best' c with
                         | Some r => Some r
                         | None => go rest
                         end
          end) cs.

Fixpoint closestLayerElement (eid : nat) (dom : list Element) : option ElementData :=
  match dom with
  | [] => None
  | e :: rest => match closestIn eid None e with
                 | Some r => r
                 | None => closestLayerElement eid rest
                 end
  end.

(** [element.classList]: the class tokens. *)
Definition classList (d : ElementData) : list string :=
  match classAttribute d with Some l => l | None => [] end.

(** [element.className.split(/\s+/)]: the split of an empty string is [['']]. *)
Definition classNameSplit (d : ElementData) : list string :=
  match classList d with [] => [""] | l => l end.

Definition inb (s : string) (l : list string) : bool :=
  existsb (String.eqb s) l.

(** ** Layers *)

Record HoverState : Type := mkHoverState {
  hs_texture : option nat;       (** [null] until a render commits a texture *)
  hs_bounds : option Bounds      (** [{}] until bounds are first written *)
}.

Definition StateCache : Type := list (string * list HoverState).

Record Pose : Type := mkPose { position : Vec3; scale : Vec3 }.

Record Mesh : Type := mkMesh {
  opacity : Q;                   (** [mesh.material.opacity] *)
  visible : bool;
  mesh_parent : bool;            (** whether [mesh.parent] is set *)
  material_map : option nat;
  renderOrder : Z
}.

Record LayerData : Type := mkLayerData {
  id : nat;
  element : nat;
  rootLayer : nat;
  _level : Z;
  layerSeparation : option Q;
  childLayers : list nat;
  needsRasterize : bool;
  useDOMLayout : bool;
  _needsRemoval : bool;
  _hover : nat;
  _hoverDepth : JSInt;
  _states : StateCache;
  _state : string;
  object3d : Pose;
  content : Pose;
  target : Pose;
  contentTarget : Pose;
  contentTargetOpacity : Q;
  _lastTargetPosition : Vec3;
  _lastContentTargetScale : Vec3;
  mesh : Mesh;
  cursor_visible : bool;
  _mutationObserver : option bool;
  _resizeObserver : bool
}.

Definition set_childLayers (v : list nat) (d : LayerData) : LayerData :=
  {| id := id d; element := element d; rootLayer := rootLayer d; _level := _level d;
     layerSeparation := layerSeparation d; childLayers := v;
     needsRasterize := needsRasterize d; useDOMLayout := useDOMLayout d;
     _needsRemoval := _needsRemoval d; _hover := _hover d; _hoverDepth := _hoverDepth d;
     _states := _states d; _state := _state d; object3d := object3d d; content := content d;
     target := target d; contentTarget := contentTarget d;
     contentTargetOpacity := contentTargetOpacity d;
     _lastTargetPosition := _lastTargetPosition d;
     _lastContentTargetScale := _lastContentTargetScale d; mesh := mesh d;
     cursor_visible := cursor_visible d; _mutationObserver := _mutationObserver d;
     _resizeObserver := _resizeObserver d |}.

Definition set_needsRasterize (v : bool) (d : LayerData) : LayerData :=
  {| id := id d; element := element d; rootLayer := rootLayer d; _level := _level d;
     layerSeparation := layerSeparation d; childLayers := childLayers d; needsRasterize := v;
     useDOMLayout := useDOMLayout d; _needsRemoval := _needsRemoval d; _hover := _hover d;
     _hoverDepth := _hoverDepth d; _states := _states d; _state := _state d;
     object3d := object3d d; content := content d; target := target d;
     contentTarget := contentTarget d; contentTargetOpacity := contentTargetOpacity d;
     _lastTargetPosition := _lastTargetPosition d;
     _lastContentTargetScale := _lastContentTargetScale d; mesh := mesh d;
     cursor_visible := cursor_visible d; _mutationObserver := _mutationObserver d;
     _resizeObserver := _resizeObserver d |}.

Definition set_needsRemoval (v : bool) (d : LayerData) : LayerData :=
  {| id := id d; element := element d; rootLayer := rootLayer d; _level := _level d;
     layerSeparation := layerSeparation d; childLayers := childLayers d;
     needsRasterize := needsRasterize d; useDOMLayout := useDOMLayout d; _needsRemoval := v;
     _hover := _hover d; _hoverDepth := _hoverDepth d; _states := _states d;
     _state := _state d; object3d := object3d d; content := content d; target := target d;
     contentTarget := contentTarget d; contentTargetOpacity := contentTargetOpacity d;
     _lastTargetPosition := _lastTargetPosition d;
     _lastContentTargetScale := _lastContentTargetScale d; mesh := mesh d;
     cursor_visible := cursor_visible d; _mutationObserver := _mutationObserver d;
     _resizeObserver := _resizeObserver d |}.

Definition set_hover (v : nat) (d : LayerData) : LayerData :=
  {| id := id d; element := element d; rootLayer := rootLayer d; _level := _level d;
     layerSeparation := layerSeparation d; childLayers := childLayers d;
     needsRasterize := needsRasterize d; useDOMLayout := useDOMLayout d;
     _needsRemoval := _needsRemoval d; _hover := v; _hoverDepth := _hoverDepth d;
     _states := _states d; _state := _state d; object3d := object3d d; content := content d;
     target := target d; contentTarget := contentTarget d;
     contentTargetOpacity := contentTargetOpacity d;
     _lastTargetPosition := _lastTargetPosition d;
     _lastContentTargetScale := _lastContentTargetScale d; mesh := mesh d;
     cursor_visible := cursor_visible d; _mutationObserver := _mutationObserver d;
     _resizeObserver := _resizeObserver d |}.

Definition set_hoverDepth (v : JSInt) (d : LayerData) : LayerData :=
  {| id := id d; element := element d; rootLayer := rootLayer d; _level := _level d;
     layerSeparation := layerSeparation d; childLayers := childLayers d;
     needsRasterize := needsRasterize d; useDOMLayout := useDOMLayout d;
     _needsRemoval := _needsRemoval d; _hover := _hover d; _hoverDepth := v;
     _states := _states d; _state := _state d; object3d := object3d d; content := content d;
     target := target d; contentTarget := contentTarget d;
     contentTargetOpacity := contentTargetOpacity d;
     _lastTargetPosition := _lastTargetPosition d;
     _lastContentTargetScale := _lastContentTargetScale d; mesh := mesh d;
     cursor_visible := cursor_visible d; _mutationObserver := _mutationObserver d;
     _resizeObserver := _resizeObserver d |}.

Definition set_states (v : StateCache) (d : LayerData) : LayerData :=
  {| id := id d; element := element d; rootLayer := rootLayer d; _level := _level d;
     layerSeparation := layerSeparation d; childLayers := childLayers d;
     needsRasterize := needsRasterize d; useDOMLayout := useDOMLayout d;
     _needsRemoval := _needsRemoval d; _hover := _hover d; _hoverDepth := _hoverDepth d;
     _states := v; _state := _state d; object3d := object3d d; content := content d;
     target := target d; contentTarget := contentTarget d;
     contentTargetOpacity := contentTargetOpacity d;
     _lastTargetPosition := _lastTargetPosition d;
     _lastContentTargetScale := _lastContentTargetScale d; mesh := mesh d;
     cursor_visible := cursor_visible d; _mutationObserver := _mutationObserver d;
     _resizeObserver := _resizeObserver d |}.

Definition set_state (v : string) (d : LayerData) : LayerData :=
  {| id := id d; element := element d; rootLayer := rootLayer d; _level := _level d;
     layerSeparation := layerSeparation d; childLayers := childLayers d;
     needsRasterize := needsRasterize d; useDOMLayout := useDOMLayout d;
     _needsRemoval := _needsRemoval d; _hover := _hover d; _hoverDepth := _hoverDepth d;
     _states := _states d; _state := v; object3d := object3d d; content := content d;
     target := target d; contentTarget := contentTarget d;
     contentTargetOpacity := contentTargetOpacity d;
     _lastTargetPosition := _lastTargetPosition d;
     _lastContentTargetScale := _lastContentTargetScale d; mesh := mesh d;
     cursor_visible := cursor_visible d; _mutationObserver := _mutationObserver d;
     _resizeObserver := _resizeObserver d |}.

Definition set_object3d (v : Pose) (d : LayerData) : LayerData :=
  {| id := id d; element := element d; rootLayer := rootLayer d; _level := _level d;
     layerSeparation := layerSeparation d; childLayers := childLayers d;
     needsRasterize := needsRasterize d; useDOMLayout := useDOMLayout d;
     _needsRemoval := _needsRemoval d; _hover := _hover d; _hoverDepth := _hoverDepth d;
     _states := _states d; _state := _state d; object3d := v; content := content d;
     target := target d; contentTarget := contentTarget d;
     contentTargetOpacity := contentTargetOpacity d;
     _lastTargetPosition := _lastTargetPosition d;
     _lastContentTargetScale := _lastContentTargetScale d; mesh := mesh d;
     cursor_visible := cursor_visible d; _mutationObserver := _mutationObserver d;
     _resizeObserver := _resizeObserver d |}.

Definition set_content (v : Pose) (d : LayerData) : LayerData :=
  {| id := id d; element := element d; rootLayer := rootLayer d; _level := _level d;
     layerSeparation := layerSeparation d; childLayers := childLayers d;
     needsRasterize := needsRasterize d; useDOMLayout := useDOMLayout d;
     _needsRemoval := _needsRemoval d; _hover := _hover d; _hoverDepth := _hoverDepth d;
     _states := _states d; _state := _state d; object3d := object3d d; content := v;
     target := target d; contentTarget := contentTarget d;
     contentTargetOpacity := contentTargetOpacity d;
     _lastTargetPosition := _lastTargetPosition d;
     _lastContentTargetScale := _lastContentTargetScale d; mesh := mesh d;
     cursor_visible := cursor_visible d; _mutationObserver := _mutationObserver d;
     _resizeObserver := _resizeObserver d |}.

Definition set_target (v : Pose) (d : LayerData) : LayerData :=
  {| id := id d; element := element d; rootLayer := rootLayer d; _level := _level d;
     layerSeparation := layerSeparation d; childLayers := childLayers d;
     needsRasterize := needsRasterize d; useDOMLayout := useDOMLayout d;
     _needsRemoval := _needsRemoval d; _hover := _hover d; _hoverDepth := _hoverDepth d;
     _states := _states d; _state := _state d; object3d := object3d d; content := content d;
     target := v; contentTarget := contentTarget d;
     contentTargetOpacity := contentTargetOpacity d;
     _lastTargetPosition := _lastTargetPosition d;
     _lastContentTargetScale := _lastContentTargetScale d; mesh := mesh d;
     cursor_visible := cursor_visible d; _mutationObserver := _mutationObserver d;
     _resizeObserver := _resizeObserver d |}.

Definition set_contentTarget (v : Pose) (d : LayerData) : LayerData :=
  {| id := id d; element := element d; rootLayer := rootLayer d; _level := _level d;
     layerSeparation := layerSeparation d; childLayers := childLayers d;
     needsRasterize := needsRasterize d; useDOMLayout := useDOMLayout d;
     _needsRemoval := _needsRemoval d; _hover := _hover d; _hoverDepth := _hoverDepth d;
     _states := _states d; _state := _state d; object3d := object3d d; content := content d;
     target := target d; contentTarget := v; contentTargetOpacity := contentTargetOpacity d;
     _lastTargetPosition := _lastTargetPosition d;
     _lastContentTargetScale := _lastContentTargetScale d; mesh := mesh d;
     cursor_visible := cursor_visible d; _mutationObserver := _mutationObserver d;
     _resizeObserver := _resizeObserver d |}.

Definition set_contentTargetOpacity (v : Q) (d : LayerData) : LayerData :=
  {| id := id d; element := element d; rootLayer := rootLayer d; _level := _level d;
     layerSeparation := layerSeparation d; childLayers := childLayers d;
     needsRasterize := needsRasterize d; useDOMLayout := useDOMLayout d;
     _needsRemoval := _needsRemoval d; _hover := _hover d; _hoverDepth := _hoverDepth d;
     _states := _states d; _state := _state d; object3d := object3d d; content := content d;
     target := target d; contentTarget := contentTarget d; contentTargetOpacity := v;
     _lastTargetPosition := _lastTargetPosition d;
     _lastContentTargetScale := _lastContentTargetScale d; mesh := mesh d;
     cursor_visible := cursor_visible d; _mutationObserver := _mutationObserver d;
     _resizeObserver := _resizeObserver d |}.

Definition set_lastTargetPosition (v : Vec3) (d : LayerData) : LayerData :=
  {| id := id d; element := element d; rootLayer := rootLayer d; _level := _level d;
     layerSeparation := layerSeparation d; childLayers := childLayers d;
     needsRasterize := needsRasterize d; useDOMLayout := useDOMLayout d;
     _needsRemoval := _needsRemoval d; _hover := _hover d; _hoverDepth := _hoverDepth d;
     _states := _states d; _state := _state d; object3d := object3d d; content := content d;
     target := target d; contentTarget := contentTarget d;
     contentTargetOpacity := contentTargetOpacity d; _lastTargetPosition := v;
     _lastContentTargetScale := _lastContentTargetScale d; mesh := mesh d;
     cursor_visible := cursor_visible d; _mutationObserver := _mutationObserver d;
     _resizeObserver := _resizeObserver d |}.

Definition set_lastContentTargetScale (v : Vec3) (d : LayerData) : LayerData :=
  {| id := id d; element := element d; rootLayer := rootLayer d; _level := _level d;
     layerSeparation := layerSeparation d; childLayers := childLayers d;
     needsRasterize := needsRasterize d; useDOMLayout := useDOMLayout d;
     _needsRemoval := _needsRemoval d; _hover := _hover d; _hoverDepth := _hoverDepth d;
     _states := _states d; _state := _state d; object3d := object3d d; content := content d;
     target := target d; contentTarget := contentTarget d;
     contentTargetOpacity := contentTargetOpacity d;
     _lastTargetPosition := _lastTargetPosition d; _lastContentTargetScale := v;
     mesh := mesh d; cursor_visible := cursor_visible d;
     _mutationObserver := _mutationObserver d; _resizeObserver := _resizeObserver d |}.

Definition set_mesh (v : Mesh) (d : LayerData) : LayerData :=
  {| id := id d; element := element d; rootLayer := rootLayer d; _level := _level d;
     layerSeparation := layerSeparation d; childLayers := childLayers d;
     needsRasterize := needsRasterize d; useDOMLayout := useDOMLayout d;
     _needsRemoval := _needsRemoval d; _hover := _hover d; _hoverDepth := _hoverDepth d;
     _states := _states d; _state := _state d; object3d := object3d d; content := content d;
     target := target d; contentTarget := contentTarget d;
     contentTargetOpacity := contentTargetOpacity d;
     _lastTargetPosition := _lastTargetPosition d;
     _lastContentTargetScale := _lastContentTargetScale d; mesh := v;
     cursor_visible := cursor_visible d; _mutationObserver := _mutationObserver d;
     _resizeObserver := _resizeObserver d |}.

Definition set_cursor_visible (v : bool) (d : LayerData) : LayerData :=
  {| id := id d; element := element d; rootLayer := rootLayer d; _level := _level d;
     layerSeparation := layerSeparation d; childLayers := childLayers d;
     needsRasterize := needsRasterize d; useDOMLayout := useDOMLayout d;
     _needsRemoval := _needsRemoval d; _hover := _hover d; _hoverDepth := _hoverDepth d;
     _states := _states d; _state := _state d; object3d := object3d d; content := content d;
     target := target d; contentTarget := contentTarget d;
     contentTargetOpacity := contentTargetOpacity d;
     _lastTargetPosition := _lastTargetPosition d;
     _lastContentTargetScale := _lastContentTargetScale d; mesh := mesh d; cursor_visible := v;
     _mutationObserver := _mutationObserver d; _resizeObserver := _resizeObserver d |}.

Definition set_mutationObserver (v : option bool) (d : LayerData) : LayerData :=
  {| id := id d; element := element d; rootLayer := rootLayer d; _level := _level d;
     layerSeparation := layerSeparation d; childLayers := childLayers d;
     needsRasterize := needsRasterize d; useDOMLayout := useDOMLayout d;
     _needsRemoval := _needsRemoval d; _hover := _hover d; _hoverDepth := _hoverDepth d;
     _states := _states d; _state := _state d; object3d := object3d d; content := content d;
     target := target d; contentTarget := contentTarget d;
     contentTargetOpacity := contentTargetOpacity d;
     _lastTargetPosition := _lastTargetPosition d;
     _lastContentTargetScale := _lastContentTargetScale d; mesh := mesh d;
     cursor_visible := cursor_visible d; _mutationObserver := v;
     _resizeObserver := _resizeObserver d |}.

Definition set_resizeObserver (v : bool) (d : LayerData) : LayerData :=
  {| id := id d; element := element d; rootLayer := rootLayer d; _level := _level d;
     layerSeparation := layerSeparation d; childLayers := childLayers d;
     needsRasterize := needsRasterize d; useDOMLayout := useDOMLayout d;
     _needsRemoval := _needsRemoval d; _hover := _hover d; _hoverDepth := _hoverDepth d;
     _states := _states d; _state := _state d; object3d := object3d d; content := content d;
     target := target d; contentTarget := contentTarget d;
     contentTargetOpacity := contentTargetOpacity d;
     _lastTargetPosition := _lastTargetPosition d;
     _lastContentTargetScale := _lastContentTargetScale d; mesh := mesh d;
     cursor_visible := cursor_visible d; _mutationObserver := _mutationObserver d;
     _resizeObserver := v |}.

#[local] Unset Elimination Schemes.

(** The [children] of the [Object3D] that are layers, in insertion order. *)
Inductive Layer : Type :=
| Node (d : LayerData) (children : list Layer).

#[local] Set Elimination Schemes.

Definition data (l : Layer) : LayerData := let 'Node d _ := l in d.
Definition children (l : Layer) : list Layer := let 'Node _ cs := l in cs.

(** State that the source keeps on the root layer and reaches through
    [this.rootLayer], together with the document and the allocation
    counters of [THREE] objects. *)
Record World : Type := mkWorld {
  dom : list Element;
  _rasterizationQueue : list nat;
  _isUpdating : bool;
  nextId : nat;
  nextTexture : nat;
  disposedTextures : list nat
}.

Definition set_dom (v : list Element) (w : World) : World :=
  mkWorld v (_rasterizationQueue w) (_isUpdating w) (nextId w) (nextTexture w)
          (disposedTextures w).
Definition set_rasterizationQueue (v : list nat) (w : World) : World :=
  mkWorld (dom w) v (_isUpdating w) (nextId w) (nextTexture w) (disposedTextures w).
Definition set_isUpdating (v : bool) (w : World) : World :=
  mkWorld (dom w) (_rasterizationQueue w) v (nextId w) (nextTexture w) (disposedTextures w).
Definition set_nextId (v : nat) (w : World) : World :=
  mkWorld (dom w) (_rasterizationQueue w) (_isUpdating w) v (nextTexture w)
          (disposedTextures w).
Definition set_nextTexture (v : nat) (w : World) : World :=
  mkWorld (dom w) (_rasterizationQueue w) (_isUpdating w) (nextId w) v (disposedTextures w).
Definition set_disposedTextures (v : list nat) (w : World) : World :=
  mkWorld (dom w) (_rasterizationQueue w) (_isUpdating w) (nextId w) (nextTexture w) v.

(** *** Tree helpers *)

Fixpoint mapLayers (g : LayerData -> LayerData) (l : Layer) : Layer :=
  let 'Node d cs := l in Node (g d) (List.map (mapLayers g) cs).

(** [Object3D.getObjectById]: this object first, then the children in
    order, depth first. *)
Fixpoint getObjectById (i : nat) (l : Layer) : option Layer :=
  let 'Node d cs := l in
  if Nat.eqb (id d) i then Some l
  else (fix go (cs : list Layer) : option Layer :=
          match cs with
          | [] => None
          | c :: rest => match getObjectById i c with
                         | Some r => Some r
                         | None => go rest
                         end
          end) cs.

(** Apply [g] to the object that [getObjectById i] returns. *)
Fixpoint updateObjectById (i : nat) (g : Layer -> Layer) (l : Layer) : option Layer :=
  let 'Node d cs := l in
  if Nat.eqb (id d) i then Some (g l)
  else match (fix go (cs : list Layer) : option (list Layer) :=
                match cs with
                | [] => None
                | c :: rest => match updateObjectById i g c with
                               | Some c' => Some (c' :: rest)
                               | None => match go rest with
                                         | Some rest' => Some (c :: rest')
                                         | None => None
                                         end
                               end
                end) cs with
       | Some cs' => Some (Node d cs')
       | None => None
       end.

Definition applyById (i : nat) (g : Layer -> Layer) (l : Layer) : Layer :=
  match updateObjectById i g l with Some l' => l' | None => l end.

(** *** The state cache *)

(** the own property [k] of [_states]. *)
Fixpoint lookupState (k : string) (c : StateCache) : option (list HoverState) :=
  match c with
  | [] => None
  | (k', v) :: rest => if String.eqb k k' then Some v else lookupState k rest
  end.

(** the property names of [Object.prototype].  [_states] is created as [{}],
    so [_states[k]] for such a [k] that is not an own property reads the
    inherited value: a function (the prototype object itself for
    [__proto__]), which is truthy, is not [undefined], and has no property
    [0], [1], ... *)
Definition objectPrototypeNames : list string :=
  ["constructor"; "__defineGetter__"; "__defineSetter__"; "hasOwnProperty";
   "__lookupGetter__"; "__lookupSetter__"; "isPrototypeOf"; "propertyIsEnumerable";
   "toString"; "valueOf"; "__proto__"; "toLocaleString"].

Definition inherited (k : string) : bool := inb k objectPrototypeNames.

(** the number that a key stands for when it is an array index: a decimal
    numeral without sign or leading zero, below [2^32 - 1]. *)
Definition digitOf (a : Ascii.ascii) : option N :=
  let n := Ascii.N_of_ascii a in
  if (48 <=? n)%N && (n <=? 57)%N then Some (n - 48)%N else None.

Fixpoint digitsValue (s : string) (acc : N) : option N :=
  match s with
  | EmptyString => Some acc
  | String a rest =>
      match digitOf a with
      | Some v => digitsValue rest (10 * acc + v)%N
      | None => None
      end
  end.

Definition arrayIndex (k : string) : option N :=
  match k with
  | EmptyString => None
  | String a rest =>
      if (Ascii.N_of_ascii a =? 48)%N && negb (String.eqb rest "") then None
      else match digitsValue k 0%N with
           | Some n => if (n <? 4294967295)%N then Some n else None
           | None => None
           end
  end.

(** [_states[k] = v] for a key that is not an own property yet: array
    indices are enumerated first, in ascending order, and every other key
    after them in insertion order. *)
Fixpoint insertIndexed (n : N) (k : string) (v : list HoverState) (c : StateCache)
  : StateCache :=
  match c with
  | [] => [(k, v)]
  | (k', v') :: rest =>
      match arrayIndex k' with
      | Some m =>
          if (m <? n)%N then (k', v') :: insertIndexed n k v rest
          else (k, v) :: (k', v') :: rest
      | None => (k, v) :: (k', v') :: rest
      end
  end.

Definition insertState (k : string) (v : list HoverState) (c : StateCache) : StateCache :=
  match arrayIndex k with
  | Some n => insertIndexed n k v c
  | None => c ++ [(k, v)]
  end.

Fixpoint replaceState (k : string) (v : list HoverState) (c : StateCache) : StateCache :=
  match c with
  | [] => []
  | (k', v') :: rest =>
      if String.eqb k k' then (k', v) :: rest else (k', v') :: replaceState k v rest
  end.

Fixpoint replaceNth {A : Type} (n : nat) (x : A) (l : list A) : list A :=
  match l, n with
  | [], _ => []
  | _ :: rest, O => x :: rest
  | y :: rest, S n' => y :: replaceNth n' x rest
  end.

(** [this._states[this.state] || this._states['']] and then
    [state[this.hover] || state[0]]: the key and index of the slot that the
    [texture] and [bounds] getters read.  An array is truthy even when it is
    empty; reading a property of [undefined] throws. *)
Definition currentStateKey (d : LayerData) : Result string :=
  match lookupState (_state d) (_states d) with
  | Some _ => Ok (_state d)
  | None =>
      if inherited (_state d)
      then Throw (* the inherited value is selected; it has no slot [hover] or [0] *)
      else match lookupState "" (_states d) with
           | Some _ => Ok ""
           | None => Throw
           end
  end.

Definition currentSlotIndex (d : LayerData) : Result (string * nat) :=
  do k <- currentStateKey d;
  match lookupState k (_states d) with
  | None => Throw
  | Some hs =>
      match nth_error hs (_hover d) with
      | Some _ => Ok (k, _hover d)
      | None => match nth_error hs 0 with
                | Some _ => Ok (k, 0%nat)
                | None => Throw
                end
      end
  end.

Definition slotAt (k : string) (n : nat) (c : StateCache) : option HoverState :=
  match lookupState k c with
  | Some hs => nth_error hs n
  | None => None
  end.

Definition currentSlot (d : LayerData) : Result HoverState :=
  do kn <- currentSlotIndex d;
  match slotAt (fst kn) (snd kn) (_states d) with
  | Some s => Ok s
  | None => Throw
  end.

(** [get texture()] *)
Definition texture (d : LayerData) : Result (option nat) :=
  do s <- currentSlot d; Ok (hs_texture s).

(** [get bounds()] *)
Definition bounds (d : LayerData) : Result (option Bounds) :=
  do s <- currentSlot d; Ok (hs_bounds s).

Definition updateSlot (k : string) (n : nat) (g : HoverState -> HoverState)
  (c : StateCache) : StateCache :=
  match lookupState k c with
  | Some hs => match nth_error hs n with
               | Some s => replaceState k (replaceNth n (g s) hs) c
               | None => c
               end
  | None => c
  end.

(** *** [_checkRoot] *)

Definition isRoot (d : LayerData) : bool := Nat.eqb (rootLayer d) (id d).

Definition _checkRoot (d : LayerData) : Result unit :=
  if isRoot d then Ok tt else Throw.

(** *** [_updateState] *)

(** The [hoverDepth + 1] fresh slots of a new state; none when the depth is
    negative or NaN, since [0 <= hoverDepth] then fails at once. *)
Definition slotCount (h : JSInt) : nat :=
  match h with
  | Int z => Z.to_nat (z + 1)
  | NaN => 0%nat
  end.

Definition freshSlots (h : JSInt) : list HoverState :=
  repeat (mkHoverState None None) (slotCount h).

(** [hoverState.texture.dispose()] for each slot; a [null] texture throws. *)
Fixpoint disposeSlots (hs : list HoverState) (log : list nat) : Result (list nat) :=
  match hs with
  | [] => Ok log
  | s :: rest => match hs_texture s with
                 | Some t => disposeSlots rest (log ++ [t])
                 | None => Throw
                 end
  end.

(** "cleanup unused textures": drop every cached state that is no longer
    declared, disposing its textures. *)
Fixpoint cleanupStates (states : list string) (c : StateCache) (log : list nat)
  : Result (StateCache * list nat) :=
  match c with
  | [] => Ok ([], log)
  | (k, hs) :: rest =>
      if inb k states then
        do r <- cleanupStates states rest log;
        Ok ((k, hs) :: fst r, snd r)
      else
        do log' <- disposeSlots hs log;
        cleanupStates states rest log'
  end.

(** the loop that creates the slot array of every declared state [k] for
    which [this._states[k] === undefined]: a state that is cached, or whose
    name [Object.prototype] has, gets none. *)
Fixpoint createStates (h : JSInt) (states : list string) (c : StateCache) : StateCache :=
  match states with
  | [] => c
  | k :: rest =>
      match lookupState k c with
      | Some _ => createStates h rest c
      | None =>
          if inherited k then createStates h rest c
          else createStates h rest (insertState k (freshSlots h) c)
      end
  end.

(** the first class of the element that is a declared state, else [""]. *)
Definition stateFromClasses (states classes : list string) : string :=
  match find (fun c => inb c states) classes with
  | Some c => c
  | None => ""
  end.

Definition declaredStates (e : ElementData) : list string :=
  statesAttribute e ++ [""].

(** The pixel-ratio bookkeeping of the source (it only feeds the scale
    handed to the renderer) has no counterpart in the model. *)
Definition _updateState (d : LayerData) (w : World) : Result (LayerData * World) :=
  let e := edata (getElement (element d) (dom w)) in
  let states := declaredStates e in
  let d1 := set_hoverDepth (hoverDepthAttribute e) d in
  let d2 := set_state (stateFromClasses states (classList e)) d1 in
  do r <- cleanupStates states (_states d2) (disposedTextures w);
  let d3 := set_states (createStates (_hoverDepth d2) states (fst r)) d2 in
  Ok (d3, set_disposedTextures (snd r) w).

(** *** [_updateBounds] *)

(** Modelled from the spec: [domUtils.getBounds(element, bounds)] lives in
    [dom-utils], which is not among the sources.  Per the Geometry Probe
    contract it reports [{left, top, width, height}] of the element; given a
    bounds object it fills that object in. *)
Definition getBounds (e : ElementData) : Bounds := el_bounds e.

Definition _updateBounds (d : LayerData) (w : World) : Result LayerData :=
  do kn <- currentSlotIndex d;
  let b := getBounds (edata (getElement (element d) (dom w))) in
  Ok (set_states
        (updateSlot (fst kn) (snd kn)
           (fun s => mkHoverState (hs_texture s) (Some b)) (_states d)) d).

(** *** [_updateTargetLayout] *)

Definition set_position (v : Vec3) (p : Pose) : Pose := mkPose v (scale p).
Definition set_scale (v : Vec3) (p : Pose) : Pose := mkPose (position p) v.

(** Reading a field of a bounds object that is still [{}] gives [undefined],
    and the arithmetic on it NaN: outside the model. *)
Definition definedBounds (r : Result (option Bounds)) : Result Bounds :=
  do ob <- r;
  match ob with
  | Some b => Ok b
  | None => Unmodelled
  end.

(** [this.options.layerSeparation || DEFAULT_LAYER_SEPARATION] *)
Definition layerSeparationOf (d : LayerData) : Q :=
  match layerSeparation d with
  | Some s => if truthyQ s then s else DEFAULT_LAYER_SEPARATION
  | None => DEFAULT_LAYER_SEPARATION
  end.

(** [parent] is the data of [this.parent] when that is a [WebLayer3D]. *)
Definition _updateTargetLayout (parent : option LayerData) (d : LayerData)
  : Result LayerData :=
  let d1 := set_target (mkPose (_lastTargetPosition d) (vec3 1 1 1)) d in
  let d2 := set_contentTarget (mkPose (vec3 0 0 0) (_lastContentTargetScale d1)) d1 in
  if _needsRemoval d2 then Ok (set_contentTargetOpacity 0 d2)
  else
    do boundingRect <- definedBounds (bounds d2);
    if Qeq_bool (b_width boundingRect) 0 || Qeq_bool (b_height boundingRect) 0
    then Ok (set_contentTargetOpacity 0 d2)
    else
      let d3 := set_contentTargetOpacity 1 d2 in
      let pixelSize := DEFAULT_PIXEL_DIMENSIONS in
      do d4 <-
        (if useDOMLayout d3 then
           do parentBoundingRect <-
             match parent with
             | Some p => definedBounds (bounds p)
             | None => Ok ZERO_BOUNDS
             end;
           let left := (b_left boundingRect - b_left parentBoundingRect)%Q in
           let top := (b_top boundingRect - b_top parentBoundingRect)%Q in
           let parentOriginX := (pixelSize * (- b_width parentBoundingRect / 2))%Q in
           let parentOriginY := (pixelSize * (b_height parentBoundingRect / 2))%Q in
           let layerSep := layerSeparationOf d3 in
           let myLeft := (pixelSize * (left + b_width boundingRect / 2))%Q in
           let myTop := (pixelSize * (top + b_height boundingRect / 2))%Q in
           Ok (set_target
                 (set_position
                    (vec3 (parentOriginX + myLeft)%Q
                          (parentOriginY - myTop)%Q
                          (layerSep * inject_Z (_level d3))%Q)
                    (target d3)) d3)
         else Ok d3);
      let d5 :=
        set_contentTarget
          (set_scale
             (vec3 (Qmax (pixelSize * b_width boundingRect) (1 # 100000))
                   (Qmax (pixelSize * b_height boundingRect) (1 # 100000))
                   1)
             (contentTarget d4)) d4 in
      let d6 := set_lastTargetPosition (position (target d5)) d5 in
      Ok (set_lastContentTargetScale (scale (contentTarget d6)) d6).

(** *** [_updateMesh] *)

Definition set_material_map (v : option nat) (m : Mesh) : Mesh :=
  mkMesh (opacity m) (visible m) (mesh_parent m) v (renderOrder m).
Definition set_mesh_parent (v : bool) (m : Mesh) : Mesh :=
  mkMesh (opacity m) (visible m) v (material_map m) (renderOrder m).
Definition set_renderOrder (v : Z) (m : Mesh) : Mesh :=
  mkMesh (opacity m) (visible m) (mesh_parent m) (material_map m) v.
Definition set_opacity (v : Q) (m : Mesh) : Mesh :=
  mkMesh v (visible m) (mesh_parent m) (material_map m) (renderOrder m).
Definition set_visible (v : bool) (m : Mesh) : Mesh :=
  mkMesh (opacity m) v (mesh_parent m) (material_map m) (renderOrder m).

Definition _updateMesh (parent : option LayerData) (d : LayerData) : Result LayerData :=
  do t <- texture d;
  match t with
  | None => Ok d
  | Some tex =>
      let d1 := set_mesh (set_material_map (Some tex) (mesh d)) d in
      do d2 <-
        (if mesh_parent (mesh d1) then Ok d1
         else
           let d1' := set_mesh (set_mesh_parent true (mesh d1)) d1 in
           do d1'' <- _updateTargetLayout parent d1';
           Ok (set_content (contentTarget d1'') d1''));
      Ok (set_mesh (set_renderOrder (_level d2) (mesh d2)) d2)
  end.

(** *** [_markForRemoval] *)

Fixpoint _markForRemoval (l : Layer) : Layer :=
  let 'Node d cs := l in
  Node (set_needsRemoval true d) (List.map _markForRemoval cs).

(** *** [_updateChildLayers] *)

(** Modelled from the spec: [domUtils.traverseDOM(node, each, bind, level)]
    lives in [dom-utils], which is not among the sources.  Per the DOM
    Walker contract it visits the element children of [node] depth first,
    calls [each(child, level)] with the level of that depth, and descends
    into a child only when the call returned true. *)
Fixpoint traverseDOM {S : Type} (each : ElementData -> Z -> S -> S * bool)
  (node : Element) (level : Z) (s : S) : S :=
  let 'ENode _ cs := node in
  (fix go (cs : list Element) (s : S) : S :=
     match cs with
     | [] => s
     | c :: rest =>
         let '(s', descend) := each (edata c) (level + 1)%Z s in
         go rest (if descend then traverseDOM each c (level + 1)%Z s' else s')
     end) cs s.

(** [new WebLayer3D(el, this.options, this.rootLayer, level)] for a layer
    that is not a root: the field initialisers of the class.  ([options]
    carries no [onLayerCreate] callback in the model.) *)
Definition newLayerData (i eid root : nat) (level : Z) (sep : option Q) : LayerData :=
  {| id := i; element := eid; rootLayer := root; _level := level;
     layerSeparation := sep; childLayers := [];
     needsRasterize := true; useDOMLayout := negb (Nat.eqb root i);
     _needsRemoval := false; _hover := 0%nat; _hoverDepth := Int 0;
     _states := []; _state := "";
     object3d := mkPose (vec3 0 0 0) (vec3 1 1 1);
     content := mkPose (vec3 0 0 0) (vec3 1 1 1);
     target := mkPose (vec3 0 0 0) (vec3 1 1 1);
     contentTarget := mkPose (vec3 0 0 0) (vec3 1 1 1);
     contentTargetOpacity := 0;
     _lastTargetPosition := vec3 0 0 0;
     _lastContentTargetScale := vec3 (1 # 10) (1 # 10) (1 # 10);
     mesh := mkMesh 0 false false None 0;
     cursor_visible := false;
     _mutationObserver := if Nat.eqb root i then Some true else None;
     _resizeObserver := true |}.

(** [element.setAttribute('data-layer', id.toString())] *)
Definition setLayerAttribute (eid i : nat) (dom : list Element) : list Element :=
  List.map
    (mapElements
       (fun e =>
          if Nat.eqb (el_id e) eid
          then mkElementData (el_id e) (nodeName e) (Some (Some i)) (statesAttribute e)
                 (hoverDepthAttribute e) (classAttribute e) (el_bounds e)
          else e))
    dom.

(** [this.getObjectById(parseInt(id + '', 10))]: an absent or non-numeric
    attribute parses to NaN, which no object has as its id.  The lookup is
    among the layers below [this]; see the conventions for the objects of
    the graph that are not layers. *)
Definition lookupChild (attr : option (option nat)) (this : Layer) : option Layer :=
  match attr with
  | Some (Some i) => getObjectById i this
  | _ => None
  end.

Definition _tryConvertToWebLayer3D (el : ElementData) (level : Z) (s : Layer * World)
  : (Layer * World) * bool :=
  let '(this, w) := s in
  let 'Node d cs := this in
  match layerAttribute el, String.eqb (nodeName el) "video" with
  | None, false => (s, true)
  | attr, _ =>
      match lookupChild attr this with
      | Some child =>
          ((Node (set_childLayers (childLayers d ++ [id (data child)]) d) cs, w), false)
      | None =>
          let i := nextId w in
          let child :=
            Node (newLayerData i (el_id el) (rootLayer d) level (layerSeparation d)) [] in
          let w' := set_nextId (i + 6) (set_dom (setLayerAttribute (el_id el) i (dom w)) w) in
          ((Node (set_childLayers (childLayers d ++ [i]) d) (cs ++ [child]), w'), false)
      end
  end.

(** [for (const child of oldChildLayers) if (childLayers.indexOf(child) === -1)
    child._markForRemoval()]; a reference to a layer that has left the
    tree marks nothing the tree can see. *)
Definition markMissing (old : list nat) (this : Layer) : Layer :=
  fold_left
    (fun acc c =>
       if existsb (Nat.eqb c) (childLayers (data acc)) then acc
       else applyById c _markForRemoval acc)
    old this.

Definition _updateChildLayers (this : Layer) (w : World) : Layer * World :=
  let 'Node d cs := this in
  let oldChildLayers := childLayers d in
  let e := getElement (element d) (dom w) in
  let '(this', w') :=
    traverseDOM _tryConvertToWebLayer3D e (_level d) (Node (set_childLayers [] d) cs, w) in
  (markMissing oldChildLayers this', w').

(** *** [refresh] *)

(** [if (queue.indexOf(this) === -1) queue.push(this)] *)
Definition enqueue (i : nat) (w : World) : World :=
  if existsb (Nat.eqb i) (_rasterizationQueue w) then w
  else set_rasterizationQueue (_rasterizationQueue w ++ [i]) w.

(** [for (const child of this.children) child.refresh(forceRasterize)] *)
Fixpoint forEachChild (step : Layer -> World -> Result (Layer * World))
  (cs : list Layer) (w : World) : Result (list Layer * World) :=
  match cs with
  | [] => Ok ([], w)
  | c :: rest =>
      do r <- step c w;
      do rs <- forEachChild step rest (snd r);
      Ok (fst r :: fst rs, snd rs)
  end.

(** [refresh(forceRasterize)].  The recursion follows the layer tree as it
    grows (a new child is refreshed in the same pass), so it is bounded by
    [fuel]; [parent] is the data of the parent layer, if any. *)
Fixpoint refresh (fuel : nat) (forceRasterize : bool) (parent : option LayerData)
  (this : Layer) (w : World) : Result (Layer * World) :=
  match fuel with
  | O => Unmodelled
  | S fuel' =>
      let 'Node d cs := this in
      do r1 <- _updateState d w;
      do d2 <- _updateBounds (fst r1) (snd r1);
      let r3 :=
        if needsRasterize d2 || forceRasterize then
          let r := _updateChildLayers (Node (set_needsRasterize false d2) cs) (snd r1) in
          (fst r, enqueue (id d2) (snd r))
        else (Node d2 cs, snd r1) in
      let d3 := data (fst r3) in
      do r4 <- forEachChild (refresh fuel' forceRasterize (Some d3))
                 (children (fst r3)) (snd r3);
      do d5 <- _updateTargetLayout parent d3;
      do d6 <- _updateMesh parent d5;
      Ok (Node d6 (fst r4), snd r4)
  end.

(** *** [dispose] *)

Definition disconnect (d : LayerData) : LayerData :=
  set_resizeObserver false
    (set_mutationObserver
       (match _mutationObserver d with Some _ => Some false | None => None end) d).

(** [dispose()] disconnects the observers of this layer and then of every
    layer in [childLayers], recursively.  The entries of [childLayers] are
    layers that [this.getObjectById] found, so they sit below this layer in
    the tree: the walk goes down the tree once and carries the ids that
    still wait for their [dispose()].  Cached textures are not touched. *)
Fixpoint disposeBelow (pending : list nat) (l : Layer) : Layer :=
  let 'Node d cs := l in
  if existsb (Nat.eqb (id d)) pending
  then Node (disconnect d) (List.map (disposeBelow (pending ++ childLayers d)) cs)
  else Node d (List.map (disposeBelow pending) cs).

Definition dispose (this : Layer) : Layer :=
  let 'Node d cs := this in
  Node (disconnect d) (List.map (disposeBelow (childLayers d)) cs).

(** *** The transition strategy *)

Definition transitionLayout (d : LayerData) (alpha : Q) : LayerData :=
  let o := object3d d in
  let c := content d in
  let d1 :=
    set_object3d (mkPose (Vec3_lerp (position o) (position (target d)) alpha)
                         (Vec3_lerp (scale o) (scale (target d)) alpha)) d in
  set_content (mkPose (Vec3_lerp (position c) (position (contentTarget d)) alpha)
                      (Vec3_lerp (scale c) (scale (contentTarget d)) alpha)) d1.

(** [!material.opacity || material.opacity < 0.005] *)
Definition isHidden (o : Q) : bool := negb (truthyQ o) || Qlt_bool o (5 # 1000).

(** [transitionVisibility(layer, alpha)]; the flag tells that the removal
    branch ran: the layer left its parent (when it has one) and was
    disposed. *)
Definition transitionVisibility (l : Layer) (alpha : Q) : Layer * bool :=
  let 'Node d cs := l in
  let targetOpacity := contentTargetOpacity d in
  let o := Qmin (lerp (opacity (mesh d)) targetOpacity alpha) 1 in
  let hidden := isHidden o in
  let d1 := set_mesh (set_visible (negb hidden) (set_opacity o (mesh d))) d in
  if _needsRemoval d1 && hidden then (dispose (Node d1 cs), true)
  else (Node d1 cs, false).

Definition TRANSITION_DEFAULT (l : Layer) (alpha : Q) : Layer * bool :=
  let 'Node d cs := l in
  transitionVisibility (Node (transitionLayout d alpha) cs) alpha.

(** [for (const child of this.children) child.traverseLayers(each)] where
    [each] may splice the child out of [this.children]: the array iterator
    then steps over the sibling that moved into the freed index. *)
Fixpoint forEachChildSplicing (step : Layer -> Result (Layer * bool))
  (cs : list Layer) : Result (list Layer) :=
  match cs with
  | [] => Ok []
  | c :: rest =>
      do r <- step c;
      if snd r then
        match rest with
        | [] => Ok []
        | skipped :: rest' =>
            do rs <- forEachChildSplicing step rest';
            Ok (skipped :: rs)
        end
      else
        do rs <- forEachChildSplicing step rest;
        Ok (fst r :: rs)
  end.

(** [traverseLayers(each, alpha)]: this layer, then its children. *)
Fixpoint traverseLayers (fuel : nat) (each : Layer -> Q -> Layer * bool) (alpha : Q)
  (this : Layer) : Result (Layer * bool) :=
  match fuel with
  | O => Unmodelled
  | S fuel' =>
      let r := each this alpha in
      do cs <- forEachChildSplicing (traverseLayers fuel' each alpha) (children (fst r));
      Ok (Node (data (fst r)) cs, snd r)
  end.

(** *** [_updateInteractions] *)

Definition _clearHover (d : LayerData) : LayerData :=
  set_cursor_visible false (set_hover 0%nat d).

(** the ids on the path from [l] down to the layer [i], innermost first:
    [while (layer instanceof WebLayer3D) { add(layer); layer = layer.parent }] *)
Fixpoint ancestorsOf (i : nat) (l : Layer) : option (list nat) :=
  let 'Node d cs := l in
  if Nat.eqb (id d) i then Some [id d]
  else (fix go (cs : list Layer) : option (list nat) :=
          match cs with
          | [] => None
          | c :: rest => match ancestorsOf i c with
                         | Some p => Some (p ++ [id d])
                         | None => go rest
                         end
          end) cs.

(** One ray.  [hits] lists, nearest first, the layers whose mesh the
    raycaster intersected; the first one with a nonzero target opacity shows
    its cursor and joins [_hoverLayers] with its ancestors. *)
Fixpoint castRay (hits : list nat) (s : Layer * list nat) : Layer * list nat :=
  match hits with
  | [] => s
  | i :: rest =>
      match getObjectById i (fst s) with
      | Some (Node d _) =>
          if truthyQ (contentTargetOpacity d) then
            (applyById i (fun l => Node (set_cursor_visible true (data l)) (children l))
               (fst s),
             snd s ++ match ancestorsOf i (fst s) with Some p => p | None => [] end)
          else castRay rest s
      | None => castRay rest s
      end
  end.

Fixpoint _setHover (hoverLayers : list nat) (parentHover : option nat) (l : Layer) : Layer :=
  let 'Node d cs := l in
  let h :=
    if existsb (Nat.eqb (id d)) hoverLayers then 1%nat
    else match parentHover with
         | Some ph => if Nat.ltb 0 ph then S ph else _hover d
         | None => _hover d
         end in
  Node (set_hover h d) (List.map (_setHover hoverLayers (Some h)) cs).

Definition set_classAttribute (v : option (list string)) (e : ElementData) : ElementData :=
  mkElementData (el_id e) (nodeName e) (layerAttribute e) (statesAttribute e)
    (hoverDepthAttribute e) v (el_bounds e).

Definition addClass (c : string) (e : ElementData) : ElementData :=
  if inb c (classList e) then e else set_classAttribute (Some (classList e ++ [c])) e.

Definition removeClass (c : string) (e : ElementData) : ElementData :=
  if inb c (classList e)
  then set_classAttribute
         (Some (filter (fun x => negb (String.eqb x c)) (classList e))) e
  else e.

(** [hoverElements] are the elements of the layers in [_hoverLayers]. *)
Definition _setHoverClass (hoverElements : list nat) (e : Element) : ElementData :=
  if existsb (contains e) hoverElements then addClass "hover" (edata e)
  else removeClass "hover" (edata e).

Fixpoint setHoverClassAll (hoverElements : list nat) (e : Element) : Element :=
  let 'ENode _ cs := e in
  ENode (_setHoverClass hoverElements e) (List.map (setHoverClassAll hoverElements) cs).

(** [traverseDOM(rootLayer.element, _setHoverClass)]: the callback always
    returns true, so every element below the root element is visited. *)
Fixpoint setHoverClassBelow (rootElement : nat) (hoverElements : list nat) (e : Element)
  : Element :=
  let 'ENode d cs := e in
  if Nat.eqb (el_id d) rootElement
  then ENode d (List.map (setHoverClassAll hoverElements) cs)
  else ENode d (List.map (setHoverClassBelow rootElement hoverElements) cs).

Definition elementOf (root : Layer) (i : nat) : list nat :=
  match getObjectById i root with
  | Some l => [element (data l)]
  | None => []
  end.

(** [rays] gives, for each interaction ray in registration order, what the
    raycaster and the mesh map return for it. *)
Definition _updateInteractions (rays : list (list nat)) (root : Layer) (w : World)
  : Layer * World :=
  let cleared := mapLayers _clearHover root in
  let '(hit, hoverLayers) := fold_left (fun s hits => castRay hits s) rays (cleared, []) in
  let root' := _setHover hoverLayers None hit in
  let hoverElements := flat_map (elementOf root') hoverLayers in
  (root',
   set_dom (List.map (setHoverClassBelow (element (data root')) hoverElements) (dom w)) w).

(** *** [update] *)

(** [update(alpha, transition)].  The guard flag that matters is the one of
    the root; [_scheduleRasterizations] only registers asynchronous work,
    which [_rasterize] below stands for. *)
Definition update (fuel : nat) (alpha : Q) (transition : Layer -> Q -> Layer * bool)
  (rays : list (list nat)) (this : Layer) (w : World) : Result (Layer * World) :=
  let alpha := Qmin alpha 1 in
  let w0 := set_isUpdating true w in
  do _ <- _checkRoot (data this);
  let '(l1, w1) := _updateInteractions rays this w0 in
  do r2 <- refresh fuel false None l1 w1;
  do r3 <- traverseLayers fuel transition alpha (fst r2);
  Ok (fst r3, set_isUpdating false (snd r2)).

(** *** [_processMutations] *)

(** A mutation record, with the comparisons the handler makes on parts of
    the DOM that the model does not carry already decided:
    [unchanged] is [getAttribute(attributeName) === oldValue], respectively
    [data === oldValue]. *)
Inductive MutationRecord : Type :=
| ClassAttributeRecord (target : nat) (oldValue : option (list string))
| AttributeRecord (target : nat) (unchanged : bool)
| CharacterDataRecord (parentElement : option nat) (unchanged : bool)
| ChildListRecord (target : nat).

Fixpoint list_eqb {A : Type} (eqb : A -> A -> bool) (a b : list A) : bool :=
  match a, b with
  | [], [] => true
  | x :: a', y :: b' => eqb x y && list_eqb eqb a' b'
  | _, _ => false
  end.

Definition classValue_eqb (a b : option (list string)) : bool :=
  match a, b with
  | None, None => true
  | Some x, Some y => list_eqb String.eqb x y
  | _, _ => false
  end.

Definition arraySubtract (a b : list string) : list string :=
  filter (fun item => negb (inb item b)) a.

(** [getLayerForElement(element)] called on the layer [this]. *)
Definition getLayerForElement (eid : nat) (dom : list Element) (this : Layer)
  : option Layer :=
  match closestLayerElement eid dom with
  | None => None
  | Some e => match layerAttribute e with
              | Some (Some i) => getObjectById i this
              | _ => None
              end
  end.

(** [c === 'hover' || layer._states[c]] *)
Definition ignoredClass (states : StateCache) (c : string) : bool :=
  String.eqb c "hover" ||
  match lookupState c states with Some _ => true | None => inherited c end.

(** the two loops over removed and added classes. *)
Definition classChangeNeedsRasterize (states : StateCache)
  (oldValue : option (list string)) (e : ElementData) : bool :=
  let oldClasses := match oldValue with Some (c :: l) => c :: l | _ => [] end in
  let currentClasses := classNameSplit e in
  let addedClasses := arraySubtract currentClasses oldClasses in
  let removedClasses := arraySubtract oldClasses currentClasses in
  existsb (fun c => negb (ignoredClass states c)) removedClasses ||
  existsb (fun c => negb (ignoredClass states c)) addedClasses.

(** [layer.needsRasterize = true; layer.traverseLayers(setLayerNeedsRasterize)] *)
Definition setLayerNeedsRasterize (target : Element) (d : LayerData) : LayerData :=
  if contains target (element d) then set_needsRasterize true d else d.

Definition dirtySubtree (target : Element) (layer : Layer) : Layer :=
  let 'Node d cs := layer in
  mapLayers (setLayerNeedsRasterize target) (Node (set_needsRasterize true d) cs).

(** the element the record is about and whether the record survives the
    early [continue]s that do not depend on the layer. *)
Definition recordTarget (dom : list Element) (r : MutationRecord) : option nat :=
  match r with
  | ClassAttributeRecord t old =>
      if classValue_eqb (classAttribute (edata (getElement t dom))) old
      then None else Some t
  | AttributeRecord t unchanged => if unchanged then None else Some t
  | CharacterDataRecord p unchanged => if unchanged then None else p
  | ChildListRecord t => Some t
  end.

Definition processRecord (dom : list Element) (this : Layer) (r : MutationRecord) : Layer :=
  match recordTarget dom r with
  | None => this
  | Some t =>
      match getLayerForElement t dom this with
      | None => this
      | Some layer =>
          let go :=
            match r with
            | ClassAttributeRecord _ old =>
                classChangeNeedsRasterize (_states (data layer)) old
                  (edata (getElement t dom))
            | _ => true
            end in
          if go then applyById (id (data layer)) (dirtySubtree (getElement t dom)) this
          else this
      end
  end.

Definition _processMutations (w : World) (records : list MutationRecord) (this : Layer)
  : Layer :=
  if _isUpdating w then this
  else fold_left (processRecord (dom w)) records this.

(** *** [_rasterize] *)

Record RenderFunction : Type := mkRender {
  rf_state : string;
  rf_hover : nat;
  rf_texture : nat;
  rf_bounds : Bounds
}.

Record RasterizeLoop : Type := mkLoop {
  rl_states : StateCache;
  rl_nextTexture : nat;
  rl_renderFunctions : list RenderFunction;
  rl_threw : bool;
  rl_ran : bool
}.

(** One pass of the inner loop body.  [layout k hover] is what the geometry
    probe reports while the class of state [k] and the hover classes of
    depth [hover] are applied. *)
Definition rasterizeSlot (layout : string -> nat -> Bounds) (k : string)
  (acc : RasterizeLoop) (hover : nat) : RasterizeLoop :=
  if rl_threw acc then acc
  else
    match slotAt k hover (rl_states acc) with
    | None => mkLoop (rl_states acc) (rl_nextTexture acc) (rl_renderFunctions acc)
                true (rl_ran acc)
    | Some state =>
        let '(tex, next) :=
          match hs_texture state with
          | Some t => (t, rl_nextTexture acc)
          | None => (rl_nextTexture acc, S (rl_nextTexture acc))
          end in
        let b := layout k hover in
        if negb (truthyQ (b_width b)) || negb (truthyQ (b_height b))
        then mkLoop (rl_states acc) next (rl_renderFunctions acc) false true
        else mkLoop
               (updateSlot k hover (fun s => mkHoverState (hs_texture s) (Some b))
                  (rl_states acc))
               next (rl_renderFunctions acc ++ [mkRender k hover tex b]) false true
    end.

(** [for (const stateKey in states) for (hover = 0; hover <= hoverDepth; hover++)] *)
Definition rasterizeStates (layout : string -> nat -> Bounds) (h : JSInt)
  (acc : RasterizeLoop) : RasterizeLoop :=
  fold_left
    (fun acc k => fold_left (rasterizeSlot layout k) (seq 0 (slotCount h)) acc)
    (List.map fst (rl_states acc)) acc.

(** [for (const render of renderFunctions) render()]: a render that throws
    ends the loop; [backend] tells which renders succeed. *)
Fixpoint runRenders (backend : RenderFunction -> bool) (rs : list RenderFunction)
  (c : StateCache) : StateCache * bool :=
  match rs with
  | [] => (c, false)
  | r :: rest =>
      if backend r then
        runRenders backend rest
          (updateSlot (rf_state r) (rf_hover r)
             (fun s => mkHoverState (Some (rf_texture r)) (hs_bounds s)) c)
      else (c, true)
  end.

(** [_setHoverClasses(0)] takes the [hover] class off the element and all
    its ancestors; [element.className = classValue] then restores the
    element itself. *)
Fixpoint removeHoverAbove (eid : nat) (e : Element) : Element :=
  let 'ENode d cs := e in
  if Nat.eqb (el_id d) eid then e
  else if contains e eid
       then ENode (removeClass "hover" d) (List.map (removeHoverAbove eid) cs)
       else e.

(** [_rasterize()] of the layer [d], start to finish: the synchronous loops,
    the readiness barrier ([ready] tells whether it resolves) and the
    renders.  The last component tells whether the returned promise
    rejects.  The part that reaches beyond the layer,
    [_disableTransforms(true)] feeding pending records to
    [_processMutations], is in [_rasterize] below. *)
Definition rasterizeLayer (layout : string -> nat -> Bounds) (ready : bool)
  (backend : RenderFunction -> bool) (d : LayerData) (w : World)
  : LayerData * World * bool :=
  let e := edata (getElement (element d) (dom w)) in
  if String.eqb (nodeName e) "video" then
    match slotAt "" 0 (_states d) with
    | None => (d, w, true)
    | Some state =>
        let '(tex, next) :=
          match hs_texture state with
          | Some t => (t, nextTexture w)
          | None => (nextTexture w, S (nextTexture w))
          end in
        (set_states
           (updateSlot "" 0 (fun _ => mkHoverState (Some tex) (Some (getBounds e)))
              (_states d)) d,
         set_nextTexture next w, false)
    end
  else
    let loop :=
      rasterizeStates layout (_hoverDepth d)
        (mkLoop (_states d) (nextTexture w) [] false false) in
    let w1 := set_nextTexture (rl_nextTexture loop) w in
    let w2 :=
      if rl_ran loop
      then set_dom (List.map (removeHoverAbove (element d)) (dom w1)) w1
      else w1 in
    if rl_threw loop then (set_states (rl_states loop) d, w2, true)
    else if ready then
      let '(c, threw) := runRenders backend (rl_renderFunctions loop) (rl_states loop) in
      (set_states c d, w2, threw)
    else (set_states (rl_states loop) d, w2, true).

(** [_rasterize()] of the layer with id [i] in the tree of [root];
    [pending] is what [takeRecords()] hands to [_processMutations]. *)
Definition _rasterize (pending : list MutationRecord) (layout : string -> nat -> Bounds)
  (ready : bool) (backend : RenderFunction -> bool) (i : nat) (root : Layer) (w : World)
  : Layer * World * bool :=
  match getObjectById i root with
  | None => (root, w, false)
  | Some (Node d _) =>
      let video := String.eqb (nodeName (edata (getElement (element d) (dom w)))) "video" in
      let root1 := if video then root else _processMutations w pending root in
      match getObjectById i root1 with
      | None => (root1, w, false)
      | Some (Node d1 _) =>
          let r := rasterizeLayer layout ready backend d1 w in
          (applyById i
             (fun l =>
                Node (fst (fst (rasterizeLayer layout ready backend (data l) w)))
                     (children l))
             root1,
           snd (fst r), snd r)
      end
  end.

(** ** Vocabulary of the statements *)

(** What the layout of a layer is computed from, besides the parent. *)
Definition layoutInputs (d : LayerData) :=
  (_states d, _state d, _hover d, _needsRemoval d,
   (useDOMLayout d, _level d, layerSeparation d)).

(** [d'] is [d] up to [childLayers], [needsRasterize] and [_needsRemoval]. *)
Definition sameButFlags (d d' : LayerData) : Prop :=
  d' = set_childLayers (childLayers d')
         (set_needsRemoval (_needsRemoval d')
            (set_needsRasterize (needsRasterize d') d)).

#[local] Unset Elimination Schemes.

(** every layer of the tree satisfies [P]. *)
Inductive allLayers (P : LayerData -> Prop) : Layer -> Prop :=
| allLayers_node d cs : P d -> Forall (allLayers P) cs -> allLayers P (Node d cs).

(** The position [_updateTargetLayout] gives a layer with DOM layout:
    the centre of the layer's box relative to the centre of the parent's
    box, y pointing up, in world units. *)
Definition domLayoutPosition (pb b : Bounds) (sep : Q) (level : Z) : Vec3 :=
  vec3 (DEFAULT_PIXEL_DIMENSIONS * (- b_width pb / 2) +
        DEFAULT_PIXEL_DIMENSIONS * (b_left b - b_left pb + b_width b / 2))%Q
       (DEFAULT_PIXEL_DIMENSIONS * (b_height pb / 2) -
        DEFAULT_PIXEL_DIMENSIONS * (b_top b - b_top pb + b_height b / 2))%Q
       (sep * inject_Z level)%Q.

(** two caches with the same keys and as many slots under each key. *)
Definition sameShape (c c' : StateCache) : Prop :=
  forall k, match lookupState k c, lookupState k c' with
            | Some hs, Some hs' => List.length hs = List.length hs'
            | None, None => True
            | _, _ => False
            end.

(** [w'] is [w] up to the document and the id counter. *)
Definition sameButDom (w w' : World) : Prop :=
  _rasterizationQueue w' = _rasterizationQueue w /\ _isUpdating w' = _isUpdating w /\
  nextTexture w' = nextTexture w /\ disposedTextures w' = disposedTextures w.

(** every cached state has the slots [0 .. hoverDepth] that [_rasterize]
    walks. *)
Definition cacheCovers (h : JSInt) (c : StateCache) : Prop :=
  forall k hs, lookupState k c = Some hs -> (slotCount h <= List.length hs)%nat.

(** a box of zero width or zero height. *)
Definition degenerate (b : Bounds) : Prop :=
  (b_width b == 0)%Q \/ (b_height b == 0)%Q.

(** the loop neither writes a slot nor queues a render for a configuration
    the probe reports as degenerate. *)
Definition sparesSlot (c0 : StateCache) (k0 : string) (h0 : nat) (acc : RasterizeLoop)
  : Prop :=
  slotAt k0 h0 (rl_states acc) = slotAt k0 h0 c0 /\
  Forall (fun r => String.eqb k0 (rf_state r) && Nat.eqb h0 (rf_hover r) = false)
    (rl_renderFunctions acc).

(** every cached state has at least its slot 0. *)
Definition slotsNonEmpty (c : StateCache) : Prop :=
  forall k hs, lookupState k c = Some hs -> hs <> [].


(** two trees of the same shape whose layers are related pairwise. *)
Inductive related (R : LayerData -> LayerData -> Prop) : Layer -> Layer -> Prop :=
| related_node d d' cs cs' :
    R d d' -> Forall2 (related R) cs cs' -> related R (Node d cs) (Node d' cs').

(** [d'] is [d] except that [needsRasterize] may have been raised. *)
Definition dirtied (d d' : LayerData) : Prop :=
  d' = set_needsRasterize (needsRasterize d') d /\
  (needsRasterize d = true -> needsRasterize d' = true).

(** [record.oldValue ? record.oldValue.split(/\s+/) : []] *)
Definition oldClassesOf (oldValue : option (list string)) : list string :=
  match oldValue with Some (c :: l) => c :: l | _ => [] end.

(** whether the handler, having found the layer, goes on to dirty it. *)
Definition recordDirties (states : StateCache) (e : ElementData) (r : MutationRecord)
  : bool :=
  match r with
  | ClassAttributeRecord _ old => classChangeNeedsRasterize states old e
  | _ => true
  end.

(** the layers whose element lies inside [target] need a rasterization. *)
Definition dirtyInside (target : Element) (d : LayerData) : Prop :=
  contains target (element d) = true -> needsRasterize d = true.

(** "Deferred", read against the code: what is delivered while the guard is
    set is caught up with by the next delivery after the pass, so that the
    tree ends as if the records had been delivered outside the pass. *)
Definition deferredProcessing : Prop :=
  forall (w : World) (records : list MutationRecord) (root : Layer),
    _isUpdating w = true ->
    _processMutations (set_isUpdating false w) []
      (_processMutations w records root) =
    _processMutations (set_isUpdating false w) records root.

Definition clean (d : LayerData) : Prop := needsRasterize d = false.

(** What a [refresh(false)] leaves of a clean layer on the page [dom]: the
    layer stays clean, its state is read off the class list, and every
    declared state that was cached keeps its textures. *)
Definition resynced (dom : list Element) (d d' : LayerData) : Prop :=
  let e := edata (getElement (element d) dom) in
  id d' = id d /\ element d' = element d /\ _hover d' = _hover d /\
  needsRasterize d' = false /\
  _state d' = stateFromClasses (declaredStates e) (classList e) /\
  (forall k hs,
     inb k (declaredStates e) = true -> lookupState k (_states d) = Some hs ->
     exists hs', lookupState k (_states d') = Some hs' /\
                 List.map hs_texture hs' = List.map hs_texture hs).

(** [w'] is [w] up to the log of disposed textures. *)
Definition sameButDisposed (w w' : World) : Prop :=
  dom w' = dom w /\ _rasterizationQueue w' = _rasterizationQueue w /\
  _isUpdating w' = _isUpdating w /\ nextId w' = nextId w /\
  nextTexture w' = nextTexture w.

(** [d'] is the layer [d] later on: the same object, and marked for
    removal if [d] was. *)
Definition kept (d d' : LayerData) : Prop :=
  id d' = id d /\ (_needsRemoval d = true -> _needsRemoval d' = true).

(** [l'] is [l] with every layer kept and possibly new layers at the end of
    child lists: no layer has left the tree. *)
Inductive grows : Layer -> Layer -> Prop :=
| grows_node d d' cs cs' news :
    kept d d' -> Forall2 grows cs cs' -> grows (Node d cs) (Node d' (cs' ++ news)).

(** the opacity that [transitionVisibility] renders for [d]. *)
Definition renderedOpacity (alpha : Q) (d : LayerData) : Q :=
  Qmin (lerp (opacity (mesh d)) (contentTargetOpacity d) alpha) 1.

(** marked for removal and faded below the hidden threshold. *)
Definition removable (alpha : Q) (d : LayerData) : Prop :=
  _needsRemoval d = true /\ (renderedOpacity alpha d < 5 # 1000)%Q.


#[local] Set Elimination Schemes.

(** [d'] is [d] up to the two observers. *)
Definition sameButObservers (d d' : LayerData) : Prop :=
  d' = set_resizeObserver (_resizeObserver d')
         (set_mutationObserver (_mutationObserver d') d).

#[local] Unset Elimination Schemes.

(** [l'] is [l] after a transition step with factor [alpha], as the loop
    over the children goes: a child that is [removable] when the loop comes
    to it leaves the list, and the sibling that follows it is stepped over
    (it stays as it is, but for its observers); every other child is
    stepped in its turn. *)
Inductive detaches (alpha : Q) : Layer -> Layer -> Prop :=
| detaches_node d d' cs cs' :
    kept d d' -> splices alpha cs cs' -> detaches alpha (Node d cs) (Node d' cs')
with splices (alpha : Q) : list Layer -> list Layer -> Prop :=
| splices_nil : splices alpha [] []
| splices_stay c c' cs cs' :
    ~ removable alpha (data c) -> detaches alpha c c' -> splices alpha cs cs' ->
    splices alpha (c :: cs) (c' :: cs')
| splices_last c : removable alpha (data c) -> splices alpha [c] []
| splices_skip c s s' cs cs' :
    removable alpha (data c) -> related sameButObservers s s' -> splices alpha cs cs' ->
    splices alpha (c :: s :: cs) (s' :: cs').

#[local] Set Elimination Schemes.

(** the layer attribute nearest to the element [target] names the layer
    [lid]. *)
Definition owns (dom : list Element) (target lid : nat) : Prop :=
  exists e, closestLayerElement target dom = Some e /\
            layerAttribute e = Some (Some lid).

(** One switch of the class list as the layer tree sees it: the observer
    delivers the class record of the element [target] on the page of [w],
    where the class list already has its new value, and the tree is
    refreshed. *)
Definition switchClass (fuel : nat) (target : nat) (oldValue : option (list string))
  (root : Layer) (w : World) : Result (Layer * World) :=
  refresh fuel false None
    (_processMutations w [ClassAttributeRecord target oldValue] root) w.

(** the texture the getter picks from the textures of a slot array. *)
Definition textureOf (textures : list (option nat)) (hover : nat) : Result (option nat) :=
  match nth_error textures hover with
  | Some t => Ok t
  | None => match nth_error textures 0 with
            | Some t => Ok t
            | None => Throw
            end
  end.

(** the cache of the layer holds declared states only, as [_updateState]
    leaves it. *)
Definition cacheDeclared (dom : list Element) (d : LayerData) : Prop :=
  forall k hs,
    lookupState k (_states d) = Some hs ->
    In k (declaredStates (edata (getElement (element d) dom))).

(** ** Induction over the two rose trees *)

Section LayerInduction.
Variable P : Layer -> Prop.
Hypothesis P_node : forall d cs, Forall P cs -> P (Node d cs).

Fixpoint Layer_ind (l : Layer) : P l :=
  let 'Node d cs := l in
  @P_node d cs
    ((fix go (cs : list Layer) : Forall P cs :=
        match cs with
        | [] => Forall_nil P
        | c :: rest => Forall_cons c (Layer_ind c) (go rest)
        end) cs).
End LayerInduction.

Section ElementInduction.
Variable P : Element -> Prop.
Hypothesis P_node : forall d cs, Forall P cs -> P (ENode d cs).

Fixpoint Element_ind (e : Element) : P e :=
  let 'ENode d cs := e in
  @P_node d cs
    ((fix go (cs : list Element) : Forall P cs :=
        match cs with
        | [] => Forall_nil P
        | c :: rest => Forall_cons c (Element_ind c) (go rest)
        end) cs).
End ElementInduction.

(** ** A small page: a root element holding one layer element *)

Module Scenario.

Definition childElement : Element :=
  ENode (mkElementData 1 "div" (Some None) [] (Int 0) None (mkBounds 40 30 100 50)) [].

Definition rootElement : Element :=
  ENode (mkElementData 0 "div" (Some (Some 10%nat)) [] (Int 0) None
           (mkBounds 20 10 200 100))
        [childElement].

(** [new WebLayer3D(rootElement)] with object id 10. *)
Definition root : Layer := Node (newLayerData 10 0 10 0 None) [].

Definition world : World := mkWorld [rootElement] [] false 16 0 [].

(** the tree and the world after the first [refresh()]. *)
Definition refreshed : Result (Layer * World) := refresh 3 false None root world.

Definition refreshedRoot : Layer :=
  match refreshed with Ok r => fst r | _ => root end.

Definition refreshedWorld : World :=
  match refreshed with Ok r => snd r | _ => world end.

(** a second [refresh()] right after the first. *)
Definition refreshedTwice : Result (Layer * World) :=
  refresh 3 false None refreshedRoot refreshedWorld.

Definition refreshedTwiceRoot : Layer :=
  match refreshedTwice with Ok r => fst r | _ => root end.

Definition refreshedTwiceWorld : World :=
  match refreshedTwice with Ok r => snd r | _ => world end.

(** the layer of the child element as the constructor leaves it, and as
    a [refresh()] below the refreshed root leaves it. *)
Definition child : Layer := Node (newLayerData 16 1 10 1 None) [].

Definition childRefreshed : Result (Layer * World) :=
  refresh 2 false (Some (data refreshedRoot)) child world.

Definition childAfter : Layer :=
  match childRefreshed with Ok r => fst r | _ => child end.

Definition worldAfter : World :=
  match childRefreshed with Ok r => snd r | _ => world end.

(** a script sets [element.className] of the element [eid]. *)
Definition setClassName (eid : nat) (v : list string) (w : World) : World :=
  set_dom
    (List.map
       (mapElements
          (fun e => if Nat.eqb (el_id e) eid then set_classAttribute (Some v) e else e))
       (dom w)) w.

(** the page after a script gave the child element the class [big]; the
    observer then reports the old value [null]. *)
Definition classedWorld : World := setClassName 1 ["big"] refreshedWorld.

(** the page after a script gave the child element the class
    [constructor] instead. *)
Definition constructorWorld : World := setClassName 1 ["constructor"] refreshedWorld.

Definition classRecord : MutationRecord := ClassAttributeRecord 1 None.

(** *** The child is rasterized, shown, and then taken out of the page *)

Definition childLayout : string -> nat -> Bounds := fun _ _ => mkBounds 40 30 100 50.

(** [_rasterize()] of the child: the backend commits texture 0. *)
Definition rasterized : Layer * World * bool :=
  _rasterize [] childLayout true (fun _ => true) 16 refreshedRoot refreshedWorld.

(** one frame later the child is fully opaque. *)
Definition shown : Result (Layer * World) :=
  update 3 1 TRANSITION_DEFAULT [] (fst (fst rasterized)) (snd (fst rasterized)).

Definition shownRoot : Layer := match shown with Ok r => fst r | _ => root end.
Definition shownWorld : World := match shown with Ok r => snd r | _ => world end.

(** a script removes the child element from the root element; the
    observer reports a child-list record on the root element. *)
Definition detachedWorld : World :=
  set_dom
    [ENode (mkElementData 0 "div" (Some (Some 10%nat)) [] (Int 0) None
              (mkBounds 20 10 200 100)) [];
     ENode (mkElementData 1 "div" (Some (Some 16%nat)) [] (Int 0) None ZERO_BOUNDS) []]
    shownWorld.

Definition notified : Layer :=
  _processMutations detachedWorld [ChildListRecord 0] shownRoot.

(** the next frame, with [alpha = 1]. *)
Definition faded : Result (Layer * World) :=
  update 3 1 TRANSITION_DEFAULT [] notified detachedWorld.

Definition fadedRoot : Layer := match faded with Ok r => fst r | _ => root end.
Definition fadedWorld : World := match faded with Ok r => snd r | _ => world end.

(** *** The child element leaves the page with a new layer element in it *)





(** the shown child alone, refreshed on the page where its element is out
    of the document and measures 0 x 0. *)
Definition shownChild : Layer :=
  match getObjectById 16 shownRoot with Some c => c | None => child end.

Definition collapsed : Result (Layer * World) :=
  refresh 2 false (Some (data shownRoot)) shownChild detachedWorld.

Definition collapsedChild : Layer := match collapsed with Ok r => fst r | _ => child end.
Definition collapsedWorld : World := match collapsed with Ok r => snd r | _ => world end.

(** the shown tree refreshed on the page where the child element, still
    in its place, has come to measure 0 x 50. *)
Definition flatWorld : World :=
  set_dom
    [ENode (mkElementData 0 "div" (Some (Some 10%nat)) [] (Int 0) None
              (mkBounds 20 10 200 100))
       [ENode (mkElementData 1 "div" (Some (Some 16%nat)) [] (Int 0) None
                 (mkBounds 40 30 0 50)) []]]
    shownWorld.

Definition collapsedTree : Result (Layer * World) :=
  refresh 3 false None shownRoot flatWorld.

Definition collapsedTreeRoot : Layer :=
  match collapsedTree with Ok r => fst r | _ => root end.
Definition collapsedTreeWorld : World :=
  match collapsedTree with Ok r => snd r | _ => world end.

(** *** A declared state is withdrawn before it was ever rasterized *)

Definition statefulElement (states : list string) : Element :=
  ENode (mkElementData 0 "div" (Some (Some 10%nat)) states (Int 0) None
           (mkBounds 0 0 500 150)) [].

Definition statefulWorld : World := mkWorld [statefulElement ["a"]] [] false 16 0 [].

(** the first frame caches the states [a] and [""], textures still [null]. *)
Definition firstFrame : Result (Layer * World) :=
  update 3 1 TRANSITION_DEFAULT [] root statefulWorld.

Definition firstFrameRoot : Layer := match firstFrame with Ok r => fst r | _ => root end.
Definition firstFrameWorld : World :=
  match firstFrame with Ok r => snd r | _ => statefulWorld end.

(** a script clears [data-layer-states] before the idle callback ran. *)
Definition withdrawnWorld : World := set_dom [statefulElement []] firstFrameWorld.

Definition secondFrame : Result (Layer * World) :=
  update 3 1 TRANSITION_DEFAULT [] firstFrameRoot withdrawnWorld.

(** *** The states of the root are rasterized and its class list switches *)

Definition statefulLayout : string -> nat -> Bounds := fun _ _ => mkBounds 0 0 500 150.

(** [_rasterize()] of the root: texture 0 for the state [a], 1 for [""]. *)
Definition statefulRasterized : Layer * World * bool :=
  _rasterize [] statefulLayout true (fun _ => true) 10 firstFrameRoot firstFrameWorld.

Definition settledRoot : Layer := fst (fst statefulRasterized).
Definition settledWorld : World := snd (fst statefulRasterized).

Definition toA : Result (Layer * World) :=
  switchClass 3 0 None settledRoot (setClassName 0 ["a"] settledWorld).
Definition toARoot : Layer := match toA with Ok r => fst r | _ => root end.
Definition toAWorld : World := match toA with Ok r => snd r | _ => world end.

Definition toDefault : Result (Layer * World) :=
  switchClass 3 0 (Some ["a"]) toARoot (setClassName 0 [] toAWorld).
Definition toDefaultRoot : Layer := match toDefault with Ok r => fst r | _ => root end.
Definition toDefaultWorld : World := match toDefault with Ok r => snd r | _ => world end.

Definition backToA : Result (Layer * World) :=
  switchClass 3 0 (Some []) toDefaultRoot (setClassName 0 ["a"] toDefaultWorld).
Definition backToARoot : Layer := match backToA with Ok r => fst r | _ => root end.
Definition backToAWorld : World := match backToA with Ok r => snd r | _ => world end.

(** the first [_updateState] of the root on the page that declares [a]. *)
Definition firstState : Result (LayerData * World) := _updateState (data root) statefulWorld.

Definition firstStateData : LayerData :=
  match firstState with Ok r => fst r | _ => data root end.
Definition firstStateWorld : World :=
  match firstState with Ok r => snd r | _ => statefulWorld end.

(** *** The page changes under an initialised cache *)




End Scenario.

(** ** Further vocabulary *)

(** what the getters select has no slot: the slot array of the current
    state, when that state is cached, is empty; or the current state is not
    cached and its name is a property name of [Object.prototype], so that
    the getters select the inherited value; or else the slot array of the
    default state is missing or empty. *)
Definition noSlot (d : LayerData) : Prop :=
  match lookupState (_state d) (_states d) with
  | Some hs => hs = []
  | None =>
      inherited (_state d) = true \/
      match lookupState "" (_states d) with
      | Some hs => hs = []
      | None => True
      end
  end.

(** the cached states that are no longer declared, in cache order. *)
Definition withdrawnEntries (states : list string) (c : StateCache) : StateCache :=
  filter (fun kv => negb (inb (fst kv) states)) c.

(** the textures that the slots of a state hold. *)
Definition texturesOf (hs : list HoverState) : list nat :=
  flat_map (fun s => match hs_texture s with Some t => [t] | None => [] end) hs.

(** a [data-layer-hover-depth] that [parseInt] reads as NaN or as a
    negative number. *)
Definition badHoverDepth (e : ElementData) : Prop :=
  hoverDepthAttribute e = NaN \/
  exists z, hoverDepthAttribute e = Int z /\ (z < 0)%Z.

(** both horizontal components of a scale are positive. *)
Definition positiveScale (v : Vec3) : Prop := (0 < vx v)%Q /\ (0 < vy v)%Q.

(** the layer as a layout pass leaves it when it hides it: target opacity
    0, the pose targets reset to the remembered layout. *)
Definition hiddenLayout (d : LayerData) : LayerData :=
  set_contentTargetOpacity 0
    (set_contentTarget (mkPose (vec3 0 0 0) (_lastContentTargetScale d))
       (set_target (mkPose (_lastTargetPosition d) (vec3 1 1 1)) d)).

(** the content scale of a box: its size in world units, at least 10e-6. *)
Definition contentScaleOf (b : Bounds) : Vec3 :=
  vec3 (Qmax (DEFAULT_PIXEL_DIMENSIONS * b_width b) (1 # 100000))
       (Qmax (DEFAULT_PIXEL_DIMENSIONS * b_height b) (1 # 100000))
       1.

(** the layer as a layout pass leaves it when it shows it at [pos] with
    the box [b]. *)
Definition placedLayout (pos : Vec3) (b : Bounds) (d : LayerData) : LayerData :=
  set_lastContentTargetScale (contentScaleOf b)
    (set_lastTargetPosition pos
       (set_contentTarget (mkPose (vec3 0 0 0) (contentScaleOf b))
          (set_target (mkPose pos (vec3 1 1 1))
             (set_contentTargetOpacity 1 d)))).

(** where a layout pass puts a layer with the box [b]: by the boxes when
    the layer uses DOM layout, else where it was. *)
Definition placement (p : option LayerData) (d : LayerData) (b : Bounds) (pos : Vec3)
  : Prop :=
  (useDOMLayout d = true /\
   exists pb,
     match p with Some pd => definedBounds (bounds pd) | None => Ok ZERO_BOUNDS end = Ok pb /\
     pos = domLayoutPosition pb b (layerSeparationOf d) (_level d)) \/
  (useDOMLayout d = false /\ pos = _lastTargetPosition d).

(** [d'] is [d] up to the removal mark. *)
Definition sameButRemoval (d d' : LayerData) : Prop :=
  d' = set_needsRemoval (_needsRemoval d') d.

(** the queue of [w'] is the queue of [w] with entries pushed at its end,
    and holds no layer twice if the queue of [w] held none twice. *)
Definition queueGrows (w w' : World) : Prop :=
  (exists added, _rasterizationQueue w' = _rasterizationQueue w ++ added) /\
  (NoDup (_rasterizationQueue w) -> NoDup (_rasterizationQueue w')).

#[local] Unset Elimination Schemes.

(** two element trees of the same shape whose elements are related
    pairwise. *)
Inductive relatedE (R : ElementData -> ElementData -> Prop) : Element -> Element -> Prop :=
| relatedE_node d d' cs cs' :
    R d d' -> Forall2 (relatedE R) cs cs' -> relatedE R (ENode d cs) (ENode d' cs').

#[local] Set Elimination Schemes.

(** [e'] is [e] up to the [data-layer] attribute. *)
Definition sameButLayerAttribute (e e' : ElementData) : Prop :=
  el_id e' = el_id e /\ nodeName e' = nodeName e /\
  statesAttribute e' = statesAttribute e /\
  hoverDepthAttribute e' = hoverDepthAttribute e /\
  classAttribute e' = classAttribute e /\ el_bounds e' = el_bounds e.

(** the page [dom'] is the page [dom] up to [data-layer] attributes. *)
Definition samePage (dom dom' : list Element) : Prop :=
  Forall2 (relatedE sameButLayerAttribute) dom dom'.

(** the number of layers on the longest path down from [l]. *)
Fixpoint height (l : Layer) : nat :=
  let 'Node _ cs := l in
  S (fold_right (fun c m => Nat.max (height c) m) 0%nat cs).

(** the cache of [d] is in step with the page: it holds the declared
    states of the element and no other, each with at least one slot. *)
Definition settled (dom : list Element) (d : LayerData) : Prop :=
  cacheDeclared dom d /\ slotsNonEmpty (_states d) /\
  forall k, In k (declaredStates (edata (getElement (element d) dom))) ->
            lookupState k (_states d) <> None.

(** the parent, if any, has measured bounds. *)
Definition parentMeasured (p : option LayerData) : Prop :=
  match p with
  | Some pd => exists b, bounds pd = Ok (Some b)
  | None => True
  end.

(** the class is one that the handler passes over: [hover], a cached
    state, or a name under which [_states] inherits a property of
    [Object.prototype]. *)
Definition passedOverClass (states : StateCache) (c : string) : Prop :=
  c = "hover" \/ lookupState c states <> None \/ inherited c = true.

(** the class is in one of the two class lists and not in the other. *)
Definition classChanged (oldValue : option (list string)) (e : ElementData) (c : string)
  : Prop :=
  (In c (classNameSplit e) /\ ~ In c (oldClassesOf oldValue)) \/
  (In c (oldClassesOf oldValue) /\ ~ In c (classNameSplit e)).

(** ** Further parts of the source *)

(** *** The listeners of the constructor *)

(** [layer.needsRasterize = true] *)
Definition markDirty (l : Layer) : Layer :=
  let 'Node d cs := l in Node (set_needsRasterize true d) cs.

(** [_triggerRefresh(e)], the listener of the root element for [input],
    [change], [focus], [blur] and [transitionend]; [target] is [e.target]. *)
Definition _triggerRefresh (target : nat) (dom : list Element) (this : Layer) : Layer :=
  match getLayerForElement target dom this with
  | Some layer => applyById (id (data layer)) markDirty this
  | None => this
  end.

(** One record of the [ResizeObserver] callback that every layer installs
    for its element.  [offsetSize] gives [offsetWidth] and [offsetHeight] of
    an element.  The result of [getLayerForElement(record.target)!] is used
    unchecked: with no layer, reading [layer.element] throws; bounds that are
    still [{}] have an [undefined] width, which differs from every number. *)
Definition resizeRecord (offsetSize : nat -> Q * Q) (dom : list Element)
  (this : Layer) (target : nat) : Result Layer :=
  match getLayerForElement target dom this with
  | None => Throw
  | Some layer =>
      let size := offsetSize (element (data layer)) in
      do ob <- bounds (data layer);
      let differs :=
        match ob with
        | Some b => negb (Qeq_bool (fst size) (b_width b)) ||
                    negb (Qeq_bool (snd size) (b_height b))
        | None => true
        end in
      Ok (if differs then applyById (id (data layer)) markDirty this else this)
  end.

(** [for (const record of records) ...] *)
Fixpoint _resizeObserverCallback (offsetSize : nat -> Q * Q) (dom : list Element)
  (records : list nat) (this : Layer) : Result Layer :=
  match records with
  | [] => Ok this
  | target :: rest =>
      do this' <- resizeRecord offsetSize dom this target;
      _resizeObserverCallback offsetSize dom rest this'
  end.

(** [d'] is [d], or [d] made dirty if it is the layer [i]. *)
Definition dirtiedAt (i : nat) (d d' : LayerData) : Prop :=
  d' = d \/ (id d = i /\ d' = set_needsRasterize true d).

(** the record reports the size that the layer owning [target] has in its
    bounds. *)
Definition sizeUnchanged (offsetSize : nat -> Q * Q) (dom : list Element)
  (this : Layer) (target : nat) : Prop :=
  exists layer b,
    getLayerForElement target dom this = Some layer /\
    bounds (data layer) = Ok (Some b) /\
    (fst (offsetSize (element (data layer))) == b_width b)%Q /\
    (snd (offsetSize (element (data layer))) == b_height b)%Q.

(** *** Vocabulary of the interaction pass *)

#[local] Unset Elimination Schemes.

(** every element of the subtree satisfies [P]. *)
Inductive allElements (P : Element -> Prop) : Element -> Prop :=
| allElements_node d cs :
    P (ENode d cs) -> Forall (allElements P) cs -> allElements P (ENode d cs).

#[local] Set Elimination Schemes.

(** the element contains the element of a layer of the tree whose hover
    count is 1. *)
Definition holdsHoveredLayer (root : Layer) (n : Element) : Prop :=
  exists i l, getObjectById i root = Some l /\ _hover (data l) = 1%nat /\
              contains n (element (data l)) = true.

(** [d'] is [d] up to the cursor. *)
Definition sameButCursor (d d' : LayerData) : Prop :=
  d' = set_cursor_visible (cursor_visible d') d.

(** [d'] is [d] up to the hover count and the cursor. *)
Definition sameButHover (d d' : LayerData) : Prop :=
  d' = set_cursor_visible (cursor_visible d') (set_hover (_hover d') d).

(** the ray whose intersections are [hits] meets a layer of the tree that
    has a nonzero target opacity. *)
Definition rayHits (root : Layer) (hits : list nat) : Prop :=
  exists i l, In i hits /\ getObjectById i root = Some l /\
              truthyQ (contentTargetOpacity (data l)) = true.

(** *** Vocabulary of the transition step *)

(** the opacity of the mesh lies in [0, 1], the mesh is visible exactly
    when the opacity is at least the hidden threshold, and the target
    opacity is 0 or 1. *)
Definition opacityConsistent (d : LayerData) : Prop :=
  (0 <= opacity (mesh d) <= 1)%Q /\
  (visible (mesh d) = true <-> (5 # 1000 <= opacity (mesh d))%Q) /\
  (contentTargetOpacity d = 0%Q \/ contentTargetOpacity d = 1%Q).

(** the content, its target and the remembered scale all have positive
    horizontal scale components. *)
Definition scalesPositive (d : LayerData) : Prop :=
  positiveScale (scale (content d)) /\ positiveScale (scale (contentTarget d)) /\
  positiveScale (_lastContentTargetScale d).

(** [i] is the id of one of the five objects that the constructor of the
    layer [d] creates after the layer itself ([content], [mesh], [target],
    [contentTarget], [cursor]). *)
Definition partOf (i : nat) (d : LayerData) : Prop := (id d < i <= id d + 5)%nat.

(** the loop over the children, having gone through the children [pre],
    comes to the child that follows them: no removal among [pre] makes it
    step over that child. *)
Inductive comesTo (alpha : Q) : list Layer -> Prop :=
| comesTo_nil : comesTo alpha []
| comesTo_stay c pre :
    ~ removable alpha (data c) -> comesTo alpha pre -> comesTo alpha (c :: pre)
| comesTo_skip c s pre :
    removable alpha (data c) -> comesTo alpha pre -> comesTo alpha (c :: s :: pre).

(** *** Vocabulary of the rasterization *)

(** every slot of [c] that holds a texture holds the same texture in [c']. *)
Definition texturesKept (c c' : StateCache) : Prop :=
  forall k n s t,
    slotAt k n c = Some s -> hs_texture s = Some t ->
    exists s', slotAt k n c' = Some s' /\ hs_texture s' = Some t.

(** the two caches hold the same texture, or none, in every slot. *)
Definition sameTextures (c c' : StateCache) : Prop :=
  forall k n,
    option_map hs_texture (slotAt k n c') = option_map hs_texture (slotAt k n c).

(** the render commits the texture that its slot already had in [c], if
    it had one. *)
Definition rendersOwnTexture (c : StateCache) (r : RenderFunction) : Prop :=
  forall s t,
    slotAt (rf_state r) (rf_hover r) c = Some s -> hs_texture s = Some t ->
    rf_texture r = t.

(** *** [hitTest] *)

(** One entry of what [raycaster.intersectObject(this, true, ...)] reports,
    nearest first: the layer that the mesh map gives for the intersected
    object (an object that the map does not know stands for an id that is
    not in the tree) and the texture coordinates of the point. *)
Record Intersection : Type := mkIntersection { i_layer : nat; uv_x : Q; uv_y : Q }.

(** [{ layer, intersection, target }] *)
Record Hit : Type := mkHit {
  hit_layer : nat;
  hit_intersection : Intersection;
  hit_target : nat
}.

(** The callback that [hitTest] hands to [traverseDOM]; the state is
    [target]. *)
Definition hitTestEach (dom : list Element) (layerBoundingRect : Bounds)
  (clientX clientY : Q) (el : ElementData) (level : Z) (target : nat) : nat * bool :=
  if negb (contains (getElement target dom) (el_id el)) then (target, false)
  else
    let elementBoundingRect := getBounds el in
    let offsetLeft := (b_left elementBoundingRect - b_left layerBoundingRect)%Q in
    let offsetTop := (b_top elementBoundingRect - b_top layerBoundingRect)%Q in
    let offsetRight := (offsetLeft + b_width elementBoundingRect)%Q in
    let offsetBottom := (offsetTop + b_height elementBoundingRect)%Q in
    if Qlt_bool offsetLeft clientX && Qlt_bool clientX offsetRight &&
       Qlt_bool offsetTop clientY && Qlt_bool clientY offsetBottom
    then (el_id el, true)
    else (target, false).

(** [hitTest(ray)]; [intersections] is what the raycaster reports for the
    ray.  Bounds that are still [{}] have an [undefined] width, which is
    falsy. *)
Fixpoint hitTest (intersections : list Intersection) (dom : list Element) (this : Layer)
  : Result (option Hit) :=
  match intersections with
  | [] => Ok None
  | intersection :: rest =>
      match getObjectById (i_layer intersection) this with
      | None => hitTest rest dom this
      | Some layer =>
          do layerBoundingRect <- bounds (data layer);
          match layerBoundingRect with
          | None => hitTest rest dom this
          | Some lb =>
              if negb (truthyQ (b_width lb)) || negb (truthyQ (b_height lb))
              then hitTest rest dom this
              else
                let clientX := (uv_x intersection * b_width lb)%Q in
                let clientY := ((1 - uv_y intersection) * b_height lb)%Q in
                Ok (Some
                      (mkHit (id (data layer)) intersection
                         (traverseDOM (hitTestEach dom lb clientX clientY)
                            (getElement (element (data layer)) dom) 0%Z
                            (element (data layer)))))
          end
      end
  end.

(** the element and its descendants, in document order. *)
Fixpoint elementsOf (e : Element) : list Element :=
  let 'ENode _ cs := e in e :: flat_map elementsOf cs.

(** the point [(x, y)], in pixels from the corner of the box [lb], lies
    strictly inside the box [eb]. *)
Definition pointInside (lb eb : Bounds) (x y : Q) : Prop :=
  (b_left eb - b_left lb < x)%Q /\ (x < b_left eb - b_left lb + b_width eb)%Q /\
  (b_top eb - b_top lb < y)%Q /\ (y < b_top eb - b_top lb + b_height eb)%Q.

(** [hitTest] passes over the intersection: its object has no layer in the
    tree, or the bounds of the layer have no width or no height. *)
Definition passedOver (this : Layer) (x : Intersection) : Prop :=
  match getObjectById (i_layer x) this with
  | None => True
  | Some layer =>
      match bounds (data layer) with
      | Ok (Some lb) => degenerate lb
      | Ok None => True
      | _ => False
      end
  end.

(** where the hit of [x] on a layer with bounds [lb] falls, in pixels from
    the corner of the layer. *)
Definition clientPoint (x : Intersection) (lb : Bounds) : Q * Q :=
  ((uv_x x * b_width lb)%Q, ((1 - uv_y x) * b_height lb)%Q).

(** the loop of [traverseDOM] over the children [cs] of a node. *)
Fixpoint traverseChildren {S : Type} (each : ElementData -> Z -> S -> S * bool)
  (cs : list Element) (level : Z) (s : S) : S :=
  match cs with
  | [] => s
  | c :: rest =>
      let '(s', descend) := each (edata c) (level + 1)%Z s in
      traverseChildren each rest level
        (if descend then traverseDOM each c (level + 1)%Z s' else s')
  end.

(** the ids of the element and its descendants, in document order. *)
Fixpoint idsOf (e : Element) : list nat :=
  let 'ENode d cs := e in el_id d :: flat_map idsOf cs.

(** the ids of the page tell its elements apart, as object identity does
    in the DOM. *)
Definition distinctElements (dom : list Element) : Prop :=
  NoDup (flat_map idsOf dom).

(** ** Further small pages *)

Module Cases.

(** the root of the stateful page, rasterized, after a script cleared
    [data-layer-states]. *)
Definition withdrawnWorld : World :=
  set_dom [Scenario.statefulElement []] Scenario.settledWorld.

Definition withdrawn : Result (LayerData * World) :=
  _updateState (data Scenario.settledRoot) withdrawnWorld.

Definition withdrawnData : LayerData :=
  match withdrawn with Ok r => fst r | _ => data Scenario.settledRoot end.
Definition withdrawnAfter : World :=
  match withdrawn with Ok r => snd r | _ => withdrawnWorld end.

(** the same root after a script set the class list to [b a]. *)
Definition classedWorld : World := Scenario.setClassName 0 ["b"; "a"] Scenario.settledWorld.

Definition classed : Result (LayerData * World) :=
  _updateState (data Scenario.settledRoot) classedWorld.

Definition classedData : LayerData :=
  match classed with Ok r => fst r | _ => data Scenario.settledRoot end.
Definition classedAfter : World :=
  match classed with Ok r => snd r | _ => classedWorld end.

(** a page whose root element carries [data-layer-hover-depth="deep"]. *)
Definition badDepthWorld : World :=
  mkWorld
    [ENode (mkElementData 0 "div" (Some (Some 10%nat)) [] NaN None (mkBounds 0 0 500 150)) []]
    [] false 16 0 [].

(** the layout of the refreshed child below the refreshed root. *)
Definition placed : Result LayerData :=
  _updateTargetLayout (Some (data Scenario.refreshedRoot)) (data Scenario.childAfter).

Definition placedChild : LayerData :=
  match placed with Ok d => d | _ => data Scenario.childAfter end.

(** the same child, marked for removal. *)
Definition markedChild : LayerData := set_needsRemoval true (data Scenario.childAfter).

Definition hidden : Result LayerData :=
  _updateTargetLayout (Some (data Scenario.refreshedRoot)) markedChild.

Definition hiddenChild : LayerData :=
  match hidden with Ok d => d | _ => markedChild end.

(** a root with three children, the second of them marked for removal
    and fully transparent; one traversal with [alpha = 1]. *)
Definition first : Layer := Node (newLayerData 28 3 10 1 None) [].
Definition leaving : Layer := Node (set_needsRemoval true (newLayerData 16 1 10 1 None)) [].
Definition staying : Layer := Node (newLayerData 22 2 10 1 None) [].

Definition traversed : Result (Layer * bool) :=
  traverseLayers 3 TRANSITION_DEFAULT 1
    (Node (data Scenario.refreshedRoot) [first; leaving; staying]).

Definition traversedRoot : Layer :=
  match traversed with Ok r => fst r | _ => Scenario.root end.
Definition traversedFlag : bool :=
  match traversed with Ok r => snd r | _ => false end.

(** the rasterized stateful root after a script raised
    [data-layer-hover-depth] to 1 and the state was read again. *)
Definition deeperWorld : World :=
  set_dom
    [ENode (mkElementData 0 "div" (Some (Some 10%nat)) ["a"] (Int 1) None
              (mkBounds 0 0 500 150)) []]
    Scenario.settledWorld.

Definition deeper : Result (LayerData * World) :=
  _updateState (data Scenario.settledRoot) deeperWorld.

Definition deeperData : LayerData :=
  match deeper with Ok r => fst r | _ => data Scenario.settledRoot end.
Definition deeperAfter : World :=
  match deeper with Ok r => snd r | _ => deeperWorld end.

Definition deeperSlots : list HoverState :=
  match lookupState "a" (_states deeperData) with Some hs => hs | None => [] end.

(** a ray that meets the mesh of the refreshed root in its middle. *)
Definition centreHit : Intersection := mkIntersection 10 (1 # 2) (1 # 2).

Definition tested : Result (option Hit) :=
  hitTest [centreHit] (dom Scenario.refreshedWorld) Scenario.refreshedRoot.

Definition testedHit : Hit :=
  match tested with Ok (Some h) => h | _ => mkHit 0 centreHit 0 end.

(** [refresh(true)] of the root of the small page. *)
Definition forced : Result (Layer * World) := refresh 3 true None Scenario.root Scenario.world.

Definition forcedRoot : Layer := match forced with Ok r => fst r | _ => Scenario.root end.
Definition forcedWorld : World := match forced with Ok r => snd r | _ => Scenario.world end.

(** the callback of the child walk on the child element of the small page. *)
Definition converted : Layer * World * bool :=
  _tryConvertToWebLayer3D (edata Scenario.childElement) 1 (Scenario.root, Scenario.world).

Definition convertedRoot : Layer := fst (fst converted).
Definition convertedWorld : World := snd (fst converted).

End Cases.

(** * Theorems *)

(** ** The result monad *)

Lemma bind_Ok_inv {A B : Type} (r : Result A) (k : A -> Result B) (b : B) :
  bind r k = Ok b -> exists a, r = Ok a /\ k a = Ok b.
Proof.
  destruct r as [a| |]; simpl; intros H; try discriminate.
  exists a; split; [reflexivity | exact H].
Qed.

Ltac inv_bind H :=
  let a := fresh "a" in
  let Ha := fresh "Ha" in
  apply bind_Ok_inv in H; destruct H as [a [Ha H]].

(** ** The state cache *)

Lemma lookupState_replaceState k' k v c :
  lookupState k' (replaceState k v c) =
  if String.eqb k' k
  then match lookupState k c with Some _ => Some v | None => None end
  else lookupState k' c.
Proof.
  induction c as [|[k0 v0] c IH]; simpl.
  - destruct (String.eqb k' k); reflexivity.
  - destruct (String.eqb k k0) eqn:E; simpl.
    + apply String.eqb_eq in E; subst k0.
      destruct (String.eqb k' k) eqn:E'; [reflexivity|].
      reflexivity.
    + destruct (String.eqb k' k0) eqn:E0.
      * destruct (String.eqb k' k) eqn:E'; [|reflexivity].
        apply String.eqb_eq in E', E0; subst. rewrite String.eqb_refl in E. discriminate.
      * exact IH.
Qed.

Lemma nth_error_replaceNth {A : Type} (l : list A) n m x :
  nth_error (replaceNth n x l) m =
  if Nat.eqb m n
  then match nth_error l n with Some _ => Some x | None => None end
  else nth_error l m.
Proof.
  revert n m; induction l as [|y l IH]; intros n m; simpl.
  - destruct n, m; simpl; try reflexivity. destruct (Nat.eqb m n); reflexivity.
  - destruct n, m; simpl; try reflexivity. apply IH.
Qed.

Lemma slotAt_updateSlot k' n' k n g c :
  slotAt k' n' (updateSlot k n g c) =
  if String.eqb k' k && Nat.eqb n' n
  then match slotAt k n c with Some s => Some (g s) | None => None end
  else slotAt k' n' c.
Proof.
  unfold slotAt, updateSlot.
  destruct (lookupState k c) as [hs|] eqn:Hk.
  - destruct (nth_error hs n) as [s|] eqn:Hn.
    + rewrite lookupState_replaceState, Hk.
      destruct (String.eqb k' k) eqn:E; simpl.
      * apply String.eqb_eq in E; subst k'.
        rewrite nth_error_replaceNth, Hn, Hk.
        destruct (Nat.eqb n' n); reflexivity.
      * reflexivity.
    + destruct (String.eqb k' k) eqn:E; simpl; [|reflexivity].
      apply String.eqb_eq in E; subst k'. rewrite Hk.
      destruct (Nat.eqb n' n) eqn:E'; [|reflexivity].
      apply Nat.eqb_eq in E'; subst n'. exact Hn.
  - destruct (String.eqb k' k) eqn:E; simpl; [|reflexivity].
    apply String.eqb_eq in E; subst k'. rewrite Hk.
    destruct (Nat.eqb n' n); reflexivity.
Qed.

Lemma length_replaceNth {A : Type} (l : list A) n x :
  List.length (replaceNth n x l) = List.length l.
Proof.
  revert n; induction l as [|y l IH]; intros [|n]; simpl; try reflexivity.
  now rewrite IH.
Qed.

Lemma sameShape_refl c : sameShape c c.
Proof. intros k. destruct (lookupState k c); auto. Qed.

Lemma sameShape_trans c1 c2 c3 : sameShape c1 c2 -> sameShape c2 c3 -> sameShape c1 c3.
Proof.
  intros H1 H2 k. specialize (H1 k); specialize (H2 k).
  destruct (lookupState k c1), (lookupState k c2), (lookupState k c3);
    try contradiction; auto. congruence.
Qed.

Lemma sameShape_updateSlot k n g c : sameShape c (updateSlot k n g c).
Proof.
  intros k'. unfold updateSlot.
  destruct (lookupState k c) as [hs|] eqn:Hk.
  - destruct (nth_error hs n) as [s|] eqn:Hn.
    + rewrite lookupState_replaceState, Hk.
      destruct (String.eqb k' k) eqn:E.
      * apply String.eqb_eq in E; subst k'. rewrite Hk.
        now rewrite length_replaceNth.
      * destruct (lookupState k' c); auto.
    + destruct (lookupState k' c); auto.
  - destruct (lookupState k' c); auto.
Qed.

Lemma nth_error_sameLength {A B : Type} (l : list A) (l' : list B) n :
  List.length l = List.length l' ->
  match nth_error l n, nth_error l' n with
  | Some _, Some _ | None, None => True
  | _, _ => False
  end.
Proof.
  revert l' n; induction l as [|x l IH]; intros [|y l'] [|n] H; simpl in *;
    try discriminate; auto.
  apply IH. now injection H.
Qed.

Lemma pickSlot_sameLength (k : string) (hs hs' : list HoverState) (h : nat) :
  List.length hs = List.length hs' ->
  match nth_error hs h with
  | Some _ => Ok (k, h)
  | None => match nth_error hs 0 with
            | Some _ => Ok (k, 0%nat)
            | None => Throw
            end
  end =
  match nth_error hs' h with
  | Some _ => Ok (k, h)
  | None => match nth_error hs' 0 with
            | Some _ => Ok (k, 0%nat)
            | None => Throw
            end
  end.
Proof.
  intros L.
  pose proof (nth_error_sameLength hs hs' h L) as N1.
  pose proof (nth_error_sameLength hs hs' 0 L) as N0.
  destruct (nth_error hs h), (nth_error hs' h); try contradiction; try reflexivity.
  destruct (nth_error hs 0), (nth_error hs' 0); try contradiction; reflexivity.
Qed.

(** The slot the getters select depends only on the shape of the cache. *)
Lemma currentSlotIndex_sameShape d d' :
  _state d' = _state d -> _hover d' = _hover d -> sameShape (_states d) (_states d') ->
  currentSlotIndex d' = currentSlotIndex d.
Proof.
  intros Hs Hh Hc. unfold currentSlotIndex, currentStateKey. rewrite Hs, Hh.
  pose proof (Hc (_state d)) as H1. pose proof (Hc "") as H2.
  destruct (lookupState (_state d) (_states d)) as [hs|] eqn:E1,
           (lookupState (_state d) (_states d')) as [hs'|] eqn:E1'; try contradiction.
  - cbn [bind]. rewrite E1, E1'. symmetry. now apply pickSlot_sameLength.
  - destruct (inherited (_state d)); [reflexivity|].
    destruct (lookupState "" (_states d)) as [hs|] eqn:E2,
             (lookupState "" (_states d')) as [hs'|] eqn:E2'; try contradiction;
      cbn [bind]; [|reflexivity].
    rewrite E2, E2'. symmetry. now apply pickSlot_sameLength.
Qed.

Lemma currentSlotIndex_slotAt d k n :
  currentSlotIndex d = Ok (k, n) -> exists s, slotAt k n (_states d) = Some s.
Proof.
  unfold currentSlotIndex, currentStateKey, slotAt. intros H.
  assert (G : forall k0 hs, lookupState k0 (_states d) = Some hs ->
            match nth_error hs (_hover d) with
            | Some _ => Ok (k0, _hover d)
            | None => match nth_error hs 0 with
                      | Some _ => Ok (k0, 0%nat)
                      | None => Throw
                      end
            end = Ok (k, n) ->
            exists s, match lookupState k (_states d) with
                      | Some hs => nth_error hs n
                      | None => None
                      end = Some s).
  { intros k0 hs E H0.
    destruct (nth_error hs (_hover d)) as [s|] eqn:N1.
    - inversion H0; subst. rewrite E, N1. eauto.
    - destruct (nth_error hs 0) as [s|] eqn:N0; inversion H0; subst.
      rewrite E, N0. eauto. }
  destruct (lookupState (_state d) (_states d)) as [hs|] eqn:E1; cbn [bind] in H.
  - rewrite E1 in H. exact (G _ _ E1 H).
  - destruct (inherited (_state d)); [discriminate|].
    destruct (lookupState "" (_states d)) as [hs|] eqn:E2; cbn [bind] in H;
      [|discriminate].
    rewrite E2 in H. exact (G _ _ E2 H).
Qed.

(** After [_updateBounds] the [bounds] getter reports what the probe
    measured, and the selected texture is the one it was. *)
Lemma _updateBounds_spec d w d2 :
  _updateBounds d w = Ok d2 ->
  bounds d2 = Ok (Some (getBounds (edata (getElement (element d) (dom w))))) /\
  texture d2 = texture d /\
  currentSlotIndex d2 = currentSlotIndex d /\
  sameShape (_states d) (_states d2) /\
  d2 = set_states (_states d2) d.
Proof.
  unfold _updateBounds. intros H. inv_bind H. destruct a as [k n]. simpl in H.
  inversion H; subst d2; clear H.
  set (g := fun s => mkHoverState (hs_texture s) (Some (getBounds _))).
  assert (Hidx : currentSlotIndex (set_states (updateSlot k n g (_states d)) d)
                 = currentSlotIndex d).
  { apply currentSlotIndex_sameShape; try reflexivity. apply sameShape_updateSlot. }
  destruct (currentSlotIndex_slotAt d _ _ Ha) as [s Hs].
  repeat split.
  - unfold bounds, currentSlot. rewrite Hidx, Ha. simpl.
    rewrite slotAt_updateSlot, String.eqb_refl, Nat.eqb_refl, Hs. reflexivity.
  - unfold texture, currentSlot. rewrite Hidx, Ha. simpl.
    rewrite slotAt_updateSlot, String.eqb_refl, Nat.eqb_refl, Hs. reflexivity.
  - exact Hidx.
  - apply sameShape_updateSlot.
Qed.

(** ** Layout *)

Lemma sameButFlags_refl d : sameButFlags d d.
Proof. destruct d; reflexivity. Qed.

Lemma sameButFlags_trans d1 d2 d3 :
  sameButFlags d1 d2 -> sameButFlags d2 d3 -> sameButFlags d1 d3.
Proof.
  unfold sameButFlags. intros H1 H2. rewrite H2. rewrite H1 at 1. reflexivity.
Qed.

Lemma sameButFlags_fields d d' :
  sameButFlags d d' ->
  _states d' = _states d /\ _state d' = _state d /\ _hover d' = _hover d /\
  useDOMLayout d' = useDOMLayout d /\ _level d' = _level d /\
  layerSeparation d' = layerSeparation d /\ id d' = id d /\ element d' = element d /\
  mesh d' = mesh d /\ contentTargetOpacity d' = contentTargetOpacity d /\
  target d' = target d.
Proof. intros H. rewrite H. repeat split. Qed.

Lemma bounds_layoutInputs d d' :
  layoutInputs d' = layoutInputs d -> bounds d' = bounds d /\ texture d' = texture d.
Proof.
  unfold layoutInputs. intros H. inversion H as [[H1 H2 H3 H4 H5 H6 H7]].
  unfold bounds, texture, currentSlot, currentSlotIndex, currentStateKey.
  rewrite H1, H2, H3. split; reflexivity.
Qed.

Ltac layout_cases H :=
  unfold _updateTargetLayout in H; cbn [_needsRemoval set_target set_contentTarget] in H;
  match type of H with
  | context [if _needsRemoval ?d then _ else _] => destruct (_needsRemoval d) eqn:?
  end;
  [ | let a := fresh "b" in
      let Ha := fresh "Hb" in
      apply bind_Ok_inv in H; destruct H as [a [Ha H]];
      match type of H with
      | context [if ?c then _ else _] => destruct c eqn:?
      end;
      [ | match type of H with
          | context [if useDOMLayout ?d then _ else _] =>
              destruct (useDOMLayout d) eqn:?
          end;
          [ let a' := fresh "d4" in
            let Ha' := fresh "Hd4" in
            apply bind_Ok_inv in H; destruct H as [a' [Ha' H]];
            let a'' := fresh "pb" in
            let Ha'' := fresh "Hpb" in
            apply bind_Ok_inv in Ha'; destruct Ha' as [a'' [Ha'' Ha']];
            inversion Ha'; subst a'; clear Ha'
          | cbn [bind] in H ] ] ];
  inversion H; clear H.

Lemma _updateTargetLayout_inputs p d d' :
  _updateTargetLayout p d = Ok d' ->
  layoutInputs d' = layoutInputs d /\ needsRasterize d' = needsRasterize d /\
  childLayers d' = childLayers d /\ id d' = id d /\ element d' = element d /\
  mesh d' = mesh d /\ rootLayer d' = rootLayer d /\
  _mutationObserver d' = _mutationObserver d /\ _resizeObserver d' = _resizeObserver d.
Proof.
  intros H. layout_cases H; subst d'; repeat split.
Qed.

(** Zero width or height: the layer is invisible. *)
Lemma _updateTargetLayout_zero p d d' b :
  _updateTargetLayout p d = Ok d' ->
  bounds d = Ok (Some b) ->
  Qeq_bool (b_width b) 0 || Qeq_bool (b_height b) 0 = true ->
  contentTargetOpacity d' = 0%Q.
Proof.
  intros H Hb Hz. layout_cases H; subst d'; try reflexivity.
  all: change (definedBounds (bounds d) = Ok b0) in Hb0; rewrite Hb in Hb0;
    inversion Hb0; subst b0; congruence.
Qed.

Lemma _updateTargetLayout_removal p d d' :
  _updateTargetLayout p d = Ok d' -> _needsRemoval d = true ->
  contentTargetOpacity d' = 0%Q.
Proof.
  intros H Hr. layout_cases H; subst d'; try reflexivity.
  all: cbn in *; congruence.
Qed.

(** Otherwise a layer with DOM layout is placed from the two boxes. *)
Lemma _updateTargetLayout_position p d d' b pb :
  _updateTargetLayout (Some p) d = Ok d' ->
  _needsRemoval d = false -> useDOMLayout d = true ->
  bounds d = Ok (Some b) -> bounds p = Ok (Some pb) ->
  Qeq_bool (b_width b) 0 || Qeq_bool (b_height b) 0 = false ->
  position (target d') = domLayoutPosition pb b (layerSeparationOf d) (_level d) /\
  contentTargetOpacity d' = 1%Q.
Proof.
  intros H Hr Hu Hb Hp Hz. layout_cases H; subst d'; try congruence.
  all: match goal with
       | Hx : definedBounds _ = Ok ?b0 |- _ =>
           change (definedBounds (bounds d) = Ok b0) in Hx; rewrite Hb in Hx;
           inversion Hx; subst b0
       end; try congruence.
  - match goal with
    | Hx : definedBounds (bounds p) = Ok ?pb0 |- _ =>
        rewrite Hp in Hx; inversion Hx; subst pb0
    end.
    split; reflexivity.
  - cbn in *; congruence.
Qed.

Lemma _updateMesh_cases p d d' :
  _updateMesh p d = Ok d' ->
  layoutInputs d' = layoutInputs d /\ needsRasterize d' = needsRasterize d /\
  childLayers d' = childLayers d /\ id d' = id d /\ element d' = element d /\
  rootLayer d' = rootLayer d /\
  _mutationObserver d' = _mutationObserver d /\ _resizeObserver d' = _resizeObserver d /\
  ((target d' = target d /\ contentTargetOpacity d' = contentTargetOpacity d) \/
   exists m d'',
     _updateTargetLayout p (set_mesh m d) = Ok d'' /\
     target d' = target d'' /\ contentTargetOpacity d' = contentTargetOpacity d'').
Proof.
  unfold _updateMesh. intros H. inv_bind H. destruct a as [tex|].
  - inv_bind H. inversion H; subst d'; clear H.
    cbn [mesh set_mesh mesh_parent set_material_map] in Ha0.
    destruct (mesh_parent (mesh d)) eqn:Hm.
    + inversion Ha0; subst a; clear Ha0. repeat split. left. split; reflexivity.
    + inv_bind Ha0. inversion Ha0; subst a; clear Ha0.
      destruct (_updateTargetLayout_inputs _ _ _ Ha1)
        as (I1 & I2 & I3 & I4 & I5 & I6 & I7 & I8 & I9).
      repeat split; try assumption.
      right. eexists _, a0. split; [exact Ha1|]. split; reflexivity.
  - inversion H; subst d'. repeat split. left; split; reflexivity.
Qed.

(** ** Discovery of child layers *)

Lemma traverseDOM_invariant {S : Type} (I : S -> Prop)
  (each : ElementData -> Z -> S -> S * bool) :
  (forall e lvl s, I s -> I (fst (each e lvl s))) ->
  forall node lvl s, I s -> I (traverseDOM each node lvl s).
Proof.
  intros Heach node. induction node as [d cs IH] using Element_ind.
  intros lvl s Hs. cbn [traverseDOM].
  revert s Hs. induction IH as [|c rest Hc _ IHrest]; intros s Hs; [exact Hs|].
  specialize (Heach (edata c) (lvl + 1)%Z s Hs).
  destruct (each (edata c) (lvl + 1)%Z s) as [s' descend]. cbn [fst] in Heach.
  apply IHrest. destruct descend; [apply Hc|]; exact Heach.
Qed.

Lemma applyById_data i g l :
  data (applyById i g l) = data l \/ applyById i g l = g l.
Proof.
  unfold applyById. destruct l as [d cs]. cbn [updateObjectById].
  destruct (Nat.eqb (id d) i); [right; reflexivity|].
  match goal with
  | |- context [match (match ?x with Some _ => _ | None => _ end) with _ => _ end] =>
      destruct x
  end; left; reflexivity.
Qed.

Lemma _tryConvertToWebLayer3D_keeps d0 w0 el lvl s :
  (sameButFlags d0 (data (fst s)) /\ needsRasterize (data (fst s)) = needsRasterize d0 /\
   _needsRemoval (data (fst s)) = _needsRemoval d0 /\ sameButDom w0 (snd s)) ->
  let s' := fst (_tryConvertToWebLayer3D el lvl s) in
  sameButFlags d0 (data (fst s')) /\ needsRasterize (data (fst s')) = needsRasterize d0 /\
  _needsRemoval (data (fst s')) = _needsRemoval d0 /\ sameButDom w0 (snd s').
Proof.
  destruct s as [[d cs] w]. cbn [fst snd data]. intros (H1 & H2 & H3 & H4).
  unfold _tryConvertToWebLayer3D.
  assert (K : forall cl, sameButFlags d0 (set_childLayers cl d)).
  { intros cl. eapply sameButFlags_trans; [exact H1|]. reflexivity. }
  destruct (layerAttribute el) as [a|]; [|destruct (String.eqb (nodeName el) "video")].
  1,2: destruct (lookupChild _ (Node d cs)); cbn [fst snd data];
       (split; [apply K | split; [exact H2 | split; [exact H3 | exact H4]]]).
  cbn [fst snd data]. auto.
Qed.

Lemma _updateChildLayers_keeps d cs w l' w' :
  _updateChildLayers (Node d cs) w = (l', w') ->
  sameButFlags d (data l') /\ needsRasterize (data l') = needsRasterize d /\
  (_needsRemoval d = true -> _needsRemoval (data l') = true) /\ sameButDom w w'.
Proof.
  unfold _updateChildLayers. intros H.
  destruct (traverseDOM _ _ _ _) as [this1 w1] eqn:T.
  inversion H; subst l' w'; clear H.
  pose (I := fun s : Layer * World =>
               sameButFlags d (data (fst s)) /\
               needsRasterize (data (fst s)) = needsRasterize d /\
               _needsRemoval (data (fst s)) = _needsRemoval d /\ sameButDom w (snd s)).
  assert (HI : I (this1, w1)).
  { rewrite <- T. apply traverseDOM_invariant.
    - intros e lvl s Hs. apply (_tryConvertToWebLayer3D_keeps d w).
      exact Hs.
    - unfold I. cbn [fst snd data]. repeat split. }
  destruct HI as (H1 & H2 & H3 & H4). cbn [fst snd] in *.
  assert (M : forall old this,
             sameButFlags d (data this) -> needsRasterize (data this) = needsRasterize d ->
             (_needsRemoval d = true -> _needsRemoval (data this) = true) ->
             sameButFlags d (data (markMissing old this)) /\
             needsRasterize (data (markMissing old this)) = needsRasterize d /\
             (_needsRemoval d = true -> _needsRemoval (data (markMissing old this)) = true)).
  { unfold markMissing. induction old as [|c old IH]; intros this A B C; cbn [fold_left].
    - auto.
    - destruct (existsb (Nat.eqb c) (childLayers (data this))); [apply IH; assumption|].
      destruct (applyById_data c _markForRemoval this) as [E|E].
      + apply IH; rewrite E; assumption.
      + rewrite E. destruct this as [dt cst]. cbn [_markForRemoval data] in *.
        apply IH; cbn [data].
        * eapply sameButFlags_trans; [exact A|]. reflexivity.
        * exact B.
        * reflexivity. }
  destruct (M (childLayers d) this1 H1 H2) as (M1 & M2 & M3).
  { intros Hr. rewrite H3. exact Hr. }
  auto.
Qed.

(** ** One step of [refresh] *)

Lemma refresh_inv fuel force parent d cs w l' w' :
  refresh (S fuel) force parent (Node d cs) w = Ok (l', w') ->
  exists d1 w1 d2 l3 w3 cs4 d5 d6,
    _updateState d w = Ok (d1, w1) /\
    _updateBounds d1 w1 = Ok d2 /\
    (l3, w3) =
      (if needsRasterize d2 || force then
         (fst (_updateChildLayers (Node (set_needsRasterize false d2) cs) w1),
          enqueue (id d2)
            (snd (_updateChildLayers (Node (set_needsRasterize false d2) cs) w1)))
       else (Node d2 cs, w1)) /\
    forEachChild (refresh fuel force (Some (data l3))) (children l3) w3 = Ok (cs4, w') /\
    _updateTargetLayout parent (data l3) = Ok d5 /\
    _updateMesh parent d5 = Ok d6 /\
    l' = Node d6 cs4.
Proof.
  cbn [refresh]. intros H.
  inv_bind H. destruct a as [d1 w1]. cbn [fst snd] in H.
  inv_bind H. rename a into d2.
  inv_bind H. destruct a as [cs4 w4].
  inv_bind H. rename a into d5.
  inv_bind H. rename a into d6.
  cbn [fst snd] in H. inversion H; subst l' w'; clear H.
  eexists d1, w1, d2, _, _, cs4, d5, d6.
  repeat split; try eassumption.
  destruct (needsRasterize d2 || force); reflexivity.
Qed.

(** the node that the children and the layout of a pass work on. *)
Lemma refresh_node d2 cs w1 force l3 w3 :
  (l3, w3) =
    (if needsRasterize d2 || force then
       (fst (_updateChildLayers (Node (set_needsRasterize false d2) cs) w1),
        enqueue (id d2)
          (snd (_updateChildLayers (Node (set_needsRasterize false d2) cs) w1)))
     else (Node d2 cs, w1)) ->
  sameButFlags d2 (data l3) /\
  (_needsRemoval d2 = true -> _needsRemoval (data l3) = true) /\
  needsRasterize (data l3) = false /\
  (needsRasterize d2 || force = false -> l3 = Node d2 cs /\ w3 = w1).
Proof.
  intros H. destruct (needsRasterize d2 || force) eqn:E.
  - destruct (_updateChildLayers (Node (set_needsRasterize false d2) cs) w1)
      as [l w] eqn:U.
    cbn [fst snd] in H. inversion H; subst l3 w3; clear H.
    apply _updateChildLayers_keeps in U. destruct U as (U1 & U2 & U3 & U4).
    repeat split.
    + eapply sameButFlags_trans; [|exact U1]. reflexivity.
    + exact U3.
    + rewrite U2. reflexivity.
    + discriminate.
    + discriminate.
  - inversion H; subst l3 w3; clear H. repeat split.
    + apply sameButFlags_refl.
    + auto.
    + cbn [data]. apply orb_false_iff in E. exact (proj1 E).
Qed.

Lemma _updateState_fields d w d1 w1 :
  _updateState d w = Ok (d1, w1) ->
  element d1 = element d /\ id d1 = id d /\ _hover d1 = _hover d /\
  needsRasterize d1 = needsRasterize d /\ _needsRemoval d1 = _needsRemoval d /\
  useDOMLayout d1 = useDOMLayout d /\ _level d1 = _level d /\
  layerSeparation d1 = layerSeparation d /\ childLayers d1 = childLayers d /\
  dom w1 = dom w /\ _rasterizationQueue w1 = _rasterizationQueue w /\
  _isUpdating w1 = _isUpdating w /\ nextId w1 = nextId w.
Proof.
  unfold _updateState. intros H. inv_bind H. inversion H; subst d1 w1; clear H.
  repeat split.
Qed.

(** What a pass of [refresh] leaves in the node it was called on: the
    layout of the node that [_updateBounds] produced, up to the flags. *)
Lemma refresh_layout fuel force parent l w l' w' :
  refresh fuel force parent l w = Ok (l', w') ->
  exists d3 d5,
    bounds d3 =
      Ok (Some (getBounds (edata (getElement (element (data l)) (dom w))))) /\
    _updateTargetLayout parent d3 = Ok d5 /\
    layoutInputs (data l') = layoutInputs d3 /\
    (_needsRemoval (data l) = true -> _needsRemoval d3 = true) /\
    ((target (data l') = target d5 /\
      contentTargetOpacity (data l') = contentTargetOpacity d5) \/
     exists m d'',
       _updateTargetLayout parent (set_mesh m d5) = Ok d'' /\
       target (data l') = target d'' /\
       contentTargetOpacity (data l') = contentTargetOpacity d'').
Proof.
  destruct fuel as [|fuel]; [discriminate|]. destruct l as [d cs]. intros H.
  apply refresh_inv in H.
  destruct H as (d1 & w1 & d2 & l3 & w3 & cs4 & d5 & d6 & S1 & S2 & S3 & S4 & S5 & S6 & S7).
  subst l'. cbn [data].
  destruct (_updateState_fields _ _ _ _ S1) as (F1 & _ & _ & _ & F5 & _ & _ & _ & _ & F10 & _).
  destruct (_updateBounds_spec _ _ _ S2) as (B1 & _ & _ & _ & B5).
  rewrite F1, F10 in B1.
  destruct (refresh_node _ _ _ _ _ _ S3) as (N1 & N2 & _ & _).
  destruct (sameButFlags_fields _ _ N1) as (G1 & G2 & G3 & _).
  destruct (_updateTargetLayout_inputs _ _ _ S5) as (I1 & _).
  destruct (_updateMesh_cases _ _ _ S6) as (M1 & _ & _ & _ & _ & _ & _ & _ & M9).
  exists (data l3), d5. repeat split.
  - rewrite <- B1. unfold bounds, currentSlot, currentSlotIndex, currentStateKey.
    rewrite G1, G2, G3. reflexivity.
  - exact S5.
  - rewrite M1. exact I1.
  - intros Hr. apply N2. rewrite B5. cbn [_needsRemoval set_states]. rewrite F5. exact Hr.
  - exact M9.
Qed.

(** ** Rasterization *)

Lemma fold_left_invariant {A B : Type} (I : A -> Prop) (f : A -> B -> A) (l : list B) :
  (forall a x, In x l -> I a -> I (f a x)) -> forall a, I a -> I (fold_left f l a).
Proof.
  induction l as [|x l IH]; intros Hf a Ha; cbn [fold_left]; [exact Ha|].
  apply IH.
  - intros a' y Hy. apply Hf. right; exact Hy.
  - apply Hf; [left; reflexivity | exact Ha].
Qed.

Lemma degenerate_bool b :
  degenerate b <-> negb (truthyQ (b_width b)) || negb (truthyQ (b_height b)) = true.
Proof.
  unfold degenerate, truthyQ. rewrite !negb_involutive, orb_true_iff, !Qeq_bool_iff.
  reflexivity.
Qed.

Lemma degenerate_Qeq_bool b :
  degenerate b <-> Qeq_bool (b_width b) 0 || Qeq_bool (b_height b) 0 = true.
Proof.
  unfold degenerate. rewrite orb_true_iff, !Qeq_bool_iff. reflexivity.
Qed.

Lemma rasterizeSlot_spares layout c0 k0 h0 k hover acc :
  degenerate (layout k0 h0) ->
  sparesSlot c0 k0 h0 acc -> sparesSlot c0 k0 h0 (rasterizeSlot layout k acc hover).
Proof.
  intros Hz [H1 H2]. unfold rasterizeSlot.
  destruct (rl_threw acc); [split; assumption|].
  destruct (slotAt k hover (rl_states acc)) as [state|]; [|split; assumption].
  destruct (hs_texture state) as [t|];
    destruct (negb (truthyQ (b_width (layout k hover))) ||
              negb (truthyQ (b_height (layout k hover)))) eqn:E;
    try (split; assumption).
  all: assert (N : String.eqb k0 k && Nat.eqb h0 hover = false)
         by (destruct (String.eqb k0 k) eqn:Ek; [|reflexivity];
             destruct (Nat.eqb h0 hover) eqn:Eh; [|reflexivity];
             apply String.eqb_eq in Ek; apply Nat.eqb_eq in Eh; subst k hover;
             apply degenerate_bool in Hz; congruence).
  all: split; cbn [rl_states rl_renderFunctions];
         [ rewrite slotAt_updateSlot, N; exact H1
         | apply Forall_app; split; [exact H2 | constructor; [exact N | constructor]] ].
Qed.

Lemma rasterizeStates_spares layout h c0 k0 h0 acc :
  degenerate (layout k0 h0) ->
  sparesSlot c0 k0 h0 acc -> sparesSlot c0 k0 h0 (rasterizeStates layout h acc).
Proof.
  intros Hz Ha. unfold rasterizeStates.
  apply fold_left_invariant; [|exact Ha].
  intros a k _ Hk. apply fold_left_invariant; [|exact Hk].
  intros a' hover _ Hk'. now apply rasterizeSlot_spares.
Qed.

Lemma runRenders_spares backend rs k0 h0 :
  Forall (fun r => String.eqb k0 (rf_state r) && Nat.eqb h0 (rf_hover r) = false) rs ->
  forall c, slotAt k0 h0 (fst (runRenders backend rs c)) = slotAt k0 h0 c.
Proof.
  induction 1 as [|r rs Hr _ IH]; intros c; cbn [runRenders]; [reflexivity|].
  destruct (backend r); [|reflexivity].
  rewrite IH, slotAt_updateSlot, Hr. reflexivity.
Qed.

Lemma rasterizeLayer_spares layout ready backend d w k0 h0 :
  String.eqb (nodeName (edata (getElement (element d) (dom w)))) "video" = false ->
  degenerate (layout k0 h0) ->
  slotAt k0 h0 (_states (fst (fst (rasterizeLayer layout ready backend d w)))) =
  slotAt k0 h0 (_states d).
Proof.
  intros Hv Hz. unfold rasterizeLayer. rewrite Hv.
  pose proof (rasterizeStates_spares layout (_hoverDepth d) (_states d) k0 h0
                (mkLoop (_states d) (nextTexture w) [] false false) Hz) as S.
  destruct S as [S1 S2]; [split; [reflexivity | constructor]|].
  set (loop := rasterizeStates _ _ _) in *.
  destruct (rl_threw loop); [exact S1|].
  destruct ready; [|exact S1].
  pose proof (runRenders_spares backend (rl_renderFunctions loop) k0 h0 S2 (rl_states loop))
    as R.
  destruct (runRenders backend (rl_renderFunctions loop) (rl_states loop)) as [c threw].
  cbn [fst snd _states set_states] in *. rewrite R. exact S1.
Qed.

(** With every slot in place the loops do not throw. *)
Lemma lookupState_In k c : In k (List.map fst c) -> exists hs, lookupState k c = Some hs.
Proof.
  induction c as [|[k' hs'] c IH]; cbn [List.map fst In lookupState]; [contradiction|].
  intros [E|H].
  - subst k'. rewrite String.eqb_refl. eauto.
  - destruct (String.eqb k k'); eauto.
Qed.

Lemma rasterizeSlot_noThrow layout c0 n k hover acc :
  (forall hs, lookupState k c0 = Some hs -> (n <= List.length hs)%nat) ->
  In k (List.map fst c0) -> In hover (seq 0 n) ->
  rl_threw acc = false /\ sameShape c0 (rl_states acc) ->
  rl_threw (rasterizeSlot layout k acc hover) = false /\
  sameShape c0 (rl_states (rasterizeSlot layout k acc hover)).
Proof.
  intros Hc Hk Hh [T S]. unfold rasterizeSlot. rewrite T.
  apply in_seq in Hh.
  destruct (lookupState_In k c0 Hk) as [hs Hhs].
  specialize (Hc hs Hhs). pose proof (S k) as Sk. rewrite Hhs in Sk.
  unfold slotAt. destruct (lookupState k (rl_states acc)) as [hs'|]; [|contradiction].
  destruct (nth_error hs' hover) as [state|] eqn:N.
  - destruct (hs_texture state);
      destruct (negb (truthyQ (b_width (layout k hover))) ||
                negb (truthyQ (b_height (layout k hover))));
      cbn [rl_threw rl_states]; split; try reflexivity; try exact S;
      (eapply sameShape_trans; [exact S | apply sameShape_updateSlot]).
  - apply nth_error_None in N. lia.
Qed.

Lemma rasterizeStates_noThrow layout h acc :
  cacheCovers h (rl_states acc) -> rl_threw acc = false ->
  rl_threw (rasterizeStates layout h acc) = false.
Proof.
  intros Hc T. unfold rasterizeStates.
  apply (fold_left_invariant
           (fun a => rl_threw a = false /\ sameShape (rl_states acc) (rl_states a))).
  - intros a k Hk Ha. apply fold_left_invariant; [|exact Ha].
    intros a' hover Hh Ha'.
    apply (rasterizeSlot_noThrow layout (rl_states acc) (slotCount h));
      try assumption. intros hs. apply Hc.
  - split; [exact T | apply sameShape_refl].
Qed.

Lemma runRenders_allOk rs c : snd (runRenders (fun _ => true) rs c) = false.
Proof.
  revert c; induction rs as [|r rs IH]; intros c; cbn [runRenders]; [reflexivity|].
  apply IH.
Qed.

(** A layer with all its slots, a barrier that resolves and renders that
    succeed: the promise of [_rasterize] resolves, whatever the probe
    reports. *)
Lemma rasterizeLayer_resolves layout d w :
  String.eqb (nodeName (edata (getElement (element d) (dom w)))) "video" = false ->
  cacheCovers (_hoverDepth d) (_states d) ->
  snd (rasterizeLayer layout true (fun _ => true) d w) = false.
Proof.
  intros Hv Hc. unfold rasterizeLayer. rewrite Hv.
  rewrite (rasterizeStates_noThrow layout (_hoverDepth d)
             (mkLoop (_states d) (nextTexture w) [] false false) Hc eq_refl).
  pose proof (runRenders_allOk
                (rl_renderFunctions
                   (rasterizeStates layout (_hoverDepth d)
                      (mkLoop (_states d) (nextTexture w) [] false false)))
                (rl_states
                   (rasterizeStates layout (_hoverDepth d)
                      (mkLoop (_states d) (nextTexture w) [] false false)))) as R.
  destruct (runRenders _ _ _) as [c threw]. exact R.
Qed.

(** ** [_updateState] and the cache *)

Lemma cleanupStates_lookup states c log c' log' k :
  cleanupStates states c log = Ok (c', log') ->
  lookupState k c' = if inb k states then lookupState k c else None.
Proof.
  revert log c' log'. induction c as [|[k0 hs0] c IH]; intros log c' log' H;
    cbn [cleanupStates] in H.
  - inversion H; subst. cbn. destruct (inb k states); reflexivity.
  - destruct (inb k0 states) eqn:E0.
    + inv_bind H. destruct a as [c1 log1]. cbn [fst snd] in H.
      inversion H; subst c' log'; clear H. cbn [lookupState].
      destruct (String.eqb k k0) eqn:Ek.
      * apply String.eqb_eq in Ek; subst k0. rewrite E0. reflexivity.
      * exact (IH _ _ _ Ha).
    + inv_bind H. cbn [lookupState].
      destruct (String.eqb k k0) eqn:Ek.
      * apply String.eqb_eq in Ek; subst k0. rewrite E0.
        rewrite (IH _ _ _ H), E0. reflexivity.
      * exact (IH _ _ _ H).
Qed.

Lemma lookupState_app k c k' v :
  lookupState k (c ++ [(k', v)]) =
  match lookupState k c with
  | Some x => Some x
  | None => if String.eqb k k' then Some v else None
  end.
Proof.
  induction c as [|[k0 v0] c IH]; cbn [app lookupState]; [reflexivity|].
  destruct (String.eqb k k0); [reflexivity | exact IH].
Qed.

Lemma lookupState_insertIndexed n k c k' v :
  lookupState k' c = None ->
  lookupState k (insertIndexed n k' v c) =
  if String.eqb k k' then Some v else lookupState k c.
Proof.
  induction c as [|[k0 v0] c IH]; cbn [insertIndexed lookupState]; [reflexivity|].
  destruct (String.eqb k' k0) eqn:E0; [discriminate|]. intros H.
  assert (X : lookupState k ((k', v) :: (k0, v0) :: c) =
              if String.eqb k k' then Some v else lookupState k ((k0, v0) :: c))
    by reflexivity.
  destruct (arrayIndex k0) as [m|]; [|exact X].
  destruct (m <? n)%N; [|exact X].
  cbn [lookupState]. rewrite (IH H).
  destruct (String.eqb k k0) eqn:E1; [|reflexivity].
  destruct (String.eqb k k') eqn:E2; [|reflexivity].
  apply String.eqb_eq in E1, E2. subst. rewrite String.eqb_refl in E0. discriminate.
Qed.

Lemma lookupState_insertState k c k' v :
  lookupState k' c = None ->
  lookupState k (insertState k' v c) =
  if String.eqb k k' then Some v else lookupState k c.
Proof.
  intros H. unfold insertState. destruct (arrayIndex k') as [n|].
  - exact (lookupState_insertIndexed n k c k' v H).
  - rewrite lookupState_app. destruct (lookupState k c) eqn:E; [|reflexivity].
    destruct (String.eqb k k') eqn:E2; [|reflexivity].
    apply String.eqb_eq in E2. subst. congruence.
Qed.

Lemma createStates_lookup h states c k :
  lookupState k (createStates h states c) =
  match lookupState k c with
  | Some hs => Some hs
  | None => if inb k states && negb (inherited k) then Some (freshSlots h) else None
  end.
Proof.
  revert c. induction states as [|s states IH]; intros c; cbn [createStates].
  - destruct (lookupState k c); reflexivity.
  - unfold inb at 1. cbn [existsb]. fold (inb k states).
    destruct (lookupState s c) as [hs|] eqn:Es.
    + rewrite IH. destruct (lookupState k c) eqn:Ek; [reflexivity|].
      destruct (String.eqb k s) eqn:E; [|reflexivity].
      apply String.eqb_eq in E; subst s. congruence.
    + destruct (inherited s) eqn:Hs.
      * rewrite IH. destruct (lookupState k c) eqn:Ek; [reflexivity|].
        destruct (String.eqb k s) eqn:E; [|reflexivity].
        apply String.eqb_eq in E; subst s. rewrite Hs.
        rewrite andb_false_r. reflexivity.
      * rewrite IH, (lookupState_insertState k c s _ Es).
        destruct (String.eqb k s) eqn:E.
        -- apply String.eqb_eq in E; subst s. rewrite Es, Hs. reflexivity.
        -- destruct (lookupState k c); reflexivity.
Qed.

Lemma inb_default states : inb "" (states ++ [""]) = true.
Proof.
  unfold inb. rewrite existsb_app. cbn. apply orb_true_r.
Qed.


(** What [_updateState] leaves in the cache: the declared states that were
    cached keep their slots, the others get fresh ones unless their name is
    one of [Object.prototype], the rest is gone. *)
Lemma _updateState_cache d w d1 w1 k :
  _updateState d w = Ok (d1, w1) ->
  let e := edata (getElement (element d) (dom w)) in
  lookupState k (_states d1) =
  if inb k (declaredStates e)
  then match lookupState k (_states d) with
       | Some hs => Some hs
       | None => if inherited k then None else Some (freshSlots (hoverDepthAttribute e))
       end
  else None.
Proof.
  unfold _updateState. intros H. inv_bind H. destruct a as [c log].
  inversion H; subst d1 w1; clear H. cbn [fst snd _states set_states].
  cbn [_states set_state set_hoverDepth] in Ha.
  rewrite createStates_lookup. rewrite (cleanupStates_lookup _ _ _ _ _ k Ha).
  cbn [_hoverDepth set_state set_hoverDepth].
  destruct (inb k (declaredStates _)); [|reflexivity].
  destruct (lookupState k (_states d)); [reflexivity|].
  cbn [andb]. destruct (inherited k); reflexivity.
Qed.



(** ** Trees of the same shape *)

Section Related.
Variable R : LayerData -> LayerData -> Prop.

Lemma related_refl : (forall d, R d d) -> forall l, related R l l.
Proof.
  intros Hr l. induction l as [d cs IH] using Layer_ind.
  constructor; [apply Hr|]. induction IH; constructor; assumption.
Qed.

Lemma Forall2_related_refl : (forall d, R d d) -> forall cs, Forall2 (related R) cs cs.
Proof.
  intros Hr cs. induction cs; constructor; [now apply related_refl | assumption].
Qed.

Lemma related_mapLayers g : (forall d, R d (g d)) -> forall l, related R l (mapLayers g l).
Proof.
  intros Hg l. induction l as [d cs IH] using Layer_ind. cbn [mapLayers].
  constructor; [apply Hg|]. induction IH; cbn [List.map]; constructor; assumption.
Qed.

Lemma related_data l l' : related R l l' -> R (data l) (data l').
Proof. intros H; inversion H; subst; assumption. Qed.

Hypothesis R_id : forall d d', R d d' -> id d' = id d.

(** [getObjectById] finds corresponding objects in related trees. *)
Lemma getObjectById_related i l :
  forall l', related R l l' ->
  match getObjectById i l, getObjectById i l' with
  | Some x, Some x' => related R x x'
  | None, None => True
  | _, _ => False
  end.
Proof.
  induction l as [d cs IH] using Layer_ind. intros l' H.
  inversion H as [d0 d' cs0 cs' Hd Hcs]; subst. cbn [getObjectById].
  rewrite (R_id _ _ Hd). destruct (Nat.eqb (id d) i); [exact H|].
  clear H Hd. revert cs' Hcs.
  induction IH as [|c rest Hc _ IHrest]; intros cs' Hcs; inversion Hcs; subst; [exact I|].
  match goal with Hx : related R c ?y |- _ => specialize (Hc _ Hx) end.
  destruct (getObjectById i c), (getObjectById i y); try contradiction; [exact Hc|].
  now apply IHrest.
Qed.

Hypothesis R_refl : forall d, R d d.

(** Rewriting the object that [getObjectById] finds keeps trees related. *)
Lemma updateObjectById_related i g :
  (forall x, related R x (g x)) ->
  forall l l', updateObjectById i g l = Some l' -> related R l l'.
Proof.
  intros Hg l. induction l as [d cs IH] using Layer_ind. intros l'.
  cbn [updateObjectById]. destruct (Nat.eqb (id d) i).
  - intros E; inversion E; subst. apply Hg.
  - match goal with
    | |- match ?x with _ => _ end = _ -> _ => destruct x as [cs'|] eqn:E
    end; [|discriminate].
    intros E'; inversion E'; subst l'; clear E'.
    constructor; [apply R_refl|].
    revert cs' E. induction IH as [|c rest Hc _ IHrest]; intros cs' E; [discriminate|].
    destruct (updateObjectById i g c) as [c'|] eqn:Ec.
    + inversion E; subst cs'. constructor; [now apply Hc|].
      now apply Forall2_related_refl.
    + match type of E with
      | match ?x with _ => _ end = _ => destruct x as [rest'|] eqn:Er
      end; [|discriminate].
      inversion E; subst cs'. constructor; [now apply related_refl | now apply IHrest].
Qed.

Lemma related_applyById i g :
  (forall x, related R x (g x)) -> forall l, related R l (applyById i g l).
Proof.
  intros Hg l. unfold applyById.
  destruct (updateObjectById i g l) as [l'|] eqn:E.
  - exact (updateObjectById_related i g Hg l l' E).
  - now apply related_refl.
Qed.

End Related.

Lemma getObjectById_id i l x : getObjectById i l = Some x -> id (data x) = i.
Proof.
  revert x. induction l as [d cs IH] using Layer_ind. intros x. cbn [getObjectById].
  destruct (Nat.eqb (id d) i) eqn:E.
  - intros H; inversion H; subst. now apply Nat.eqb_eq in E.
  - induction IH as [|c rest Hc _ IHrest]; [discriminate|].
    destruct (getObjectById i c) as [r|] eqn:Ec.
    + intros H; inversion H; subst. now apply Hc.
    + exact IHrest.
Qed.

Lemma updateObjectById_None i g l :
  getObjectById i l = None -> updateObjectById i g l = None.
Proof.
  induction l as [d cs IH] using Layer_ind. cbn [getObjectById updateObjectById].
  destruct (Nat.eqb (id d) i); [discriminate|].
  intros H.
  match goal with
  | |- match ?x with _ => _ end = _ => assert (E : x = None); [|rewrite E; reflexivity]
  end.
  induction IH as [|c rest Hc _ IHrest]; [reflexivity|].
  destruct (getObjectById i c) as [r|] eqn:Ec; [discriminate|].
  rewrite (Hc eq_refl). rewrite (IHrest H). reflexivity.
Qed.

(** After [applyById i g], [getObjectById i] finds the rewritten object. *)
Lemma getObjectById_applyById i g l x :
  getObjectById i l = Some x -> id (data (g x)) = i ->
  getObjectById i (applyById i g l) = Some (g x).
Proof.
  intros Hx Hg. unfold applyById.
  assert (G : forall l, getObjectById i l = Some x ->
                        exists l', updateObjectById i g l = Some l' /\
                                   getObjectById i l' = Some (g x)).
  { clear l Hx. intros l. induction l as [d cs IH] using Layer_ind.
    cbn [getObjectById updateObjectById]. destruct (Nat.eqb (id d) i) eqn:E.
    - intros H; inversion H; subst x. eexists; split; [reflexivity|].
      destruct (g (Node d cs)) as [d' cs'] eqn:Eg. cbn [getObjectById].
      cbn [data] in Hg. rewrite Hg, Nat.eqb_refl. reflexivity.
    - intros H.
      assert (K : exists cs',
                 (fix go (cs : list Layer) : option (list Layer) :=
                    match cs with
                    | [] => None
                    | c :: rest =>
                        match updateObjectById i g c with
                        | Some c' => Some (c' :: rest)
                        | None => match go rest with
                                  | Some rest' => Some (c :: rest')
                                  | None => None
                                  end
                        end
                    end) cs = Some cs' /\
                 (fix go (cs : list Layer) : option Layer :=
                    match cs with
                    | [] => None
                    | c :: rest => match getObjectById i c with
                                   | Some r => Some r
                                   | None => go rest
                                   end
                    end) cs' = Some (g x)).
      { induction IH as [|c rest Hc _ IHrest]; [discriminate|].
        destruct (getObjectById i c) as [r|] eqn:Ec.
        - inversion H; subst r. destruct (Hc eq_refl) as (c' & U & G').
          rewrite U. eexists; split; [reflexivity|]. cbn. rewrite G'. reflexivity.
        - rewrite (updateObjectById_None i g c Ec).
          destruct (IHrest H) as (rest' & U & G'). rewrite U.
          eexists; split; [reflexivity|]. cbn. rewrite Ec. exact G'. }
      destruct K as (cs' & U & G'). rewrite U. eexists; split; [reflexivity|].
      cbn [getObjectById]. rewrite E. exact G'. }
  destruct (G l Hx) as (l' & U & G'). rewrite U. exact G'.
Qed.

(** ** Mutation records *)

Lemma related_trans (R : LayerData -> LayerData -> Prop) :
  (forall a b c, R a b -> R b c -> R a c) ->
  forall l1 l2 l3, related R l1 l2 -> related R l2 l3 -> related R l1 l3.
Proof.
  intros Ht l1. induction l1 as [d cs IH] using Layer_ind. intros l2 l3 H12 H23.
  inversion H12 as [d1 d2 cs1 cs2 Hd Hcs]; subst.
  inversion H23 as [d2' d3 cs2' cs3 Hd' Hcs']; subst.
  constructor; [eapply Ht; eassumption|].
  clear H12 H23 Hd Hd'. revert cs2 cs3 Hcs Hcs'.
  induction IH as [|c rest Hc _ IHrest]; intros cs2 cs3 Hcs Hcs';
    inversion Hcs; subst; inversion Hcs'; subst; constructor.
  - eapply Hc; eassumption.
  - eapply IHrest; eassumption.
Qed.

Lemma allLayers_related (R : LayerData -> LayerData -> Prop) (P : LayerData -> Prop) :
  (forall d d', R d d' -> P d -> P d') ->
  forall l l', related R l l' -> allLayers P l -> allLayers P l'.
Proof.
  intros HP l. induction l as [d cs IH] using Layer_ind. intros l' Hr Ha.
  inversion Hr as [d0 d' cs0 cs' Hd Hcs]; subst.
  inversion Ha as [d0 cs0 Pd Pcs]; subst.
  constructor; [eapply HP; eassumption|].
  clear Hr Ha Hd Pd. revert cs' Hcs Pcs.
  induction IH as [|c rest Hc _ IHrest]; intros cs' Hcs Pcs;
    inversion Hcs; subst; constructor; inversion Pcs; subst.
  - now apply Hc.
  - now apply IHrest.
Qed.

Lemma allLayers_mapLayers (P : LayerData -> Prop) g :
  (forall d, P (g d)) -> forall l, allLayers P (mapLayers g l).
Proof.
  intros Hg l. induction l as [d cs IH] using Layer_ind. cbn [mapLayers].
  constructor; [apply Hg|]. induction IH; cbn [List.map]; constructor; assumption.
Qed.

Lemma dirtied_refl d : dirtied d d.
Proof. split; [destruct d; reflexivity | auto]. Qed.

Lemma dirtied_trans a b c : dirtied a b -> dirtied b c -> dirtied a c.
Proof.
  intros [H1 H1'] [H2 H2']. split; [|auto].
  rewrite H2. rewrite H1 at 1. reflexivity.
Qed.

Lemma dirtied_id d d' : dirtied d d' -> id d' = id d.
Proof. intros [H _]. rewrite H. reflexivity. Qed.

Lemma dirtied_fields d d' :
  dirtied d d' -> _states d' = _states d /\ element d' = element d.
Proof. intros [H _]. rewrite H. split; reflexivity. Qed.

Lemma dirtied_set d : dirtied d (set_needsRasterize true d).
Proof. split; reflexivity. Qed.

Lemma dirtied_setLayerNeedsRasterize target d : dirtied d (setLayerNeedsRasterize target d).
Proof.
  unfold setLayerNeedsRasterize.
  destruct (contains target (element d)); [apply dirtied_set | apply dirtied_refl].
Qed.

Lemma dirtySubtree_related target x : related dirtied x (dirtySubtree target x).
Proof.
  destruct x as [d cs]. unfold dirtySubtree.
  apply related_trans with (l2 := Node (set_needsRasterize true d) cs);
    [exact dirtied_trans | | apply related_mapLayers; apply dirtied_setLayerNeedsRasterize].
  constructor; [apply dirtied_set | apply Forall2_related_refl; exact dirtied_refl].
Qed.

Lemma dirtySubtree_effect target x :
  needsRasterize (data (dirtySubtree target x)) = true /\
  id (data (dirtySubtree target x)) = id (data x) /\
  allLayers (dirtyInside target) (dirtySubtree target x).
Proof.
  destruct x as [d cs]. unfold dirtySubtree. split; [|split].
  - cbn [mapLayers data]. unfold setLayerNeedsRasterize.
    destruct (contains target _); reflexivity.
  - cbn [mapLayers data]. unfold setLayerNeedsRasterize.
    destruct (contains target _); reflexivity.
  - apply allLayers_mapLayers. intros d0. unfold dirtyInside, setLayerNeedsRasterize.
    destruct (contains target (element d0)) eqn:E; cbn; [reflexivity|].
    rewrite E. discriminate.
Qed.

Lemma processRecord_related dom this r : related dirtied this (processRecord dom this r).
Proof.
  unfold processRecord.
  destruct (recordTarget dom r) as [t|]; [|apply related_refl; exact dirtied_refl].
  destruct (getLayerForElement t dom this) as [layer|];
    [|apply related_refl; exact dirtied_refl].
  match goal with |- context [if ?c then _ else _] => destruct c end;
    [|apply related_refl; exact dirtied_refl].
  apply related_applyById; [exact dirtied_refl|]. apply dirtySubtree_related.
Qed.

Lemma processRecords_related dom records :
  forall this, related dirtied this (fold_left (processRecord dom) records this).
Proof.
  induction records as [|r records IH]; intros this; cbn [fold_left].
  - apply related_refl; exact dirtied_refl.
  - eapply related_trans; [exact dirtied_trans | apply processRecord_related | apply IH].
Qed.

Lemma getLayerForElement_related t dom this this' layer :
  related dirtied this this' ->
  getLayerForElement t dom this = Some layer ->
  exists layer', getLayerForElement t dom this' = Some layer' /\
                 related dirtied layer layer'.
Proof.
  unfold getLayerForElement. intros Hr.
  destruct (closestLayerElement t dom) as [e|]; [|discriminate].
  destruct (layerAttribute e) as [[i|]|]; try discriminate.
  intros H. pose proof (getObjectById_related dirtied dirtied_id i this this' Hr) as G.
  rewrite H in G. destruct (getObjectById i this') as [layer'|]; [|contradiction].
  eauto.
Qed.

Lemma getLayerForElement_found t dom this layer :
  getLayerForElement t dom this = Some layer ->
  getObjectById (id (data layer)) this = Some layer.
Proof.
  unfold getLayerForElement.
  destruct (closestLayerElement t dom) as [e|]; [|discriminate].
  destruct (layerAttribute e) as [[i|]|]; try discriminate.
  intros H. rewrite (getObjectById_id _ _ _ H). exact H.
Qed.

(** A record that survives the filters dirties the layer that owns its
    target and the layers below it whose element the target contains. *)
Lemma processRecord_effect dom this r t layer :
  recordTarget dom r = Some t ->
  getLayerForElement t dom this = Some layer ->
  recordDirties (_states (data layer)) (edata (getElement t dom)) r = true ->
  exists layer',
    getObjectById (id (data layer)) (processRecord dom this r) = Some layer' /\
    needsRasterize (data layer') = true /\
    allLayers (dirtyInside (getElement t dom)) layer'.
Proof.
  intros Ht Hl Hd. unfold processRecord. rewrite Ht, Hl.
  assert (E : match r with
              | ClassAttributeRecord _ old =>
                  classChangeNeedsRasterize (_states (data layer)) old
                    (edata (getElement t dom))
              | _ => true
              end = true) by (destruct r; exact Hd).
  rewrite E.
  destruct (dirtySubtree_effect (getElement t dom) layer) as (D1 & D2 & D3).
  exists (dirtySubtree (getElement t dom) layer). split; [|split; assumption].
  apply getObjectById_applyById; [now apply getLayerForElement_found with (t := t) (dom := dom)|].
  exact D2.
Qed.

Lemma processRecords_effect w records this r t layer :
  _isUpdating w = false ->
  In r records ->
  recordTarget (dom w) r = Some t ->
  getLayerForElement t (dom w) this = Some layer ->
  recordDirties (_states (data layer)) (edata (getElement t (dom w))) r = true ->
  exists layer',
    getObjectById (id (data layer)) (_processMutations w records this) = Some layer' /\
    needsRasterize (data layer') = true /\
    allLayers (dirtyInside (getElement t (dom w))) layer'.
Proof.
  intros Hu Hin Ht Hl Hd. unfold _processMutations. rewrite Hu.
  destruct (in_split _ _ Hin) as (pre & post & E). subst records.
  rewrite fold_left_app. cbn [fold_left].
  set (mid := fold_left (processRecord (dom w)) pre this).
  destruct (getLayerForElement_related t (dom w) this mid layer
              (processRecords_related (dom w) pre this) Hl) as (layer1 & L1 & R1).
  pose proof (related_data _ _ _ R1) as D1.
  destruct (dirtied_fields _ _ D1) as (S1 & _).
  rewrite <- S1 in Hd.
  destruct (processRecord_effect (dom w) mid r t layer1 Ht L1 Hd) as (layer2 & G2 & N2 & A2).
  rewrite (dirtied_id _ _ D1) in G2.
  pose proof (getObjectById_related dirtied dirtied_id (id (data layer))
                (processRecord (dom w) mid r)
                (fold_left (processRecord (dom w)) post (processRecord (dom w) mid r))
                (processRecords_related (dom w) post _)) as G3.
  rewrite G2 in G3.
  destruct (getObjectById _ (fold_left _ post _)) as [layer3|]; [|contradiction].
  exists layer3. split; [reflexivity|]. split.
  - destruct (related_data _ _ _ G3) as [_ M]. now apply M.
  - refine (allLayers_related dirtied _ _ _ _ G3 A2).
    intros d d' [Hd1 Hd2] Pd Hc. apply Hd2, Pd. rewrite Hd1 in Hc. exact Hc.
Qed.

(** ** [refresh] over the tree *)

Lemma forEachChild_invariant (step : Layer -> World -> Result (Layer * World))
  (R : Layer -> Layer -> Prop) (I : World -> World -> Prop) :
  (forall w, I w w) -> (forall a b c, I a b -> I b c -> I a c) ->
  forall cs w,
    (forall c w0 c' w0',
       In c cs -> I w w0 -> step c w0 = Ok (c', w0') -> R c c' /\ I w0 w0') ->
    forall cs' w', forEachChild step cs w = Ok (cs', w') -> Forall2 R cs cs' /\ I w w'.
Proof.
  intros Irefl Itrans cs. induction cs as [|c cs IH]; intros w Hstep cs' w' H;
    cbn [forEachChild] in H.
  - inversion H; subst. split; [constructor | apply Irefl].
  - inv_bind H. destruct a as [c1 w1]. inv_bind H. destruct a as [cs1 w2].
    cbn [fst snd] in *. inversion H; subst cs' w'; clear H.
    destruct (Hstep c w c1 w1 (or_introl eq_refl) (Irefl w) Ha) as [Rc Iw].
    destruct (IH w1
                (fun c0 w0 c0' w0' Hin Hw =>
                   Hstep c0 w0 c0' w0' (or_intror Hin) (Itrans _ _ _ Iw Hw))
                cs1 w2 Ha0) as [Rcs Iw'].
    split; [constructor; assumption | eapply Itrans; eassumption].
Qed.

Lemma Forall2_Forall_r {A B : Type} (P : B -> Prop) (l : list A) (l' : list B) :
  Forall2 (fun _ y => P y) l l' -> Forall P l'.
Proof. induction 1; constructor; assumption. Qed.

(** Every layer of the tree is clean once [refresh] has returned. *)
Lemma refresh_cleans fuel :
  forall force parent l w l' w',
    refresh fuel force parent l w = Ok (l', w') -> allLayers clean l'.
Proof.
  induction fuel as [|fuel IH]; intros force parent l w l' w' H; [discriminate|].
  destruct l as [d cs]. apply refresh_inv in H.
  destruct H as (d1 & w1 & d2 & l3 & w3 & cs4 & d5 & d6 & S1 & S2 & S3 & S4 & S5 & S6 & S7).
  subst l'.
  destruct (refresh_node _ _ _ _ _ _ S3) as (_ & _ & N3 & _).
  destruct (_updateTargetLayout_inputs _ _ _ S5) as (_ & I2 & _).
  destruct (_updateMesh_cases _ _ _ S6) as (_ & M2 & _).
  constructor.
  - unfold clean. rewrite M2, I2. exact N3.
  - apply (Forall2_Forall_r (allLayers clean) (children l3) cs4).
    refine (proj1 (forEachChild_invariant _ (fun _ y => allLayers clean y)
                     (fun _ _ => True) _ _ (children l3) w3 _ cs4 w' S4)); auto.
    intros c w0 c' w0' _ _ Hc. split; [|exact I]. exact (IH _ _ _ _ _ _ Hc).
Qed.

Lemma sameButDisposed_refl w : sameButDisposed w w.
Proof. repeat split. Qed.

Lemma sameButDisposed_trans a b c :
  sameButDisposed a b -> sameButDisposed b c -> sameButDisposed a c.
Proof.
  unfold sameButDisposed. intros (A1 & A2 & A3 & A4 & A5) (B1 & B2 & B3 & B4 & B5).
  repeat split; congruence.
Qed.

Lemma map_texture_replaceNth hs n s b :
  nth_error hs n = Some s ->
  List.map hs_texture (replaceNth n (mkHoverState (hs_texture s) b) hs) =
  List.map hs_texture hs.
Proof.
  revert n. induction hs as [|x hs IH]; intros [|n] H; cbn in *; try discriminate.
  - inversion H; subst. reflexivity.
  - f_equal. now apply IH.
Qed.

(** writing bounds into a slot changes no texture of the cache. *)
Lemma updateSlot_bounds_textures k n b c k' :
  match lookupState k' c,
        lookupState k' (updateSlot k n (fun s => mkHoverState (hs_texture s) b) c) with
  | Some hs, Some hs' => List.map hs_texture hs' = List.map hs_texture hs
  | None, None => True
  | _, _ => False
  end.
Proof.
  unfold updateSlot.
  destruct (lookupState k c) as [hs|] eqn:Hk;
    [destruct (nth_error hs n) as [s|] eqn:Hn|].
  - rewrite lookupState_replaceState, Hk.
    destruct (String.eqb k' k) eqn:E.
    + apply String.eqb_eq in E; subst k'. rewrite Hk.
      now apply map_texture_replaceNth.
    + destruct (lookupState k' c); auto.
  - destruct (lookupState k' c); auto.
  - destruct (lookupState k' c); auto.
Qed.

(** One node of a pass over a clean tree. *)
Lemma refresh_clean_node fuel parent d cs w l' w' :
  clean d ->
  refresh (S fuel) false parent (Node d cs) w = Ok (l', w') ->
  exists w1 d3 cs4,
    resynced (dom w) d (data l') /\ sameButDisposed w w1 /\
    forEachChild (refresh fuel false (Some d3)) cs w1 = Ok (cs4, w') /\
    l' = Node (data l') cs4.
Proof.
  intros Hc H. apply refresh_inv in H.
  destruct H as (d1 & w1 & d2 & l3 & w3 & cs4 & d5 & d6 & S1 & S2 & S3 & S4 & S5 & S6 & S7).
  subst l'. cbn [data].
  destruct (_updateState_fields _ _ _ _ S1)
    as (F1 & F2 & F3 & F4 & F5 & F6 & F7 & F8 & F9 & F10 & F11 & F12 & F13).
  destruct (_updateBounds_spec _ _ _ S2) as (_ & _ & _ & _ & B5).
  assert (C2 : needsRasterize d2 = false).
  { rewrite B5. cbn [needsRasterize set_states]. rewrite F4. exact Hc. }
  destruct (refresh_node _ _ _ _ _ _ S3) as (_ & _ & _ & N4).
  rewrite C2 in N4. destruct (N4 eq_refl) as [E3 E3']. subst l3 w3. cbn [data children] in *.
  destruct (_updateTargetLayout_inputs _ _ _ S5) as (I1 & I2 & I3 & I4 & I5 & _).
  destruct (_updateMesh_cases _ _ _ S6) as (M1 & M2 & M3 & M4 & M5 & _).
  exists w1, d2, cs4. split; [|split; [|split]].
  - assert (L : layoutInputs d6 = layoutInputs d2) by (rewrite M1; exact I1).
    unfold layoutInputs in L. inversion L as [[L1 L2 L3 L4 L5 L6 L7]].
    unfold resynced. cbv zeta.
    assert (Eid : id d2 = id d1) by (rewrite B5; reflexivity).
    assert (Eel : element d2 = element d1) by (rewrite B5; reflexivity).
    assert (Eho : _hover d2 = _hover d1) by (rewrite B5; reflexivity).
    assert (Est : _state d2 = _state d1) by (rewrite B5; reflexivity).
    split; [rewrite M4, I4, Eid; exact F2|].
    split; [rewrite M5, I5, Eel; exact F1|].
    split; [rewrite L3, Eho; exact F3|].
    split; [rewrite M2, I2; exact C2|].
    split.
    + rewrite L2, Est.
      unfold _updateState in S1. inv_bind S1. inversion S1; subst d1. reflexivity.
    + intros k hs Hd Hk. rewrite L1.
      pose proof (_updateState_cache _ _ _ _ k S1) as U. cbv zeta in U.
      rewrite Hd, Hk in U.
      unfold _updateBounds in S2. inv_bind S2. destruct a as [k0 n0].
      inversion S2; subst d2. cbn [_states set_states fst snd].
      pose proof (updateSlot_bounds_textures k0 n0
                    (Some (getBounds (edata (getElement (element d1) (dom w1)))))
                    (_states d1) k) as T.
      rewrite U in T.
      destruct (lookupState k (updateSlot k0 n0 _ (_states d1))) as [hs'|];
        [|contradiction].
      exists hs'. split; [reflexivity | exact T].
  - unfold sameButDisposed. unfold _updateState in S1. inv_bind S1.
    inversion S1; subst. repeat split.
  - exact S4.
  - reflexivity.
Qed.
(** A pass of [refresh(false)] over a clean tree: the tree keeps its
    shape, each layer is resynchronised with its element, and of the world
    only the log of disposed textures may change. *)
Lemma refresh_clean fuel :
  forall parent l w l' w',
    allLayers clean l ->
    refresh fuel false parent l w = Ok (l', w') ->
    related (resynced (dom w)) l l' /\ sameButDisposed w w'.
Proof.
  induction fuel as [|fuel IH]; intros parent l w l' w' Hc H; [discriminate|].
  destruct l as [d cs]. inversion Hc as [d0 cs0 Hd Hcs]; subst.
  destruct (refresh_clean_node _ _ _ _ _ _ _ Hd H) as (w1 & d3 & cs4 & R1 & W1 & F & E).
  assert (K : forall c w0 c' w0',
             In c cs -> sameButDisposed w1 w0 ->
             refresh fuel false (Some d3) c w0 = Ok (c', w0') ->
             related (resynced (dom w)) c c' /\ sameButDisposed w0 w0').
  { intros c w0 c' w0' Hin Hw Hstep.
    rewrite Forall_forall in Hcs.
    destruct (IH _ _ _ _ _ (Hcs c Hin) Hstep) as [Rc Wc].
    split; [|exact Wc].
    destruct W1 as (D1 & _). destruct Hw as (D0 & _).
    rewrite D0, D1 in Rc. exact Rc. }
  destruct (forEachChild_invariant (refresh fuel false (Some d3))
              (related (resynced (dom w))) sameButDisposed
              sameButDisposed_refl sameButDisposed_trans cs w1 K cs4 w' F)
    as [Rcs W2].
  split; [|eapply sameButDisposed_trans; eassumption].
  rewrite E. constructor; assumption.
Qed.

(** ** No layer is lost, no removal mark is taken back *)

Lemma kept_refl d : kept d d.
Proof. split; auto. Qed.

Lemma kept_trans a b c : kept a b -> kept b c -> kept a c.
Proof. intros [A1 A2] [B1 B2]. split; [congruence | auto]. Qed.

Lemma related_weaken (R R' : LayerData -> LayerData -> Prop) :
  (forall d d', R d d' -> R' d d') -> forall l l', related R l l' -> related R' l l'.
Proof.
  intros HR l. induction l as [d cs IH] using Layer_ind. intros l' H.
  inversion H as [d0 d' cs0 cs' Hd Hcs]; subst.
  constructor; [now apply HR|].
  clear H Hd. revert cs' Hcs.
  induction IH as [|c rest Hc _ IHrest]; intros cs' Hcs; inversion Hcs; subst;
    constructor; [now apply Hc | now apply IHrest].
Qed.

Lemma dirtied_kept d d' : dirtied d d' -> kept d d'.
Proof. intros [H _]. rewrite H. split; auto. Qed.

Lemma _markForRemoval_related l : related kept l (_markForRemoval l).
Proof.
  induction l as [d cs IH] using Layer_ind. cbn [_markForRemoval].
  constructor; [split; [reflexivity | reflexivity]|].
  induction IH; cbn [List.map]; constructor; assumption.
Qed.


Lemma _processMutations_kept w records root :
  related kept root (_processMutations w records root).
Proof.
  unfold _processMutations. destruct (_isUpdating w).
  - apply related_refl; exact kept_refl.
  - apply (related_weaken dirtied kept dirtied_kept). apply processRecords_related.
Qed.

Lemma rasterizeLayer_kept layout ready backend d w :
  kept d (fst (fst (rasterizeLayer layout ready backend d w))).
Proof.
  unfold rasterizeLayer.
  destruct (String.eqb _ "video").
  - destruct (slotAt "" 0 (_states d)) as [s|]; [|apply kept_refl].
    destruct (hs_texture s); cbn [fst]; split; auto.
  - match goal with |- context [if ?c then _ else _] => destruct c end;
      [cbn [fst]; split; auto|].
    destruct ready; [|cbn [fst]; split; auto].
    destruct (runRenders _ _ _). cbn [fst]. split; auto.
Qed.

Lemma _rasterize_kept pending layout ready backend i root w :
  related kept root (fst (fst (_rasterize pending layout ready backend i root w))).
Proof.
  unfold _rasterize.
  destruct (getObjectById i root) as [[d cs]|];
    [|apply related_refl; exact kept_refl].
  match goal with
  | |- context [if ?c then root else ?x] => set (root1 := if c then root else x)
  end.
  assert (K : related kept root root1).
  { unfold root1. destruct (String.eqb _ "video");
      [apply related_refl; exact kept_refl | apply _processMutations_kept]. }
  destruct (getObjectById i root1) as [[d1 cs1]|]; cbn [fst]; [|exact K].
  eapply related_trans; [exact kept_trans | exact K |].
  apply related_applyById; [exact kept_refl|].
  intros [dx csx]. cbn [data children].
  constructor; [apply rasterizeLayer_kept | apply Forall2_related_refl; exact kept_refl].
Qed.

(** *** [refresh] *)

Lemma layoutInputs_fields_removal d d' :
  layoutInputs d' = layoutInputs d -> _needsRemoval d' = _needsRemoval d.
Proof.
  unfold layoutInputs. intros H. inversion H as [[H1 H2 H3 H4 H5 H6 H7]]. reflexivity.
Qed.


Lemma related_grows l l' : related kept l l' -> grows l l'.
Proof.
  revert l'. induction l as [d cs IH] using Layer_ind. intros l' H.
  inversion H as [d0 d' cs0 cs' Hd Hcs]; subst.
  rewrite <- (app_nil_r cs'). constructor; [exact Hd|].
  clear H Hd. revert cs' Hcs.
  induction IH as [|c rest Hc _ IHrest]; intros cs' Hcs; inversion Hcs; subst;
    constructor; [now apply Hc | now apply IHrest].
Qed.

Lemma related_then_grows l1 :
  forall l2 l3, related kept l1 l2 -> grows l2 l3 -> grows l1 l3.
Proof.
  induction l1 as [d cs IH] using Layer_ind. intros l2 l3 H12 H23.
  inversion H12 as [d1 d2 cs1 cs2 Hd Hcs]; subst.
  inversion H23 as [d2' d3 cs2' cs3 news Hd' Hcs']; subst.
  constructor; [eapply kept_trans; eassumption|].
  clear H12 H23 Hd Hd'. revert cs2 cs3 Hcs Hcs'.
  induction IH as [|c rest Hc _ IHrest]; intros cs2 cs3 Hcs Hcs';
    inversion Hcs; subst; inversion Hcs'; subst; constructor.
  - eapply Hc; eassumption.
  - eapply IHrest; eassumption.
Qed.

Lemma markMissing_related old this : related kept this (markMissing old this).
Proof.
  unfold markMissing. revert this. induction old as [|c old IH]; intros this;
    cbn [fold_left]; [apply related_refl; exact kept_refl|].
  destruct (existsb (Nat.eqb c) (childLayers (data this))); [apply IH|].
  eapply related_trans; [exact kept_trans | | apply IH].
  apply related_applyById; [exact kept_refl | exact _markForRemoval_related].
Qed.

(** discovery appends the new children and, at most, marks old ones. *)
Lemma _updateChildLayers_children d cs w l' w' :
  _updateChildLayers (Node d cs) w = (l', w') ->
  exists cs3 news, children l' = cs3 ++ news /\ Forall2 (related kept) cs cs3.
Proof.
  unfold _updateChildLayers. intros H.
  destruct (traverseDOM _ _ _ _) as [this1 w1] eqn:T.
  inversion H; subst l' w'; clear H.
  assert (HI : exists news, children (fst (this1, w1)) = cs ++ news).
  { rewrite <- T.
    apply (traverseDOM_invariant
             (fun s : Layer * World => exists news, children (fst s) = cs ++ news)).
    - intros e lvl [[d0 cs0] w0] [news Hn]. cbn [fst children] in *.
      unfold _tryConvertToWebLayer3D.
      destruct (layerAttribute e) as [a|];
        [|destruct (String.eqb (nodeName e) "video")].
      1,2: destruct (lookupChild _ (Node d0 cs0)); cbn [fst children];
           [exists news; exact Hn
           | eexists; rewrite Hn, <- app_assoc; reflexivity].
      cbn [fst children]. exists news; exact Hn.
    - exists []. cbn [fst children]. now rewrite app_nil_r. }
  destruct HI as [news Hn]. cbn [fst] in Hn.
  pose proof (markMissing_related (childLayers d) this1) as M.
  destruct this1 as [d1 cs1]. cbn [children] in Hn. subst cs1.
  inversion M as [da db csa csb Hd Hcs Ea Eb].
  cbn [children].
  apply Forall2_app_inv_l in Hcs. destruct Hcs as (cs3 & news3 & F1 & F2 & E).
  exists cs3, news3. split; assumption.
Qed.

Lemma refresh_grows fuel :
  forall force parent l w l' w',
    refresh fuel force parent l w = Ok (l', w') -> grows l l'.
Proof.
  induction fuel as [|fuel IH]; intros force parent l w l' w' H; [discriminate|].
  destruct l as [d cs]. apply refresh_inv in H.
  destruct H as (d1 & w1 & d2 & l3 & w3 & cs4 & d5 & d6 & S1 & S2 & S3 & S4 & S5 & S6 & S7).
  subst l'.
  destruct (_updateState_fields _ _ _ _ S1) as (_ & F2 & _ & _ & F5 & _).
  destruct (_updateBounds_spec _ _ _ S2) as (_ & _ & _ & _ & B5).
  destruct (refresh_node _ _ _ _ _ _ S3) as (N1 & N2 & _ & N4).
  destruct (sameButFlags_fields _ _ N1) as (_ & _ & _ & _ & _ & _ & G7 & _).
  destruct (_updateTargetLayout_inputs _ _ _ S5) as (I1 & _ & _ & I4 & _).
  destruct (_updateMesh_cases _ _ _ S6) as (M1 & _ & _ & M4 & _).
  pose proof (layoutInputs_fields_removal _ _ I1) as J1.
  pose proof (layoutInputs_fields_removal _ _ M1) as J2.
  assert (K : kept d d6).
  { split.
    - rewrite M4, I4, G7, B5. cbn [id set_states]. exact F2.
    - intros Hr. rewrite J2, J1. apply N2. rewrite B5. cbn [_needsRemoval set_states].
      rewrite F5. exact Hr. }
  assert (C : exists cs3 news, children l3 = cs3 ++ news /\ Forall2 (related kept) cs cs3).
  { destruct (needsRasterize d2 || force) eqn:E.
    - destruct (_updateChildLayers (Node (set_needsRasterize false d2) cs) w1)
        as [lx wx] eqn:U. cbn [fst snd] in S3. inversion S3; subst l3 w3.
      exact (_updateChildLayers_children _ _ _ _ _ U).
    - inversion S3; subst l3 w3. exists cs, []. cbn [children].
      split; [now rewrite app_nil_r | apply Forall2_related_refl; exact kept_refl]. }
  destruct C as (cs3 & news & E3 & R3).
  destruct (forEachChild_invariant (refresh fuel force (Some (data l3)))
              grows (fun _ _ => True) (fun _ => I) (fun _ _ _ _ _ => I)
              (children l3) w3
              (fun c w0 c' w0' _ _ Hc => conj (IH _ _ _ _ _ _ Hc) I)
              cs4 w' S4) as [G _].
  rewrite E3 in G. apply Forall2_app_inv_l in G.
  destruct G as (cs4a & cs4b & Ga & Gb & E4). subst cs4.
  constructor; [exact K|].
  clear - R3 Ga. revert cs3 cs4a R3 Ga.
  induction cs as [|c cs IHcs]; intros cs3 cs4a R3 Ga;
    inversion R3; subst; inversion Ga; subst; constructor.
  - eapply related_then_grows; eassumption.
  - eapply IHcs; eassumption.
Qed.

(** *** The transition step *)

Lemma isHidden_lt o : isHidden o = true <-> (o < 5 # 1000)%Q.
Proof.
  unfold isHidden, truthyQ, Qlt_bool. rewrite negb_involutive, orb_true_iff. split.
  - intros [H|H].
    + apply Qeq_bool_iff in H. rewrite H. reflexivity.
    + apply negb_true_iff in H. apply Qnot_le_lt. intros L.
      apply Qle_bool_iff in L. congruence.
  - intros H. right. apply negb_true_iff.
    destruct (Qle_bool (5 # 1000) o) eqn:E; [|reflexivity].
    apply Qle_bool_iff in E. exfalso. exact (Qlt_not_le _ _ H E).
Qed.

Lemma sameButObservers_refl d : sameButObservers d d.
Proof. destruct d; reflexivity. Qed.

Lemma sameButObservers_trans a b c :
  sameButObservers a b -> sameButObservers b c -> sameButObservers a c.
Proof.
  unfold sameButObservers. intros H1 H2. rewrite H2. rewrite H1 at 1. reflexivity.
Qed.

Lemma sameButObservers_kept d d' : sameButObservers d d' -> kept d d'.
Proof. intros H. rewrite H. split; auto. Qed.

Lemma sameButObservers_removable alpha d d' :
  sameButObservers d d' -> (removable alpha d' <-> removable alpha d).
Proof. intros H. rewrite H. reflexivity. Qed.

Lemma sameButObservers_disconnect d : sameButObservers d (disconnect d).
Proof. reflexivity. Qed.

Lemma disposeBelow_related l :
  forall pending, related sameButObservers l (disposeBelow pending l).
Proof.
  induction l as [d cs IH] using Layer_ind. intros pending. cbn [disposeBelow].
  destruct (existsb (Nat.eqb (id d)) pending).
  - constructor; [apply sameButObservers_disconnect|].
    induction IH; cbn [List.map]; constructor; auto.
  - constructor; [apply sameButObservers_refl|].
    induction IH; cbn [List.map]; constructor; auto.
Qed.

Lemma dispose_related l : related sameButObservers l (dispose l).
Proof.
  destruct l as [d cs]. cbn [dispose].
  constructor; [apply sameButObservers_disconnect|].
  induction cs; cbn [List.map]; constructor; [apply disposeBelow_related | assumption].
Qed.


(** [TRANSITION_DEFAULT] on one layer. *)
Lemma TRANSITION_DEFAULT_spec d cs alpha :
  let r := TRANSITION_DEFAULT (Node d cs) alpha in
  id (data (fst r)) = id d /\
  _needsRemoval (data (fst r)) = _needsRemoval d /\
  _states (data (fst r)) = _states d /\
  opacity (mesh (data (fst r))) = renderedOpacity alpha d /\
  Forall2 (related sameButObservers) cs (children (fst r)) /\
  (snd r = true <-> removable alpha d) /\
  (snd r = true ->
   _resizeObserver (data (fst r)) = false /\
   _mutationObserver (data (fst r)) <> Some true).
Proof.
  cbv zeta. unfold TRANSITION_DEFAULT, transitionVisibility.
  cbn [_needsRemoval set_mesh transitionLayout set_content set_object3d mesh
       contentTargetOpacity].
  fold (renderedOpacity alpha d).
  assert (E : _needsRemoval d && isHidden (renderedOpacity alpha d) = true <->
              removable alpha d).
  { unfold removable. rewrite andb_true_iff, isHidden_lt. reflexivity. }
  destruct (_needsRemoval d && isHidden (renderedOpacity alpha d)).
  - cbn [fst snd dispose data children].
    split; [reflexivity|]. split; [reflexivity|]. split; [reflexivity|].
    split; [reflexivity|]. split; [|split].
    + induction cs; cbn [List.map]; constructor;
        [apply disposeBelow_related | assumption].
    + exact E.
    + intros _. split; [reflexivity|].
      cbn. destruct (_mutationObserver d); discriminate.
  - cbn [fst snd data children].
    split; [reflexivity|]. split; [reflexivity|]. split; [reflexivity|].
    split; [reflexivity|]. split; [|split].
    + apply Forall2_related_refl. exact sameButObservers_refl.
    + exact E.
    + discriminate.
Qed.

Lemma Forall2_related_trans (R : LayerData -> LayerData -> Prop) :
  (forall a b c, R a b -> R b c -> R a c) ->
  forall l1 l2 l3,
    Forall2 (related R) l1 l2 -> Forall2 (related R) l2 l3 -> Forall2 (related R) l1 l3.
Proof.
  intros Ht l1 l2 l3 H. revert l3. induction H; intros l3 H3; inversion H3; subst;
    constructor; [eapply related_trans; eassumption | auto].
Qed.



(** *** Hover resolution *)

Lemma _setHover_related hoverLayers l :
  forall parentHover, related kept l (_setHover hoverLayers parentHover l).
Proof.
  induction l as [d cs IH] using Layer_ind. intros parentHover. cbn [_setHover].
  constructor; [split; auto|].
  induction IH; cbn [List.map]; constructor; auto.
Qed.

Lemma castRay_related hits :
  forall s, related kept (fst s) (fst (castRay hits s)).
Proof.
  induction hits as [|i hits IH]; intros s; cbn [castRay];
    [apply related_refl; exact kept_refl|].
  destruct (getObjectById i (fst s)) as [[d cs]|]; [|apply IH].
  destruct (truthyQ (contentTargetOpacity d)); [|apply IH].
  cbn [fst]. apply related_applyById; [exact kept_refl|].
  intros [dx csx]. cbn [data children].
  constructor; [split; auto | apply Forall2_related_refl; exact kept_refl].
Qed.

Lemma _updateInteractions_related rays root w :
  related kept root (fst (_updateInteractions rays root w)).
Proof.
  unfold _updateInteractions.
  assert (K : forall s, related kept (fst s)
                          (fst (fold_left (fun s hits => castRay hits s) rays s))).
  { induction rays as [|r rays IH]; intros s; cbn [fold_left];
      [apply related_refl; exact kept_refl|].
    eapply related_trans; [exact kept_trans | apply castRay_related | apply IH]. }
  specialize (K (mapLayers _clearHover root, [])).
  destruct (fold_left _ rays _) as [hit hoverLayers]. cbn [fst] in *.
  eapply related_trans; [exact kept_trans | | apply _setHover_related].
  eapply related_trans; [exact kept_trans | | exact K].
  apply related_mapLayers. intros d. split; auto.
Qed.

(** *** [update] *)


(** *** What the transition step detaches *)

(** the loop over the children, with its splicing, child by child. *)
Lemma forEachChildSplicing_splices alpha (step : Layer -> Result (Layer * bool)) :
  forall n cs0 cs1 cs',
    (List.length cs1 <= n)%nat ->
    Forall2 (related sameButObservers) cs0 cs1 ->
    (forall c0 c1 c1' flag,
       In c1 cs1 -> related sameButObservers c0 c1 -> step c1 = Ok (c1', flag) ->
       detaches alpha c0 c1' /\ (flag = true <-> removable alpha (data c0))) ->
    forEachChildSplicing step cs1 = Ok cs' ->
    splices alpha cs0 cs'.
Proof.
  induction n as [|n IH]; intros cs0 cs1 cs' Hlen HF Hstep H.
  - destruct cs1; [|cbn in Hlen; lia]. inversion HF; subst.
    cbn in H. inversion H; subst. constructor.
  - destruct HF as [|c0 c1 rest0 rest1 Hc HF]; cbn [forEachChildSplicing] in H.
    + inversion H; subst. constructor.
    + inv_bind H. destruct a as [c1' flag]. cbn [fst snd] in H.
      destruct (Hstep c0 c1 c1' flag (or_introl eq_refl) Hc Ha) as [Fc Rc].
      cbn [List.length] in Hlen.
      destruct flag.
      * assert (Rm : removable alpha (data c0)) by (now apply Rc).
        destruct HF as [|s0 s1 rest0' rest1' Hs HF'].
        -- inversion H; subst. now apply splices_last.
        -- inv_bind H. inversion H; subst cs'; clear H.
           apply splices_skip; [exact Rm | exact Hs|].
           apply (IH rest0' rest1' a);
             [cbn [List.length] in Hlen; lia | exact HF' | | exact Ha0].
           intros x0 x1 x1' f Hin. apply Hstep. right; right; exact Hin.
      * inv_bind H. inversion H; subst cs'; clear H.
        apply splices_stay; [|exact Fc|].
        -- intros Rm. apply Rc in Rm. discriminate.
        -- apply (IH rest0 rest1 a); [lia | exact HF | | exact Ha0].
           intros x0 x1 x1' f Hin. apply Hstep. right; exact Hin.
Qed.

Lemma traverseLayers_detaches alpha fuel :
  forall l0 l l' flag,
    related sameButObservers l0 l ->
    traverseLayers fuel TRANSITION_DEFAULT alpha l = Ok (l', flag) ->
    detaches alpha l0 l' /\ (flag = true <-> removable alpha (data l0)).
Proof.
  induction fuel as [|fuel IH]; intros l0 l l' flag Hr H; [discriminate|].
  cbn [traverseLayers] in H. inv_bind H. inversion H; subst l' flag; clear H.
  destruct l as [d cs]. inversion Hr as [d0 d' cs0 cs1 Hd Hcs]; subst.
  destruct (TRANSITION_DEFAULT_spec d cs alpha) as (T1 & T2 & _ & _ & T5 & T6 & _).
  cbv zeta in *. cbn [data]. split.
  - constructor.
    + apply sameButObservers_kept in Hd. destruct Hd as [K1 K2]. split.
      * rewrite T1. exact K1.
      * rewrite T2. exact K2.
    + apply (forEachChildSplicing_splices alpha
               (traverseLayers fuel TRANSITION_DEFAULT alpha)
               (List.length (children (fst (TRANSITION_DEFAULT (Node d cs) alpha))))
               cs0 (children (fst (TRANSITION_DEFAULT (Node d cs) alpha))) a);
        [lia | | | exact Ha].
      * eapply Forall2_related_trans;
          [exact sameButObservers_trans | exact Hcs | exact T5].
      * intros c0 c1 c1' f _ Hc Hs. exact (IH _ _ _ _ Hc Hs).
  - pose proof (sameButObservers_removable alpha d0 d Hd) as X.
    split; intros F; [apply X, T6, F | apply T6, X, F].
Qed.

Lemma update_detaches fuel alpha rays root w root' w' :
  update fuel alpha TRANSITION_DEFAULT rays root w = Ok (root', w') ->
  exists l1 w1 l2 w2,
    related kept root l1 /\
    refresh fuel false None l1 w1 = Ok (l2, w2) /\
    detaches (Qmin alpha 1) l2 root' /\
    disposedTextures w' = disposedTextures w2.
Proof.
  unfold update. intros H. inv_bind H.
  pose proof (_updateInteractions_related rays root (set_isUpdating true w)) as K.
  destruct (_updateInteractions rays root (set_isUpdating true w)) as [l1 w1].
  inv_bind H. destruct a0 as [l2 w2]. inv_bind H. destruct a0 as [l3 flag].
  cbn [fst snd] in *. inversion H; subst root' w'; clear H.
  exists l1, w1, l2, w2. split; [exact K|]. split; [exact Ha0|]. split; [|reflexivity].
  exact (proj1 (traverseLayers_detaches (Qmin alpha 1) fuel l2 l2 l3 flag
                  (related_refl _ sameButObservers_refl l2) Ha1)).
Qed.

(** ** C1: target position of a child layer *)

Lemma layoutInputs_fields d d' :
  layoutInputs d' = layoutInputs d ->
  _needsRemoval d' = _needsRemoval d /\ useDOMLayout d' = useDOMLayout d /\
  _level d' = _level d /\ layerSeparationOf d' = layerSeparationOf d.
Proof.
  unfold layoutInputs, layerSeparationOf. intros H.
  inversion H as [[H1 H2 H3 H4 H5 H6 H7]]. rewrite H7. repeat split.
Qed.

(** C1 (amended): after [refresh], a child layer that uses DOM layout, is not
    marked for removal and whose element has a box of nonzero width and
    height has its target position at the centre of its box relative to the
    centre of the parent's box: x is the pixel size times
    (left delta + own width / 2 - parent width / 2), y is the pixel size times
    (parent height / 2 - top delta - own height / 2), and z is the layer
    separation (0.005 unless the options give a nonzero one) times the
    layer's level. *)
Theorem C1_target_position_after_refresh
  (fuel : nat) (force : bool) (p : LayerData) (l : Layer) (w : World)
  (l' : Layer) (w' : World) (b pb : Bounds) :
  refresh fuel force (Some p) l w = Ok (l', w') ->
  useDOMLayout (data l') = true ->
  _needsRemoval (data l') = false ->
  getBounds (edata (getElement (element (data l)) (dom w))) = b ->
  Qeq_bool (b_width b) 0 || Qeq_bool (b_height b) 0 = false ->
  bounds p = Ok (Some pb) ->
  position (target (data l')) =
    domLayoutPosition pb b (layerSeparationOf (data l')) (_level (data l')).
Proof.
  intros H Hu Hr Hb Hz Hp.
  destruct (refresh_layout _ _ _ _ _ _ _ H) as (d3 & d5 & B & L & I & _ & T).
  rewrite Hb in B.
  destruct (layoutInputs_fields _ _ I) as (I1 & I2 & I3 & I4).
  rewrite I3, I4. rewrite I1 in Hr. rewrite I2 in Hu.
  destruct T as [[T _]|(m & d'' & L2 & T & _)]; rewrite T.
  - exact (proj1 (_updateTargetLayout_position _ _ _ _ _ L Hr Hu B Hp Hz)).
  - destruct (_updateTargetLayout_inputs _ _ _ L) as (J & _).
    destruct (layoutInputs_fields _ _ J) as (J1 & J2 & J3 & J4).
    destruct (bounds_layoutInputs _ _ J) as (J5 & _).
    assert (B5 : bounds (set_mesh m d5) = Ok (Some b)).
    { change (bounds d5 = Ok (Some b)). rewrite J5. exact B. }
    assert (R5 : _needsRemoval (set_mesh m d5) = false).
    { change (_needsRemoval d5 = false). rewrite J1. exact Hr. }
    assert (U5 : useDOMLayout (set_mesh m d5) = true).
    { change (useDOMLayout d5 = true). rewrite J2. exact Hu. }
    rewrite (proj1 (_updateTargetLayout_position _ _ _ _ _ L2 R5 U5 B5 Hp Hz)).
    change (layerSeparationOf (set_mesh m d5)) with (layerSeparationOf d5).
    change (_level (set_mesh m d5)) with (_level d5).
    rewrite J3, J4. reflexivity.
Qed.

(** the child of the small page, refreshed below its refreshed parent. *)
Lemma C1_target_position_witness :
  position (target (data Scenario.childAfter)) =
    domLayoutPosition (mkBounds 20 10 200 100) (mkBounds 40 30 100 50)
      (layerSeparationOf (data Scenario.childAfter)) (_level (data Scenario.childAfter)).
Proof.
  assert (H1 : refresh 2 false (Some (data Scenario.refreshedRoot)) Scenario.child
                 Scenario.world = Ok (Scenario.childAfter, Scenario.worldAfter))
    by (vm_compute; reflexivity).
  assert (H2 : useDOMLayout (data Scenario.childAfter) = true)
    by (vm_compute; reflexivity).
  assert (H3 : _needsRemoval (data Scenario.childAfter) = false)
    by (vm_compute; reflexivity).
  assert (H4 : getBounds (edata (getElement (element (data Scenario.child))
                                   (dom Scenario.world))) = mkBounds 40 30 100 50)
    by (vm_compute; reflexivity).
  assert (H5 : Qeq_bool (b_width (mkBounds 40 30 100 50)) 0 ||
               Qeq_bool (b_height (mkBounds 40 30 100 50)) 0 = false)
    by (vm_compute; reflexivity).
  assert (H6 : bounds (data Scenario.refreshedRoot) = Ok (Some (mkBounds 20 10 200 100)))
    by (vm_compute; reflexivity).
  exact (C1_target_position_after_refresh 2 false (data Scenario.refreshedRoot)
           Scenario.child Scenario.world Scenario.childAfter Scenario.worldAfter
           (mkBounds 40 30 100 50) (mkBounds 20 10 200 100) H1 H2 H3 H4 H5 H6).
Defined.

(** C1 as stated fails: on the page of scenario 2 (parent box at (20, 10) of
    size 200 x 100, child box at (40, 30) of size 100 x 50, level 1) the
    child's target is (-0.03, 0.005, 0.005), not the scaled delta
    (0.02, 0.02). *)
Lemma C1_counterexample :
  exists root' c w',
    Scenario.refreshed = Ok (root', w') /\ children root' = [c] /\
    useDOMLayout (data c) = true /\ _level (data c) = 1%Z /\
    bounds (data root') = Ok (Some (mkBounds 20 10 200 100)) /\
    bounds (data c) = Ok (Some (mkBounds 40 30 100 50)) /\
    (vx (position (target (data c))) == - (3 # 100))%Q /\
    (vy (position (target (data c))) == 5 # 1000)%Q /\
    ~ (vx (position (target (data c))) == DEFAULT_PIXEL_DIMENSIONS * (40 - 20))%Q /\
    ~ (vy (position (target (data c))) == DEFAULT_PIXEL_DIMENSIONS * (30 - 10))%Q.
Proof.
  exists Scenario.refreshedRoot,
    (match children Scenario.refreshedRoot with c :: _ => c | [] => Scenario.root end),
    Scenario.refreshedWorld.
  split; [vm_compute; reflexivity|].
  split; [vm_compute; reflexivity|].
  split; [vm_compute; reflexivity|].
  split; [vm_compute; reflexivity|].
  split; [vm_compute; reflexivity|].
  split; [vm_compute; reflexivity|].
  split; [vm_compute; reflexivity|].
  split; [vm_compute; reflexivity|].
  split; intros H; vm_compute in H; discriminate.
Qed.

(** ** C2: a second [refresh(false)] queues nothing *)

(** C2: when [refresh(false)] has returned and is called again on the tree
    and the world it left, every layer is clean after the first call, and
    the second call leaves the rasterization queue as it found it (and the
    tree clean). *)
Theorem C2_second_refresh_queues_nothing
  (fuel fuel' : nat) (parent parent' : option LayerData)
  (l l1 l2 : Layer) (w w1 w2 : World) :
  refresh fuel false parent l w = Ok (l1, w1) ->
  refresh fuel' false parent' l1 w1 = Ok (l2, w2) ->
  allLayers clean l1 /\
  _rasterizationQueue w2 = _rasterizationQueue w1 /\
  allLayers clean l2.
Proof.
  intros H1 H2.
  pose proof (refresh_cleans _ _ _ _ _ _ _ H1) as C1.
  destruct (refresh_clean _ _ _ _ _ _ C1 H2) as [_ (_ & Q & _)].
  split; [exact C1|]. split; [exact Q|].
  exact (refresh_cleans _ _ _ _ _ _ _ H2).
Qed.

Lemma C2_second_refresh_witness :
  allLayers clean Scenario.refreshedRoot /\
  _rasterizationQueue Scenario.refreshedTwiceWorld =
    _rasterizationQueue Scenario.refreshedWorld /\
  allLayers clean Scenario.refreshedTwiceRoot.
Proof.
  assert (H1 : refresh 3 false None Scenario.root Scenario.world =
               Ok (Scenario.refreshedRoot, Scenario.refreshedWorld))
    by (vm_compute; reflexivity).
  assert (H2 : refresh 3 false None Scenario.refreshedRoot Scenario.refreshedWorld =
               Ok (Scenario.refreshedTwiceRoot, Scenario.refreshedTwiceWorld))
    by (vm_compute; reflexivity).
  exact (C2_second_refresh_queues_nothing 3 3 None None Scenario.root
           Scenario.refreshedRoot Scenario.refreshedTwiceRoot Scenario.world
           Scenario.refreshedWorld Scenario.refreshedTwiceWorld H1 H2).
Defined.

(** ** C3: the removal mark *)





(** ** C8: how a removal completes *)

(** the removal branch of the step disconnects the observers of the
    children that [childLayers] lists. *)
Lemma TRANSITION_DEFAULT_disposes_children d cs alpha :
  snd (TRANSITION_DEFAULT (Node d cs) alpha) = true ->
  Forall2
    (fun c c' =>
       In (id (data c)) (childLayers d) ->
       _resizeObserver (data c') = false /\ _mutationObserver (data c') <> Some true)
    cs (children (fst (TRANSITION_DEFAULT (Node d cs) alpha))).
Proof.
  unfold TRANSITION_DEFAULT, transitionVisibility.
  cbn [_needsRemoval set_mesh transitionLayout set_content set_object3d mesh
       contentTargetOpacity].
  destruct (_needsRemoval d && isHidden _); [|discriminate]. intros _.
  cbn [fst dispose children childLayers set_mesh set_content set_object3d].
  induction cs as [|c cs IH]; cbn [List.map]; constructor; [|exact IH].
  intros Hin. destruct c as [dc ccs]. cbn [data disposeBelow] in *.
  assert (E : existsb (Nat.eqb (id dc)) (childLayers d) = true).
  { apply existsb_exists. exists (id dc). split; [exact Hin | apply Nat.eqb_refl]. }
  change (childLayers (transitionLayout d alpha)) with (childLayers d).
  rewrite E. cbn [data]. split; [reflexivity|].
  cbn. destruct (_mutationObserver dc); discriminate.
Qed.

(** C8: the claim fails on the code for the textures.  With the default
    transition, the step takes the removal branch exactly when the layer is
    marked and its rendered opacity is below the hidden threshold; the
    branch disconnects the observers of the layer and of its child layers
    and leaves the cached state textures as they are.  A frame of [update]
    takes out of the tree exactly the children that are removable when the
    loop over their siblings comes to them, and disposes no texture beyond
    those that [refresh] disposes; no other operation takes a layer out.
    On the small page the child layer holds texture 0 when its element
    leaves the page: the next frame detaches the layer, and texture 0 has
    not been disposed. *)
Theorem C8_removal_detaches_without_disposing_textures :
  (forall d cs alpha,
     let r := TRANSITION_DEFAULT (Node d cs) alpha in
     (snd r = true <-> removable alpha d) /\
     (snd r = true ->
      _resizeObserver (data (fst r)) = false /\
      _mutationObserver (data (fst r)) <> Some true /\
      Forall2
        (fun c c' =>
           In (id (data c)) (childLayers d) ->
           _resizeObserver (data c') = false /\ _mutationObserver (data c') <> Some true)
        cs (children (fst r))) /\
     _states (data (fst r)) = _states d) /\
  (forall fuel alpha rays root w root' w',
     update fuel alpha TRANSITION_DEFAULT rays root w = Ok (root', w') ->
     exists l1 w1 l2 w2,
       related kept root l1 /\
       refresh fuel false None l1 w1 = Ok (l2, w2) /\
       grows l1 l2 /\
       detaches (Qmin alpha 1) l2 root' /\
       disposedTextures w' = disposedTextures w2) /\
  (forall w records root, related kept root (_processMutations w records root)) /\
  (forall pending layout ready backend i root w,
     related kept root (fst (fst (_rasterize pending layout ready backend i root w)))) /\
  (exists child,
     getObjectById 16 Scenario.notified = Some child /\
     option_map hs_texture (slotAt "" 0 (_states (data child))) = Some (Some 0%nat) /\
     Scenario.faded = Ok (Scenario.fadedRoot, Scenario.fadedWorld) /\
     getObjectById 16 Scenario.fadedRoot = None /\
     disposedTextures Scenario.fadedWorld = []).
Proof.
  split; [|split; [|split; [|split]]].
  - intros d cs alpha.
    destruct (TRANSITION_DEFAULT_spec d cs alpha) as (_ & _ & T3 & _ & _ & T6 & T7).
    cbv zeta in *. split; [exact T6|]. split; [|exact T3].
    intros F. destruct (T7 F) as [O1 O2]. split; [exact O1|]. split; [exact O2|].
    exact (TRANSITION_DEFAULT_disposes_children d cs alpha F).
  - intros fuel alpha rays root w root' w' H.
    destruct (update_detaches _ _ _ _ _ _ _ H) as (l1 & w1 & l2 & w2 & K & R & F & D).
    exists l1, w1, l2, w2. split; [exact K|]. split; [exact R|].
    split; [exact (refresh_grows _ _ _ _ _ _ _ R)|]. split; [exact F | exact D].
  - exact _processMutations_kept.
  - exact _rasterize_kept.
  - exists (match getObjectById 16 Scenario.notified with
            | Some c => c
            | None => Scenario.root
            end).
    split; [vm_compute; reflexivity|].
    split; [vm_compute; reflexivity|]. split; [vm_compute; reflexivity|].
    split; vm_compute; reflexivity.
Qed.

(** ** C9: what [update] throws *)

Lemma update_not_root fuel alpha transition rays this w :
  isRoot (data this) = false -> update fuel alpha transition rays this w = Throw.
Proof.
  intros H. unfold update, _checkRoot. rewrite H. reflexivity.
Qed.

(** C9 fails on the code.  [update] on a layer that is not the root throws
    at once, as claimed (here the child of the small page); but [update] on
    a root can throw as well.  On a page whose root element declares the
    state [a], the first frame caches [a] with a [null] texture; when a
    script clears [data-layer-states] before the state was rasterized, the
    next frame throws from the cleanup of [_updateState], which calls
    [dispose] on the [null] texture. *)
Theorem C9_update_throws_on_withdrawn_unrasterized_state :
  update 3 1 TRANSITION_DEFAULT [] Scenario.childAfter Scenario.refreshedWorld = Throw /\
  isRoot (data Scenario.firstFrameRoot) = true /\
  Scenario.firstFrame = Ok (Scenario.firstFrameRoot, Scenario.firstFrameWorld) /\
  slotAt "a" 0 (_states (data Scenario.firstFrameRoot)) = Some (mkHoverState None None) /\
  statesAttribute (edata (getElement 0 (dom Scenario.withdrawnWorld))) = [] /\
  Scenario.secondFrame = Throw.
Proof.
  split; [apply update_not_root; vm_compute; reflexivity|].
  split; [vm_compute; reflexivity|].
  split; [vm_compute; reflexivity|].
  split; [vm_compute; reflexivity|].
  split; [vm_compute; reflexivity|].
  vm_compute; reflexivity.
Qed.

(** ** C6 and C5: what [_processMutations] does with a record *)

Lemma list_eqb_string_eq (a b : list string) : list_eqb String.eqb a b = true -> a = b.
Proof.
  revert b; induction a as [|x a IH]; intros [|y b]; cbn; try discriminate; auto.
  intros H. apply andb_true_iff in H. destruct H as [H1 H2].
  apply String.eqb_eq in H1. subst y. f_equal. now apply IH.
Qed.

Lemma inb_In s l : inb s l = true <-> In s l.
Proof.
  unfold inb. rewrite existsb_exists. split.
  - intros (x & Hx & E). apply String.eqb_eq in E. now subst x.
  - intros H. exists s. split; [exact H | apply String.eqb_refl].
Qed.

Lemma inb_not_In s l : ~ In s l -> inb s l = false.
Proof.
  intros H. destruct (inb s l) eqn:E; [|reflexivity].
  apply inb_In in E. contradiction.
Qed.

(** a class record whose element now carries a class [c] that the old
    value lacks, [c] being neither [hover] nor a cached state nor a name of
    [Object.prototype], passes every filter of the handler. *)
Lemma addedClass_dirties dom target oldValue c states :
  In c (classList (edata (getElement target dom))) ->
  ~ In c (oldClassesOf oldValue) ->
  c <> "hover" ->
  lookupState c states = None ->
  inherited c = false ->
  recordTarget dom (ClassAttributeRecord target oldValue) = Some target /\
  recordDirties states (edata (getElement target dom))
    (ClassAttributeRecord target oldValue) = true.
Proof.
  intros Hc Hold Hh Hs Hp. set (e := edata (getElement target dom)) in *. split.
  - cbn [recordTarget]. fold e.
    destruct (classValue_eqb (classAttribute e) oldValue) eqn:E; [|reflexivity].
    exfalso. apply Hold. unfold classList in Hc. unfold classValue_eqb in E.
    destruct (classAttribute e) as [l|], oldValue as [l'|]; try discriminate;
      try contradiction.
    apply list_eqb_string_eq in E. subst l'. destruct l; [contradiction | exact Hc].
  - cbn [recordDirties]. unfold classChangeNeedsRasterize.
    fold (oldClassesOf oldValue). apply orb_true_iff. right.
    apply existsb_exists. exists c. split.
    + unfold arraySubtract. apply filter_In. split.
      * unfold classNameSplit. destruct (classList e); [contradiction | exact Hc].
      * now rewrite (inb_not_In _ _ Hold).
    + unfold ignoredClass. rewrite Hs, Hp.
      destruct (String.eqb c "hover") eqn:E; [|reflexivity].
      apply String.eqb_eq in E. contradiction.
Qed.

Lemma _updateState_cacheDeclared d w d1 w1 :
  _updateState d w = Ok (d1, w1) -> cacheDeclared (dom w) d1.
Proof.
  intros H k hs Hk. rewrite (_updateState_cache _ _ _ _ k H) in Hk. cbv zeta in Hk.
  destruct (_updateState_fields _ _ _ _ H) as (E & _). rewrite E.
  destruct (inb k (declaredStates (edata (getElement (element d) (dom w))))) eqn:X;
    [|discriminate].
  now apply inb_In.
Qed.

(** C6: the claim fails on the code for a class named like a property of
    [Object.prototype].  Outside an update pass, a class-attribute record
    among the delivered records whose element has gained a class that is
    neither [hover] nor a declared state of the owning layer (whose cache
    holds declared states only, as after a refresh) leaves [needsRasterize]
    set on the layer that owns the element and on every layer below it
    whose element lies inside the mutated element, as long as the class is
    no such name.  When the child element of the small page gains the class
    [constructor], which is neither [hover] nor declared, the handler reads
    [layer._states["constructor"]], finds the inherited function, and
    passes the record over: the tree is as it was and the layer stays
    clean. *)
Theorem C6_added_class_dirties_unless_prototype_name :
  (forall (w : World) (records : list MutationRecord) (root layer : Layer)
          (target : nat) (oldValue : option (list string)) (c : string),
     _isUpdating w = false ->
     In (ClassAttributeRecord target oldValue) records ->
     In c (classList (edata (getElement target (dom w)))) ->
     ~ In c (oldClassesOf oldValue) ->
     c <> "hover" ->
     ~ In c (declaredStates (edata (getElement (element (data layer)) (dom w)))) ->
     inherited c = false ->
     cacheDeclared (dom w) (data layer) ->
     getLayerForElement target (dom w) root = Some layer ->
     exists layer',
       getObjectById (id (data layer)) (_processMutations w records root) = Some layer' /\
       needsRasterize (data layer') = true /\
       allLayers (dirtyInside (getElement target (dom w))) layer') /\
  (_isUpdating Scenario.constructorWorld = false /\
   classList (edata (getElement 1 (dom Scenario.constructorWorld))) = ["constructor"] /\
   oldClassesOf None = [] /\
   getLayerForElement 1 (dom Scenario.constructorWorld) Scenario.refreshedRoot =
   Some Scenario.childAfter /\
   declaredStates
     (edata (getElement (element (data Scenario.childAfter))
               (dom Scenario.constructorWorld))) = [""] /\
   cacheDeclared (dom Scenario.constructorWorld) (data Scenario.childAfter) /\
   needsRasterize (data Scenario.childAfter) = false /\
   _processMutations Scenario.constructorWorld [ClassAttributeRecord 1 None]
     Scenario.refreshedRoot = Scenario.refreshedRoot).
Proof.
  split.
  - intros w records root layer target oldValue c Hu Hin Hc Hold Hh Hs Hp Hcd Hl.
    assert (Hn : lookupState c (_states (data layer)) = None).
    { destruct (lookupState c (_states (data layer))) as [hs|] eqn:E; [|reflexivity].
      exfalso. exact (Hs (Hcd c hs E)). }
    destruct (addedClass_dirties (dom w) target oldValue c (_states (data layer))
                Hc Hold Hh Hn Hp) as [T D].
    exact (processRecords_effect w records root _ target layer Hu Hin T Hl D).
  - split; [vm_compute; reflexivity|]. split; [vm_compute; reflexivity|].
    split; [reflexivity|]. split; [vm_compute; reflexivity|].
    split; [vm_compute; reflexivity|]. split.
    + intros k hs. vm_compute. destruct k as [|a k]; intros H; [|discriminate H].
      left; reflexivity.
    + split; vm_compute; reflexivity.
Qed.

Lemma C6_added_class_witness :
  exists layer',
    getObjectById (id (data Scenario.childAfter))
      (_processMutations Scenario.classedWorld [Scenario.classRecord]
         Scenario.refreshedRoot) = Some layer' /\
    needsRasterize (data layer') = true /\
    allLayers (dirtyInside (getElement 1 (dom Scenario.classedWorld))) layer'.
Proof.
  assert (H1 : _isUpdating Scenario.classedWorld = false) by (vm_compute; reflexivity).
  assert (H2 : In (ClassAttributeRecord 1 None) [Scenario.classRecord])
    by (left; reflexivity).
  assert (H3 : In "big" (classList (edata (getElement 1 (dom Scenario.classedWorld)))))
    by (vm_compute; left; reflexivity).
  assert (H4 : ~ In "big" (oldClassesOf None)) by (intros H; exact H).
  assert (H5 : "big" <> "hover") by discriminate.
  assert (H6 : ~ In "big" (declaredStates
                             (edata (getElement (element (data Scenario.childAfter))
                                       (dom Scenario.classedWorld))))).
  { vm_compute. intros [H|H]; [discriminate H | exact H]. }
  assert (H7 : cacheDeclared (dom Scenario.classedWorld) (data Scenario.childAfter)).
  { intros k hs. vm_compute. destruct k as [|a k]; intros H; [|discriminate H].
    left; reflexivity. }
  assert (H8 : getLayerForElement 1 (dom Scenario.classedWorld) Scenario.refreshedRoot =
               Some Scenario.childAfter) by (vm_compute; reflexivity).
  assert (H9 : inherited "big" = false) by reflexivity.
  exact (proj1 C6_added_class_dirties_unless_prototype_name
           Scenario.classedWorld [Scenario.classRecord] Scenario.refreshedRoot
           Scenario.childAfter 1%nat None "big" H1 H2 H3 H4 H5 H6 H9 H7 H8).
Defined.

(** C5 (amended): while the guard flag of the root is set, delivered
    records are discarded: the handler returns at once and the tree is as it
    was, whatever the records; nothing keeps them for later.  Outside a
    pass a record that survives the filters dirties the layer owning its
    target and the layers inside the target.  [update] clears the flag when
    it returns. *)
Theorem C5_guard_discards_records :
  (forall w records root,
     _isUpdating w = true -> _processMutations w records root = root) /\
  (forall w records root r t layer,
     _isUpdating w = false ->
     In r records ->
     recordTarget (dom w) r = Some t ->
     getLayerForElement t (dom w) root = Some layer ->
     recordDirties (_states (data layer)) (edata (getElement t (dom w))) r = true ->
     exists layer',
       getObjectById (id (data layer)) (_processMutations w records root) = Some layer' /\
       needsRasterize (data layer') = true /\
       allLayers (dirtyInside (getElement t (dom w))) layer') /\
  (forall fuel alpha transition rays root w root' w',
     update fuel alpha transition rays root w = Ok (root', w') ->
     _isUpdating w' = false).
Proof.
  split; [|split].
  - intros w records root H. unfold _processMutations. rewrite H. reflexivity.
  - intros w records root r t layer. apply processRecords_effect.
  - intros fuel alpha transition rays root w root' w' H. unfold update in H.
    inv_bind H. destruct (_updateInteractions _ _ _) as [l1 w1].
    inv_bind H. inv_bind H. inversion H; subst. reflexivity.
Qed.

Lemma C5_guard_witness :
  _processMutations (set_isUpdating true Scenario.classedWorld) [Scenario.classRecord]
    Scenario.refreshedRoot = Scenario.refreshedRoot /\
  exists layer',
    getObjectById (id (data Scenario.childAfter))
      (_processMutations Scenario.classedWorld [ChildListRecord 1]
         Scenario.refreshedRoot) = Some layer' /\
    needsRasterize (data layer') = true /\
    allLayers (dirtyInside (getElement 1 (dom Scenario.classedWorld))) layer'.
Proof.
  assert (H0 : _isUpdating (set_isUpdating true Scenario.classedWorld) = true)
    by reflexivity.
  assert (H1 : _isUpdating Scenario.classedWorld = false) by (vm_compute; reflexivity).
  assert (H2 : In (ChildListRecord 1) [ChildListRecord 1]) by (left; reflexivity).
  assert (H3 : recordTarget (dom Scenario.classedWorld) (ChildListRecord 1) = Some 1%nat)
    by reflexivity.
  assert (H4 : getLayerForElement 1 (dom Scenario.classedWorld) Scenario.refreshedRoot =
               Some Scenario.childAfter) by (vm_compute; reflexivity).
  assert (H5 : recordDirties (_states (data Scenario.childAfter))
                 (edata (getElement 1 (dom Scenario.classedWorld)))
                 (ChildListRecord 1) = true) by reflexivity.
  split.
  - exact (proj1 C5_guard_discards_records
             (set_isUpdating true Scenario.classedWorld) [Scenario.classRecord]
             Scenario.refreshedRoot H0).
  - exact (proj1 (proj2 C5_guard_discards_records)
             Scenario.classedWorld [ChildListRecord 1] Scenario.refreshedRoot
             (ChildListRecord 1) 1%nat Scenario.childAfter H1 H2 H3 H4 H5).
Defined.

(** C5 as stated fails: a record delivered while the guard is set is not
    deferred.  On the small page the record of the class change, delivered
    during a pass, leaves the child layer clean even after the pass is over
    and the next delivery has run; delivered outside a pass it dirties the
    layer. *)
Lemma C5_counterexample : ~ deferredProcessing.
Proof.
  intros D.
  specialize (D (set_isUpdating true Scenario.classedWorld) [Scenario.classRecord]
                Scenario.refreshedRoot eq_refl).
  apply (f_equal (fun l => match getObjectById 16 l with
                           | Some x => needsRasterize (data x)
                           | None => false
                           end)) in D.
  vm_compute in D. discriminate.
Qed.

(** ** C10: fallback of the [texture] and [bounds] getters *)




(** ** Switching between cached states *)

Lemma texture_textureOf d hs :
  lookupState (_state d) (_states d) = Some hs ->
  texture d = textureOf (List.map hs_texture hs) (_hover d).
Proof.
  intros H. unfold texture, currentSlot, currentSlotIndex, currentStateKey, textureOf.
  rewrite H. cbn [bind]. rewrite H.
  rewrite !nth_error_map.
  destruct (nth_error hs (_hover d)) as [s|] eqn:N.
  - cbn [bind fst snd option_map]. unfold slotAt. rewrite H, N. reflexivity.
  - cbn [option_map]. destruct (nth_error hs 0) as [s|] eqn:N0.
    + cbn [bind fst snd option_map]. unfold slotAt. rewrite H, N0. reflexivity.
    + reflexivity.
Qed.

(** a class record all of whose added and removed classes are [hover] or
    cached states changes nothing. *)
Lemma processRecord_ignored dom root target oldValue lid layer :
  owns dom target lid ->
  getObjectById lid root = Some layer ->
  (forall c, In c (classNameSplit (edata (getElement target dom))) ->
             ignoredClass (_states (data layer)) c = true) ->
  (forall c, In c (oldClassesOf oldValue) ->
             ignoredClass (_states (data layer)) c = true) ->
  processRecord dom root (ClassAttributeRecord target oldValue) = root.
Proof.
  intros (e & Hc & Ha) Hl Hcur Hold. unfold processRecord.
  destruct (recordTarget dom (ClassAttributeRecord target oldValue)) as [t|] eqn:T;
    [|reflexivity].
  cbn [recordTarget] in T.
  destruct (classValue_eqb _ oldValue); [discriminate|]. inversion T; subst t.
  unfold getLayerForElement. rewrite Hc, Ha, Hl.
  assert (E : classChangeNeedsRasterize (_states (data layer)) oldValue
                (edata (getElement target dom)) = false).
  { unfold classChangeNeedsRasterize. fold (oldClassesOf oldValue).
    apply orb_false_iff. split.
    - destruct (existsb _ (arraySubtract (oldClassesOf oldValue) _)) eqn:X;
        [|reflexivity].
      apply existsb_exists in X. destruct X as (c & Hin & Hc').
      unfold arraySubtract in Hin. apply filter_In in Hin.
      rewrite (Hold c (proj1 Hin)) in Hc'. discriminate.
    - destruct (existsb _ (arraySubtract _ (oldClassesOf oldValue))) eqn:X;
        [|reflexivity].
      apply existsb_exists in X. destruct X as (c & Hin & Hc').
      unfold arraySubtract in Hin. apply filter_In in Hin.
      rewrite (Hcur c (proj1 Hin)) in Hc'. discriminate. }
  rewrite E. reflexivity.
Qed.

Lemma ignoredClass_cached states c hs :
  lookupState c states = Some hs -> ignoredClass states c = true.
Proof. intros H. unfold ignoredClass. rewrite H. apply orb_true_r. Qed.

Lemma resynced_id dom d d' : resynced dom d d' -> id d' = id d.
Proof. intros H. exact (proj1 H). Qed.

(** One switch on a clean tree whose layer [lid] has the classes involved
    cached: nothing is dirtied or queued, and the layer is resynchronised
    with the page. *)
Lemma switchClass_clean fuel target oldValue root w root' w' lid layer :
  allLayers clean root ->
  getObjectById lid root = Some layer ->
  owns (dom w) target lid ->
  (forall c, In c (classNameSplit (edata (getElement target (dom w)))) ->
             ignoredClass (_states (data layer)) c = true) ->
  (forall c, In c (oldClassesOf oldValue) ->
             ignoredClass (_states (data layer)) c = true) ->
  switchClass fuel target oldValue root w = Ok (root', w') ->
  _processMutations w [ClassAttributeRecord target oldValue] root = root /\
  allLayers clean root' /\
  _rasterizationQueue w' = _rasterizationQueue w /\
  exists layer',
    getObjectById lid root' = Some layer' /\
    resynced (dom w) (data layer) (data layer').
Proof.
  intros Hc Hl Ho Hcur Hold H. unfold switchClass in H.
  assert (E : _processMutations w [ClassAttributeRecord target oldValue] root = root).
  { unfold _processMutations. destruct (_isUpdating w); [reflexivity|].
    cbn [fold_left]. exact (processRecord_ignored _ _ _ _ _ _ Ho Hl Hcur Hold). }
  rewrite E in H. split; [exact E|].
  split; [exact (refresh_cleans _ _ _ _ _ _ _ H)|].
  destruct (refresh_clean _ _ _ _ _ _ Hc H) as [R (_ & Q & _)].
  split; [exact Q|].
  pose proof (getObjectById_related (resynced (dom w)) (resynced_id (dom w))
                lid root root' R) as G.
  rewrite Hl in G. destruct (getObjectById lid root') as [layer'|]; [|contradiction].
  exists layer'. split; [reflexivity|]. exact (related_data _ _ _ G).
Qed.

Lemma stateFromClasses_single states s :
  inb s states = true -> stateFromClasses states [s] = s.
Proof. intros H. unfold stateFromClasses. cbn [find]. rewrite H. reflexivity. Qed.

Lemma inb_declared s e : In s (statesAttribute e) -> inb s (declaredStates e) = true.
Proof.
  intros H. apply inb_In. unfold declaredStates. apply in_or_app. left; exact H.
Qed.

(** ** C7: a state round trip *)

(** what one switch leaves of a layer whose states [s] and [""] are cached
    and stay declared. *)
Lemma switch_keeps_cached dom d d' s hs target :
  resynced dom d d' ->
  element d = target ->
  In s (statesAttribute (edata (getElement target dom))) ->
  lookupState s (_states d) = Some hs ->
  lookupState "" (_states d) <> None ->
  element d' = target /\ _hover d' = _hover d /\
  _state d' =
    stateFromClasses (declaredStates (edata (getElement target dom)))
      (classList (edata (getElement target dom))) /\
  (exists hs', lookupState s (_states d') = Some hs' /\
               List.map hs_texture hs' = List.map hs_texture hs) /\
  lookupState "" (_states d') <> None.
Proof.
  intros R He Hs Hc H0. unfold resynced in R. cbv zeta in R. rewrite He in R.
  destruct R as (_ & R2 & R3 & _ & R5 & R6).
  split; [congruence|]. split; [exact R3|]. split; [exact R5|]. split.
  - exact (R6 s hs (inb_declared _ _ Hs) Hc).
  - destruct (lookupState "" (_states d)) as [hs0|] eqn:E0; [|contradiction].
    destruct (R6 "" hs0 (inb_default _) E0) as (hs0' & E0' & _).
    rewrite E0'. discriminate.
Qed.

(** C7: on a clean tree, take a layer whose cache holds the state [s] (and
    the default state).  The class list of its element goes to [s] (from
    classes that are [hover] or cached states), then to the default state,
    then back to [s], [s] staying declared; after each change the observer
    delivers the class record and the tree is refreshed.  Then no record dirties anything, every tree is clean, the
    queue is what it was, and after the last switch the [texture] getter
    returns what it returned after the first, the texture cached for [s]
    at the layer's hover depth. *)
Theorem C7_state_round_trip
  (fuel : nat) (s : string) (target lid : nat) (old0 : option (list string))
  (root0 root1 root2 root3 layer0 : Layer) (hs : list HoverState)
  (w1 w1' w2' w3' : World) (dom2 dom3 : list Element) :
  allLayers clean root0 ->
  getObjectById lid root0 = Some layer0 ->
  element (data layer0) = target ->
  lookupState s (_states (data layer0)) = Some hs ->
  lookupState "" (_states (data layer0)) <> None ->
  (forall c, In c (oldClassesOf old0) -> ignoredClass (_states (data layer0)) c = true) ->
  owns (dom w1) target lid -> owns dom2 target lid -> owns dom3 target lid ->
  In s (statesAttribute (edata (getElement target (dom w1)))) ->
  In s (statesAttribute (edata (getElement target dom2))) ->
  In s (statesAttribute (edata (getElement target dom3))) ->
  classAttribute (edata (getElement target (dom w1))) = Some [s] ->
  classAttribute (edata (getElement target dom2)) = Some [] ->
  classAttribute (edata (getElement target dom3)) = Some [s] ->
  switchClass fuel target old0 root0 w1 = Ok (root1, w1') ->
  switchClass fuel target (Some [s]) root1 (set_dom dom2 w1') = Ok (root2, w2') ->
  switchClass fuel target (Some []) root2 (set_dom dom3 w2') = Ok (root3, w3') ->
  exists l1 l3,
    getObjectById lid root1 = Some l1 /\ getObjectById lid root3 = Some l3 /\
    _state (data l1) = s /\ _state (data l3) = s /\
    texture (data l1) = textureOf (List.map hs_texture hs) (_hover (data layer0)) /\
    texture (data l3) = texture (data l1) /\
    allLayers clean root1 /\ allLayers clean root2 /\ allLayers clean root3 /\
    _rasterizationQueue w3' = _rasterizationQueue w1.
Proof.
  intros Hc Hl He Hs H0 Hold O1 O2 O3 D1 D2 D3 K1 K2 K3 S1 S2 S3.
  (* first switch *)
  destruct (switchClass_clean fuel target old0 root0 w1 root1 w1' lid layer0 Hc Hl O1)
    with (3 := S1) as (_ & C1 & Q1 & l1 & G1 & R1).
  { intros c Hin. unfold classNameSplit, classList in Hin. rewrite K1 in Hin.
    destruct Hin as [E|[]]. subst c. exact (ignoredClass_cached _ _ _ Hs). }
  { exact Hold. }
  destruct (switch_keeps_cached _ _ _ s hs target R1 He D1 Hs H0)
    as (E1 & V1 & T1 & (hs1 & L1 & M1) & Z1).
  (* second switch *)
  destruct (switchClass_clean fuel target (Some [s]) root1 (set_dom dom2 w1') root2 w2'
              lid l1 C1 G1 O2) with (3 := S2) as (_ & C2 & Q2 & l2 & G2 & R2).
  { intros c Hin. cbn [dom set_dom] in Hin. unfold classNameSplit, classList in Hin.
    rewrite K2 in Hin. destruct Hin as [E|[]]. subst c.
    destruct (lookupState "" (_states (data l1))) as [x|] eqn:X; [|contradiction].
    exact (ignoredClass_cached _ _ _ X). }
  { intros c Hin. cbn [oldClassesOf] in Hin. destruct Hin as [E|[]]. subst c.
    exact (ignoredClass_cached _ _ _ L1). }
  cbn [dom set_dom] in R2.
  destruct (switch_keeps_cached _ _ _ s hs1 target R2 E1 D2 L1 Z1)
    as (E2 & V2 & T2 & (hs2 & L2 & M2) & Z2).
  (* third switch *)
  destruct (switchClass_clean fuel target (Some []) root2 (set_dom dom3 w2') root3 w3'
              lid l2 C2 G2 O3) with (3 := S3) as (_ & C3 & Q3 & l3 & G3 & R3).
  { intros c Hin. cbn [dom set_dom] in Hin. unfold classNameSplit, classList in Hin.
    rewrite K3 in Hin. destruct Hin as [E|[]]. subst c.
    exact (ignoredClass_cached _ _ _ L2). }
  { intros c Hin. cbn [oldClassesOf] in Hin. contradiction. }
  cbn [dom set_dom] in R3.
  destruct (switch_keeps_cached _ _ _ s hs2 target R3 E2 D3 L2 Z2)
    as (E3 & V3 & T3 & (hs3 & L3 & M3) & Z3).
  assert (St1 : _state (data l1) = s).
  { rewrite T1. unfold classList. rewrite K1.
    apply stateFromClasses_single. now apply inb_declared. }
  assert (St3 : _state (data l3) = s).
  { rewrite T3. unfold classList. rewrite K3.
    apply stateFromClasses_single. now apply inb_declared. }
  assert (X1 : texture (data l1) = textureOf (List.map hs_texture hs) (_hover (data layer0))).
  { rewrite (texture_textureOf (data l1) hs1) by (rewrite St1; exact L1).
    rewrite M1, V1. reflexivity. }
  exists l1, l3. split; [exact G1|]. split; [exact G3|]. split; [exact St1|].
  split; [exact St3|]. split; [exact X1|]. split.
  - rewrite X1. rewrite (texture_textureOf (data l3) hs3) by (rewrite St3; exact L3).
    rewrite M3, M2, M1, V3, V2, V1. reflexivity.
  - split; [exact C1|]. split; [exact C2|]. split; [exact C3|].
    rewrite Q3. cbn [_rasterizationQueue set_dom]. rewrite Q2.
    cbn [_rasterizationQueue set_dom]. exact Q1.
Qed.
Lemma C7_state_round_trip_witness :
  exists l1 l3,
    getObjectById 10 Scenario.toARoot = Some l1 /\
    getObjectById 10 Scenario.backToARoot = Some l3 /\
    _state (data l1) = "a" /\ _state (data l3) = "a" /\
    texture (data l1) =
      textureOf (List.map hs_texture [mkHoverState (Some 0%nat) (Some (mkBounds 0 0 500 150))])
        (_hover (data Scenario.settledRoot)) /\
    texture (data l3) = texture (data l1) /\
    allLayers clean Scenario.toARoot /\ allLayers clean Scenario.toDefaultRoot /\
    allLayers clean Scenario.backToARoot /\
    _rasterizationQueue Scenario.backToAWorld =
      _rasterizationQueue (Scenario.setClassName 0 ["a"] Scenario.settledWorld).
Proof.
  pose (w1 := Scenario.setClassName 0 ["a"] Scenario.settledWorld).
  pose (dom2 := dom (Scenario.setClassName 0 [] Scenario.toAWorld)).
  pose (dom3 := dom (Scenario.setClassName 0 ["a"] Scenario.toDefaultWorld)).
  pose (e := mkElementData 0 "div" (Some (Some 10%nat)) ["a"] (Int 0)).
  assert (A1 : allLayers clean Scenario.settledRoot)
    by (vm_compute; constructor; [reflexivity | constructor]).
  assert (A2 : getObjectById 10 Scenario.settledRoot = Some Scenario.settledRoot)
    by (vm_compute; reflexivity).
  assert (A3 : element (data Scenario.settledRoot) = 0%nat) by (vm_compute; reflexivity).
  assert (A4 : lookupState "a" (_states (data Scenario.settledRoot)) =
               Some [mkHoverState (Some 0%nat) (Some (mkBounds 0 0 500 150))])
    by (vm_compute; reflexivity).
  assert (A5 : lookupState "" (_states (data Scenario.settledRoot)) <> None)
    by (vm_compute; discriminate).
  assert (A6 : forall c, In c (oldClassesOf None) ->
                         ignoredClass (_states (data Scenario.settledRoot)) c = true)
    by (intros c H; destruct H).
  assert (O1 : owns (dom w1) 0 10)
    by (exists (e (Some ["a"]) (mkBounds 0 0 500 150)); split; vm_compute; reflexivity).
  assert (O2 : owns dom2 0 10)
    by (exists (e (Some []) (mkBounds 0 0 500 150)); split; vm_compute; reflexivity).
  assert (O3 : owns dom3 0 10)
    by (exists (e (Some ["a"]) (mkBounds 0 0 500 150)); split; vm_compute; reflexivity).
  assert (D1 : In "a" (statesAttribute (edata (getElement 0 (dom w1)))))
    by (vm_compute; left; reflexivity).
  assert (D2 : In "a" (statesAttribute (edata (getElement 0 dom2))))
    by (vm_compute; left; reflexivity).
  assert (D3 : In "a" (statesAttribute (edata (getElement 0 dom3))))
    by (vm_compute; left; reflexivity).
  assert (K1 : classAttribute (edata (getElement 0 (dom w1))) = Some ["a"])
    by (vm_compute; reflexivity).
  assert (K2 : classAttribute (edata (getElement 0 dom2)) = Some [])
    by (vm_compute; reflexivity).
  assert (K3 : classAttribute (edata (getElement 0 dom3)) = Some ["a"])
    by (vm_compute; reflexivity).
  assert (S1 : switchClass 3 0 None Scenario.settledRoot w1 =
               Ok (Scenario.toARoot, Scenario.toAWorld)) by (vm_compute; reflexivity).
  assert (S2 : switchClass 3 0 (Some ["a"]) Scenario.toARoot
                 (set_dom dom2 Scenario.toAWorld) =
               Ok (Scenario.toDefaultRoot, Scenario.toDefaultWorld))
    by (vm_compute; reflexivity).
  assert (S3 : switchClass 3 0 (Some []) Scenario.toDefaultRoot
                 (set_dom dom3 Scenario.toDefaultWorld) =
               Ok (Scenario.backToARoot, Scenario.backToAWorld))
    by (vm_compute; reflexivity).
  exact (C7_state_round_trip 3 "a" 0 10 None
           Scenario.settledRoot Scenario.toARoot Scenario.toDefaultRoot
           Scenario.backToARoot Scenario.settledRoot
           [mkHoverState (Some 0%nat) (Some (mkBounds 0 0 500 150))]
           w1 Scenario.toAWorld Scenario.toDefaultWorld Scenario.backToAWorld dom2 dom3
           A1 A2 A3 A4 A5 A6 O1 O2 O3 D1 D2 D3 K1 K2 K3 S1 S2 S3).
Defined.

(** ** The getters and [_updateState], further *)

Lemma pickSlot_Throw (k : string) (hs : list HoverState) (h : nat) :
  match nth_error hs h with
  | Some _ => Ok (k, h)
  | None => match nth_error hs 0 with
            | Some _ => Ok (k, 0%nat)
            | None => Throw
            end
  end = Throw <-> hs = [].
Proof.
  destruct hs as [|s hs].
  - destruct h; cbn; split; auto.
  - destruct (nth_error (s :: hs) h); cbn; split; intros H; discriminate H.
Qed.

Lemma currentSlotIndex_Throw d : currentSlotIndex d = Throw <-> noSlot d.
Proof.
  unfold currentSlotIndex, currentStateKey, noSlot.
  destruct (lookupState (_state d) (_states d)) as [hs|] eqn:E1; cbn [bind].
  - rewrite E1. apply pickSlot_Throw.
  - destruct (inherited (_state d)); cbn [bind]; [split; auto|].
    destruct (lookupState "" (_states d)) as [hs|] eqn:E2; cbn [bind].
    + rewrite E2. rewrite pickSlot_Throw. split; [auto|].
      intros [H|H]; [discriminate H | exact H].
    + split; auto.
Qed.

Lemma currentSlotIndex_modelled d : currentSlotIndex d <> Unmodelled.
Proof.
  unfold currentSlotIndex, currentStateKey.
  destruct (lookupState (_state d) (_states d)) as [hs|] eqn:E1; cbn [bind].
  - rewrite E1. destruct (nth_error hs (_hover d)); [discriminate|].
    destruct (nth_error hs 0); discriminate.
  - destruct (inherited (_state d)); cbn [bind]; [discriminate|].
    destruct (lookupState "" (_states d)) as [hs|] eqn:E2; cbn [bind]; [|discriminate].
    rewrite E2. destruct (nth_error hs (_hover d)); [discriminate|].
    destruct (nth_error hs 0); discriminate.
Qed.

Lemma currentSlot_cases d :
  (currentSlot d = Throw /\ currentSlotIndex d = Throw) \/
  exists k n s, currentSlotIndex d = Ok (k, n) /\ currentSlot d = Ok s /\
                slotAt k n (_states d) = Some s.
Proof.
  unfold currentSlot.
  destruct (currentSlotIndex d) as [[k n]| |] eqn:E.
  - right. destruct (currentSlotIndex_slotAt d k n E) as [s Hs].
    exists k, n, s. cbn [bind fst snd]. rewrite Hs. auto.
  - left. split; reflexivity.
  - exfalso. exact (currentSlotIndex_modelled d E).
Qed.

(** X1: the [texture] and [bounds] getters throw exactly when what they
    select has no slot: the current state is cached with an empty slot
    array; or it is not cached and is named like a property of
    [Object.prototype] (the getters then select the inherited value, not
    the default state); or it is not cached and the default state is
    missing or has an empty slot array.  A layer that was never refreshed
    is in that case: its getters throw. *)
Theorem getters_throw_without_slot :
  (forall d, (texture d = Throw <-> noSlot d) /\ (bounds d = Throw <-> noSlot d) /\
             texture d <> Unmodelled /\ bounds d <> Unmodelled) /\
  (forall i eid root level sep,
     texture (newLayerData i eid root level sep) = Throw /\
     bounds (newLayerData i eid root level sep) = Throw).
Proof.
  assert (G : forall d, (texture d = Throw <-> noSlot d) /\
                        (bounds d = Throw <-> noSlot d) /\
                        texture d <> Unmodelled /\ bounds d <> Unmodelled).
  { intros d. rewrite <- currentSlotIndex_Throw. unfold texture, bounds.
    destruct (currentSlot_cases d) as [[E1 E2]|(k & n & s & E1 & E2 & _)];
      rewrite ?E1, ?E2; cbn [bind].
    - repeat split; auto; discriminate.
    - repeat split; intros H; discriminate H. }
  split; [exact G|].
  intros i eid root level sep.
  destruct (G (newLayerData i eid root level sep)) as (T & B & _).
  assert (N : noSlot (newLayerData i eid root level sep)) by (right; exact I).
  split; [apply T | apply B]; exact N.
Qed.

(** *** What [_updateState] caches *)

(** X2: when [_updateState] returns, the cache holds the declared states
    and the default state, and no other state.  A state that was cached
    before keeps its slot array as it was, whatever the hover depth has
    become; a state cached now gets [hoverDepth + 1] empty slots; a declared
    state that was not cached and is named like a property of
    [Object.prototype] is not cached at all, since [this._states[k]] is not
    [undefined] for it. *)
Theorem _updateState_caches_declared_states
  (d : LayerData) (w : World) (d1 : LayerData) (w1 : World) (k : string) :
  _updateState d w = Ok (d1, w1) ->
  let e := edata (getElement (element d) (dom w)) in
  (In k (declaredStates e) ->
   lookupState k (_states d1) =
   match lookupState k (_states d) with
   | Some hs => Some hs
   | None =>
       if inherited k then None
       else Some (repeat (mkHoverState None None) (slotCount (hoverDepthAttribute e)))
   end) /\
  (~ In k (declaredStates e) -> lookupState k (_states d1) = None).
Proof.
  intros H e. pose proof (_updateState_cache _ _ _ _ k H) as U. cbv zeta in U. fold e in U.
  split; intros Hk.
  - apply inb_In in Hk. rewrite Hk in U. rewrite U.
    destruct (lookupState k (_states d)); reflexivity.
  - rewrite (inb_not_In _ _ Hk) in U. exact U.
Qed.

(** *** The cleanup of withdrawn states *)

Lemma disposeSlots_Ok hs log log' :
  disposeSlots hs log = Ok log' -> log' = log ++ texturesOf hs.
Proof.
  revert log. induction hs as [|s hs IH]; intros log H; cbn [disposeSlots] in H.
  - inversion H. cbn. now rewrite app_nil_r.
  - destruct (hs_texture s) as [t|] eqn:E; [|discriminate].
    rewrite (IH _ H). unfold texturesOf. cbn [flat_map]. rewrite E.
    now rewrite <- app_assoc.
Qed.

Lemma disposeSlots_cases hs log :
  (disposeSlots hs log = Throw /\ In None (List.map hs_texture hs)) \/
  (exists log', disposeSlots hs log = Ok log' /\ ~ In None (List.map hs_texture hs)).
Proof.
  revert log. induction hs as [|s hs IH]; intros log; cbn [disposeSlots List.map].
  - right. exists log. split; [reflexivity | intros []].
  - destruct (hs_texture s) as [t|] eqn:E.
    + destruct (IH (log ++ [t])) as [[H1 H2]|(log' & H1 & H2)].
      * left. split; [exact H1 | right; exact H2].
      * right. exists log'. split; [exact H1|]. intros [X|X]; [discriminate | auto].
    + left. split; [reflexivity | left; reflexivity].
Qed.

Lemma cleanupStates_Ok states c :
  forall log c' log',
    cleanupStates states c log = Ok (c', log') ->
    log' = log ++ flat_map (fun kv => texturesOf (snd kv)) (withdrawnEntries states c).
Proof.
  induction c as [|[k hs] c IH]; intros log c' log' H; cbn [cleanupStates] in H.
  - inversion H. cbn. now rewrite app_nil_r.
  - unfold withdrawnEntries. cbn [filter fst]. fold (withdrawnEntries states c).
    destruct (inb k states); cbn [negb].
    + inv_bind H. destruct a as [c1 log1]. cbn [fst snd] in H. inversion H; subst.
      exact (IH _ _ _ Ha).
    + inv_bind H. rewrite (IH _ _ _ H). cbn [flat_map snd].
      rewrite (disposeSlots_Ok _ _ _ Ha). now rewrite <- app_assoc.
Qed.

Lemma cleanupStates_cases states c :
  forall log,
    (cleanupStates states c log = Throw /\
     exists k hs, In (k, hs) c /\ inb k states = false /\
                  In None (List.map hs_texture hs)) \/
    (exists r, cleanupStates states c log = Ok r /\
     forall k hs, In (k, hs) c -> inb k states = false ->
                  ~ In None (List.map hs_texture hs)).
Proof.
  induction c as [|[k hs] c IH]; intros log; cbn [cleanupStates].
  - right. eexists. split; [reflexivity|]. intros k hs [].
  - destruct (inb k states) eqn:E.
    + destruct (IH log) as [[H1 (k' & hs' & A & B & C)]|(r & H1 & H2)].
      * left. rewrite H1. split; [reflexivity|].
        exists k', hs'. split; [right; exact A | split; assumption].
      * right. rewrite H1. eexists. split; [reflexivity|].
        intros k' hs' [X|X] Y; [inversion X; subst; congruence | eauto].
    + destruct (disposeSlots_cases hs log) as [[D1 D2]|(log' & D1 & D2)]; rewrite D1;
        cbn [bind].
      * left. split; [reflexivity|]. exists k, hs.
        split; [left; reflexivity | split; assumption].
      * destruct (IH log') as [[H1 (k' & hs' & A & B & C)]|(r & H1 & H2)].
        -- left. split; [exact H1|]. exists k', hs'.
           split; [right; exact A | split; assumption].
        -- right. exists r. split; [exact H1|].
           intros k' hs' [X|X] Y; [inversion X; subst; exact D2 | eauto].
Qed.

Lemma _updateState_modelled d w : _updateState d w <> Unmodelled.
Proof.
  unfold _updateState. cbn [_states set_state set_hoverDepth].
  destruct (cleanupStates_cases
              (declaredStates (edata (getElement (element d) (dom w))))
              (_states d) (disposedTextures w))
    as [[H1 _]|(r & H1 & _)]; rewrite H1; cbn [bind]; discriminate.
Qed.

(** X3: [_updateState] throws exactly when a cached state that is no
    longer declared holds a slot whose texture is still [null]: the cleanup
    calls [dispose] on it.  Nothing else makes it fail. *)
Theorem _updateState_throws_on_withdrawn_null_texture (d : LayerData) (w : World) :
  let e := edata (getElement (element d) (dom w)) in
  (_updateState d w = Throw <->
   exists k hs, In (k, hs) (_states d) /\ ~ In k (declaredStates e) /\
                In None (List.map hs_texture hs)) /\
  _updateState d w <> Unmodelled.
Proof.
  intros e. unfold _updateState. fold e.
  cbn [_states set_state set_hoverDepth].
  destruct (cleanupStates_cases (declaredStates e) (_states d) (disposedTextures w))
    as [[H1 (k & hs & A & B & C)]|(r & H1 & H2)]; rewrite H1; cbn [bind].
  - split; [|discriminate]. split; [|reflexivity]. intros _.
    exists k, hs. split; [exact A|]. split; [|exact C].
    intros X. apply inb_In in X. congruence.
  - split; [|discriminate]. split; [discriminate|].
    intros (k & hs & A & B & C). exfalso.
    exact (H2 k hs A (inb_not_In _ _ B) C).
Qed.

(** X4: when [_updateState] returns, the textures it has disposed are those
    of the withdrawn states, in cache order, and no other: a state that is
    still declared keeps every texture. *)
Theorem _updateState_disposes_withdrawn_textures
  (d : LayerData) (w : World) (d1 : LayerData) (w1 : World) :
  _updateState d w = Ok (d1, w1) ->
  disposedTextures w1 =
  disposedTextures w ++
  flat_map (fun kv => texturesOf (snd kv))
    (withdrawnEntries (declaredStates (edata (getElement (element d) (dom w))))
       (_states d)).
Proof.
  unfold _updateState. intros H. inv_bind H. destruct a as [c log].
  inversion H; subst d1 w1; clear H.
  cbn [_states set_state set_hoverDepth] in Ha.
  cbn [disposedTextures set_disposedTextures snd].
  exact (cleanupStates_Ok _ _ _ _ _ Ha).
Qed.

(** *** The choice of the current state *)

Lemma find_first {A : Type} (f : A -> bool) (l : list A) :
  match find f l with
  | Some x => exists pre post, l = pre ++ x :: post /\ f x = true /\
                               forall y, In y pre -> f y = false
  | None => forall y, In y l -> f y = false
  end.
Proof.
  induction l as [|a l IH]; cbn [find].
  - intros y [].
  - destruct (f a) eqn:E.
    + exists [], l. split; [reflexivity|]. split; [exact E | intros y []].
    + destruct (find f l) as [x|].
      * destruct IH as (pre & post & E1 & E2 & E3).
        exists (a :: pre), post. split; [cbn; now rewrite E1|]. split; [exact E2|].
        intros y [Y|Y]; [now subst y | auto].
      * intros y [Y|Y]; [now subst y | auto].
Qed.

(** X5: the current state that [_updateState] sets is the first class of
    the element, in class-list order, that is a declared state; when no
    class is a declared state it is the default state [""]. *)
Theorem _updateState_selects_first_declared_class
  (d : LayerData) (w : World) (d1 : LayerData) (w1 : World) :
  _updateState d w = Ok (d1, w1) ->
  let e := edata (getElement (element d) (dom w)) in
  (exists pre post,
     classList e = pre ++ _state d1 :: post /\
     In (_state d1) (declaredStates e) /\
     forall c, In c pre -> ~ In c (declaredStates e)) \/
  (_state d1 = "" /\ forall c, In c (classList e) -> ~ In c (declaredStates e)).
Proof.
  intros H e.
  assert (E : _state d1 = stateFromClasses (declaredStates e) (classList e)).
  { unfold _updateState in H. inv_bind H. inversion H; subst d1. reflexivity. }
  rewrite E. unfold stateFromClasses.
  pose proof (find_first (fun c => inb c (declaredStates e)) (classList e)) as F.
  destruct (find (fun c => inb c (declaredStates e)) (classList e)) as [c|].
  - left. destruct F as (pre & post & F1 & F2 & F3).
    exists pre, post. split; [exact F1|]. split; [now apply inb_In|].
    intros c0 Hc0 X. apply inb_In in X. rewrite (F3 c0 Hc0) in X. discriminate.
  - right. split; [reflexivity|].
    intros c0 Hc0 X. apply inb_In in X. rewrite (F c0 Hc0) in X. discriminate.
Qed.

(** *** A hover depth that is not a depth *)

Lemma slotCount_bad e : badHoverDepth e -> slotCount (hoverDepthAttribute e) = 0%nat.
Proof.
  intros [H|(z & H & Hz)]; rewrite H; cbn [slotCount]; [reflexivity | lia].
Qed.

Lemma stateFromClasses_declared states classes :
  inb (stateFromClasses (states ++ [""]) classes) (states ++ [""]) = true.
Proof.
  unfold stateFromClasses.
  destruct (find (fun c => inb c (states ++ [""])) classes) as [c|] eqn:E.
  - apply find_some in E. exact (proj2 E).
  - apply inb_default.
Qed.

(** X6: [refresh] throws on a layer whose element carries a
    [data-layer-hover-depth] that is negative or not a number, when the
    state that the class list selects is not cached yet (as on the first
    pass over the layer): the state gets an empty slot array, and
    [_updateBounds] reads the bounds of a slot that does not exist. *)
Theorem refresh_throws_on_bad_hover_depth
  (fuel : nat) (force : bool) (parent : option LayerData)
  (d : LayerData) (cs : list Layer) (w : World) :
  let e := edata (getElement (element d) (dom w)) in
  badHoverDepth e ->
  lookupState (stateFromClasses (declaredStates e) (classList e)) (_states d) = None ->
  refresh (S fuel) force parent (Node d cs) w = Throw.
Proof.
  intros e Hb Hs. cbn [refresh].
  destruct (_updateState d w) as [[d1 w1]| |] eqn:U; cbn [bind]; [|reflexivity|].
  - assert (T : _updateBounds d1 w1 = Throw).
    { unfold _updateBounds.
      assert (N : noSlot d1).
      { unfold noSlot.
        assert (E : _state d1 = stateFromClasses (declaredStates e) (classList e)).
        { unfold _updateState in U. inv_bind U. inversion U; subst d1. reflexivity. }
        rewrite (_updateState_cache _ _ _ _ (_state d1) U). cbv zeta. fold e.
        rewrite E. unfold declaredStates at 1. rewrite stateFromClasses_declared.
        fold (declaredStates e). rewrite Hs.
        destruct (inherited (stateFromClasses (declaredStates e) (classList e)));
          [left; reflexivity|].
        unfold freshSlots. rewrite (slotCount_bad e Hb). reflexivity. }
      apply currentSlotIndex_Throw in N. rewrite N. reflexivity. }
    cbn [fst snd]. rewrite T. reflexivity.
  - exfalso. exact (_updateState_modelled d w U).
Qed.

(** ** Layout and mesh, further *)

(** X7: a layer that is marked for removal, or whose box has zero width or
    height, gets target opacity 0 and keeps the layout of its last proper
    pass: the target position and the content scale are the remembered
    ones, and what is remembered stays. *)
Theorem _updateTargetLayout_keeps_last_layout_when_hidden
  (p : option LayerData) (d d' : LayerData) :
  _updateTargetLayout p d = Ok d' ->
  _needsRemoval d = true \/ (exists b, bounds d = Ok (Some b) /\ degenerate b) ->
  contentTargetOpacity d' = 0%Q /\
  position (target d') = _lastTargetPosition d /\
  scale (contentTarget d') = _lastContentTargetScale d /\
  _lastTargetPosition d' = _lastTargetPosition d /\
  _lastContentTargetScale d' = _lastContentTargetScale d.
Proof.
  intros H Hc. layout_cases H; subst d'; try (repeat split; reflexivity); exfalso.
  all: destruct Hc as [Hr|(b0 & Hb0 & Hz)]; [cbn in *; congruence|].
  all: apply degenerate_Qeq_bool in Hz.
  all: match goal with
       | Hx : definedBounds _ = Ok ?b1 |- _ =>
           change (definedBounds (bounds d) = Ok b1) in Hx; rewrite Hb0 in Hx;
           inversion Hx; subst b1
       end; congruence.
Qed.

(** the two outcomes of a layout pass. *)
Lemma _updateTargetLayout_forms p d d' :
  _updateTargetLayout p d = Ok d' ->
  ((_needsRemoval d = true \/ exists b, bounds d = Ok (Some b) /\ degenerate b) /\
   d' = hiddenLayout d) \/
  (exists b pos,
     _needsRemoval d = false /\ bounds d = Ok (Some b) /\ ~ degenerate b /\
     placement p d b pos /\ d' = placedLayout pos b d).
Proof.
  intros H. layout_cases H; subst d'.
  - left. split; [left; reflexivity | reflexivity].
  - left. change (definedBounds (bounds d) = Ok b) in Hb.
    unfold definedBounds in Hb. inv_bind Hb. destruct a as [b0|]; [|discriminate].
    inversion Hb; subst b0. split; [|reflexivity].
    right. exists b. split; [exact Ha | now apply degenerate_Qeq_bool].
  - right. change (definedBounds (bounds d) = Ok b) in Hb.
    unfold definedBounds in Hb. inv_bind Hb. destruct a as [b0|]; [|discriminate].
    inversion Hb; subst b0. exists b. eexists.
    split; [reflexivity|]. split; [exact Ha|].
    split; [intros Z; apply degenerate_Qeq_bool in Z; congruence|].
    split; [|reflexivity].
    left. split; [assumption|]. exists pb. split; [exact Hpb | reflexivity].
  - right. change (definedBounds (bounds d) = Ok b) in Hb.
    unfold definedBounds in Hb. inv_bind Hb. destruct a as [b0|]; [|discriminate].
    inversion Hb; subst b0. exists b, (_lastTargetPosition d).
    split; [reflexivity|]. split; [exact Ha|].
    split; [intros Z; apply degenerate_Qeq_bool in Z; congruence|].
    split; [|reflexivity].
    right. split; [assumption | reflexivity].
Qed.

Lemma _updateTargetLayout_hides p d :
  _needsRemoval d = true \/ (exists b, bounds d = Ok (Some b) /\ degenerate b) ->
  _updateTargetLayout p d = Ok (hiddenLayout d).
Proof.
  intros Hc. unfold _updateTargetLayout.
  cbn [_needsRemoval set_target set_contentTarget].
  destruct (_needsRemoval d) eqn:R; [reflexivity|].
  destruct Hc as [Hr|(b & Hb & Hz)]; [discriminate|].
  match goal with
  | |- context [definedBounds (bounds ?x)] => change (bounds x) with (bounds d)
  end.
  rewrite Hb. cbn [definedBounds bind].
  apply degenerate_Qeq_bool in Hz. rewrite Hz. reflexivity.
Qed.

Lemma _updateTargetLayout_places p d b pos :
  _needsRemoval d = false -> bounds d = Ok (Some b) -> ~ degenerate b ->
  placement p d b pos ->
  _updateTargetLayout p d = Ok (placedLayout pos b d).
Proof.
  intros R Hb Hz Hp. unfold _updateTargetLayout.
  cbn [_needsRemoval set_target set_contentTarget].
  rewrite R.
  match goal with
  | |- context [definedBounds (bounds ?x)] => change (bounds x) with (bounds d)
  end.
  rewrite Hb. cbn [definedBounds bind].
  destruct (Qeq_bool (b_width b) 0 || Qeq_bool (b_height b) 0) eqn:Z;
    [exfalso; apply Hz; now apply degenerate_Qeq_bool|].
  cbn [useDOMLayout set_contentTargetOpacity set_contentTarget set_target].
  destruct Hp as [[U (pb & Hpb & E)]|[U E]]; rewrite U, ?Hpb; cbn [bind]; subst pos;
    reflexivity.
Qed.

(** X8: [_updateTargetLayout] is idempotent: a second call right after
    the first (as [_updateMesh] makes when it attaches the mesh) returns
    the layer as the first call left it. *)
Theorem _updateTargetLayout_idempotent (p : option LayerData) (d d' : LayerData) :
  _updateTargetLayout p d = Ok d' -> _updateTargetLayout p d' = Ok d'.
Proof.
  intros H.
  destruct (_updateTargetLayout_inputs _ _ _ H) as (I1 & _).
  destruct (bounds_layoutInputs _ _ I1) as (B & _).
  unfold layoutInputs in I1. inversion I1 as [[L1 L2 L3 L4 L5 L6 L7]]. clear I1.
  destruct (_updateTargetLayout_forms _ _ _ H)
    as [[Hc E]|(b & pos & R & Hb & Hz & Hp & E)].
  - rewrite (_updateTargetLayout_hides p d').
    + subst d'. destruct d; reflexivity.
    + destruct Hc as [Hr|(b & Hb & Hz)]; [left; congruence|].
      right. exists b. split; [congruence | exact Hz].
  - rewrite (_updateTargetLayout_places p d' b pos).
    + subst d'. destruct d; reflexivity.
    + congruence.
    + congruence.
    + exact Hz.
    + destruct Hp as [[U (pb & Hpb & Ep)]|[U Ep]].
      * left. split; [congruence|]. exists pb. split; [exact Hpb|].
        subst pos. unfold layerSeparationOf. rewrite L7, L6. reflexivity.
      * right. split; [congruence|]. subst d'. reflexivity.
Qed.

(** the target opacity that a layout pass sets is 0 or 1. *)
Lemma _updateTargetLayout_opacity p d d' :
  _updateTargetLayout p d = Ok d' ->
  contentTargetOpacity d' = 0%Q \/ contentTargetOpacity d' = 1%Q.
Proof.
  intros H. destruct (_updateTargetLayout_forms _ _ _ H)
    as [[_ E]|(b & pos & _ & _ & _ & _ & E)]; subst d'; [left | right]; reflexivity.
Qed.

Lemma Qmax_floor_positive q : (0 < Qmax q (1 # 100000))%Q.
Proof.
  apply Qlt_le_trans with (y := (1 # 100000)%Q); [reflexivity | apply Q.le_max_r].
Qed.

Lemma _updateTargetLayout_scales p d d' :
  _updateTargetLayout p d = Ok d' ->
  positiveScale (_lastContentTargetScale d) ->
  positiveScale (scale (contentTarget d')) /\
  positiveScale (_lastContentTargetScale d') /\
  content d' = content d /\ object3d d' = object3d d.
Proof.
  intros H Hp. destruct (_updateTargetLayout_forms _ _ _ H)
    as [[_ E]|(b & pos & _ & _ & _ & _ & E)]; subst d'.
  - repeat split; apply Hp.
  - repeat split; apply Qmax_floor_positive.
Qed.

(** the three ways through [_updateMesh]. *)
Lemma _updateMesh_inv p d d' :
  _updateMesh p d = Ok d' ->
  (texture d = Ok None /\ d' = d) \/
  (exists tex,
     texture d = Ok (Some tex) /\ mesh_parent (mesh d) = true /\
     d' = set_mesh (set_renderOrder (_level d) (set_material_map (Some tex) (mesh d))) d) \/
  (exists tex d'',
     texture d = Ok (Some tex) /\ mesh_parent (mesh d) = false /\
     _updateTargetLayout p
       (set_mesh (set_mesh_parent true (set_material_map (Some tex) (mesh d))) d) = Ok d'' /\
     d' = set_mesh (set_renderOrder (_level d'') (mesh d'')) (set_content (contentTarget d'') d'')).
Proof.
  unfold _updateMesh. intros H. inv_bind H. destruct a as [tex|].
  - inv_bind H. inversion H; subst d'; clear H.
    cbn [mesh set_mesh mesh_parent set_material_map] in Ha0.
    destruct (mesh_parent (mesh d)) eqn:Hm.
    + inversion Ha0; subst a; clear Ha0. right; left. exists tex. auto.
    + inv_bind Ha0. inversion Ha0; subst a; clear Ha0. right; right.
      exists tex, a0. auto.
  - inversion H; subst d'. left. auto.
Qed.

(** what [_updateMesh] leaves on the material. *)
Lemma _updateMesh_map p d d' :
  _updateMesh p d = Ok d' ->
  material_map (mesh d') =
  match texture d with
  | Ok (Some tex) => Some tex
  | _ => material_map (mesh d)
  end /\
  opacity (mesh d') = opacity (mesh d) /\ visible (mesh d') = visible (mesh d).
Proof.
  intros H. destruct (_updateMesh_inv _ _ _ H)
    as [[T E]|[(tex & T & M & E)|(tex & d'' & T & M & L & E)]]; rewrite T; subst d'.
  - auto.
  - auto.
  - destruct (_updateTargetLayout_inputs _ _ _ L) as (_ & _ & _ & _ & _ & I6 & _).
    cbn [mesh set_mesh set_content material_map set_renderOrder opacity visible].
    rewrite I6. auto.
Qed.

(** X9: when [refresh] returns, the material of the layer shows the
    texture that the [texture] getter now selects, if that slot holds one;
    when the slot holds none (a state not rasterized yet), the material
    keeps the map it had: the layer goes on showing its last texture.
    [refresh] changes neither the opacity nor the visibility of the mesh. *)
Theorem refresh_shows_current_texture_or_keeps_last
  (fuel : nat) (force : bool) (parent : option LayerData) (l : Layer) (w : World)
  (l' : Layer) (w' : World) :
  refresh fuel force parent l w = Ok (l', w') ->
  material_map (mesh (data l')) =
  match texture (data l') with
  | Ok (Some tex) => Some tex
  | _ => material_map (mesh (data l))
  end /\
  opacity (mesh (data l')) = opacity (mesh (data l)) /\
  visible (mesh (data l')) = visible (mesh (data l)).
Proof.
  destruct fuel as [|fuel]; [discriminate|]. destruct l as [d cs]. intros H.
  apply refresh_inv in H.
  destruct H as (d1 & w1 & d2 & l3 & w3 & cs4 & d5 & d6 & S1 & S2 & S3 & S4 & S5 & S6 & S7).
  subst l'. cbn [data].
  assert (M1 : mesh d1 = mesh d).
  { unfold _updateState in S1. inv_bind S1. inversion S1; subst d1. reflexivity. }
  destruct (_updateBounds_spec _ _ _ S2) as (_ & _ & _ & _ & B5).
  assert (M2 : mesh d2 = mesh d1) by (rewrite B5; reflexivity).
  destruct (refresh_node _ _ _ _ _ _ S3) as (N1 & _).
  destruct (sameButFlags_fields _ _ N1) as (_ & _ & _ & _ & _ & _ & _ & _ & M3 & _).
  destruct (_updateTargetLayout_inputs _ _ _ S5) as (I1 & _ & _ & _ & _ & M5 & _).
  destruct (_updateMesh_cases _ _ _ S6) as (J1 & _).
  destruct (bounds_layoutInputs _ _ J1) as (_ & T6).
  destruct (_updateMesh_map _ _ _ S6) as (A & B & C).
  rewrite T6, A, B, C, M5, M3, M2, M1. auto.
Qed.

(** ** [refresh] over the tree, further *)

(** the loop over the children, with what is known of each child when the
    loop is over. *)
Lemma forEachChild_post (step : Layer -> World -> Result (Layer * World))
  (Post : Layer -> Layer -> World -> Prop) (I : World -> World -> Prop) :
  (forall w, I w w) -> (forall a b c, I a b -> I b c -> I a c) ->
  (forall c c' w0 w1, Post c c' w0 -> I w0 w1 -> Post c c' w1) ->
  forall cs w,
    (forall c w0 c' w0',
       In c cs -> I w w0 -> step c w0 = Ok (c', w0') -> Post c c' w0' /\ I w0 w0') ->
    forall cs' w',
      forEachChild step cs w = Ok (cs', w') ->
      Forall2 (fun c c' => Post c c' w') cs cs' /\ I w w'.
Proof.
  intros Irefl Itrans Pmono cs. induction cs as [|c cs IH]; intros w Hstep cs' w' H;
    cbn [forEachChild] in H.
  - inversion H; subst. split; [constructor | apply Irefl].
  - inv_bind H. destruct a as [c1 w1]. inv_bind H. destruct a as [cs1 w2].
    cbn [fst snd] in *. inversion H; subst cs' w'; clear H.
    destruct (Hstep c w c1 w1 (or_introl eq_refl) (Irefl w) Ha) as [Pc Iw].
    destruct (IH w1
                (fun c0 w0 c0' w0' Hin Hw =>
                   Hstep c0 w0 c0' w0' (or_intror Hin) (Itrans _ _ _ Iw Hw))
                cs1 w2 Ha0) as [Pcs Iw'].
    split; [|eapply Itrans; eassumption].
    constructor; [exact (Pmono _ _ _ _ Pc Iw') | exact Pcs].
Qed.

(** *** The rasterization queue *)

Lemma queueGrows_refl w : queueGrows w w.
Proof. split; [exists []; now rewrite app_nil_r | auto]. Qed.

Lemma queueGrows_trans a b c : queueGrows a b -> queueGrows b c -> queueGrows a c.
Proof.
  intros [[x Hx] N1] [[y Hy] N2]. split; [|auto].
  exists (x ++ y). rewrite Hy, Hx. now rewrite app_assoc.
Qed.

Lemma queueGrows_same w w' :
  _rasterizationQueue w' = _rasterizationQueue w -> queueGrows w w'.
Proof. intros E. split; [exists []; now rewrite app_nil_r | now rewrite E]. Qed.

Lemma queueGrows_In w w' i :
  queueGrows w w' -> In i (_rasterizationQueue w) -> In i (_rasterizationQueue w').
Proof. intros [[x Hx] _] H. rewrite Hx. apply in_or_app. now left. Qed.

Lemma existsb_Nat_In i l : existsb (Nat.eqb i) l = true <-> In i l.
Proof.
  rewrite existsb_exists. split.
  - intros (x & Hx & E). apply Nat.eqb_eq in E. now subst x.
  - intros H. exists i. split; [exact H | apply Nat.eqb_refl].
Qed.

Lemma enqueue_spec i w :
  queueGrows w (enqueue i w) /\ In i (_rasterizationQueue (enqueue i w)) /\
  dom (enqueue i w) = dom w.
Proof.
  unfold enqueue. destruct (existsb (Nat.eqb i) (_rasterizationQueue w)) eqn:E.
  - split; [apply queueGrows_refl|]. split; [now apply existsb_Nat_In | reflexivity].
  - cbn [_rasterizationQueue set_rasterizationQueue dom].
    split; [|split; [apply in_or_app; right; left; reflexivity | reflexivity]].
    split; [exists [i]; reflexivity|].
    intros N. apply NoDup_app; [exact N | constructor; [intros [] | constructor] |].
    intros x Hx [X|[]]. subst x. apply existsb_Nat_In in Hx. congruence.
Qed.

(** what the first half of a pass does to the queue. *)
Lemma refresh_node_queue d w d1 w1 d2 cs force l3 w3 :
  _updateState d w = Ok (d1, w1) ->
  _updateBounds d1 w1 = Ok d2 ->
  (l3, w3) =
    (if needsRasterize d2 || force then
       (fst (_updateChildLayers (Node (set_needsRasterize false d2) cs) w1),
        enqueue (id d2)
          (snd (_updateChildLayers (Node (set_needsRasterize false d2) cs) w1)))
     else (Node d2 cs, w1)) ->
  queueGrows w w3 /\
  id d2 = id d /\ needsRasterize d2 = needsRasterize d /\
  (needsRasterize d || force = true -> In (id d) (_rasterizationQueue w3)).
Proof.
  intros S1 S2 S3.
  destruct (_updateState_fields _ _ _ _ S1)
    as (_ & F2 & _ & F4 & _ & _ & _ & _ & _ & _ & F11 & _).
  destruct (_updateBounds_spec _ _ _ S2) as (_ & _ & _ & _ & B5).
  assert (Eid : id d2 = id d) by (rewrite B5; exact F2).
  assert (Enr : needsRasterize d2 = needsRasterize d) by (rewrite B5; exact F4).
  rewrite Enr in S3. rewrite Eid in S3.
  split; [|split; [exact Eid | split; [exact Enr|]]].
  - destruct (needsRasterize d || force).
    + destruct (_updateChildLayers (Node (set_needsRasterize false d2) cs) w1)
        as [lx wx] eqn:U. cbn [fst snd] in S3. inversion S3; subst l3 w3.
      destruct (_updateChildLayers_keeps _ _ _ _ _ U) as (_ & _ & _ & (Q & _)).
      eapply queueGrows_trans; [|apply enqueue_spec].
      apply queueGrows_same. rewrite Q. exact F11.
    + inversion S3; subst l3 w3. now apply queueGrows_same.
  - intros E. rewrite E in S3. inversion S3; subst w3. apply enqueue_spec.
Qed.

Lemma refresh_queueGrows fuel :
  forall force parent l w l' w',
    refresh fuel force parent l w = Ok (l', w') -> queueGrows w w'.
Proof.
  induction fuel as [|fuel IH]; intros force parent l w l' w' H; [discriminate|].
  destruct l as [d cs]. apply refresh_inv in H.
  destruct H as (d1 & w1 & d2 & l3 & w3 & cs4 & d5 & d6 & S1 & S2 & S3 & S4 & S5 & S6 & S7).
  destruct (refresh_node_queue _ _ _ _ _ _ _ _ _ S1 S2 S3) as (Q & _).
  eapply queueGrows_trans; [exact Q|].
  refine (proj2 (forEachChild_invariant _ (fun _ _ => True) queueGrows
                   queueGrows_refl queueGrows_trans (children l3) w3 _ cs4 w' S4)).
  intros c w0 c' w0' _ _ Hc. split; [exact I | exact (IH _ _ _ _ _ _ Hc)].
Qed.

(** X10: [refresh] only pushes at the end of the rasterization queue: the
    entries that were queued stay, in their order, ahead of the new ones;
    and a queue that held no layer twice holds none twice afterwards. *)
Theorem refresh_appends_to_queue
  (fuel : nat) (force : bool) (parent : option LayerData) (l : Layer) (w : World)
  (l' : Layer) (w' : World) :
  refresh fuel force parent l w = Ok (l', w') ->
  (exists added, _rasterizationQueue w' = _rasterizationQueue w ++ added) /\
  (NoDup (_rasterizationQueue w) -> NoDup (_rasterizationQueue w')).
Proof.
  intros H. exact (refresh_queueGrows _ _ _ _ _ _ _ H).
Qed.

(** *** Which layers a pass queues *)

Lemma sameButRemoval_refl d : sameButRemoval d d.
Proof. destruct d; reflexivity. Qed.

Lemma sameButRemoval_trans a b c :
  sameButRemoval a b -> sameButRemoval b c -> sameButRemoval a c.
Proof.
  unfold sameButRemoval. intros H1 H2. rewrite H2. rewrite H1 at 1. reflexivity.
Qed.

Lemma sameButRemoval_fields d d' :
  sameButRemoval d d' -> id d' = id d /\ needsRasterize d' = needsRasterize d.
Proof. intros H. rewrite H. split; reflexivity. Qed.

Lemma _markForRemoval_sameButRemoval l : related sameButRemoval l (_markForRemoval l).
Proof.
  induction l as [d cs IH] using Layer_ind. cbn [_markForRemoval].
  constructor; [reflexivity|].
  induction IH; cbn [List.map]; constructor; assumption.
Qed.

Lemma markMissing_sameButRemoval old this :
  related sameButRemoval this (markMissing old this).
Proof.
  unfold markMissing. revert this. induction old as [|c old IH]; intros this;
    cbn [fold_left]; [apply related_refl; exact sameButRemoval_refl|].
  destruct (existsb (Nat.eqb c) (childLayers (data this))); [apply IH|].
  eapply related_trans; [exact sameButRemoval_trans | | apply IH].
  apply related_applyById; [exact sameButRemoval_refl | exact _markForRemoval_sameButRemoval].
Qed.

(** discovery leaves the old children in place, up to removal marks, and
    appends the new ones. *)
Lemma _updateChildLayers_old_children d cs w l' w' :
  _updateChildLayers (Node d cs) w = (l', w') ->
  exists cs3 news, children l' = cs3 ++ news /\ Forall2 (related sameButRemoval) cs cs3.
Proof.
  unfold _updateChildLayers. intros H.
  destruct (traverseDOM _ _ _ _) as [this1 w1] eqn:T.
  inversion H; subst l' w'; clear H.
  assert (HI : exists news, children (fst (this1, w1)) = cs ++ news).
  { rewrite <- T.
    apply (traverseDOM_invariant
             (fun s : Layer * World => exists news, children (fst s) = cs ++ news)).
    - intros e lvl [[d0 cs0] w0] [news Hn]. cbn [fst children] in *.
      unfold _tryConvertToWebLayer3D.
      destruct (layerAttribute e) as [a|];
        [|destruct (String.eqb (nodeName e) "video")].
      1,2: destruct (lookupChild _ (Node d0 cs0)); cbn [fst children];
           [exists news; exact Hn
           | eexists; rewrite Hn, <- app_assoc; reflexivity].
      cbn [fst children]. exists news; exact Hn.
    - exists []. cbn [fst children]. now rewrite app_nil_r. }
  destruct HI as [news Hn]. cbn [fst] in Hn.
  pose proof (markMissing_sameButRemoval (childLayers d) this1) as M.
  destruct this1 as [d1 cs1]. cbn [children] in Hn. subst cs1.
  inversion M as [da db csa csb Hd Hcs Ea Eb].
  cbn [children].
  apply Forall2_app_inv_l in Hcs. destruct Hcs as (cs3 & news3 & F1 & F2 & E).
  exists cs3, news3. split; assumption.
Qed.

Lemma refresh_node_children d2 cs w1 force l3 w3 :
  (l3, w3) =
    (if needsRasterize d2 || force then
       (fst (_updateChildLayers (Node (set_needsRasterize false d2) cs) w1),
        enqueue (id d2)
          (snd (_updateChildLayers (Node (set_needsRasterize false d2) cs) w1)))
     else (Node d2 cs, w1)) ->
  exists cs3 news, children l3 = cs3 ++ news /\ Forall2 (related sameButRemoval) cs cs3.
Proof.
  intros S3. destruct (needsRasterize d2 || force).
  - destruct (_updateChildLayers (Node (set_needsRasterize false d2) cs) w1)
      as [lx wx] eqn:U. cbn [fst snd] in S3. inversion S3; subst l3 w3.
    exact (_updateChildLayers_old_children _ _ _ _ _ U).
  - inversion S3; subst l3 w3. exists cs, []. cbn [children].
    split; [now rewrite app_nil_r | apply Forall2_related_refl; exact sameButRemoval_refl].
Qed.

Lemma allLayers_related_inv (R : LayerData -> LayerData -> Prop) (P : LayerData -> Prop) :
  (forall d d', R d d' -> P d' -> P d) ->
  forall l l', related R l l' -> allLayers P l' -> allLayers P l.
Proof.
  intros HP l. induction l as [d cs IH] using Layer_ind. intros l' Hr Ha.
  inversion Hr as [d0 d' cs0 cs' Hd Hcs]; subst.
  inversion Ha as [d0 cs0 Pd Pcs]; subst.
  constructor; [eapply HP; eassumption|].
  clear Hr Ha Hd Pd. revert cs' Hcs Pcs.
  induction IH as [|c rest Hc _ IHrest]; intros cs' Hcs Pcs;
    inversion Hcs; subst; constructor; inversion Pcs; subst.
  - eapply Hc; eassumption.
  - eapply IHrest; eassumption.
Qed.

Lemma allLayers_weaken (P Q : LayerData -> Prop) :
  (forall d, P d -> Q d) -> forall l, allLayers P l -> allLayers Q l.
Proof.
  intros HPQ l. induction l as [d cs IH] using Layer_ind. intros Ha.
  inversion Ha as [d0 cs0 Pd Pcs]; subst. constructor; [now apply HPQ|].
  clear Ha Pd. induction IH as [|c rest Hc _ IHrest]; [constructor|].
  inversion Pcs; subst. constructor; [now apply Hc | now apply IHrest].
Qed.

Lemma refresh_queues_dirty fuel :
  forall force parent l w l' w',
    refresh fuel force parent l w = Ok (l', w') ->
    allLayers (fun d => needsRasterize d || force = true ->
                        In (id d) (_rasterizationQueue w')) l.
Proof.
  induction fuel as [|fuel IH]; intros force parent l w l' w' H; [discriminate|].
  destruct l as [d cs]. apply refresh_inv in H.
  destruct H as (d1 & w1 & d2 & l3 & w3 & cs4 & d5 & d6 & S1 & S2 & S3 & S4 & S5 & S6 & S7).
  destruct (refresh_node_queue _ _ _ _ _ _ _ _ _ S1 S2 S3) as (Q & _ & _ & Hin).
  destruct (refresh_node_children _ _ _ _ _ _ S3) as (cs3 & news & E3 & R3).
  destruct (forEachChild_post (refresh fuel force (Some (data l3)))
              (fun c _ w0 =>
                 allLayers (fun d => needsRasterize d || force = true ->
                                     In (id d) (_rasterizationQueue w0)) c)
              queueGrows queueGrows_refl queueGrows_trans) with
    (cs := children l3) (w := w3) (cs' := cs4) (w' := w') as [Post Q'].
  - intros c c' wa wb Hc Hw. refine (allLayers_weaken _ _ _ c Hc).
    intros d0 Hd0 E. exact (queueGrows_In _ _ _ Hw (Hd0 E)).
  - intros c w0 c' w0' _ _ Hc. split; [exact (IH _ _ _ _ _ _ Hc)|].
    exact (refresh_queueGrows _ _ _ _ _ _ _ Hc).
  - exact S4.
  - constructor.
    + intros E. exact (queueGrows_In _ _ _ Q' (Hin E)).
    + rewrite E3 in Post. apply Forall2_app_inv_l in Post.
      destruct Post as (cs4a & cs4b & Pa & _ & _).
      clear - R3 Pa. revert cs3 cs4a R3 Pa.
      induction cs as [|c cs IHcs]; intros cs3 cs4a R3 Pa; [constructor|].
      inversion R3; subst. inversion Pa; subst. constructor; [|eapply IHcs; eassumption].
      match goal with
      | Hr : related sameButRemoval c ?y, Hp : allLayers _ ?y |- _ =>
          refine (allLayers_related_inv sameButRemoval _ _ c y Hr Hp)
      end.
      intros d0 d0' Hd P0 E. destruct (sameButRemoval_fields _ _ Hd) as [E1 E2].
      rewrite <- E1. apply P0. rewrite E2. exact E.
Qed.

Lemma refresh_forced_queues_all fuel :
  forall parent l w l' w',
    refresh fuel true parent l w = Ok (l', w') ->
    allLayers (fun d => In (id d) (_rasterizationQueue w')) l'.
Proof.
  induction fuel as [|fuel IH]; intros parent l w l' w' H; [discriminate|].
  destruct l as [d cs]. apply refresh_inv in H.
  destruct H as (d1 & w1 & d2 & l3 & w3 & cs4 & d5 & d6 & S1 & S2 & S3 & S4 & S5 & S6 & S7).
  destruct (refresh_node_queue _ _ _ _ _ _ _ _ _ S1 S2 S3) as (Q & Eid & _ & Hin).
  destruct (refresh_node _ _ _ _ _ _ S3) as (N1 & _).
  destruct (sameButFlags_fields _ _ N1) as (_ & _ & _ & _ & _ & _ & G7 & _).
  destruct (_updateTargetLayout_inputs _ _ _ S5) as (_ & _ & _ & I4 & _).
  destruct (_updateMesh_cases _ _ _ S6) as (_ & _ & _ & M4 & _).
  destruct (forEachChild_post (refresh fuel true (Some (data l3)))
              (fun _ c' w0 => allLayers (fun d => In (id d) (_rasterizationQueue w0)) c')
              queueGrows queueGrows_refl queueGrows_trans) with
    (cs := children l3) (w := w3) (cs' := cs4) (w' := w') as [Post Q'].
  - intros c c' wa wb Hc Hw. refine (allLayers_weaken _ _ _ c' Hc).
    intros d0 Hd0. exact (queueGrows_In _ _ _ Hw Hd0).
  - intros c w0 c' w0' _ _ Hc. split; [exact (IH _ _ _ _ _ Hc)|].
    exact (refresh_queueGrows _ _ _ _ _ _ _ Hc).
  - exact S4.
  - subst l'. constructor.
    + rewrite M4, I4, G7, Eid. apply (queueGrows_In _ _ _ Q'). apply Hin.
      apply orb_true_r.
    + clear - Post. induction Post; constructor; assumption.
Qed.

(** X11: no dirty layer is passed over: every layer of the tree that
    needs a rasterization when [refresh] starts is in the queue when it
    returns; and [refresh(true)] queues every layer of the tree it
    returns, those it created included. *)
Theorem refresh_queues_every_dirty_layer
  (fuel : nat) (force : bool) (parent : option LayerData) (l : Layer) (w : World)
  (l' : Layer) (w' : World) :
  refresh fuel force parent l w = Ok (l', w') ->
  allLayers (fun d => needsRasterize d = true -> In (id d) (_rasterizationQueue w')) l /\
  (force = true -> allLayers (fun d => In (id d) (_rasterizationQueue w')) l').
Proof.
  intros H. split.
  - refine (allLayers_weaken _ _ _ l (refresh_queues_dirty _ _ _ _ _ _ _ H)).
    intros d Hd E. apply Hd. rewrite E. reflexivity.
  - intros F. subst force. exact (refresh_forced_queues_all _ _ _ _ _ _ H).
Qed.

(** *** What a pass writes to the page *)

Section RelatedElements.
Variable R : ElementData -> ElementData -> Prop.

Lemma relatedE_refl : (forall d, R d d) -> forall e, relatedE R e e.
Proof.
  intros Hr e. induction e as [d cs IH] using Element_ind.
  constructor; [apply Hr|]. induction IH; constructor; assumption.
Qed.

Lemma relatedE_trans :
  (forall a b c, R a b -> R b c -> R a c) ->
  forall e1 e2 e3, relatedE R e1 e2 -> relatedE R e2 e3 -> relatedE R e1 e3.
Proof.
  intros Ht e1. induction e1 as [d cs IH] using Element_ind. intros e2 e3 H12 H23.
  inversion H12 as [d1 d2 cs1 cs2 Hd Hcs]; subst.
  inversion H23 as [d2' d3 cs2' cs3 Hd' Hcs']; subst.
  constructor; [eapply Ht; eassumption|].
  clear H12 H23 Hd Hd'. revert cs2 cs3 Hcs Hcs'.
  induction IH as [|c rest Hc _ IHrest]; intros cs2 cs3 Hcs Hcs';
    inversion Hcs; subst; inversion Hcs'; subst; constructor.
  - eapply Hc; eassumption.
  - eapply IHrest; eassumption.
Qed.

Lemma relatedE_mapElements g :
  (forall d, R d (g d)) -> forall e, relatedE R e (mapElements g e).
Proof.
  intros Hg e. induction e as [d cs IH] using Element_ind. cbn [mapElements].
  constructor; [apply Hg|]. induction IH; cbn [List.map]; constructor; assumption.
Qed.

Hypothesis R_id : forall d d', R d d' -> el_id d' = el_id d.

(** [findElement] finds corresponding elements in related trees. *)
Lemma findElement_relatedE eid e :
  forall e', relatedE R e e' ->
  match findElement eid e, findElement eid e' with
  | Some x, Some x' => relatedE R x x'
  | None, None => True
  | _, _ => False
  end.
Proof.
  induction e as [d cs IH] using Element_ind. intros e' H.
  inversion H as [d0 d' cs0 cs' Hd Hcs]; subst. cbn [findElement].
  rewrite (R_id _ _ Hd). destruct (Nat.eqb (el_id d) eid); [exact H|].
  clear H Hd. revert cs' Hcs.
  induction IH as [|c rest Hc _ IHrest]; intros cs' Hcs; inversion Hcs; subst; [exact I|].
  match goal with Hx : relatedE R c ?y |- _ => specialize (Hc _ Hx) end.
  destruct (findElement eid c), (findElement eid y); try contradiction; [exact Hc|].
  now apply IHrest.
Qed.

Lemma findInForest_relatedE eid f :
  forall f', Forall2 (relatedE R) f f' ->
  match findInForest eid f, findInForest eid f' with
  | Some x, Some x' => relatedE R x x'
  | None, None => True
  | _, _ => False
  end.
Proof.
  induction f as [|e f IH]; intros f' H; inversion H; subst; cbn [findInForest];
    [exact I|].
  match goal with Hx : relatedE R e ?y |- _ =>
    pose proof (findElement_relatedE eid e y Hx) as F
  end.
  destruct (findElement eid e), (findElement eid y); try contradiction; [exact F|].
  now apply IH.
Qed.

End RelatedElements.

Lemma sameButLayerAttribute_refl e : sameButLayerAttribute e e.
Proof. repeat split. Qed.

Lemma sameButLayerAttribute_trans a b c :
  sameButLayerAttribute a b -> sameButLayerAttribute b c -> sameButLayerAttribute a c.
Proof.
  unfold sameButLayerAttribute.
  intros (A1 & A2 & A3 & A4 & A5 & A6) (B1 & B2 & B3 & B4 & B5 & B6).
  repeat split; congruence.
Qed.

Lemma samePage_refl dom : samePage dom dom.
Proof.
  induction dom; constructor; [|assumption].
  apply relatedE_refl. exact sameButLayerAttribute_refl.
Qed.

Lemma samePage_trans a b c : samePage a b -> samePage b c -> samePage a c.
Proof.
  unfold samePage. intros H. revert c. induction H; intros c H3; inversion H3; subst;
    constructor; [|auto].
  eapply relatedE_trans; [exact sameButLayerAttribute_trans | eassumption | eassumption].
Qed.

Lemma samePage_setLayerAttribute eid i dom : samePage dom (setLayerAttribute eid i dom).
Proof.
  unfold setLayerAttribute. induction dom as [|e dom IH]; cbn [List.map]; constructor;
    [|exact IH].
  apply relatedE_mapElements. intros d.
  destruct (Nat.eqb (el_id d) eid); repeat split.
Qed.

(** an element looked up on two pages that differ in [data-layer]
    attributes only. *)
Lemma samePage_getElement eid dom dom' :
  samePage dom dom' ->
  relatedE sameButLayerAttribute (getElement eid dom) (getElement eid dom').
Proof.
  intros H. unfold getElement.
  pose proof (findInForest_relatedE sameButLayerAttribute
                (fun d d' Hd => proj1 Hd) eid dom dom' H) as F.
  destruct (findInForest eid dom), (findInForest eid dom'); try contradiction;
    [exact F|].
  apply relatedE_refl. exact sameButLayerAttribute_refl.
Qed.

Lemma _updateChildLayers_samePage this w :
  samePage (dom w) (dom (snd (_updateChildLayers this w))).
Proof.
  destruct this as [d cs]. unfold _updateChildLayers.
  destruct (traverseDOM _ _ _ _) as [this1 w1] eqn:T. cbn [snd].
  change w1 with (snd (this1, w1)). rewrite <- T.
  apply (traverseDOM_invariant (fun s : Layer * World => samePage (dom w) (dom (snd s)))).
  - intros e lvl [[d0 cs0] w0] Hs. cbn [snd] in *.
    unfold _tryConvertToWebLayer3D.
    destruct (layerAttribute e) as [a|];
      [|destruct (String.eqb (nodeName e) "video")].
    1,2: destruct (lookupChild _ (Node d0 cs0)); cbn [fst snd]; [exact Hs|];
         cbn [dom set_nextId set_dom];
         (eapply samePage_trans; [exact Hs | apply samePage_setLayerAttribute]).
    cbn [fst snd]. exact Hs.
  - cbn [snd]. apply samePage_refl.
Qed.

Lemma refresh_samePage fuel :
  forall force parent l w l' w',
    refresh fuel force parent l w = Ok (l', w') -> samePage (dom w) (dom w').
Proof.
  induction fuel as [|fuel IH]; intros force parent l w l' w' H; [discriminate|].
  destruct l as [d cs]. apply refresh_inv in H.
  destruct H as (d1 & w1 & d2 & l3 & w3 & cs4 & d5 & d6 & S1 & S2 & S3 & S4 & S5 & S6 & S7).
  destruct (_updateState_fields _ _ _ _ S1)
    as (_ & _ & _ & _ & _ & _ & _ & _ & _ & F10 & _).
  assert (P3 : samePage (dom w) (dom w3)).
  { rewrite <- F10. destruct (needsRasterize d2 || force).
    - pose proof (_updateChildLayers_samePage (Node (set_needsRasterize false d2) cs) w1)
        as U.
      destruct (_updateChildLayers (Node (set_needsRasterize false d2) cs) w1)
        as [lx wx]. cbn [fst snd] in *. inversion S3; subst l3 w3.
      rewrite (proj2 (proj2 (enqueue_spec _ _))). exact U.
    - inversion S3; subst l3 w3. apply samePage_refl. }
  eapply samePage_trans; [exact P3|].
  refine (proj2 (forEachChild_invariant _ (fun _ _ => True)
                   (fun a b => samePage (dom a) (dom b))
                   (fun a => samePage_refl (dom a))
                   (fun a b c => samePage_trans (dom a) (dom b) (dom c))
                   (children l3) w3 _ cs4 w' S4)).
  intros c w0 c' w0' _ _ Hc. split; [exact I | exact (IH _ _ _ _ _ _ Hc)].
Qed.

(** X12: all that [refresh] writes to the page are [data-layer]
    attributes (the ids of the layers it creates): the page keeps its
    shape, and every element its id, node name, declared states, hover
    depth, class attribute and box. *)
Theorem refresh_writes_only_layer_attributes
  (fuel : nat) (force : bool) (parent : option LayerData) (l : Layer) (w : World)
  (l' : Layer) (w' : World) :
  refresh fuel force parent l w = Ok (l', w') ->
  Forall2 (relatedE sameButLayerAttribute) (dom w) (dom w').
Proof.
  intros H. exact (refresh_samePage _ _ _ _ _ _ _ H).
Qed.

(** *** Invariants of the layers across a pass *)

Lemma _markForRemoval_sameButFlags l : related sameButFlags l (_markForRemoval l).
Proof.
  induction l as [d cs IH] using Layer_ind. cbn [_markForRemoval].
  constructor; [reflexivity|].
  induction IH; cbn [List.map]; constructor; assumption.
Qed.

Lemma markMissing_sameButFlags old this :
  related sameButFlags this (markMissing old this).
Proof.
  unfold markMissing. revert this. induction old as [|c old IH]; intros this;
    cbn [fold_left]; [apply related_refl; exact sameButFlags_refl|].
  destruct (existsb (Nat.eqb c) (childLayers (data this))); [apply IH|].
  eapply related_trans; [exact sameButFlags_trans | | apply IH].
  apply related_applyById; [exact sameButFlags_refl | exact _markForRemoval_sameButFlags].
Qed.

Section RefreshInvariant.
Variable P : LayerData -> Prop.
Hypothesis P_new : forall i eid root level sep, P (newLayerData i eid root level sep).
Hypothesis P_flags : forall d d', sameButFlags d d' -> P d -> P d'.
Hypothesis P_cache : forall d c s h, P d -> P (set_states c (set_state s (set_hoverDepth h d))).
Hypothesis P_layout : forall p d d', P d -> _updateTargetLayout p d = Ok d' -> P d'.
Hypothesis P_mesh : forall p d d', P d -> _updateMesh p d = Ok d' -> P d'.

Lemma _updateChildLayers_allLayers this w :
  allLayers P this -> allLayers P (fst (_updateChildLayers this w)).
Proof.
  destruct this as [d cs]. intros Ha. unfold _updateChildLayers.
  destruct (traverseDOM _ _ _ _) as [this1 w1] eqn:T. cbn [fst].
  refine (allLayers_related sameButFlags P P_flags _ _
            (markMissing_sameButFlags (childLayers d) this1) _).
  change this1 with (fst (this1, w1)). rewrite <- T.
  apply (traverseDOM_invariant (fun s : Layer * World => allLayers P (fst s))).
  - intros e lvl [[d0 cs0] w0] Hs. cbn [fst] in *.
    inversion Hs as [dx csx Pd Pcs]; subst.
    unfold _tryConvertToWebLayer3D.
    destruct (layerAttribute e) as [a|];
      [|destruct (String.eqb (nodeName e) "video")].
    1,2: destruct (lookupChild _ (Node d0 cs0)); cbn [fst];
         (constructor; [refine (P_flags d0 _ _ Pd); reflexivity|]);
         [exact Pcs | apply Forall_app; split; [exact Pcs|]];
         constructor; [|constructor]; constructor; [apply P_new | constructor].
    cbn [fst]. exact Hs.
  - cbn [fst]. inversion Ha as [dx csx Pd Pcs]; subst.
    constructor; [refine (P_flags d _ _ Pd); reflexivity | exact Pcs].
Qed.

Lemma refresh_allLayers fuel :
  forall force parent l w l' w',
    allLayers P l -> refresh fuel force parent l w = Ok (l', w') -> allLayers P l'.
Proof.
  induction fuel as [|fuel IH]; intros force parent l w l' w' Ha H; [discriminate|].
  destruct l as [d cs]. inversion Ha as [dx csx Pd Pcs]; subst.
  apply refresh_inv in H.
  destruct H as (d1 & w1 & d2 & l3 & w3 & cs4 & d5 & d6 & S1 & S2 & S3 & S4 & S5 & S6 & S7).
  subst l'.
  assert (P1 : P d1).
  { unfold _updateState in S1. inv_bind S1. inversion S1; subst d1. apply P_cache, Pd. }
  assert (P2 : P d2).
  { destruct (_updateBounds_spec _ _ _ S2) as (_ & _ & _ & _ & B5). rewrite B5.
    exact (P_cache d1 (_states d2) (_state d1) (_hoverDepth d1) P1). }
  assert (A3 : allLayers P l3).
  { apply (f_equal fst) in S3. cbn [fst] in S3. rewrite S3.
    destruct (needsRasterize d2 || force); cbn [fst].
    - apply _updateChildLayers_allLayers.
      constructor; [refine (P_flags d2 _ _ P2); reflexivity | exact Pcs].
    - constructor; assumption. }
  inversion A3 as [d3 cs3 P3 Pcs3 E3]. subst l3. cbn [data children] in *.
  constructor.
  - exact (P_mesh _ _ _ (P_layout _ _ _ P3 S5) S6).
  - destruct (forEachChild_invariant (refresh fuel force (Some d3))
                (fun c c' => allLayers P c -> allLayers P c') (fun _ _ => True)
                (fun _ => I) (fun _ _ _ _ _ => I) cs3 w3
                (fun c w0 c' w0' _ _ Hc =>
                   conj (fun Hp => IH _ _ _ _ _ _ Hp Hc) I)
                cs4 w' S4) as [F _].
    clear - F Pcs3. induction F; [constructor|].
    inversion Pcs3; subst. constructor; auto.
Qed.

End RefreshInvariant.

(** ** C4: zero-size elements *)

Lemma refresh_degenerate_opacity fuel force parent l w l' w' :
  refresh fuel force parent l w = Ok (l', w') ->
  degenerate (getBounds (edata (getElement (element (data l)) (dom w)))) ->
  contentTargetOpacity (data l') = 0%Q.
Proof.
  intros H Hz. apply degenerate_Qeq_bool in Hz.
  destruct (refresh_layout _ _ _ _ _ _ _ H) as (d3 & d5 & B & L & _ & _ & T).
  destruct T as [[_ T]|(m & d'' & L2 & _ & T)]; rewrite T.
  - exact (_updateTargetLayout_zero _ _ _ _ L B Hz).
  - destruct (_updateTargetLayout_inputs _ _ _ L) as (J & _).
    destruct (bounds_layoutInputs _ _ J) as (J5 & _).
    refine (_updateTargetLayout_zero _ _ _ _ L2 _ Hz).
    change (bounds d5 = Ok (Some (getBounds (edata (getElement (element (data l)) (dom w)))))).
    rewrite J5. exact B.
Qed.

Lemma samePage_bounds eid dom dom' :
  samePage dom dom' ->
  getBounds (edata (getElement eid dom')) = getBounds (edata (getElement eid dom)).
Proof.
  intros H. pose proof (samePage_getElement eid dom dom' H) as R.
  inversion R as [d d' cs cs' Hd _]. cbn [edata]. unfold getBounds.
  exact (proj2 (proj2 (proj2 (proj2 (proj2 Hd))))).
Qed.

Lemma refresh_element fuel force parent l w l' w' :
  refresh fuel force parent l w = Ok (l', w') -> element (data l') = element (data l).
Proof.
  intros H. destruct fuel as [|fuel]; [discriminate|]. destruct l as [d cs].
  apply refresh_inv in H.
  destruct H as (d1 & w1 & d2 & l3 & w3 & cs4 & d5 & d6 & S1 & S2 & S3 & S4 & S5 & S6 & S7).
  subst l'. cbn [data].
  destruct (_updateState_fields _ _ _ _ S1) as (F1 & _).
  destruct (_updateBounds_spec _ _ _ S2) as (_ & _ & _ & _ & B5).
  destruct (refresh_node _ _ _ _ _ _ S3) as (N1 & _).
  destruct (sameButFlags_fields _ _ N1) as (_ & _ & _ & _ & _ & _ & _ & G8 & _).
  destruct (_updateTargetLayout_inputs _ _ _ S5) as (_ & _ & _ & _ & I5 & _).
  destruct (_updateMesh_cases _ _ _ S6) as (_ & _ & _ & _ & M5 & _).
  rewrite M5, I5, G8, B5. cbn [element set_states]. exact F1.
Qed.

(** after a pass, every layer of the tree whose element measures zero
    width or height has target opacity 0. *)
Lemma refresh_degenerate_all fuel :
  forall force parent l w l' w',
    refresh fuel force parent l w = Ok (l', w') ->
    allLayers
      (fun d' => degenerate (getBounds (edata (getElement (element d') (dom w)))) ->
                 contentTargetOpacity d' = 0%Q) l'.
Proof.
  induction fuel as [|fuel IH]; intros force parent l w l' w' H; [discriminate|].
  pose proof (refresh_degenerate_opacity _ _ _ _ _ _ _ H) as Hroot.
  pose proof (refresh_element _ _ _ _ _ _ _ H) as Hel.
  destruct l as [d cs]. apply refresh_inv in H.
  destruct H as (d1 & w1 & d2 & l3 & w3 & cs4 & d5 & d6 & S1 & S2 & S3 & S4 & S5 & S6 & S7).
  assert (P3 : samePage (dom w) (dom w3)).
  { destruct (_updateState_fields _ _ _ _ S1)
      as (_ & _ & _ & _ & _ & _ & _ & _ & _ & F10 & _).
    rewrite <- F10. destruct (needsRasterize d2 || force).
    - pose proof (_updateChildLayers_samePage (Node (set_needsRasterize false d2) cs) w1)
        as U.
      destruct (_updateChildLayers (Node (set_needsRasterize false d2) cs) w1)
        as [lx wx]. cbn [fst snd] in *. inversion S3; subst l3 w3.
      rewrite (proj2 (proj2 (enqueue_spec _ _))). exact U.
    - inversion S3; subst l3 w3. apply samePage_refl. }
  destruct (forEachChild_post (refresh fuel force (Some (data l3)))
              (fun _ c' _ =>
                 allLayers
                   (fun d' =>
                      degenerate (getBounds (edata (getElement (element d') (dom w)))) ->
                      contentTargetOpacity d' = 0%Q) c')
              (fun a b => samePage (dom a) (dom b))
              (fun a => samePage_refl (dom a))
              (fun a b c => samePage_trans (dom a) (dom b) (dom c)))
    with (cs := children l3) (w := w3) (cs' := cs4) (w' := w') as [Post _].
  - intros c c' wa wb Hc _. exact Hc.
  - intros c w0 c' w0' _ Hw Hc. split; [|exact (refresh_samePage _ _ _ _ _ _ _ Hc)].
    refine (allLayers_weaken _ _ _ c' (IH _ _ _ _ _ _ Hc)).
    intros d0 Hd0 Hz. apply Hd0.
    rewrite (samePage_bounds (element d0) (dom w) (dom w0)
               (samePage_trans _ _ _ P3 Hw)).
    exact Hz.
  - exact S4.
  - subst l'. constructor.
    + cbn [data] in *. intros Hz. apply Hroot. rewrite <- Hel. exact Hz.
    + clear - Post. induction Post; constructor; assumption.
Qed.

(** C4: after a pass of [refresh], every layer of the tree whose element
    has zero width or zero height has [contentTargetOpacity] 0, whatever
    its state; and [_rasterize] skips a state/hover configuration that the
    probe reports as zero-size: the slot keeps the texture and the bounds
    it had, whatever the backend does, and with all slots in place, a
    barrier that resolves and renders that succeed, the promise resolves.
    (A [video] element bypasses rasterization and is outside the second and
    third part.) *)
Theorem C4_zero_size_invisible_and_skipped :
  (forall fuel force parent l w l' w',
     refresh fuel force parent l w = Ok (l', w') ->
     allLayers
       (fun d' => degenerate (getBounds (edata (getElement (element d') (dom w)))) ->
                  contentTargetOpacity d' = 0%Q) l') /\
  (forall layout ready backend d w k hover,
     String.eqb (nodeName (edata (getElement (element d) (dom w)))) "video" = false ->
     degenerate (layout k hover) ->
     slotAt k hover (_states (fst (fst (rasterizeLayer layout ready backend d w)))) =
     slotAt k hover (_states d)) /\
  (forall layout d w,
     String.eqb (nodeName (edata (getElement (element d) (dom w)))) "video" = false ->
     cacheCovers (_hoverDepth d) (_states d) ->
     snd (rasterizeLayer layout true (fun _ => true) d w) = false).
Proof.
  split; [|split].
  - intros fuel. exact (refresh_degenerate_all fuel).
  - exact rasterizeLayer_spares.
  - exact rasterizeLayer_resolves.
Qed.

Lemma C4_zero_size_witness :
  allLayers
    (fun d' =>
       degenerate (getBounds (edata (getElement (element d')
                                       (dom Scenario.flatWorld)))) ->
       contentTargetOpacity d' = 0%Q)
    Scenario.collapsedTreeRoot /\
  slotAt "" 0
    (_states (fst (fst (rasterizeLayer (fun _ _ => ZERO_BOUNDS) true (fun _ => true)
                          (data Scenario.childAfter) Scenario.refreshedWorld)))) =
  slotAt "" 0 (_states (data Scenario.childAfter)) /\
  snd (rasterizeLayer (fun _ _ => ZERO_BOUNDS) true (fun _ => true)
         (data Scenario.childAfter) Scenario.refreshedWorld) = false.
Proof.
  assert (H1 : refresh 3 false None Scenario.shownRoot Scenario.flatWorld =
               Ok (Scenario.collapsedTreeRoot, Scenario.collapsedTreeWorld))
    by (vm_compute; reflexivity).
  assert (H3 : String.eqb
                 (nodeName (edata (getElement (element (data Scenario.childAfter))
                                     (dom Scenario.refreshedWorld)))) "video" = false)
    by (vm_compute; reflexivity).
  assert (H4 : degenerate ((fun (_ : string) (_ : nat) => ZERO_BOUNDS) "" 0%nat))
    by (left; reflexivity).
  assert (H5 : cacheCovers (_hoverDepth (data Scenario.childAfter))
                 (_states (data Scenario.childAfter))).
  { intros k hs. vm_compute. destruct k as [|a k]; intros H; inversion H. lia. }
  split; [|split].
  - exact (proj1 C4_zero_size_invisible_and_skipped 3%nat false None
             Scenario.shownRoot Scenario.flatWorld
             Scenario.collapsedTreeRoot Scenario.collapsedTreeWorld H1).
  - exact (proj1 (proj2 C4_zero_size_invisible_and_skipped)
             (fun _ _ => ZERO_BOUNDS) true (fun _ => true)
             (data Scenario.childAfter) Scenario.refreshedWorld "" 0%nat H3 H4).
  - exact (proj2 (proj2 C4_zero_size_invisible_and_skipped)
             (fun _ _ => ZERO_BOUNDS) (data Scenario.childAfter) Scenario.refreshedWorld
             H3 H5).
Defined.

(** ** The steady state *)

Lemma In_lookupState k hs c : In (k, hs) c -> exists hs', lookupState k c = Some hs'.
Proof.
  intros H. apply lookupState_In. apply in_map_iff. exists (k, hs). auto.
Qed.

(** with nothing withdrawn, [_updateState] returns. *)
Lemma _updateState_returns dom0 d w :
  dom w = dom0 -> cacheDeclared dom0 d -> exists d1 w1, _updateState d w = Ok (d1, w1).
Proof.
  intros E Hc. subst dom0. unfold _updateState.
  cbn [_states set_state set_hoverDepth].
  destruct (cleanupStates_cases
              (declaredStates (edata (getElement (element d) (dom w))))
              (_states d) (disposedTextures w))
    as [[_ (k & hs & A & B & _)]|(r & H1 & _)].
  - exfalso. destruct (In_lookupState _ _ _ A) as [hs' L].
    apply Hc in L. apply inb_In in L. congruence.
  - rewrite H1. cbn [bind]. eauto.
Qed.

Lemma sameShape_sym c c' : sameShape c c' -> sameShape c' c.
Proof.
  intros H k. specialize (H k).
  destruct (lookupState k c), (lookupState k c'); auto.
Qed.

Lemma settled_sameShape dom0 d d' :
  element d' = element d -> sameShape (_states d) (_states d') ->
  settled dom0 d -> settled dom0 d'.
Proof.
  intros Ee Hs (S1 & S2 & S3). unfold settled, cacheDeclared, slotsNonEmpty.
  rewrite Ee. split; [|split].
  - intros k hs L. pose proof (Hs k) as Hk. rewrite L in Hk.
    destruct (lookupState k (_states d)) as [hs0|] eqn:L0; [|contradiction].
    exact (S1 _ _ L0).
  - intros k hs L. pose proof (Hs k) as Hk. rewrite L in Hk.
    destruct (lookupState k (_states d)) as [hs0|] eqn:L0; [|contradiction].
    pose proof (S2 _ _ L0) as N. intros X. subst hs. destruct hs0; [auto | discriminate].
  - intros k Hk. pose proof (Hs k) as Hk'. pose proof (S3 k Hk) as N.
    destruct (lookupState k (_states d)); [|contradiction].
    destruct (lookupState k (_states d')); [discriminate | contradiction].
Qed.

(** on a settled layer [_updateState] keeps the cache as it is. *)
Lemma _updateState_settled d w d1 w1 :
  settled (dom w) d -> _updateState d w = Ok (d1, w1) ->
  (forall k, lookupState k (_states d1) = lookupState k (_states d)) /\
  settled (dom w) d1 /\ ~ noSlot d1.
Proof.
  intros (S1 & S2 & S3) H.
  set (e := edata (getElement (element d) (dom w))) in *.
  assert (L : forall k, lookupState k (_states d1) = lookupState k (_states d)).
  { intros k. rewrite (_updateState_cache _ _ _ _ k H). cbv zeta. fold e.
    destruct (inb k (declaredStates e)) eqn:X.
    - apply inb_In in X. pose proof (S3 k X) as N.
      destruct (lookupState k (_states d)); [reflexivity | contradiction].
    - destruct (lookupState k (_states d)) as [hs|] eqn:Y; [|reflexivity].
      apply S1 in Y. apply inb_In in Y. fold e in Y. congruence. }
  destruct (_updateState_fields _ _ _ _ H) as (Ee & _).
  assert (St : settled (dom w) d1).
  { apply (settled_sameShape (dom w) d d1 Ee); [|repeat split; assumption].
    intros k. rewrite L. destruct (lookupState k (_states d)); auto. }
  split; [exact L|]. split; [exact St|].
  assert (E : _state d1 = stateFromClasses (declaredStates e) (classList e)).
  { unfold _updateState in H. inv_bind H. inversion H; subst d1. reflexivity. }
  destruct St as (_ & T2 & T3).
  assert (D : In (_state d1) (declaredStates (edata (getElement (element d1) (dom w))))).
  { rewrite Ee. fold e. rewrite E. apply inb_In. unfold declaredStates.
    apply stateFromClasses_declared. }
  pose proof (T3 _ D) as N. unfold noSlot.
  destruct (lookupState (_state d1) (_states d1)) as [hs|] eqn:X; [|contradiction].
  exact (T2 _ _ X).
Qed.

Lemma _updateBounds_returns d w :
  ~ noSlot d -> exists d2, _updateBounds d w = Ok d2.
Proof.
  intros N. unfold _updateBounds.
  destruct (currentSlotIndex d) as [kn| |] eqn:E; cbn [bind].
  - eauto.
  - exfalso. apply N. now apply currentSlotIndex_Throw.
  - exfalso. exact (currentSlotIndex_modelled d E).
Qed.

(** a layer with measured bounds below a parent with measured bounds can
    be laid out. *)
Lemma _updateTargetLayout_returns p d b :
  bounds d = Ok (Some b) -> parentMeasured p -> exists d', _updateTargetLayout p d = Ok d'.
Proof.
  intros Hb Hp. destruct (_needsRemoval d) eqn:R.
  - eexists. apply _updateTargetLayout_hides. left; exact R.
  - destruct (Qeq_bool (b_width b) 0 || Qeq_bool (b_height b) 0) eqn:Z.
    + eexists. apply _updateTargetLayout_hides. right. exists b.
      split; [exact Hb | now apply degenerate_Qeq_bool].
    + assert (Hz : ~ degenerate b)
        by (intros X; apply degenerate_Qeq_bool in X; congruence).
      destruct (useDOMLayout d) eqn:U.
      * assert (Pb : exists pb,
                   match p with
                   | Some pd => definedBounds (bounds pd)
                   | None => Ok ZERO_BOUNDS
                   end = Ok pb).
        { destruct p as [pd|]; [|eauto]. destruct Hp as [pb Hpb].
          exists pb. rewrite Hpb. reflexivity. }
        destruct Pb as [pb Hpb]. eexists.
        apply (_updateTargetLayout_places p d b
                 (domLayoutPosition pb b (layerSeparationOf d) (_level d)) R Hb Hz).
        left. split; [exact U|]. exists pb. split; [exact Hpb | reflexivity].
      * eexists. apply (_updateTargetLayout_places p d b (_lastTargetPosition d) R Hb Hz).
        right. split; [exact U | reflexivity].
Qed.

Lemma _updateMesh_returns p d b :
  bounds d = Ok (Some b) -> parentMeasured p -> exists d', _updateMesh p d = Ok d'.
Proof.
  intros Hb Hp. unfold _updateMesh.
  assert (T : exists t, texture d = Ok t).
  { unfold bounds in Hb. unfold texture.
    destruct (currentSlot d) as [s| |]; cbn [bind] in *; try discriminate. eauto. }
  destruct T as [[tex|] T]; rewrite T; cbn [bind]; [|eauto].
  cbn [mesh set_mesh mesh_parent set_material_map].
  destruct (mesh_parent (mesh d)); cbn [bind]; [eauto|].
  destruct (_updateTargetLayout_returns p
              (set_mesh (set_mesh_parent true (set_material_map (Some tex) (mesh d)))
                 (set_mesh (set_material_map (Some tex) (mesh d)) d)) b Hb Hp)
    as [d'' L].
  rewrite L. cbn [bind]. eauto.
Qed.

Lemma forEachChild_returns (step : Layer -> World -> Result (Layer * World))
  (I : World -> Prop) (Post : Layer -> Prop) cs :
  (forall c w0, In c cs -> I w0 ->
                exists c' w0', step c w0 = Ok (c', w0') /\ I w0' /\ Post c') ->
  forall w, I w ->
    exists cs' w', forEachChild step cs w = Ok (cs', w') /\ I w' /\ Forall Post cs'.
Proof.
  induction cs as [|c cs IH]; intros Hstep w Hw; cbn [forEachChild].
  - exists [], w. auto.
  - destruct (Hstep c w (or_introl eq_refl) Hw) as (c' & w0' & E & Hw' & Pc).
    rewrite E. cbn [bind fst snd].
    destruct (IH (fun c0 w0 Hin => Hstep c0 w0 (or_intror Hin)) w0' Hw')
      as (cs' & w' & E' & Hw'' & Pcs).
    rewrite E'. cbn [bind fst snd]. exists (c' :: cs'), w'. auto.
Qed.

Lemma height_child c cs :
  In c cs -> (height c <= fold_right (fun c m => Nat.max (height c) m) 0 cs)%nat.
Proof.
  induction cs as [|x cs IH]; intros []; cbn [fold_right].
  - subst x. apply Nat.le_max_l.
  - etransitivity; [now apply IH | apply Nat.le_max_r].
Qed.

Lemma refresh_returns_settled l :
  forall fuel parent w dom0,
    dom w = dom0 -> allLayers clean l -> allLayers (settled dom0) l ->
    parentMeasured parent -> (height l <= fuel)%nat ->
    exists l' w',
      refresh fuel false parent l w = Ok (l', w') /\ dom w' = dom0 /\
      allLayers (settled dom0) l'.
Proof.
  induction l as [d cs IH] using Layer_ind.
  intros fuel parent w dom0 Ed Hc Hs Hp Hf. subst dom0.
  destruct fuel as [|fuel]; [cbn [height] in Hf; lia|].
  cbn [height] in Hf. apply le_S_n in Hf.
  inversion Hc as [dx csx Cd Ccs]; subst dx csx.
  inversion Hs as [dx csx Sd Scs]; subst dx csx.
  destruct (_updateState_returns (dom w) d w eq_refl (proj1 Sd)) as (d1 & w1 & S1).
  destruct (_updateState_settled _ _ _ _ Sd S1) as (L1 & St1 & N1).
  destruct (_updateState_fields _ _ _ _ S1)
    as (F1 & _ & _ & F4 & _ & _ & _ & _ & _ & F10 & _).
  destruct (_updateBounds_returns d1 w1 N1) as (d2 & S2).
  destruct (_updateBounds_spec _ _ _ S2) as (B1 & _ & _ & B4 & B5).
  assert (C2 : needsRasterize d2 = false).
  { rewrite B5. cbn [needsRasterize set_states]. rewrite F4. exact Cd. }
  assert (E2 : element d2 = element d1) by (rewrite B5; reflexivity).
  assert (St2 : settled (dom w) d2) by exact (settled_sameShape _ _ _ E2 B4 St1).
  assert (K : forall c w0, In c cs -> dom w0 = dom w ->
              exists c' w0',
                refresh fuel false (Some d2) c w0 = Ok (c', w0') /\ dom w0' = dom w /\
                allLayers (settled (dom w)) c').
  { intros c w0 Hin E0. rewrite Forall_forall in IH, Ccs, Scs.
    apply (IH c Hin fuel (Some d2) w0 (dom w) E0 (Ccs c Hin) (Scs c Hin)).
    - cbn [parentMeasured]. eauto.
    - etransitivity; [exact (height_child c cs Hin) | exact Hf]. }
  destruct (forEachChild_returns (refresh fuel false (Some d2))
              (fun w0 => dom w0 = dom w) (allLayers (settled (dom w))) cs K w1 F10)
    as (cs4 & w4 & S4 & E4 & A4).
  destruct (_updateTargetLayout_returns parent d2 _ B1 Hp) as (d5 & S5).
  destruct (_updateTargetLayout_inputs _ _ _ S5) as (I1 & _ & _ & _ & I5 & _).
  destruct (bounds_layoutInputs _ _ I1) as (B5' & _).
  rewrite B1 in B5'.
  destruct (_updateMesh_returns parent d5 _ B5' Hp) as (d6 & S6).
  destruct (_updateMesh_cases _ _ _ S6) as (J1 & _ & _ & _ & J5 & _).
  exists (Node d6 cs4), w4. split; [|split; [exact E4|]].
  - cbn [refresh]. rewrite S1. cbn [bind fst snd]. rewrite S2. cbn [bind].
    rewrite C2. cbn [orb fst snd data children]. rewrite S4. cbn [bind].
    rewrite S5. cbn [bind]. rewrite S6. reflexivity.
  - constructor; [|exact A4].
    assert (X : _states d6 = _states d2).
    { unfold layoutInputs in I1, J1. inversion I1. inversion J1. congruence. }
    apply (settled_sameShape (dom w) d2 d6); [congruence | | exact St2].
    rewrite X. apply sameShape_refl.
Qed.

(** X13: the steady state does not throw.  On a tree with no dirty layer
    and whose caches are in step with the page (each holds the declared
    states of its element, with at least one slot each), [refresh(false)]
    returns, whatever the class lists select; the page is as it was, and
    the caches are still in step with it. *)
Theorem refresh_returns_in_steady_state
  (l : Layer) (fuel : nat) (parent : option LayerData) (w : World) :
  allLayers clean l -> allLayers (settled (dom w)) l ->
  parentMeasured parent -> (height l <= fuel)%nat ->
  exists l' w',
    refresh fuel false parent l w = Ok (l', w') /\ dom w' = dom w /\
    allLayers clean l' /\ allLayers (settled (dom w)) l'.
Proof.
  intros Hc Hs Hp Hf.
  destruct (refresh_returns_settled l fuel parent w (dom w) eq_refl Hc Hs Hp Hf)
    as (l' & w' & R & E & A).
  exists l', w'. split; [exact R|]. split; [exact E|]. split; [|exact A].
  exact (refresh_cleans _ _ _ _ _ _ _ R).
Qed.

(** ** Mutation records and listeners, further *)

Lemma arraySubtract_In c a b : In c (arraySubtract a b) <-> In c a /\ ~ In c b.
Proof.
  unfold arraySubtract. rewrite filter_In. split; intros [H1 H2]; split; try exact H1.
  - intros X. apply inb_In in X. rewrite X in H2. discriminate.
  - now rewrite (inb_not_In _ _ H2).
Qed.

Lemma existsb_false_iff {A : Type} (f : A -> bool) (l : list A) :
  existsb f l = false <-> forall x, In x l -> f x = false.
Proof.
  split.
  - intros H x Hx. destruct (f x) eqn:E; [|reflexivity].
    assert (X : existsb f l = true) by (apply existsb_exists; eauto). congruence.
  - intros H. destruct (existsb f l) eqn:E; [|reflexivity].
    apply existsb_exists in E. destruct E as (x & Hx & Fx).
    rewrite (H x Hx) in Fx. discriminate.
Qed.

Lemma ignoredClass_passedOver states c :
  ignoredClass states c = true <-> passedOverClass states c.
Proof.
  unfold ignoredClass, passedOverClass. rewrite orb_true_iff, String.eqb_eq.
  destruct (lookupState c states) as [hs|]; split; intros [H|H]; auto.
  - right. left. discriminate.
  - destruct H as [H|H]; [contradiction | auto].
Qed.

Lemma classChangeNeedsRasterize_false states oldValue e :
  classChangeNeedsRasterize states oldValue e = false <->
  forall c, classChanged oldValue e c -> passedOverClass states c.
Proof.
  unfold classChangeNeedsRasterize, classChanged. fold (oldClassesOf oldValue).
  rewrite orb_false_iff, !existsb_false_iff. split.
  - intros [H1 H2] c [Hc|Hc]; apply ignoredClass_passedOver.
    + apply arraySubtract_In in Hc. apply H2 in Hc. now apply negb_false_iff in Hc.
    + apply arraySubtract_In in Hc. apply H1 in Hc. now apply negb_false_iff in Hc.
  - intros H. split; intros c Hc; apply arraySubtract_In in Hc; apply negb_false_iff;
      apply ignoredClass_passedOver; apply H; [right | left]; exact Hc.
Qed.

(** X14: what the handler does with the record of a class change on an
    element that a layer owns, delivered outside an update pass.  When
    every class that the element has gained or lost since the old value is
    [hover], a cached state of the layer, or named like a property of
    [Object.prototype], the handler passes the record over and the tree is
    as it was.  When the class attribute differs from the old value and one
    gained or lost class is none of these, the layer and the layers inside
    the element are dirty afterwards.  (The class list of an element
    without classes splits to the one class [""].) *)
Theorem class_record_passed_over_or_dirties
  (w : World) (root layer : Layer) (target : nat) (oldValue : option (list string)) :
  _isUpdating w = false ->
  getLayerForElement target (dom w) root = Some layer ->
  let e := edata (getElement target (dom w)) in
  let r := ClassAttributeRecord target oldValue in
  ((forall c, classChanged oldValue e c -> passedOverClass (_states (data layer)) c) ->
   _processMutations w [r] root = root) /\
  (forall c,
     classChanged oldValue e c -> ~ passedOverClass (_states (data layer)) c ->
     recordTarget (dom w) r = Some target ->
     exists layer',
       getObjectById (id (data layer)) (_processMutations w [r] root) = Some layer' /\
       needsRasterize (data layer') = true /\
       allLayers (dirtyInside (getElement target (dom w))) layer').
Proof.
  intros Hu Hl e r. split.
  - intros H. apply classChangeNeedsRasterize_false in H.
    unfold _processMutations. rewrite Hu. cbn [fold_left]. unfold processRecord.
    destruct (recordTarget (dom w) r) as [t|] eqn:T; [|reflexivity].
    unfold r in T. cbn [recordTarget] in T.
    destruct (classValue_eqb _ oldValue); [discriminate|]. inversion T; subst t.
    rewrite Hl. unfold r. fold e. rewrite H. reflexivity.
  - intros c Hc Hn T.
    assert (D : recordDirties (_states (data layer)) e r = true).
    { unfold r. cbn [recordDirties].
      destruct (classChangeNeedsRasterize (_states (data layer)) oldValue e) eqn:X;
        [reflexivity|].
      exfalso. apply Hn.
      exact (proj1 (classChangeNeedsRasterize_false _ _ _) X c Hc). }
    exact (processRecords_effect w [r] root r target layer Hu (or_introl eq_refl) T Hl D).
Qed.

(** *** The event listener *)

Lemma dirtiedAt_refl i d : dirtiedAt i d d.
Proof. left; reflexivity. Qed.

(** rewriting the object that [getObjectById i] finds, when the rewriting
    is only known to be related for objects with the id [i]. *)
Lemma updateObjectById_related_at (R : LayerData -> LayerData -> Prop) i g :
  (forall d, R d d) ->
  (forall x, id (data x) = i -> related R x (g x)) ->
  forall l l', updateObjectById i g l = Some l' -> related R l l'.
Proof.
  intros R_refl Hg l. induction l as [d cs IH] using Layer_ind. intros l'.
  cbn [updateObjectById]. destruct (Nat.eqb (id d) i) eqn:Ei.
  - intros E; inversion E; subst. apply Hg. cbn [data]. now apply Nat.eqb_eq.
  - match goal with
    | |- match ?x with _ => _ end = _ -> _ => destruct x as [cs'|] eqn:E
    end; [|discriminate].
    intros E'; inversion E'; subst l'; clear E'.
    constructor; [apply R_refl|].
    revert cs' E. induction IH as [|c rest Hc _ IHrest]; intros cs' E; [discriminate|].
    destruct (updateObjectById i g c) as [c'|] eqn:Ec.
    + inversion E; subst cs'. constructor; [now apply Hc|].
      now apply Forall2_related_refl.
    + match type of E with
      | match ?x with _ => _ end = _ => destruct x as [rest'|] eqn:Er
      end; [|discriminate].
      inversion E; subst cs'. constructor; [now apply related_refl | now apply IHrest].
Qed.

Lemma applyById_markDirty i l : related (dirtiedAt i) l (applyById i markDirty l).
Proof.
  unfold applyById. destruct (updateObjectById i markDirty l) as [l'|] eqn:E.
  - refine (updateObjectById_related_at (dirtiedAt i) i markDirty (dirtiedAt_refl i) _ l l' E).
    intros [d cs] Hid. cbn [markDirty data] in *.
    constructor; [right; split; [exact Hid | reflexivity]|].
    apply Forall2_related_refl. exact (dirtiedAt_refl i).
  - apply related_refl. exact (dirtiedAt_refl i).
Qed.

Lemma applyById_markDirty_found i l x :
  getObjectById i l = Some x ->
  getObjectById i (applyById i markDirty l) = Some (markDirty x).
Proof.
  intros H. apply getObjectById_applyById; [exact H|].
  destruct x as [d cs]. cbn [markDirty data]. exact (getObjectById_id _ _ _ H).
Qed.

(** X15: an [input], [change], [focus], [blur] or [transitionend] event
    dirties the layer that owns its target and nothing else: the layers
    below that layer are left as they are (unlike what a mutation record
    does), and so is every other field of the layer.  An event whose
    target no layer owns changes nothing. *)
Theorem _triggerRefresh_dirties_only_the_owner
  (target : nat) (dom : list Element) (this : Layer) :
  match getLayerForElement target dom this with
  | Some layer =>
      related (dirtiedAt (id (data layer))) this (_triggerRefresh target dom this) /\
      getObjectById (id (data layer)) (_triggerRefresh target dom this) =
      Some (Node (set_needsRasterize true (data layer)) (children layer))
  | None => _triggerRefresh target dom this = this
  end.
Proof.
  unfold _triggerRefresh.
  destruct (getLayerForElement target dom this) as [layer|] eqn:E; [|reflexivity].
  split; [apply applyById_markDirty|].
  rewrite (applyById_markDirty_found _ _ layer (getLayerForElement_found _ _ _ _ E)).
  destruct layer; reflexivity.
Qed.

(** *** The resize observer *)

Lemma dirtiedAt_dirtied i d d' : dirtiedAt i d d' -> dirtied d d'.
Proof.
  intros [E|[_ E]]; subst d'; [apply dirtied_refl | apply dirtied_set].
Qed.

Lemma resizeRecord_unchanged offsetSize dom this target :
  sizeUnchanged offsetSize dom this target ->
  resizeRecord offsetSize dom this target = Ok this.
Proof.
  intros (layer & b & L & B & W & H). unfold resizeRecord. rewrite L, B. cbn [bind].
  apply Qeq_bool_iff in W, H. rewrite W, H. reflexivity.
Qed.

Lemma resizeRecord_dirtied offsetSize dom this target this' :
  resizeRecord offsetSize dom this target = Ok this' -> related dirtied this this'.
Proof.
  unfold resizeRecord. destruct (getLayerForElement target dom this) as [layer|];
    [|discriminate].
  intros H. inv_bind H. inversion H; subst this'; clear H.
  match goal with |- context [if ?c then _ else _] => destruct c end;
    [|apply related_refl; exact dirtied_refl].
  refine (related_weaken _ _ (dirtiedAt_dirtied (id (data layer))) _ _ _).
  apply applyById_markDirty.
Qed.

Lemma getLayerForElement_none t dom this this' :
  related dirtied this this' ->
  getLayerForElement t dom this = None -> getLayerForElement t dom this' = None.
Proof.
  unfold getLayerForElement. intros Hr.
  destruct (closestLayerElement t dom) as [e|]; [|reflexivity].
  destruct (layerAttribute e) as [[i|]|]; try reflexivity.
  intros H. pose proof (getObjectById_related dirtied dirtied_id i this this' Hr) as G.
  rewrite H in G. destruct (getObjectById i this'); [contradiction | reflexivity].
Qed.

Lemma resizeRecord_modelled offsetSize dom this target :
  resizeRecord offsetSize dom this target <> Unmodelled.
Proof.
  unfold resizeRecord. destruct (getLayerForElement target dom this) as [layer|];
    [|discriminate].
  unfold bounds. destruct (currentSlot_cases (data layer))
    as [[E _]|(k & n & s & _ & E & _)]; rewrite E; cbn [bind]; discriminate.
Qed.

Lemma _resizeObserverCallback_orphan offsetSize dom records :
  forall this target,
    In target records -> getLayerForElement target dom this = None ->
    _resizeObserverCallback offsetSize dom records this = Throw.
Proof.
  induction records as [|t rest IH]; intros this target Hin N; [contradiction|].
  cbn [_resizeObserverCallback].
  destruct (resizeRecord offsetSize dom this t) as [this'| |] eqn:R; cbn [bind];
    [|reflexivity|exfalso; exact (resizeRecord_modelled _ _ _ _ R)].
  destruct Hin as [->|Hin].
  - unfold resizeRecord in R. rewrite N in R. discriminate.
  - apply (IH this' target Hin).
    exact (getLayerForElement_none _ _ _ _ (resizeRecord_dirtied _ _ _ _ _ R) N).
Qed.

(** X16: a resize notification never does more than raise
    [needsRasterize] flags, and raises none when every record reports the
    size that the owning layer already has in its bounds; a record whose
    target no layer owns, wherever it stands among the records, makes the
    callback throw. *)
Theorem resize_callback_dirties_on_size_change_only
  (offsetSize : nat -> Q * Q) (dom : list Element) (records : list nat) (this : Layer) :
  (forall this', _resizeObserverCallback offsetSize dom records this = Ok this' ->
                 related dirtied this this') /\
  (Forall (sizeUnchanged offsetSize dom this) records ->
   _resizeObserverCallback offsetSize dom records this = Ok this) /\
  (forall target,
     In target records -> getLayerForElement target dom this = None ->
     _resizeObserverCallback offsetSize dom records this = Throw).
Proof.
  split; [|split].
  - revert this. induction records as [|t rest IH]; intros this this' H;
      cbn [_resizeObserverCallback] in H.
    + inversion H; subst. apply related_refl. exact dirtied_refl.
    + inv_bind H. eapply related_trans;
        [exact dirtied_trans | exact (resizeRecord_dirtied _ _ _ _ _ Ha) | exact (IH _ _ H)].
  - induction 1 as [|t rest Ht _ IH]; cbn [_resizeObserverCallback]; [reflexivity|].
    rewrite (resizeRecord_unchanged _ _ _ _ Ht). cbn [bind]. exact IH.
  - intros target. apply _resizeObserverCallback_orphan.
Qed.

(** ** The interaction pass *)

Lemma sameButCursor_refl d : sameButCursor d d.
Proof. destruct d; reflexivity. Qed.

Lemma sameButCursor_trans a b c :
  sameButCursor a b -> sameButCursor b c -> sameButCursor a c.
Proof.
  unfold sameButCursor. intros H1 H2. rewrite H2. rewrite H1 at 1. reflexivity.
Qed.

Lemma sameButCursor_id d d' : sameButCursor d d' -> id d' = id d.
Proof. intros H. rewrite H. reflexivity. Qed.

Lemma sameButHover_refl d : sameButHover d d.
Proof. destruct d; reflexivity. Qed.

Lemma sameButHover_trans a b c :
  sameButHover a b -> sameButHover b c -> sameButHover a c.
Proof.
  unfold sameButHover. intros H1 H2. rewrite H2. rewrite H1 at 1. reflexivity.
Qed.

Lemma sameButHover_id d d' : sameButHover d d' -> id d' = id d.
Proof. intros H. rewrite H. reflexivity. Qed.

Lemma sameButCursor_sameButHover d d' : sameButCursor d d' -> sameButHover d d'.
Proof. intros H. rewrite H. reflexivity. Qed.

Lemma rayHits_related (R : LayerData -> LayerData -> Prop) a b hits :
  (forall d d', R d d' -> id d' = id d) ->
  (forall d d', R d d' -> contentTargetOpacity d' = contentTargetOpacity d) ->
  related R a b -> (rayHits a hits <-> rayHits b hits).
Proof.
  intros Rid Rop H. split; intros (i & l & Hi & Hl & Ho).
  - pose proof (getObjectById_related R Rid i a b H) as G. rewrite Hl in G.
    destruct (getObjectById i b) as [l'|] eqn:E; [|contradiction].
    exists i, l'. split; [exact Hi|]. split; [exact E|].
    rewrite (Rop _ _ (related_data _ _ _ G)). exact Ho.
  - pose proof (getObjectById_related R Rid i a b H) as G. rewrite Hl in G.
    destruct (getObjectById i a) as [l'|] eqn:E; [|contradiction].
    exists i, l'. split; [exact Hi|]. split; [exact E|].
    rewrite <- (Rop _ _ (related_data _ _ _ G)). exact Ho.
Qed.

(** the path that the [while] loop of a hit climbs ends at the root. *)
Lemma ancestorsOf_root i l x :
  getObjectById i l = Some x -> exists p, ancestorsOf i l = Some (p ++ [id (data l)]).
Proof.
  revert x. induction l as [d cs IH] using Layer_ind. intros x.
  cbn [getObjectById ancestorsOf data]. destruct (Nat.eqb (id d) i).
  - intros _. exists []. reflexivity.
  - induction IH as [|c rest Hc _ IHrest]; [discriminate|].
    destruct (getObjectById i c) as [r|] eqn:Ec.
    + intros _. destruct (Hc r eq_refl) as [p Hp]. rewrite Hp. eexists. reflexivity.
    + intros H. destruct (ancestorsOf i c) as [p|] eqn:Ea; [eexists; reflexivity|].
      exact (IHrest H).
Qed.

Lemma castRay_sameButCursor hits :
  forall s, related sameButCursor (fst s) (fst (castRay hits s)).
Proof.
  induction hits as [|i hits IH]; intros s; cbn [castRay];
    [apply related_refl; exact sameButCursor_refl|].
  destruct (getObjectById i (fst s)) as [[d cs]|]; [|apply IH].
  destruct (truthyQ (contentTargetOpacity d)); [|apply IH].
  cbn [fst]. apply related_applyById; [exact sameButCursor_refl|].
  intros [dx csx]. cbn [data children].
  constructor; [reflexivity | apply Forall2_related_refl; exact sameButCursor_refl].
Qed.

(** a ray that meets no layer with a nonzero target opacity changes
    nothing; one that does puts the root among the hovered layers. *)
Lemma castRay_effect hits :
  forall s,
    (~ rayHits (fst s) hits -> castRay hits s = s) /\
    (rayHits (fst s) hits -> In (id (data (fst s))) (snd (castRay hits s))) /\
    (forall j, In j (snd s) -> In j (snd (castRay hits s))).
Proof.
  induction hits as [|i hits IH]; intros s; cbn [castRay].
  - split; [reflexivity|]. split; [|auto]. intros (j & l & [] & _).
  - destruct (IH s) as (I1 & I2 & I3).
    destruct (getObjectById i (fst s)) as [[d cs]|] eqn:G.
    + destruct (truthyQ (contentTargetOpacity d)) eqn:T.
      * cbn [snd]. split; [|split].
        -- intros N. exfalso. apply N. exists i, (Node d cs).
           split; [left; reflexivity | split; [exact G | exact T]].
        -- intros _. destruct (ancestorsOf_root i (fst s) _ G) as [p Hp]. rewrite Hp.
           apply in_or_app. right. apply in_or_app. right. left. reflexivity.
        -- intros j Hj. apply in_or_app. left. exact Hj.
      * split; [|split; [|exact I3]].
        -- intros N. apply I1. intros (j & l & Hj & Hl & Ho). apply N.
           exists j, l. split; [right; exact Hj | split; assumption].
        -- intros (j & l & [Hj|Hj] & Hl & Ho).
           ++ subst j. rewrite G in Hl. inversion Hl; subst l. cbn [data] in Ho. congruence.
           ++ apply I2. exists j, l. split; [exact Hj | split; assumption].
    + split; [|split; [|exact I3]].
      * intros N. apply I1. intros (j & l & Hj & Hl & Ho). apply N.
        exists j, l. split; [right; exact Hj | split; assumption].
      * intros (j & l & [Hj|Hj] & Hl & Ho).
        -- subst j. congruence.
        -- apply I2. exists j, l. split; [exact Hj | split; assumption].
Qed.

Lemma castRays_effect root0 rays :
  forall s,
    related sameButCursor root0 (fst s) ->
    let r := fold_left (fun s hits => castRay hits s) rays s in
    related sameButCursor root0 (fst r) /\
    ((forall hits, In hits rays -> ~ rayHits root0 hits) -> r = s) /\
    ((exists hits, In hits rays /\ rayHits root0 hits) ->
     In (id (data root0)) (snd r)) /\
    (forall j, In j (snd s) -> In j (snd r)).
Proof.
  assert (Rop : forall d d', sameButCursor d d' ->
                             contentTargetOpacity d' = contentTargetOpacity d)
    by (intros d d' H; rewrite H; reflexivity).
  induction rays as [|hits rays IH]; intros s Hs; cbn [fold_left].
  - split; [exact Hs|]. split; [reflexivity|]. split; [|auto].
    intros (hits & [] & _).
  - destruct (castRay_effect hits s) as (C1 & C2 & C3).
    pose proof (related_trans sameButCursor sameButCursor_trans _ _ _ Hs
                  (castRay_sameButCursor hits s)) as Hs'.
    destruct (IH (castRay hits s) Hs') as (J1 & J2 & J3 & J4).
    pose proof (rayHits_related sameButCursor root0 (fst s) hits sameButCursor_id Rop Hs)
      as E.
    split; [exact J1|]. split; [|split].
    + intros N. rewrite J2; [|intros h Hh; apply N; right; exact Hh].
      apply C1. intros X. apply E in X. exact (N hits (or_introl eq_refl) X).
    + intros (h & [Hh|Hh] & X).
      * subst h. apply J4. apply E in X. apply C2 in X.
        rewrite (sameButCursor_id _ _ (related_data _ _ _ Hs)) in X. exact X.
      * apply J3. exists h. split; assumption.
    + intros j Hj. apply J4, C3, Hj.
Qed.

Lemma _setHover_sameButHover hoverLayers l :
  forall parentHover, related sameButHover l (_setHover hoverLayers parentHover l).
Proof.
  induction l as [d cs IH] using Layer_ind. intros parentHover. cbn [_setHover].
  constructor; [reflexivity|].
  induction IH; cbn [List.map]; constructor; auto.
Qed.

Lemma _setHover_none l :
  forall parentHover,
    (parentHover = None \/ parentHover = Some 0%nat) ->
    allLayers (fun d => _hover d = 0%nat /\ cursor_visible d = false) l ->
    allLayers (fun d => _hover d = 0%nat /\ cursor_visible d = false)
      (_setHover [] parentHover l).
Proof.
  induction l as [d cs IH] using Layer_ind. intros ph Hph Ha.
  inversion Ha as [dx csx [Hd Cd] Hcs]; subst. cbn [_setHover existsb].
  assert (E : match ph with
              | Some ph0 => if Nat.ltb 0 ph0 then S ph0 else _hover d
              | None => _hover d
              end = 0%nat).
  { destruct Hph; subst ph; [exact Hd | cbn; exact Hd]. }
  rewrite E. constructor; [split; [reflexivity | exact Cd]|].
  clear Ha. induction IH as [|c rest Hc _ IHrest]; cbn [List.map]; [constructor|].
  inversion Hcs; subst. constructor; [|now apply IHrest].
  apply Hc; [right; reflexivity | assumption].
Qed.

Lemma _setHover_below hoverLayers l :
  forall h, (1 <= h)%nat ->
    allLayers (fun d => (1 <= _hover d)%nat) (_setHover hoverLayers (Some h) l).
Proof.
  induction l as [d cs IH] using Layer_ind. intros h Hh. cbn [_setHover].
  set (h' := if existsb (Nat.eqb (id d)) hoverLayers then 1%nat
             else if Nat.ltb 0 h then S h else _hover d).
  assert (H' : (1 <= h')%nat).
  { unfold h'. destruct (existsb _ hoverLayers); [lia|].
    destruct (Nat.ltb 0 h) eqn:E; [lia|]. apply Nat.ltb_ge in E. lia. }
  constructor; [exact H'|].
  induction IH as [|c rest Hc _ IHrest]; cbn [List.map]; constructor; auto.
Qed.

(** X17: how the interaction pass counts hovers.  When no ray meets a
    layer with a nonzero target opacity, every layer ends with hover 0 and
    a hidden cursor.  As soon as one ray does, the root has hover 1 and
    every layer of the tree a hover of at least 1: the hit layer and its
    ancestors count 1, and every other layer counts from the nearest of
    them above it. *)
Theorem _updateInteractions_hovers_all_or_nothing
  (rays : list (list nat)) (root : Layer) (w : World) :
  let root' := fst (_updateInteractions rays root w) in
  ((forall hits, In hits rays -> ~ rayHits root hits) ->
   allLayers (fun d => _hover d = 0%nat /\ cursor_visible d = false) root') /\
  ((exists hits, In hits rays /\ rayHits root hits) ->
   _hover (data root') = 1%nat /\ allLayers (fun d => (1 <= _hover d)%nat) root').
Proof.
  cbv zeta. unfold _updateInteractions.
  set (cleared := mapLayers _clearHover root).
  assert (Rc : related sameButHover root cleared).
  { apply related_mapLayers. intros d. reflexivity. }
  assert (Ac : allLayers (fun d => _hover d = 0%nat /\ cursor_visible d = false) cleared).
  { apply allLayers_mapLayers. intros d. split; reflexivity. }
  assert (Rop : forall d d', sameButHover d d' ->
                             contentTargetOpacity d' = contentTargetOpacity d)
    by (intros d d' H; rewrite H; reflexivity).
  assert (E : forall hits, rayHits root hits <-> rayHits cleared hits).
  { intros hits. exact (rayHits_related sameButHover root cleared hits
                          sameButHover_id Rop Rc). }
  destruct (castRays_effect cleared rays (cleared, [])
              (related_refl _ sameButCursor_refl cleared)) as (J1 & J2 & J3 & _).
  cbv zeta in *.
  destruct (fold_left (fun s hits => castRay hits s) rays (cleared, []))
    as [hit hoverLayers] eqn:F.
  cbn [fst snd] in *. split.
  - intros N.
    assert (X : (hit, hoverLayers) = (cleared, ([] : list nat)))
      by (apply J2; intros hits Hh X; apply E in X; exact (N hits Hh X)).
    inversion X; subst hit hoverLayers.
    apply _setHover_none; [left; reflexivity | exact Ac].
  - intros (hits & Hh & X).
    assert (Hin : In (id (data cleared)) hoverLayers).
    { apply J3. exists hits. split; [exact Hh | now apply E]. }
    rewrite <- (sameButCursor_id _ _ (related_data _ _ _ J1)) in Hin.
    destruct hit as [d cs]. cbn [data] in Hin. cbn [_setHover data].
    apply existsb_Nat_In in Hin. rewrite Hin.
    split; [reflexivity|]. constructor; [cbn [_hover set_hover]; lia|].
    clear. induction cs as [|c cs IH]; cbn [List.map]; constructor; [|exact IH].
    apply _setHover_below. lia.
Qed.

(** *** The hover classes *)

Lemma classList_addClass c e : In c (classList (addClass c e)).
Proof.
  unfold addClass. destruct (inb c (classList e)) eqn:E.
  - now apply inb_In.
  - cbn. apply in_or_app. right. left. reflexivity.
Qed.

Lemma classList_removeClass c e : ~ In c (classList (removeClass c e)).
Proof.
  unfold removeClass. destruct (inb c (classList e)) eqn:E.
  - cbn. intros H. apply filter_In in H. destruct H as [_ H].
    rewrite String.eqb_refl in H. discriminate.
  - intros H. apply inb_In in H. congruence.
Qed.

Lemma _setHoverClass_id hs e : el_id (_setHoverClass hs e) = el_id (edata e).
Proof.
  unfold _setHoverClass, addClass, removeClass.
  destruct (existsb (contains e) hs); destruct (inb "hover" (classList (edata e)));
    reflexivity.
Qed.

Lemma setHoverClassAll_ids hs e :
  relatedE (fun d d' => el_id d' = el_id d) e (setHoverClassAll hs e).
Proof.
  induction e as [d cs IH] using Element_ind. cbn [setHoverClassAll].
  constructor; [apply (_setHoverClass_id hs (ENode d cs))|].
  induction IH; cbn [List.map]; constructor; assumption.
Qed.

Lemma contains_relatedE e e' x :
  relatedE (fun d d' => el_id d' = el_id d) e e' -> contains e' x = contains e x.
Proof.
  intros H. unfold contains.
  pose proof (findElement_relatedE (fun d d' => el_id d' = el_id d)
                (fun d d' Hd => Hd) x e e' H) as F.
  destruct (findElement x e), (findElement x e'); try contradiction; reflexivity.
Qed.

Lemma existsb_ext_in {A : Type} (f g : A -> bool) l :
  (forall x, f x = g x) -> existsb f l = existsb g l.
Proof.
  intros H. induction l as [|a l IH]; cbn; [reflexivity|]. now rewrite H, IH.
Qed.

Lemma setHoverClassAll_spec hs e :
  allElements (fun n => In "hover" (classList (edata n)) <->
                        existsb (contains n) hs = true)
    (setHoverClassAll hs e).
Proof.
  induction e as [d cs IH] using Element_ind.
  pose proof (setHoverClassAll_ids hs (ENode d cs)) as R.
  cbn [setHoverClassAll] in *. constructor.
  - cbn [edata].
    rewrite (existsb_ext_in _ (contains (ENode d cs)) hs
               (fun x => contains_relatedE _ _ x R)).
    unfold _setHoverClass. destruct (existsb (contains (ENode d cs)) hs).
    + split; [reflexivity | intros _; apply classList_addClass].
    + split; [|discriminate]. intros H. exfalso.
      exact (classList_removeClass "hover" _ H).
  - clear R. induction IH; cbn [List.map]; constructor; assumption.
Qed.

Lemma findElement_setHoverClassBelow rootEl hs e :
  findElement rootEl (setHoverClassBelow rootEl hs e) =
  option_map (fun x => ENode (edata x) (List.map (setHoverClassAll hs) (childNodes x)))
    (findElement rootEl e).
Proof.
  induction e as [d cs IH] using Element_ind.
  cbn [setHoverClassBelow findElement].
  destruct (Nat.eqb (el_id d) rootEl) eqn:E.
  - cbn [findElement]. rewrite E. reflexivity.
  - cbn [findElement]. rewrite E.
    induction IH as [|c rest Hc _ IHrest]; cbn [List.map]; [reflexivity|].
    rewrite Hc. destruct (findElement rootEl c); cbn [option_map]; [reflexivity|].
    exact IHrest.
Qed.

Lemma findInForest_setHoverClassBelow rootEl hs f :
  findInForest rootEl (List.map (setHoverClassBelow rootEl hs) f) =
  option_map (fun x => ENode (edata x) (List.map (setHoverClassAll hs) (childNodes x)))
    (findInForest rootEl f).
Proof.
  induction f as [|e f IH]; cbn [List.map findInForest]; [reflexivity|].
  rewrite findElement_setHoverClassBelow.
  destruct (findElement rootEl e); cbn [option_map]; [reflexivity | exact IH].
Qed.

Lemma allElements_weaken (P Q : Element -> Prop) :
  (forall n, P n -> Q n) -> forall e, allElements P e -> allElements Q e.
Proof.
  intros HPQ e. induction e as [d cs IH] using Element_ind. intros Ha.
  inversion Ha as [dx csx Pd Pcs]; subst. constructor; [now apply HPQ|].
  clear Ha Pd. induction IH as [|c rest Hc _ IHrest]; [constructor|].
  inversion Pcs; subst. constructor; [now apply Hc | now apply IHrest].
Qed.

Lemma getObjectById_allLayers (P : LayerData -> Prop) i l x :
  allLayers P l -> getObjectById i l = Some x -> P (data x).
Proof.
  revert x. induction l as [d cs IH] using Layer_ind. intros x Ha.
  inversion Ha as [dx csx Pd Pcs]; subst. cbn [getObjectById].
  destruct (Nat.eqb (id d) i).
  - intros H; inversion H; subst. exact Pd.
  - clear Ha Pd. induction IH as [|c rest Hc _ IHrest]; [discriminate|].
    inversion Pcs; subst.
    destruct (getObjectById i c) as [r|] eqn:Ec.
    + intros H; inversion H; subst. now apply Hc.
    + now apply IHrest.
Qed.

(** after [_setHover] on a tree that was cleared, the layers that count 1
    are the layers of the hover set. *)
Lemma _setHover_one hoverLayers l :
  forall parentHover,
    allLayers (fun d => _hover d = 0%nat) l ->
    allLayers (fun d => _hover d = 1%nat <-> In (id d) hoverLayers)
      (_setHover hoverLayers parentHover l).
Proof.
  induction l as [d cs IH] using Layer_ind. intros ph Ha.
  inversion Ha as [dx csx Hd Hcs]; subst. cbn [_setHover].
  constructor.
  - cbn [_hover set_hover id]. rewrite <- existsb_Nat_In.
    destruct (existsb (Nat.eqb (id d)) hoverLayers); [split; reflexivity|].
    destruct ph as [p|].
    + destruct (Nat.ltb 0 p) eqn:E.
      * apply Nat.ltb_lt in E. split; [lia | discriminate].
      * rewrite Hd. split; discriminate.
    + rewrite Hd. split; discriminate.
  - clear Ha. induction IH as [|c rest Hc _ IHrest]; cbn [List.map]; [constructor|].
    inversion Hcs; subst. constructor; [now apply Hc | now apply IHrest].
Qed.

Lemma In_flat_map_elementOf root hoverLayers x :
  In x (flat_map (elementOf root) hoverLayers) <->
  exists i l, In i hoverLayers /\ getObjectById i root = Some l /\ element (data l) = x.
Proof.
  rewrite in_flat_map. unfold elementOf. split.
  - intros (i & Hi & Hx). destruct (getObjectById i root) as [l|] eqn:G; [|destruct Hx].
    destruct Hx as [Hx|[]]. exists i, l. auto.
  - intros (i & l & Hi & G & Hx). exists i. split; [exact Hi|]. rewrite G.
    left. exact Hx.
Qed.

(** X18: after the interaction pass, an element below the root layer's
    element carries the class [hover] exactly when it contains the element
    of a layer whose hover count is 1 (the layers that a ray hit, and their
    ancestors).  A [hover] class that the page itself had put on such an
    element does not survive the pass. *)
Theorem _updateInteractions_sets_hover_classes
  (rays : list (list nat)) (root : Layer) (w : World) :
  let r := _updateInteractions rays root w in
  Forall (allElements (fun n => In "hover" (classList (edata n)) <->
                                holdsHoveredLayer (fst r) n))
    (childNodes (getElement (element (data (fst r))) (dom (snd r)))).
Proof.
  cbv zeta. unfold _updateInteractions.
  set (cleared := mapLayers _clearHover root).
  destruct (castRays_effect cleared rays (cleared, [])
              (related_refl _ sameButCursor_refl cleared)) as (J1 & _).
  cbv zeta in J1.
  destruct (fold_left (fun s hits => castRay hits s) rays (cleared, []))
    as [hit hoverLayers].
  cbn [fst snd dom set_dom] in *.
  set (root' := _setHover hoverLayers None hit).
  set (hs := flat_map (elementOf root') hoverLayers).
  assert (A0 : allLayers (fun d => _hover d = 0%nat) hit).
  { refine (allLayers_related sameButCursor _ _ cleared hit J1 _).
    - intros d d' H Hd. rewrite H. exact Hd.
    - apply allLayers_mapLayers. intros d. reflexivity. }
  pose proof (_setHover_one hoverLayers hit None A0) as A1. fold root' in A1.
  assert (K : forall n, existsb (contains n) hs = true <-> holdsHoveredLayer root' n).
  { intros n. rewrite existsb_exists. unfold holdsHoveredLayer. split.
    - intros (x & Hx & Hc). apply In_flat_map_elementOf in Hx.
      destruct Hx as (i & l & Hi & G & E). exists i, l.
      split; [exact G|]. split; [|now rewrite E].
      apply (getObjectById_allLayers _ i root' l A1 G).
      rewrite (getObjectById_id _ _ _ G). exact Hi.
    - intros (i & l & G & H1 & Hc). exists (element (data l)). split; [|exact Hc].
      apply In_flat_map_elementOf. exists i, l. split; [|auto].
      pose proof (getObjectById_allLayers _ i root' l A1 G) as X. cbv beta in X.
      rewrite (getObjectById_id _ _ _ G) in X. now apply X. }
  unfold getElement. rewrite findInForest_setHoverClassBelow.
  destruct (findInForest (element (data root')) (dom w)) as [[d cs]|];
    cbn [option_map childNodes unknownElement]; [|constructor].
  clear - K. induction cs as [|c cs IH]; cbn [List.map]; constructor; [|exact IH].
  refine (allElements_weaken _ _ _ _ (setHoverClassAll_spec hs c)).
  intros n Hn. rewrite Hn. apply K.
Qed.

(** ** The transition step and the frame *)

Lemma _updateInteractions_sameButHover rays root w :
  related sameButHover root (fst (_updateInteractions rays root w)).
Proof.
  unfold _updateInteractions.
  set (cleared := mapLayers _clearHover root).
  destruct (castRays_effect cleared rays (cleared, [])
              (related_refl _ sameButCursor_refl cleared)) as (J1 & _).
  cbv zeta in J1.
  destruct (fold_left (fun s hits => castRay hits s) rays (cleared, []))
    as [hit hoverLayers].
  cbn [fst] in *.
  eapply related_trans; [exact sameButHover_trans | | apply _setHover_sameButHover].
  eapply related_trans;
    [exact sameButHover_trans | |
     exact (related_weaken _ _ sameButCursor_sameButHover _ _ J1)].
  apply related_mapLayers. intros d. reflexivity.
Qed.

(** the layer that the default transition leaves, up to the observers. *)
Lemma TRANSITION_DEFAULT_data d cs alpha :
  sameButObservers
    (set_mesh (set_visible (negb (isHidden (renderedOpacity alpha d)))
                 (set_opacity (renderedOpacity alpha d) (mesh d)))
       (transitionLayout d alpha))
    (data (fst (TRANSITION_DEFAULT (Node d cs) alpha))).
Proof.
  unfold TRANSITION_DEFAULT, transitionVisibility.
  cbn [_needsRemoval set_mesh transitionLayout set_content set_object3d mesh
       contentTargetOpacity].
  fold (renderedOpacity alpha d).
  destruct (_needsRemoval d && isHidden (renderedOpacity alpha d));
    cbn [fst data dispose]; reflexivity.
Qed.

Section TraverseInvariant.
Variable P : LayerData -> Prop.
Variable alpha : Q.
Hypothesis P_observers : forall d d', sameButObservers d d' -> P d -> P d'.
Hypothesis P_step :
  forall d, P d ->
    P (set_mesh (set_visible (negb (isHidden (renderedOpacity alpha d)))
                   (set_opacity (renderedOpacity alpha d) (mesh d)))
         (transitionLayout d alpha)).

Lemma forEachChildSplicing_allLayers (step : Layer -> Result (Layer * bool)) :
  forall n cs cs',
    (List.length cs <= n)%nat ->
    Forall (allLayers P) cs ->
    (forall c c' flag, allLayers P c -> step c = Ok (c', flag) -> allLayers P c') ->
    forEachChildSplicing step cs = Ok cs' ->
    Forall (allLayers P) cs'.
Proof.
  induction n as [|n IH]; intros cs cs' Hlen Ha Hstep H.
  - destruct cs; [|cbn in Hlen; lia]. cbn in H. inversion H; subst. constructor.
  - destruct cs as [|c rest]; cbn [forEachChildSplicing] in H.
    + inversion H; subst. constructor.
    + inv_bind H. destruct a as [c' flag]. cbn [fst snd] in H.
      inversion Ha as [|x xs Pc Prest]; subst. cbn [List.length] in Hlen.
      destruct flag.
      * destruct rest as [|s rest'].
        -- inversion H; subst. constructor.
        -- inv_bind H. inversion H; subst cs'; clear H.
           inversion Prest as [|y ys Ps Prest']; subst.
           constructor; [exact Ps|].
           apply (IH rest' a); [cbn [List.length] in Hlen; lia | exact Prest' | exact Hstep
                               | exact Ha1].
      * inv_bind H. inversion H; subst cs'; clear H.
        constructor; [exact (Hstep c c' false Pc Ha0)|].
        apply (IH rest a); [lia | exact Prest | exact Hstep | exact Ha1].
Qed.

Lemma traverseLayers_allLayers fuel :
  forall l l' flag,
    allLayers P l ->
    traverseLayers fuel TRANSITION_DEFAULT alpha l = Ok (l', flag) ->
    allLayers P l'.
Proof.
  induction fuel as [|fuel IH]; intros l l' flag Ha H; [discriminate|].
  cbn [traverseLayers] in H. inv_bind H. inversion H; subst l' flag; clear H.
  destruct l as [d cs]. inversion Ha as [dx csx Pd Pcs]; subst.
  destruct (TRANSITION_DEFAULT_spec d cs alpha) as (_ & _ & _ & _ & T5 & _).
  cbv zeta in T5.
  constructor.
  - exact (P_observers _ _ (TRANSITION_DEFAULT_data d cs alpha) (P_step d Pd)).
  - apply (forEachChildSplicing_allLayers
             (traverseLayers fuel TRANSITION_DEFAULT alpha)
             (List.length (children (fst (TRANSITION_DEFAULT (Node d cs) alpha))))
             (children (fst (TRANSITION_DEFAULT (Node d cs) alpha))) a);
      [lia | | | exact Ha0].
    + clear - T5 Pcs P_observers. induction T5; [constructor|].
      inversion Pcs; subst. constructor; [|auto].
      eapply allLayers_related; [exact P_observers | eassumption | assumption].
    + intros c c' f Hc Hs. exact (IH _ _ _ Hc Hs).
Qed.

End TraverseInvariant.

Section FrameInvariant.
Variable P : LayerData -> Prop.
Variable alpha : Q.
Hypothesis P_hover : forall d d', sameButHover d d' -> P d -> P d'.
Hypothesis P_new : forall i eid root level sep, P (newLayerData i eid root level sep).
Hypothesis P_flags : forall d d', sameButFlags d d' -> P d -> P d'.
Hypothesis P_cache : forall d c s h, P d -> P (set_states c (set_state s (set_hoverDepth h d))).
Hypothesis P_layout : forall p d d', P d -> _updateTargetLayout p d = Ok d' -> P d'.
Hypothesis P_mesh : forall p d d', P d -> _updateMesh p d = Ok d' -> P d'.
Hypothesis P_observers : forall d d', sameButObservers d d' -> P d -> P d'.
Hypothesis P_step :
  forall d, P d ->
    P (set_mesh (set_visible (negb (isHidden (renderedOpacity (Qmin alpha 1) d)))
                   (set_opacity (renderedOpacity (Qmin alpha 1) d) (mesh d)))
         (transitionLayout d (Qmin alpha 1))).

Lemma update_allLayers fuel rays root w root' w' :
  allLayers P root ->
  update fuel alpha TRANSITION_DEFAULT rays root w = Ok (root', w') ->
  allLayers P root'.
Proof.
  intros Ha H. unfold update in H. inv_bind H.
  pose proof (_updateInteractions_sameButHover rays root (set_isUpdating true w)) as K.
  destruct (_updateInteractions rays root (set_isUpdating true w)) as [l1 w1].
  inv_bind H. destruct a0 as [l2 w2]. inv_bind H. destruct a0 as [l3 flag].
  cbn [fst snd] in *. inversion H; subst root' w'; clear H.
  pose proof (allLayers_related sameButHover P P_hover _ _ K Ha) as A1.
  pose proof (refresh_allLayers P P_new P_flags P_cache P_layout P_mesh
                _ _ _ _ _ _ _ A1 Ha1) as A2.
  exact (traverseLayers_allLayers P (Qmin alpha 1) P_observers P_step _ _ _ _ A2 Ha2).
Qed.

End FrameInvariant.

(** *** Opacity and visibility *)

Lemma renderedOpacity_range alpha d :
  (0 <= alpha <= 1)%Q -> (0 <= opacity (mesh d) <= 1)%Q ->
  (contentTargetOpacity d = 0%Q \/ contentTargetOpacity d = 1%Q) ->
  (0 <= renderedOpacity alpha d <= 1)%Q.
Proof.
  intros [A0 A1] [O0 O1] Ht. unfold renderedOpacity. split; [|apply Q.le_min_r].
  apply Q.min_glb; [|discriminate].
  unfold lerp. destruct Ht as [E|E]; rewrite E; nra.
Qed.

Lemma visible_iff o : negb (isHidden o) = true <-> (5 # 1000 <= o)%Q.
Proof.
  rewrite negb_true_iff. split.
  - intros H. apply Qnot_lt_le. intros X. apply isHidden_lt in X. congruence.
  - intros H. destruct (isHidden o) eqn:E; [|reflexivity].
    apply isHidden_lt in E. exfalso. exact (Qlt_not_le _ _ E H).
Qed.

Lemma Qmin_unit alpha : (0 <= alpha)%Q -> (0 <= Qmin alpha 1 <= 1)%Q.
Proof.
  intros H. split; [apply Q.min_glb; [exact H | discriminate] | apply Q.le_min_r].
Qed.

Lemma opacityConsistent_mesh d d' :
  mesh d' = mesh d -> contentTargetOpacity d' = contentTargetOpacity d ->
  opacityConsistent d -> opacityConsistent d'.
Proof. unfold opacityConsistent. intros E1 E2. rewrite E1, E2. auto. Qed.

Lemma opacityConsistent_updateMesh p d d' :
  opacityConsistent d -> _updateMesh p d = Ok d' -> opacityConsistent d'.
Proof.
  intros (H1 & H2 & H3) H.
  destruct (_updateMesh_map _ _ _ H) as (_ & Eo & Ev).
  unfold opacityConsistent. rewrite Eo, Ev. split; [exact H1|]. split; [exact H2|].
  destruct (_updateMesh_inv _ _ _ H)
    as [[_ E]|[(tex & _ & _ & E)|(tex & d'' & _ & _ & L & E)]]; subst d'.
  - exact H3.
  - exact H3.
  - exact (_updateTargetLayout_opacity _ _ _ L).
Qed.

(** X19: a frame keeps the opacities in order.  If before [update] every
    layer has a mesh opacity within [0, 1], a mesh that is visible exactly
    when that opacity is at least 0.005, and a target opacity of 0 or 1 (as
    a new layer has), then the same holds of every layer after [update],
    for every [alpha >= 0]. *)
Theorem update_keeps_opacities_consistent
  (fuel : nat) (alpha : Q) (rays : list (list nat)) (root : Layer) (w : World)
  (root' : Layer) (w' : World) :
  (0 <= alpha)%Q ->
  allLayers opacityConsistent root ->
  update fuel alpha TRANSITION_DEFAULT rays root w = Ok (root', w') ->
  allLayers opacityConsistent root'.
Proof.
  intros Ha. apply (update_allLayers opacityConsistent alpha).
  - intros d d' E. rewrite E. exact (fun H => H).
  - intros i eid r level sep. unfold opacityConsistent. cbn.
    split; [split; discriminate|]. split; [|left; reflexivity].
    split; [discriminate|]. intros H. exfalso. apply H. reflexivity.
  - intros d d' E. rewrite E. exact (fun H => H).
  - intros d c s h H. exact H.
  - intros p d d' H L.
    destruct (_updateTargetLayout_inputs _ _ _ L) as (_ & _ & _ & _ & _ & I6 & _).
    destruct H as (H1 & H2 & _). unfold opacityConsistent. rewrite I6.
    split; [exact H1|]. split; [exact H2|]. exact (_updateTargetLayout_opacity _ _ _ L).
  - exact opacityConsistent_updateMesh.
  - intros d d' E. rewrite E. exact (fun H => H).
  - intros d (H1 & H2 & H3). unfold opacityConsistent.
    cbn [mesh set_mesh opacity visible set_visible set_opacity contentTargetOpacity
         transitionLayout set_content set_object3d].
    split; [exact (renderedOpacity_range _ d (Qmin_unit alpha Ha) H1 H3)|].
    split; [apply visible_iff | exact H3].
Qed.

(** *** Scales *)

Lemma lerp_positive a v alpha :
  (0 <= alpha <= 1)%Q -> (0 < a)%Q -> (0 < v)%Q -> (0 < a + (v - a) * alpha)%Q.
Proof. intros [A0 A1] Ha Hv. nra. Qed.

Lemma scalesPositive_fields d d' :
  content d' = content d -> contentTarget d' = contentTarget d ->
  _lastContentTargetScale d' = _lastContentTargetScale d ->
  scalesPositive d -> scalesPositive d'.
Proof. unfold scalesPositive. intros E1 E2 E3. rewrite E1, E2, E3. auto. Qed.

Lemma scalesPositive_updateTargetLayout p d d' :
  scalesPositive d -> _updateTargetLayout p d = Ok d' -> scalesPositive d'.
Proof.
  intros (H1 & H2 & H3) L.
  destruct (_updateTargetLayout_scales _ _ _ L H3) as (S1 & S2 & S3 & _).
  unfold scalesPositive. rewrite S3. auto.
Qed.

Lemma scalesPositive_updateMesh p d d' :
  scalesPositive d -> _updateMesh p d = Ok d' -> scalesPositive d'.
Proof.
  intros H M.
  destruct (_updateMesh_inv _ _ _ M)
    as [[_ E]|[(tex & _ & _ & E)|(tex & d'' & _ & _ & L & E)]]; subst d'.
  - exact H.
  - exact H.
  - assert (H' : scalesPositive d'').
    { refine (scalesPositive_updateTargetLayout p _ _ _ L). exact H. }
    destruct H' as (_ & S2 & S3). unfold scalesPositive.
    cbn [content set_mesh set_content contentTarget _lastContentTargetScale]. auto.
Qed.

(** X20: a frame keeps the content scales positive.  If before [update]
    every layer has positive x and y components in the scale of its
    content, of its content target and of the remembered content scale (as
    a new layer has), then the same holds of every layer after [update],
    for every [alpha >= 0]: no layer is ever flattened to zero width or
    height, whatever the boxes of the page. *)
Theorem update_keeps_content_scales_positive
  (fuel : nat) (alpha : Q) (rays : list (list nat)) (root : Layer) (w : World)
  (root' : Layer) (w' : World) :
  (0 <= alpha)%Q ->
  allLayers scalesPositive root ->
  update fuel alpha TRANSITION_DEFAULT rays root w = Ok (root', w') ->
  allLayers scalesPositive root'.
Proof.
  intros Ha. apply (update_allLayers scalesPositive alpha).
  - intros d d' E. rewrite E. exact (fun H => H).
  - intros i eid r level sep. unfold scalesPositive, positiveScale. cbn.
    repeat split; reflexivity.
  - intros d d' E. rewrite E. exact (fun H => H).
  - intros d c s h H. exact H.
  - intros p d d' H L. exact (scalesPositive_updateTargetLayout p d d' H L).
  - exact scalesPositive_updateMesh.
  - intros d d' E. rewrite E. exact (fun H => H).
  - intros d (H1 & H2 & H3). unfold scalesPositive.
    cbn [content contentTarget _lastContentTargetScale set_mesh transitionLayout
         set_content set_object3d scale].
    split; [|split; assumption].
    destruct H1 as [X1 Y1], H2 as [X2 Y2]. unfold positiveScale, Vec3_lerp. cbn [vx vy].
    split; apply lerp_positive; try assumption; apply Qmin_unit; exact Ha.
Qed.

(** *** One step at full strength *)

(** *** A removal during the traversal *)

(** where the loop comes to a child, what it leaves splits there. *)
Lemma splices_app alpha pre :
  comesTo alpha pre ->
  forall suffix res,
    splices alpha (pre ++ suffix) res ->
    exists pre' res',
      res = pre' ++ res' /\ splices alpha pre pre' /\ splices alpha suffix res'.
Proof.
  induction 1 as [|c pre Hn _ IH|c s pre Hr _ IH]; intros suffix res H.
  - exists [], res. split; [reflexivity|]. split; [constructor | exact H].
  - cbn [app] in H. inversion H as [|c0 c' cs cs' Hn' D S| |]; subst;
      try contradiction.
    destruct (IH _ _ S) as (pre' & res' & E & S1 & S2).
    exists (c' :: pre'), res'. split; [rewrite E; reflexivity|].
    split; [now constructor | exact S2].
  - cbn [app] in H. inversion H as [|c0 c' cs cs' Hn' D S| |c0 s0 s' cs cs' Hr' R S];
      subst; try contradiction.
    destruct (IH _ _ S) as (pre' & res' & E & S1 & S2).
    exists (s' :: pre'), res'. split; [rewrite E; reflexivity|].
    split; [now apply splices_skip | exact S2].
Qed.

(** X22: when the traversal of a frame removes a child layer, the layer
    that follows it among its siblings is stepped over in that frame,
    wherever the two stand among the children: the removal splices the
    child out of the array that the loop is iterating, and the sibling comes
    out of the frame with the pose, the opacity and the visibility it went
    in with.  (The loop comes to the removed child [c] after the children
    [pre]; what it leaves of [pre] and of [rest] stands around the sibling
    in the order of the children.) *)
Theorem removed_child_makes_next_sibling_skip_the_frame
  (fuel : nat) (alpha : Q) (d : LayerData) (pre : list Layer) (c s : Layer)
  (rest : list Layer) (l' : Layer) (flag : bool) :
  comesTo alpha pre ->
  removable alpha (data c) ->
  traverseLayers fuel TRANSITION_DEFAULT alpha (Node d (pre ++ c :: s :: rest)) =
  Ok (l', flag) ->
  exists pre' s' rest',
    children l' = pre' ++ s' :: rest' /\
    splices alpha pre pre' /\
    related sameButObservers s s' /\
    splices alpha rest rest'.
Proof.
  intros Hp Hr H.
  destruct (traverseLayers_detaches alpha fuel _ _ _ _
              (related_refl _ sameButObservers_refl _) H) as [D _].
  inversion D as [d0 d' cs cs' _ S]; subst. cbn [children].
  destruct (splices_app alpha pre Hp _ _ S) as (pre' & res' & E & S1 & S2).
  inversion S2 as [|c0 c' cs0 cs0' Hn _ _| |c0 s0 s' cs0 cs0' _ R S3]; subst;
    [contradiction|].
  exists pre', s', cs0'. split; [reflexivity|]. split; [exact S1|].
  split; [exact R | exact S3].
Qed.

(** ** Rasterization, further *)

(** the four ways through one turn of the inner loop. *)
Lemma rasterizeSlot_cases layout k acc hover :
  (rl_threw acc = true /\ rasterizeSlot layout k acc hover = acc) \/
  (rl_threw acc = false /\ slotAt k hover (rl_states acc) = None /\
   rl_threw (rasterizeSlot layout k acc hover) = true /\
   rl_states (rasterizeSlot layout k acc hover) = rl_states acc /\
   rl_renderFunctions (rasterizeSlot layout k acc hover) = rl_renderFunctions acc) \/
  (exists s,
     rl_threw acc = false /\ slotAt k hover (rl_states acc) = Some s /\
     degenerate (layout k hover) /\
     rl_threw (rasterizeSlot layout k acc hover) = false /\
     rl_states (rasterizeSlot layout k acc hover) = rl_states acc /\
     rl_renderFunctions (rasterizeSlot layout k acc hover) = rl_renderFunctions acc) \/
  (exists s tex,
     rl_threw acc = false /\ slotAt k hover (rl_states acc) = Some s /\
     ~ degenerate (layout k hover) /\
     (forall t, hs_texture s = Some t -> tex = t) /\
     rl_threw (rasterizeSlot layout k acc hover) = false /\
     rl_states (rasterizeSlot layout k acc hover) =
       updateSlot k hover (fun s => mkHoverState (hs_texture s) (Some (layout k hover)))
         (rl_states acc) /\
     rl_renderFunctions (rasterizeSlot layout k acc hover) =
       rl_renderFunctions acc ++ [mkRender k hover tex (layout k hover)]).
Proof.
  unfold rasterizeSlot. destruct (rl_threw acc) eqn:T; [left; auto|]. right.
  destruct (slotAt k hover (rl_states acc)) as [s|] eqn:E;
    [right | left; cbn [rl_threw rl_states rl_renderFunctions]; auto].
  destruct (negb (truthyQ (b_width (layout k hover))) ||
            negb (truthyQ (b_height (layout k hover)))) eqn:Z.
  - left. exists s. apply degenerate_bool in Z.
    destruct (hs_texture s); cbn [rl_threw rl_states rl_renderFunctions]; auto 10.
  - right. assert (Hz : ~ degenerate (layout k hover))
      by (intros X; apply degenerate_bool in X; congruence).
    destruct (hs_texture s) as [t|] eqn:Et.
    + exists s, t. cbn [rl_threw rl_states rl_renderFunctions].
      split; [reflexivity|]. split; [reflexivity|]. split; [exact Hz|].
      split; [intros t0 X; congruence | auto].
    + exists s, (rl_nextTexture acc). cbn [rl_threw rl_states rl_renderFunctions].
      split; [reflexivity|]. split; [reflexivity|]. split; [exact Hz|].
      split; [intros t0 X; congruence | auto].
Qed.

Lemma sameTextures_refl c : sameTextures c c.
Proof. intros k n. reflexivity. Qed.

Lemma sameTextures_trans a b c : sameTextures a b -> sameTextures b c -> sameTextures a c.
Proof. intros H1 H2 k n. rewrite H2. apply H1. Qed.

Lemma sameTextures_updateSlot_bounds k n b c :
  sameTextures c (updateSlot k n (fun s => mkHoverState (hs_texture s) b) c).
Proof.
  intros k' n'. rewrite slotAt_updateSlot.
  destruct (String.eqb k' k && Nat.eqb n' n) eqn:E; [|reflexivity].
  apply andb_true_iff in E. destruct E as [E1 E2].
  apply String.eqb_eq in E1. apply Nat.eqb_eq in E2. subst k' n'.
  destruct (slotAt k n c); reflexivity.
Qed.

Lemma sameTextures_texturesKept c c' : sameTextures c c' -> texturesKept c c'.
Proof.
  intros H k n s t Hs Ht. specialize (H k n). rewrite Hs in H. cbn in H.
  destruct (slotAt k n c') as [s'|]; [|discriminate].
  exists s'. split; [reflexivity|]. cbn in H. congruence.
Qed.

(** what the loops keep: the shape of the cache, its textures, and
    renders that commit to a slot the texture it already has. *)
Lemma rasterizeSlot_keeps layout c0 k hover acc :
  sameShape c0 (rl_states acc) /\ sameTextures c0 (rl_states acc) /\
  Forall (rendersOwnTexture c0) (rl_renderFunctions acc) ->
  sameShape c0 (rl_states (rasterizeSlot layout k acc hover)) /\
  sameTextures c0 (rl_states (rasterizeSlot layout k acc hover)) /\
  Forall (rendersOwnTexture c0) (rl_renderFunctions (rasterizeSlot layout k acc hover)).
Proof.
  intros (H1 & H2 & H3).
  destruct (rasterizeSlot_cases layout k acc hover)
    as [[_ E]|[(_ & _ & _ & E1 & E2)|[(s & _ & _ & _ & _ & E1 & E2)|
        (s & tex & _ & Hs & _ & Ht & _ & E1 & E2)]]].
  - rewrite E. auto.
  - rewrite E1, E2. auto.
  - rewrite E1, E2. auto.
  - rewrite E1, E2. split; [|split].
    + eapply sameShape_trans; [exact H1 | apply sameShape_updateSlot].
    + eapply sameTextures_trans; [exact H2 | apply sameTextures_updateSlot_bounds].
    + apply Forall_app. split; [exact H3|]. constructor; [|constructor].
      intros s0 t Hs0 Ht0. cbn [rf_state rf_hover rf_texture] in *.
      apply Ht. specialize (H2 k hover). rewrite Hs, Hs0 in H2. cbn in H2. congruence.
Qed.

Lemma rasterizeStates_keeps layout h c0 acc :
  sameShape c0 (rl_states acc) /\ sameTextures c0 (rl_states acc) /\
  Forall (rendersOwnTexture c0) (rl_renderFunctions acc) ->
  sameShape c0 (rl_states (rasterizeStates layout h acc)) /\
  sameTextures c0 (rl_states (rasterizeStates layout h acc)) /\
  Forall (rendersOwnTexture c0) (rl_renderFunctions (rasterizeStates layout h acc)).
Proof.
  intros Ha. unfold rasterizeStates.
  apply (fold_left_invariant
           (fun a => sameShape c0 (rl_states a) /\ sameTextures c0 (rl_states a) /\
                     Forall (rendersOwnTexture c0) (rl_renderFunctions a)));
    [|exact Ha].
  intros a k _ Hk. apply fold_left_invariant; [|exact Hk].
  intros a' hover _ Hk'. now apply rasterizeSlot_keeps.
Qed.

Lemma runRenders_keeps backend c0 rs :
  Forall (rendersOwnTexture c0) rs ->
  forall c,
    sameShape c0 c -> texturesKept c0 c ->
    sameShape c0 (fst (runRenders backend rs c)) /\
    texturesKept c0 (fst (runRenders backend rs c)).
Proof.
  induction 1 as [|r rs Hr _ IH]; intros c S T; cbn [runRenders]; [auto|].
  destruct (backend r); [|auto]. apply IH.
  - eapply sameShape_trans; [exact S | apply sameShape_updateSlot].
  - intros k n s t Hs Ht. destruct (T k n s t Hs Ht) as (s' & Hs' & Ht').
    rewrite slotAt_updateSlot.
    destruct (String.eqb k (rf_state r) && Nat.eqb n (rf_hover r)) eqn:E.
    + apply andb_true_iff in E. destruct E as [E1 E2].
      apply String.eqb_eq in E1. apply Nat.eqb_eq in E2. subst k n.
      rewrite Hs'. eexists. split; [reflexivity|]. cbn [hs_texture].
      now rewrite (Hr s t Hs Ht).
    + exists s'. auto.
Qed.

(** X23: rasterizing a layer never adds or drops a cached state or a
    slot, and never replaces the texture of a slot that has one: a slot that
    holds a texture before [_rasterize] holds the same texture afterwards,
    whatever the page, the barrier and the backend do.  (A render draws
    into the texture object of its slot; only a slot without texture gets a
    new one.) *)
Theorem rasterize_keeps_slots_and_textures
  (layout : string -> nat -> Bounds) (ready : bool) (backend : RenderFunction -> bool)
  (d : LayerData) (w : World) :
  let d' := fst (fst (rasterizeLayer layout ready backend d w)) in
  sameShape (_states d) (_states d') /\ texturesKept (_states d) (_states d').
Proof.
  cbv zeta. unfold rasterizeLayer.
  destruct (String.eqb (nodeName (edata (getElement (element d) (dom w)))) "video").
  - destruct (slotAt "" 0 (_states d)) as [state|] eqn:E.
    + assert (K : forall tex, (forall t, hs_texture state = Some t -> tex = t) ->
                   forall b,
                     sameShape (_states d)
                       (updateSlot "" 0 (fun _ => mkHoverState (Some tex) b) (_states d)) /\
                     texturesKept (_states d)
                       (updateSlot "" 0 (fun _ => mkHoverState (Some tex) b) (_states d))).
      { intros tex Ht b. split; [apply sameShape_updateSlot|].
        intros k n s t Hs Hts. rewrite slotAt_updateSlot.
        destruct (String.eqb k "" && Nat.eqb n 0) eqn:X.
        - apply andb_true_iff in X. destruct X as [X1 X2].
          apply String.eqb_eq in X1. apply Nat.eqb_eq in X2. subst k n.
          rewrite E. eexists. split; [reflexivity|]. cbn [hs_texture].
          rewrite E in Hs. inversion Hs; subst s. now rewrite (Ht t Hts).
        - exists s. auto. }
      destruct (hs_texture state) as [t0|] eqn:Et; cbn [fst _states set_states];
        apply K; intros t X; [now inversion X | discriminate].
    + cbn [fst]. split; [apply sameShape_refl|].
      apply sameTextures_texturesKept, sameTextures_refl.
  - destruct (rasterizeStates_keeps layout (_hoverDepth d) (_states d)
                (mkLoop (_states d) (nextTexture w) [] false false))
      as (L1 & L2 & L3).
    { cbn [rl_states rl_renderFunctions].
      split; [apply sameShape_refl | split; [apply sameTextures_refl | constructor]]. }
    set (loop := rasterizeStates _ _ _) in *.
    destruct (rl_threw loop); [cbn [fst _states set_states];
                               split; [exact L1 | now apply sameTextures_texturesKept]|].
    destruct ready; [|cbn [fst _states set_states];
                      split; [exact L1 | now apply sameTextures_texturesKept]].
    pose proof (runRenders_keeps backend (_states d) (rl_renderFunctions loop) L3
                  (rl_states loop) L1 (sameTextures_texturesKept _ _ L2)) as R.
    destruct (runRenders backend (rl_renderFunctions loop) (rl_states loop)) as [c threw].
    cbn [fst _states set_states] in *. exact R.
Qed.

(** *** What makes the promise reject, and what is committed when *)

(** a fold that passes the element [x] ends in [T], when passing [x] leads
    into [T], [T] is kept, and [J] holds all along. *)
Lemma fold_left_reaches {A B : Type} (J T : A -> Prop) (f : A -> B -> A)
  (l : list B) (x : B) :
  In x l ->
  (forall a y, In y l -> J a -> J (f a y)) ->
  (forall a y, In y l -> J a -> T a -> T (f a y)) ->
  (forall a, J a -> T (f a x)) ->
  forall a, J a -> T (fold_left f l a).
Proof.
  induction l as [|y l IH]; intros Hin HJ HT Hx a Ha; [destruct Hin|].
  cbn [fold_left]. destruct Hin as [E|Hin].
  - subst y.
    refine (proj2 (fold_left_invariant (fun a => J a /\ T a) f l _ (f a x) _)).
    + intros a' y Hy [Ja Ta]. split; [apply HJ; [right; exact Hy | exact Ja]|].
      apply HT; [right; exact Hy | exact Ja | exact Ta].
    + split; [apply HJ; [left; reflexivity | exact Ha] | apply Hx, Ha].
  - apply IH; [exact Hin | | | exact Hx |].
    + intros a' y' Hy'. apply HJ. right; exact Hy'.
    + intros a' y' Hy'. apply HT. right; exact Hy'.
    + apply HJ; [left; reflexivity | exact Ha].
Qed.

Lemma In_keys k hs (c : StateCache) : lookupState k c = Some hs -> In k (List.map fst c).
Proof.
  induction c as [|[k' v] c IH]; cbn [lookupState List.map fst]; [discriminate|].
  destruct (String.eqb k k') eqn:E.
  - intros _. left. apply String.eqb_eq in E. now subst.
  - intros H. right. now apply IH.
Qed.

Lemma slotAt_beyond k hs n c c' :
  lookupState k c = Some hs -> (List.length hs <= n)%nat -> sameShape c c' ->
  slotAt k n c' = None.
Proof.
  intros L Hn S. specialize (S k). rewrite L in S. unfold slotAt.
  destruct (lookupState k c') as [hs'|]; [|reflexivity].
  apply nth_error_None. lia.
Qed.

Lemma rasterizeStates_throws layout h c0 k hs next :
  lookupState k c0 = Some hs -> (List.length hs < slotCount h)%nat ->
  rl_threw (rasterizeStates layout h (mkLoop c0 next [] false false)) = true.
Proof.
  intros L Hn. unfold rasterizeStates. cbn [rl_states].
  pose (J := fun a : RasterizeLoop => rl_threw a = true \/ sameShape c0 (rl_states a)).
  pose (T := fun a : RasterizeLoop => rl_threw a = true).
  assert (SJ : forall k' a hover, J a -> J (rasterizeSlot layout k' a hover)).
  { intros k' a hover Ja.
    destruct (rasterizeSlot_cases layout k' a hover)
      as [[_ E]|[(_ & _ & E & _)|[(s & F & _ & _ & _ & E1 & _)|
          (s & tex & F & _ & _ & _ & _ & E1 & _)]]].
    - rewrite E. exact Ja.
    - left. exact E.
    - destruct Ja as [Ja|Ja]; [congruence | right].
      rewrite E1. exact Ja.
    - destruct Ja as [Ja|Ja]; [congruence | right].
      rewrite E1. eapply sameShape_trans; [exact Ja | apply sameShape_updateSlot]. }
  assert (ST : forall k' a hover, T a -> T (rasterizeSlot layout k' a hover)).
  { intros k' a hover Ta. unfold T in *.
    destruct (rasterizeSlot_cases layout k' a hover) as [[_ E]|X];
      [rewrite E; exact Ta|].
    destruct X as [(F & _)|[(s0 & F & _)|(s0 & tex0 & F & _)]]; congruence. }
  assert (IJ : forall k' a, J a ->
                 J (fold_left (rasterizeSlot layout k') (seq 0 (slotCount h)) a)).
  { intros k' a Ja. apply fold_left_invariant; [|exact Ja]. intros; now apply SJ. }
  assert (IT : forall k' a, T a ->
                 T (fold_left (rasterizeSlot layout k') (seq 0 (slotCount h)) a)).
  { intros k' a Ta. apply fold_left_invariant; [|exact Ta]. intros; now apply ST. }
  refine (fold_left_reaches J T _ (List.map fst c0) k (In_keys _ _ _ L) _ _ _ _ _).
  - intros a y _ Ja. now apply IJ.
  - intros a y _ _ Ta. now apply IT.
  - intros a Ja.
    refine (fold_left_reaches J T _ (seq 0 (slotCount h)) (List.length hs) _ _ _ _ a Ja).
    + apply in_seq. lia.
    + intros a' y _ Ja'. now apply SJ.
    + intros a' y _ _ Ta'. now apply ST.
    + intros a' [Ja'|Ja']; [now apply ST|]. unfold T.
      destruct (rasterizeSlot_cases layout k a' (List.length hs))
        as [[F _]|[(_ & _ & E & _)|[(s & _ & F & _)|(s & tex & _ & F & _)]]].
      * pose proof (ST k a' (List.length hs)) as X. unfold T in X. now apply X.
      * exact E.
      * rewrite (slotAt_beyond k hs _ c0 _ L (le_n _) Ja') in F. discriminate.
      * rewrite (slotAt_beyond k hs _ c0 _ L (le_n _) Ja') in F. discriminate.
  - right. cbn [rl_states]. apply sameShape_refl.
Qed.

(** X24: when some cached state has fewer slots than the hover depth asks
    for ([hoverDepth + 1]), [_rasterize] rejects, whatever the page, the
    barrier and the backend do: the loop reads a slot that does not exist.
    ([_updateState] never extends the slot array of a state that is already
    cached, so raising [data-layer-hover-depth] on a refreshed layer leads
    here.) *)
Theorem rasterize_rejects_when_slots_are_missing
  (layout : string -> nat -> Bounds) (ready : bool) (backend : RenderFunction -> bool)
  (d : LayerData) (w : World) (k : string) (hs : list HoverState) :
  String.eqb (nodeName (edata (getElement (element d) (dom w)))) "video" = false ->
  lookupState k (_states d) = Some hs ->
  (List.length hs < slotCount (_hoverDepth d))%nat ->
  snd (rasterizeLayer layout ready backend d w) = true.
Proof.
  intros Hv L Hn. unfold rasterizeLayer. rewrite Hv.
  rewrite (rasterizeStates_throws layout (_hoverDepth d) (_states d) k hs
             (nextTexture w) L Hn).
  reflexivity.
Qed.

(** one turn of the inner loop, seen from the slot [(k0, h0)]: its bounds
    are written when the turn is on that slot, and are otherwise kept. *)
Lemma rasterizeSlot_bounds layout k0 h0 k hover acc :
  ~ degenerate (layout k0 h0) ->
  (exists s, slotAt k0 h0 (rl_states acc) = Some s /\
             hs_bounds s = Some (layout k0 h0)) ->
  exists s, slotAt k0 h0 (rl_states (rasterizeSlot layout k acc hover)) = Some s /\
            hs_bounds s = Some (layout k0 h0).
Proof.
  intros Hz (s0 & Hs0 & Hb0).
  destruct (rasterizeSlot_cases layout k acc hover)
    as [[_ E]|[(_ & _ & _ & E1 & _)|[(s & _ & _ & _ & _ & E1 & _)|
        (s & tex & _ & Hs & _ & _ & _ & E1 & _)]]].
  - rewrite E. eauto.
  - rewrite E1. eauto.
  - rewrite E1. eauto.
  - rewrite E1, slotAt_updateSlot.
    destruct (String.eqb k0 k && Nat.eqb h0 hover) eqn:X; [|eauto].
    apply andb_true_iff in X. destruct X as [X1 X2].
    apply String.eqb_eq in X1. apply Nat.eqb_eq in X2. subst k hover.
    rewrite Hs. eexists. split; reflexivity.
Qed.

Lemma rasterizeStates_bounds layout h c0 next k0 hs h0 :
  cacheCovers h c0 ->
  lookupState k0 c0 = Some hs -> (h0 < slotCount h)%nat -> ~ degenerate (layout k0 h0) ->
  exists s,
    slotAt k0 h0 (rl_states (rasterizeStates layout h (mkLoop c0 next [] false false))) =
    Some s /\ hs_bounds s = Some (layout k0 h0).
Proof.
  intros Hc L Hh Hz. unfold rasterizeStates. cbn [rl_states].
  pose (J := fun a : RasterizeLoop => rl_threw a = false /\ sameShape c0 (rl_states a)).
  pose (T := fun a : RasterizeLoop =>
               exists s, slotAt k0 h0 (rl_states a) = Some s /\
                         hs_bounds s = Some (layout k0 h0)).
  assert (SJ : forall k' a hover,
             In k' (List.map fst c0) -> In hover (seq 0 (slotCount h)) ->
             J a -> J (rasterizeSlot layout k' a hover)).
  { intros k' a hover Hk Hv Ja.
    apply (rasterizeSlot_noThrow layout c0 (slotCount h)); try assumption.
    intros hs'. apply Hc. }
  assert (IJ : forall k' a, In k' (List.map fst c0) -> J a ->
                 J (fold_left (rasterizeSlot layout k') (seq 0 (slotCount h)) a)).
  { intros k' a Hk Ja. apply fold_left_invariant; [|exact Ja].
    intros a' y Hy Ja'. now apply SJ. }
  assert (ST : forall k' a hover, T a -> T (rasterizeSlot layout k' a hover)).
  { intros k' a hover Ta. exact (rasterizeSlot_bounds layout k0 h0 k' hover a Hz Ta). }
  assert (IT : forall k' a, T a ->
                 T (fold_left (rasterizeSlot layout k') (seq 0 (slotCount h)) a)).
  { intros k' a Ta. apply fold_left_invariant; [|exact Ta]. intros; now apply ST. }
  refine (fold_left_reaches J T _ (List.map fst c0) k0 (In_keys _ _ _ L) _ _ _ _ _).
  - intros a y Hy Ja. now apply IJ.
  - intros a y _ _ Ta. now apply IT.
  - intros a Ja.
    refine (fold_left_reaches J T _ (seq 0 (slotCount h)) h0 _ _ _ _ a Ja).
    + apply in_seq. lia.
    + intros a' y Hy Ja'. apply SJ; [exact (In_keys _ _ _ L) | exact Hy | exact Ja'].
    + intros a' y _ _ Ta'. now apply ST.
    + intros a' [Ja1 Ja2]. unfold T.
      assert (Hs : exists s, slotAt k0 h0 (rl_states a') = Some s).
      { pose proof (Ja2 k0) as X. rewrite L in X. unfold slotAt.
        destruct (lookupState k0 (rl_states a')) as [hs'|]; [|contradiction].
        destruct (nth_error hs' h0) as [s|] eqn:N; [eauto|].
        apply nth_error_None in N. pose proof (Hc _ _ L). lia. }
      destruct Hs as [s Hs].
      destruct (rasterizeSlot_cases layout k0 a' h0)
        as [[F _]|[(_ & F & _)|[(s1 & _ & _ & F & _)|(s1 & tex & _ & F & _ & _ & _ & E1 & _)]]];
        try congruence; try contradiction.
      rewrite E1, slotAt_updateSlot, String.eqb_refl, Nat.eqb_refl, F. cbn [andb].
      eexists. split; reflexivity.
  - split; [reflexivity | cbn [rl_states]; apply sameShape_refl].
Qed.

Lemma runRenders_bounds backend rs :
  forall c k n,
    option_map hs_bounds (slotAt k n (fst (runRenders backend rs c))) =
    option_map hs_bounds (slotAt k n c).
Proof.
  induction rs as [|r rs IH]; intros c k n; cbn [runRenders]; [reflexivity|].
  destruct (backend r); [|reflexivity].
  rewrite IH, slotAt_updateSlot.
  destruct (String.eqb k (rf_state r) && Nat.eqb n (rf_hover r)) eqn:X; [|reflexivity].
  apply andb_true_iff in X. destruct X as [X1 X2].
  apply String.eqb_eq in X1. apply Nat.eqb_eq in X2. subst k n.
  destruct (slotAt (rf_state r) (rf_hover r) c); reflexivity.
Qed.

(** X25: bounds are committed before the barrier, textures only after it.
    On a layer (not a video) whose cached states all have the slots that the
    hover depth asks for, [_rasterize] leaves in every such slot whose
    configuration is not zero-size the bounds that the probe reported for
    that state and hover depth, whatever the barrier and the backend do;
    and when the barrier fails, the promise rejects and every slot has the
    texture, or the lack of one, that it had. *)
Theorem rasterize_commits_bounds_before_the_barrier
  (layout : string -> nat -> Bounds) (ready : bool) (backend : RenderFunction -> bool)
  (d : LayerData) (w : World) :
  String.eqb (nodeName (edata (getElement (element d) (dom w)))) "video" = false ->
  cacheCovers (_hoverDepth d) (_states d) ->
  let r := rasterizeLayer layout ready backend d w in
  (forall k hs n,
     lookupState k (_states d) = Some hs -> (n < slotCount (_hoverDepth d))%nat ->
     ~ degenerate (layout k n) ->
     exists s, slotAt k n (_states (fst (fst r))) = Some s /\
               hs_bounds s = Some (layout k n)) /\
  (ready = false -> snd r = true /\ sameTextures (_states d) (_states (fst (fst r)))).
Proof.
  intros Hv Hc. cbv zeta. unfold rasterizeLayer. rewrite Hv.
  destruct (rasterizeStates_keeps layout (_hoverDepth d) (_states d)
              (mkLoop (_states d) (nextTexture w) [] false false))
    as (_ & L2 & _).
  { cbn [rl_states rl_renderFunctions].
    split; [apply sameShape_refl | split; [apply sameTextures_refl | constructor]]. }
  pose proof (rasterizeStates_noThrow layout (_hoverDepth d)
                (mkLoop (_states d) (nextTexture w) [] false false) Hc eq_refl) as NT.
  pose proof (fun k hs n L Hn Hz =>
                rasterizeStates_bounds layout (_hoverDepth d) (_states d) (nextTexture w)
                  k hs n Hc L Hn Hz) as B.
  set (loop := rasterizeStates _ _ _) in *. rewrite NT. split.
  - intros k hs n L Hn Hz. destruct (B k hs n L Hn Hz) as (s & Hs & Hb).
    destruct ready; [|cbn [fst _states set_states]; eauto].
    pose proof (runRenders_bounds backend (rl_renderFunctions loop) (rl_states loop) k n)
      as R.
    destruct (runRenders backend (rl_renderFunctions loop) (rl_states loop)) as [c threw].
    cbn [fst _states set_states] in *. rewrite Hs in R. cbn [option_map] in R.
    destruct (slotAt k n c) as [s'|]; [|discriminate]. cbn [option_map] in R.
    exists s'. split; [reflexivity | congruence].
  - intros E. subst ready. cbn [fst snd _states set_states]. split; [reflexivity | exact L2].
Qed.

(** ** Hit testing *)

Lemma elementsOf_self e : In e (elementsOf e).
Proof. destruct e as [d cs]. cbn [elementsOf]. left. reflexivity. Qed.

Lemma elementsOf_child d cs c x :
  In c cs -> In x (elementsOf c) -> In x (elementsOf (ENode d cs)).
Proof.
  intros Hc Hx. cbn [elementsOf]. right. apply in_flat_map. exists c. split; assumption.
Qed.

(** [traverseDOM] calls [each] on descendants of the node only. *)
Lemma traverseDOM_within {S : Type} (I : S -> Prop)
  (each : ElementData -> Z -> S -> S * bool) node :
  (forall c lvl s, In c (elementsOf node) -> I s -> I (fst (each (edata c) lvl s))) ->
  forall lvl s, I s -> I (traverseDOM each node lvl s).
Proof.
  induction node as [d cs IH] using Element_ind. intros Heach lvl s Hs.
  cbn [traverseDOM].
  assert (Hsub : forall c x lvl s, In c cs -> In x (elementsOf c) -> I s ->
                   I (fst (each (edata x) lvl s))).
  { intros c x lvl' s' Hc Hx. apply Heach. exact (elementsOf_child d cs c x Hc Hx). }
  clear Heach. revert s Hs.
  induction IH as [|c rest Hc _ IHrest]; intros s Hs; [exact Hs|].
  pose proof (Hsub c c (lvl + 1)%Z s (or_introl eq_refl) (elementsOf_self c) Hs) as H1.
  destruct (each (edata c) (lvl + 1)%Z s) as [s' descend]. cbn [fst] in H1.
  apply IHrest.
  - intros c' x lvl' s0 Hc'. apply Hsub. right. exact Hc'.
  - destruct descend; [|exact H1].
    apply Hc; [|exact H1].
    intros x lvl' s0 Hx. apply (Hsub c x lvl' s0); [left; reflexivity | exact Hx].
Qed.

Lemma Qlt_bool_lt a b : Qlt_bool a b = true -> (a < b)%Q.
Proof.
  unfold Qlt_bool. intros H. apply negb_true_iff in H.
  apply Qnot_le_lt. intros X. apply Qle_bool_iff in X. congruence.
Qed.

Lemma truthyQ_false q : truthyQ q = false <-> (q == 0)%Q.
Proof.
  unfold truthyQ. rewrite negb_false_iff. apply Qeq_bool_iff.
Qed.

Lemma degenerate_test lb :
  negb (truthyQ (b_width lb)) || negb (truthyQ (b_height lb)) = true <-> degenerate lb.
Proof.
  unfold degenerate. rewrite orb_true_iff, !negb_true_iff, !truthyQ_false. reflexivity.
Qed.

(** the target that the traversal of [hitTest] ends with. *)
Lemma hitTest_target dom lb x y root t0 :
  let t := traverseDOM (hitTestEach dom lb x y) root 0%Z t0 in
  t = t0 \/
  exists e, In e (elementsOf root) /\ el_id (edata e) = t /\
            pointInside lb (getBounds (edata e)) x y.
Proof.
  cbv zeta.
  apply (traverseDOM_within
           (fun t => t = t0 \/
                     exists e, In e (elementsOf root) /\ el_id (edata e) = t /\
                               pointInside lb (getBounds (edata e)) x y));
    [|left; reflexivity].
  intros c lvl s Hc Hs. unfold hitTestEach.
  destruct (negb (contains (getElement s dom) (el_id (edata c)))); [exact Hs|].
  cbv zeta.
  destruct (Qlt_bool _ _ && Qlt_bool _ _ && Qlt_bool _ _ && Qlt_bool _ _) eqn:T;
    [|exact Hs].
  cbn [fst]. right. exists c. split; [exact Hc | split; [reflexivity|]].
  apply andb_true_iff in T. destruct T as [T T4].
  apply andb_true_iff in T. destruct T as [T T3].
  apply andb_true_iff in T. destruct T as [T1 T2].
  unfold pointInside. repeat split; apply Qlt_bool_lt; assumption.
Qed.

(** X26: what [hitTest] answers.  It passes over the intersections whose
    object has no layer or whose layer has bounds without width or height,
    and answers with the first other one: it throws when that layer has no
    slot to read bounds from, and else returns the layer, the intersection
    and a target that is the element of the layer or an element below it
    whose box has the hit point strictly inside.  It returns nothing
    exactly when it passes over every intersection. *)
Theorem hitTest_answers_with_first_measured_layer
  (xs : list Intersection) (dom : list Element) (this : Layer) :
  match hitTest xs dom this with
  | Ok None => Forall (passedOver this) xs
  | Ok (Some h) =>
      exists layer lb before after,
        xs = before ++ hit_intersection h :: after /\
        Forall (passedOver this) before /\
        getObjectById (i_layer (hit_intersection h)) this = Some layer /\
        hit_layer h = id (data layer) /\
        bounds (data layer) = Ok (Some lb) /\ ~ degenerate lb /\
        (hit_target h = element (data layer) \/
         exists e,
           In e (elementsOf (getElement (element (data layer)) dom)) /\
           el_id (edata e) = hit_target h /\
           pointInside lb (getBounds (edata e))
             (fst (clientPoint (hit_intersection h) lb))
             (snd (clientPoint (hit_intersection h) lb)))
  | Throw =>
      exists layer before x after,
        xs = before ++ x :: after /\ Forall (passedOver this) before /\
        getObjectById (i_layer x) this = Some layer /\ bounds (data layer) = Throw
  | Unmodelled => False
  end.
Proof.
  induction xs as [|x rest IH]; cbn [hitTest]; [constructor|].
  assert (Skip : passedOver this x ->
            match hitTest rest dom this with
            | Ok None => Forall (passedOver this) (x :: rest)
            | Ok (Some h) =>
                exists layer lb before after,
                  x :: rest = before ++ hit_intersection h :: after /\
                  Forall (passedOver this) before /\
                  getObjectById (i_layer (hit_intersection h)) this = Some layer /\
                  hit_layer h = id (data layer) /\
                  bounds (data layer) = Ok (Some lb) /\ ~ degenerate lb /\
                  (hit_target h = element (data layer) \/
                   exists e,
                     In e (elementsOf (getElement (element (data layer)) dom)) /\
                     el_id (edata e) = hit_target h /\
                     pointInside lb (getBounds (edata e))
                       (fst (clientPoint (hit_intersection h) lb))
                       (snd (clientPoint (hit_intersection h) lb)))
            | Throw =>
                exists layer before x0 after,
                  x :: rest = before ++ x0 :: after /\ Forall (passedOver this) before /\
                  getObjectById (i_layer x0) this = Some layer /\
                  bounds (data layer) = Throw
            | Unmodelled => False
            end).
  { intros Hx. destruct (hitTest rest dom this) as [[h|]| |].
    - destruct IH as (layer & lb & before & after & E & F & R).
      exists layer, lb, (x :: before), after. split; [rewrite E; reflexivity|].
      split; [constructor; assumption | exact R].
    - constructor; assumption.
    - destruct IH as (layer & before & x0 & after & E & F & R).
      exists layer, (x :: before), x0, after. split; [rewrite E; reflexivity|].
      split; [constructor; assumption | exact R].
    - exact IH. }
  destruct (getObjectById (i_layer x) this) as [layer|] eqn:G.
  2:{ apply Skip. unfold passedOver. rewrite G. exact I. }
  destruct (bounds (data layer)) as [[lb|]| |] eqn:B; cbn [bind].
  - destruct (negb (truthyQ (b_width lb)) || negb (truthyQ (b_height lb))) eqn:Zs.
    + apply Skip. unfold passedOver. rewrite G, B. apply degenerate_test. exact Zs.
    + cbn [hit_intersection hit_layer hit_target].
      exists layer, lb, [], rest. split; [reflexivity|]. split; [constructor|].
      split; [exact G|]. split; [reflexivity|]. split; [exact B|].
      split; [intros D; apply degenerate_test in D; congruence|].
      exact (hitTest_target dom lb _ _ _ _).
  - apply Skip. unfold passedOver. rewrite G, B. exact I.
  - exists layer, [], x, rest. split; [reflexivity|]. split; [constructor|].
    split; assumption.
  - unfold bounds, currentSlot in B.
    destruct (currentSlotIndex (data layer)) as [kn| |] eqn:K; cbn [bind] in B.
    + destruct (slotAt (fst kn) (snd kn) (_states (data layer))); discriminate.
    + discriminate.
    + exact (currentSlotIndex_modelled _ K).
Qed.

Lemma traverseDOM_children {S : Type} (each : ElementData -> Z -> S -> S * bool) d cs lvl s :
  traverseDOM each (ENode d cs) lvl s = traverseChildren each cs lvl s.
Proof.
  cbn [traverseDOM]. revert s.
  induction cs as [|c rest IH]; intros s; cbn [traverseChildren]; [reflexivity|].
  destruct (each (edata c) (lvl + 1)%Z s) as [s' descend]. apply IH.
Qed.

Lemma NoDup_app_disjoint {A : Type} (l l' : list A) i :
  NoDup (l ++ l') -> In i l -> ~ In i l'.
Proof.
  induction l as [|a l IH]; intros N Hi; [contradiction|].
  cbn [app] in N. inversion N as [|? ? Ha Hn]; subst.
  destruct Hi as [->|Hi]; [|exact (IH Hn Hi)].
  intros X. apply Ha. apply in_or_app. right. exact X.
Qed.

Lemma elementsOf_ids e N : In N (elementsOf e) -> In (el_id (edata N)) (idsOf e).
Proof.
  induction e as [d cs IH] using Element_ind. cbn [elementsOf idsOf].
  intros [<-|H]; [left; reflexivity | right].
  apply in_flat_map in H. destruct H as (c & Hc & Hn).
  apply in_flat_map. exists c. split; [exact Hc|].
  rewrite Forall_forall in IH. exact (IH c Hc Hn).
Qed.

Lemma elementsOf_trans e N x :
  In N (elementsOf e) -> In x (elementsOf N) -> In x (elementsOf e).
Proof.
  induction e as [d cs IH] using Element_ind. cbn [elementsOf].
  intros [<-|H] Hx; [exact Hx | right].
  apply in_flat_map in H. destruct H as (c & Hc & Hn).
  apply in_flat_map. exists c. split; [exact Hc|].
  rewrite Forall_forall in IH. exact (IH c Hc Hn Hx).
Qed.

Lemma idsOf_sub e N i : In N (elementsOf e) -> In i (idsOf N) -> In i (idsOf e).
Proof.
  induction e as [d cs IH] using Element_ind. cbn [elementsOf idsOf].
  intros [<-|H] X; [exact X | right].
  apply in_flat_map in H. destruct H as (c & Hc & Hn).
  apply in_flat_map. exists c. split; [exact Hc|].
  rewrite Forall_forall in IH. exact (IH c Hc Hn X).
Qed.

Lemma NoDup_flat_map_member {A : Type} (f : A -> list nat) l c :
  NoDup (flat_map f l) -> In c l -> NoDup (f c).
Proof.
  induction l as [|a l IH]; intros N Hc; [contradiction|].
  cbn [flat_map] in N. destruct Hc as [->|Hc].
  - exact (NoDup_app_remove_r _ _ N).
  - exact (IH (NoDup_app_remove_l _ _ N) Hc).
Qed.

Lemma idsOf_NoDup_sub e N : NoDup (idsOf e) -> In N (elementsOf e) -> NoDup (idsOf N).
Proof.
  induction e as [d cs IH] using Element_ind. cbn [elementsOf idsOf].
  intros ND [<-|H]; [exact ND|].
  apply in_flat_map in H. destruct H as (c & Hc & Hn).
  rewrite Forall_forall in IH. apply (IH c Hc); [|exact Hn].
  inversion ND; subst. eapply NoDup_flat_map_member; eassumption.
Qed.

Lemma findElement_None i e : ~ In i (idsOf e) -> findElement i e = None.
Proof.
  induction e as [d cs IH] using Element_ind. cbn [idsOf findElement]. intros H.
  destruct (Nat.eqb (el_id d) i) eqn:E.
  { apply Nat.eqb_eq in E. exfalso. apply H. left. exact E. }
  assert (H' : ~ In i (flat_map idsOf cs)) by (intros X; apply H; right; exact X).
  clear H E. induction IH as [|c rest Hc _ IHrest]; [reflexivity|].
  cbn [flat_map] in H'.
  rewrite Hc by (intros X; apply H'; apply in_or_app; left; exact X).
  apply IHrest. intros X. apply H'. apply in_or_app. right. exact X.
Qed.

Lemma findElement_unique e N :
  NoDup (idsOf e) -> In N (elementsOf e) -> findElement (el_id (edata N)) e = Some N.
Proof.
  induction e as [d cs IH] using Element_ind. cbn [idsOf elementsOf findElement].
  intros ND [<-|H]; [cbn [edata]; rewrite Nat.eqb_refl; reflexivity|].
  inversion ND as [|? ? Hd Hcs]; subst.
  assert (Hi : In (el_id (edata N)) (flat_map idsOf cs)).
  { apply in_flat_map in H. destruct H as (c & Hc & Hn).
    apply in_flat_map. exists c. split; [exact Hc | exact (elementsOf_ids c N Hn)]. }
  destruct (Nat.eqb (el_id d) (el_id (edata N))) eqn:E.
  { apply Nat.eqb_eq in E. rewrite E in Hd. contradiction. }
  clear E Hd ND Hi. induction IH as [|c rest Hc _ IHrest]; [contradiction|].
  cbn [flat_map] in H, Hcs. apply in_app_or in H. destruct H as [H|H].
  - rewrite (Hc (NoDup_app_remove_r _ _ Hcs) H). reflexivity.
  - rewrite findElement_None.
    + exact (IHrest H (NoDup_app_remove_l _ _ Hcs)).
    + intros X. apply (NoDup_app_disjoint _ _ _ Hcs X).
      apply in_flat_map in H. destruct H as (c' & Hc' & Hn).
      apply in_flat_map. exists c'. split; [exact Hc' | exact (elementsOf_ids c' N Hn)].
Qed.

Lemma findInForest_unique dom N :
  distinctElements dom -> In N (flat_map elementsOf dom) ->
  findInForest (el_id (edata N)) dom = Some N.
Proof.
  unfold distinctElements.
  induction dom as [|e rest IH]; intros ND H; [contradiction|].
  cbn [flat_map findInForest] in *. apply in_app_or in H. destruct H as [H|H].
  - rewrite (findElement_unique e N (NoDup_app_remove_r _ _ ND) H). reflexivity.
  - rewrite findElement_None.
    + exact (IH (NoDup_app_remove_l _ _ ND) H).
    + intros X. apply (NoDup_app_disjoint _ _ _ ND X).
      apply in_flat_map in H. destruct H as (c' & Hc' & Hn).
      apply in_flat_map. exists c'. split; [exact Hc' | exact (elementsOf_ids c' N Hn)].
Qed.

Lemma findElement_In i e r : findElement i e = Some r -> In r (elementsOf e).
Proof.
  induction e as [d cs IH] using Element_ind. cbn [findElement elementsOf].
  destruct (Nat.eqb (el_id d) i); [intros X; inversion X; left; reflexivity|].
  intros H. right. induction IH as [|c rest Hc _ IHrest]; [discriminate|].
  cbn [flat_map]. apply in_or_app.
  destruct (findElement i c) as [r'|] eqn:F.
  - left. apply Hc. exact H.
  - right. exact (IHrest H).
Qed.

Lemma findElement_id i e r : findElement i e = Some r -> el_id (edata r) = i.
Proof.
  induction e as [d cs IH] using Element_ind. cbn [findElement].
  destruct (Nat.eqb (el_id d) i) eqn:E.
  { intros X. inversion X; subst. apply Nat.eqb_eq in E. exact E. }
  clear E. induction IH as [|c rest Hc _ IHrest]; [discriminate|].
  destruct (findElement i c) as [r'|] eqn:F; [|exact IHrest].
  intros X. inversion X; subst. exact (Hc eq_refl).
Qed.

Lemma findInForest_id i dom r : findInForest i dom = Some r -> el_id (edata r) = i.
Proof.
  induction dom as [|e rest IH]; cbn [findInForest]; [discriminate|].
  destruct (findElement i e) as [r'|] eqn:F; [|exact IH].
  intros X. inversion X; subst. exact (findElement_id i e r F).
Qed.

Lemma findInForest_In i dom r :
  findInForest i dom = Some r -> In r (flat_map elementsOf dom).
Proof.
  induction dom as [|e rest IH]; cbn [findInForest flat_map]; [discriminate|].
  intros H. apply in_or_app. destruct (findElement i e) as [r'|] eqn:F.
  - left. inversion H; subst. exact (findElement_In i e r F).
  - right. exact (IH H).
Qed.

Lemma forest_NoDup_sub dom N :
  distinctElements dom -> In N (flat_map elementsOf dom) -> NoDup (idsOf N).
Proof.
  unfold distinctElements. intros ND H.
  apply in_flat_map in H. destruct H as (e & He & Hn).
  exact (idsOf_NoDup_sub e N (NoDup_flat_map_member idsOf dom e ND He) Hn).
Qed.

Lemma forest_trans dom N x :
  In N (flat_map elementsOf dom) -> In x (elementsOf N) -> In x (flat_map elementsOf dom).
Proof.
  intros H Hx. apply in_flat_map in H. destruct H as (e & He & Hn).
  apply in_flat_map. exists e. split; [exact He | exact (elementsOf_trans e N x Hn Hx)].
Qed.

Lemma Qlt_bool_iff a b : Qlt_bool a b = true <-> (a < b)%Q.
Proof.
  split; [apply Qlt_bool_lt|]. intros H. unfold Qlt_bool. apply negb_true_iff.
  destruct (Qle_bool b a) eqn:E; [|reflexivity].
  apply Qle_bool_iff in E. exfalso. exact (Qlt_not_le _ _ H E).
Qed.

Section HitDescent.

Variable dom : list Element.
Variable lb : Bounds.
Variables x y : Q.
Hypothesis Hdom : distinctElements dom.

(** one call of the callback of [hitTest]. *)
Lemma hitTestEach_cases el lvl t :
  (contains (getElement t dom) (el_id el) = false /\
   hitTestEach dom lb x y el lvl t = (t, false)) \/
  (contains (getElement t dom) (el_id el) = true /\
   pointInside lb (getBounds el) x y /\
   hitTestEach dom lb x y el lvl t = (el_id el, true)) \/
  (contains (getElement t dom) (el_id el) = true /\
   ~ pointInside lb (getBounds el) x y /\
   hitTestEach dom lb x y el lvl t = (t, false)).
Proof.
  unfold hitTestEach.
  destruct (contains (getElement t dom) (el_id el)); cbn [negb]; [right | left; auto].
  cbv zeta.
  destruct (Qlt_bool _ _ && Qlt_bool _ _ && Qlt_bool _ _ && Qlt_bool _ _) eqn:T.
  - left. split; [reflexivity|]. split; [|reflexivity].
    apply andb_true_iff in T. destruct T as [T T4].
    apply andb_true_iff in T. destruct T as [T T3].
    apply andb_true_iff in T. destruct T as [T1 T2].
    unfold pointInside. repeat split; apply Qlt_bool_lt; assumption.
  - right. split; [reflexivity|]. split; [|reflexivity].
    intros (P1 & P2 & P3 & P4).
    apply Qlt_bool_iff in P1, P2, P3, P4.
    rewrite P1, P2, P3, P4 in T. discriminate.
Qed.

(** once the target is [T], the traversal passes by every element that is
    not inside [T]. *)
Lemma traverseChildren_passes rest lvl T :
  In T (flat_map elementsOf dom) ->
  (forall c, In c rest -> ~ In (el_id (edata c)) (idsOf T)) ->
  traverseChildren (hitTestEach dom lb x y) rest lvl (el_id (edata T)) = el_id (edata T).
Proof.
  intros HT. induction rest as [|c rest IH]; intros Hr; cbn [traverseChildren];
    [reflexivity|].
  destruct (hitTestEach_cases (edata c) (lvl + 1)%Z (el_id (edata T)))
    as [[_ E]|[(C & _)|(C & _)]].
  - rewrite E. apply IH. intros c' Hc'. apply Hr. right. exact Hc'.
  - exfalso. unfold contains, getElement in C.
    rewrite (findInForest_unique dom T Hdom HT) in C.
    rewrite (findElement_None _ T (Hr c (or_introl eq_refl))) in C. discriminate.
  - exfalso. unfold contains, getElement in C.
    rewrite (findInForest_unique dom T Hdom HT) in C.
    rewrite (findElement_None _ T (Hr c (or_introl eq_refl))) in C. discriminate.
Qed.

(** the traversal, entered with the node itself as the target, ends at an
    element of the subtree no child of which has the point inside. *)
Lemma hitTest_descends N :
  In N (flat_map elementsOf dom) ->
  forall lvl,
  exists T, In T (elementsOf N) /\
            traverseDOM (hitTestEach dom lb x y) N lvl (el_id (edata N)) =
            el_id (edata T) /\
            Forall (fun c => ~ pointInside lb (getBounds (edata c)) x y) (childNodes T).
Proof.
  induction N as [d cs IH] using Element_ind. intros HN lvl.
  rewrite traverseDOM_children. cbn [edata].
  pose proof (forest_NoDup_sub dom _ Hdom HN) as ND. cbn [idsOf] in ND.
  inversion ND as [|? ? _ NDcs]; subst. clear ND.
  assert (G : forall rest pre,
             cs = pre ++ rest ->
             Forall (fun c => ~ pointInside lb (getBounds (edata c)) x y) pre ->
             exists T, In T (elementsOf (ENode d cs)) /\
                       traverseChildren (hitTestEach dom lb x y) rest lvl (el_id d) =
                       el_id (edata T) /\
                       Forall (fun c => ~ pointInside lb (getBounds (edata c)) x y)
                         (childNodes T)).
  { induction rest as [|c rest IHrest]; intros pre E Hpre.
    - exists (ENode d cs). split; [apply elementsOf_self|]. split; [reflexivity|].
      cbn [childNodes]. rewrite E, app_nil_r. exact Hpre.
    - assert (Hc : In c cs) by (rewrite E; apply in_or_app; right; left; reflexivity).
      assert (HcN : In c (elementsOf (ENode d cs))).
      { exact (elementsOf_child d cs c c Hc (elementsOf_self c)). }
      cbn [traverseChildren].
      destruct (hitTestEach_cases (edata c) (lvl + 1)%Z (el_id d))
        as [[C _]|[(_ & P & E1)|(_ & P & E1)]].
      + exfalso. unfold contains, getElement in C.
        pose proof (findInForest_unique dom (ENode d cs) Hdom HN) as U.
        cbn [edata] in U. rewrite U in C.
        rewrite (findElement_unique (ENode d cs) c
                   (forest_NoDup_sub dom _ Hdom HN) HcN) in C.
        discriminate.
      + rewrite E1.
        rewrite Forall_forall in IH.
        destruct (IH c Hc (forest_trans dom _ c HN HcN) (lvl + 1)%Z)
          as (T & HT & ET & FT).
        rewrite ET. exists T.
        split; [exact (elementsOf_trans _ c T HcN HT)|]. split; [|exact FT].
        apply traverseChildren_passes.
        * exact (forest_trans dom _ T HN (elementsOf_trans _ c T HcN HT)).
        * intros c' Hc' X.
          rewrite E, flat_map_app in NDcs. apply NoDup_app_remove_l in NDcs.
          cbn [flat_map] in NDcs.
          refine (NoDup_app_disjoint _ _ (el_id (edata c')) NDcs _ _).
          -- exact (idsOf_sub c T _ HT X).
          -- apply in_flat_map. exists c'. split; [exact Hc'|].
             exact (elementsOf_ids c' c' (elementsOf_self c')).
      + rewrite E1. apply (IHrest (pre ++ [c])).
        * rewrite <- app_assoc. exact E.
        * apply Forall_app. split; [exact Hpre | constructor; [exact P | constructor]]. }
  exact (G cs [] eq_refl (Forall_nil _)).
Qed.

End HitDescent.

Lemma hitTest_Some xs dom this h :
  hitTest xs dom this = Ok (Some h) ->
  exists layer lb,
    getObjectById (i_layer (hit_intersection h)) this = Some layer /\
    hit_layer h = id (data layer) /\
    bounds (data layer) = Ok (Some lb) /\
    hit_target h =
    traverseDOM
      (hitTestEach dom lb (fst (clientPoint (hit_intersection h) lb))
         (snd (clientPoint (hit_intersection h) lb)))
      (getElement (element (data layer)) dom) 0%Z (element (data layer)).
Proof.
  induction xs as [|x0 rest IH]; cbn [hitTest]; [discriminate|].
  destruct (getObjectById (i_layer x0) this) as [layer|] eqn:G; [|exact IH].
  destruct (bounds (data layer)) as [[lb|]| |] eqn:B; cbn [bind];
    [|exact IH|discriminate|discriminate].
  destruct (negb (truthyQ (b_width lb)) || negb (truthyQ (b_height lb))); [exact IH|].
  intros X. inversion X; subst. cbn [hit_intersection hit_layer hit_target].
  exists layer, lb. split; [exact G|]. split; [reflexivity|]. split; [exact B|].
  reflexivity.
Qed.

(** X27: the target of [hitTest] is the most specific element under the
    point.  On a page whose elements are told apart by their ids, the
    target that [hitTest] returns is an element at or below the element of
    the hit layer none of whose child elements has the hit point strictly
    inside its box. *)
Theorem hitTest_target_is_most_specific
  (xs : list Intersection) (dom : list Element) (this : Layer) (h : Hit) :
  distinctElements dom ->
  hitTest xs dom this = Ok (Some h) ->
  exists layer lb T,
    getObjectById (i_layer (hit_intersection h)) this = Some layer /\
    bounds (data layer) = Ok (Some lb) /\
    In T (elementsOf (getElement (element (data layer)) dom)) /\
    el_id (edata T) = hit_target h /\
    Forall (fun c => ~ pointInside lb (getBounds (edata c))
                       (fst (clientPoint (hit_intersection h) lb))
                       (snd (clientPoint (hit_intersection h) lb)))
      (childNodes T).
Proof.
  intros Hdom H. destruct (hitTest_Some xs dom this h H) as (layer & lb & G & _ & B & E).
  exists layer, lb. unfold getElement in *.
  destruct (findInForest (element (data layer)) dom) as [N|] eqn:F.
  - pose proof (findInForest_In _ _ _ F) as HN.
    pose proof (findInForest_id _ _ _ F) as Hid.
    destruct (hitTest_descends dom lb (fst (clientPoint (hit_intersection h) lb))
                (snd (clientPoint (hit_intersection h) lb)) Hdom N HN 0%Z)
      as (T & HT & ET & FT).
    exists T. split; [exact G|]. split; [exact B|]. split; [exact HT|].
    split; [|exact FT]. rewrite E, <- Hid. symmetry. exact ET.
  - exists (unknownElement (element (data layer))).
    split; [exact G|]. split; [exact B|]. split; [left; reflexivity|].
    split; [rewrite E; reflexivity | constructor].
Qed.

(** ** Child layers and their elements *)

Lemma getObjectById_fresh n l :
  allLayers (fun d => (id d < n)%nat) l -> getObjectById n l = None.
Proof.
  induction l as [d cs IH] using Layer_ind. intros A.
  inversion A as [? ? Hd Hcs]; subst. cbn [getObjectById].
  destruct (Nat.eqb (id d) n) eqn:E; [apply Nat.eqb_eq in E; lia|].
  clear E Hd A. induction IH as [|c rest Hc _ IHrest]; [reflexivity|].
  inversion Hcs; subst. rewrite Hc by assumption. apply IHrest. assumption.
Qed.

Lemma getObjectById_appended n d cs child :
  (id d <> n)%nat -> Forall (fun c => getObjectById n c = None) cs ->
  id (data child) = n ->
  getObjectById n (Node d (cs ++ [child])) = Some child.
Proof.
  intros Hd Hcs Hc. cbn [getObjectById].
  destruct (Nat.eqb (id d) n) eqn:E; [apply Nat.eqb_eq in E; contradiction|].
  clear E. induction Hcs as [|c rest H1 _ IH]; cbn [app].
  - destruct child as [dc ccs]. cbn [getObjectById data] in *.
    rewrite Hc, Nat.eqb_refl. reflexivity.
  - rewrite H1. exact IH.
Qed.

(** the lookup of [getObjectById] does not read [childLayers]. *)
Lemma getObjectById_set_childLayers i v d cs x :
  getObjectById i (Node d cs) = Some x ->
  exists x', getObjectById i (Node (set_childLayers v d) cs) = Some x' /\
             id (data x') = i.
Proof.
  intros H. pose proof (getObjectById_id _ _ _ H) as Hi.
  cbn [getObjectById] in *.
  change (id (set_childLayers v d)) with (id d).
  destruct (Nat.eqb (id d) i) eqn:E.
  - eexists. split; [reflexivity|]. apply Nat.eqb_eq in E. exact E.
  - exists x. split; [exact H | exact Hi].
Qed.

Lemma closestIn_None eid e best : findElement eid e = None -> closestIn eid best e = None.
Proof.
  revert best. induction e as [d cs IH] using Element_ind.
  intros best F. cbn [findElement closestIn] in *.
  destruct (Nat.eqb (el_id d) eid); [discriminate|].
  generalize (match layerAttribute d with Some _ => Some d | None => best end).
  intros b. induction IH as [|c rest Hc _ IHrest]; [reflexivity|].
  destruct (findElement eid c) eqn:Fc; [discriminate|].
  rewrite (Hc b eq_refl). exact (IHrest F).
Qed.

(** [closest] on a page where the element itself carries the attribute. *)
Lemma closestIn_self eid e E best :
  findElement eid e = Some E -> layerAttribute (edata E) <> None ->
  closestIn eid best e = Some (Some (edata E)).
Proof.
  revert best. induction e as [d cs IH] using Element_ind. intros best F A.
  cbn [findElement closestIn] in *.
  destruct (Nat.eqb (el_id d) eid).
  - inversion F; subst. cbn [edata] in *.
    destruct (layerAttribute d); [reflexivity | contradiction].
  - generalize (match layerAttribute d with Some _ => Some d | None => best end).
    intros best'. induction IH as [|c rest Hc _ IHrest]; [discriminate|].
    destruct (findElement eid c) as [r|] eqn:Fc.
    + inversion F; subst. rewrite (Hc best' eq_refl A). reflexivity.
    + rewrite (closestIn_None eid c best' Fc). exact (IHrest F).
Qed.

Lemma closestLayerElement_self eid dom E :
  findInForest eid dom = Some E -> layerAttribute (edata E) <> None ->
  closestLayerElement eid dom = Some (edata E).
Proof.
  induction dom as [|e rest IH]; cbn [findInForest closestLayerElement]; [discriminate|].
  intros F A. destruct (findElement eid e) as [r|] eqn:Fe.
  - inversion F; subst. rewrite (closestIn_self eid e E None Fe A). reflexivity.
  - rewrite (closestIn_None eid e None Fe). exact (IH F A).
Qed.

(** [closest] right after [setAttribute('data-layer', i)] on the element. *)
Lemma closestIn_setLayerAttribute eid i e best :
  match findElement eid e with
  | Some _ =>
      exists x,
        closestIn eid best
          (mapElements
             (fun e =>
                if Nat.eqb (el_id e) eid
                then mkElementData (el_id e) (nodeName e) (Some (Some i))
                       (statesAttribute e) (hoverDepthAttribute e) (classAttribute e)
                       (el_bounds e)
                else e) e) = Some (Some x) /\
        layerAttribute x = Some (Some i)
  | None =>
      closestIn eid best
        (mapElements
           (fun e =>
              if Nat.eqb (el_id e) eid
              then mkElementData (el_id e) (nodeName e) (Some (Some i))
                     (statesAttribute e) (hoverDepthAttribute e) (classAttribute e)
                     (el_bounds e)
              else e) e) = None
  end.
Proof.
  revert best. induction e as [d cs IH] using Element_ind. intros best.
  cbn [findElement mapElements closestIn].
  destruct (Nat.eqb (el_id d) eid) eqn:E.
  - cbn [el_id layerAttribute]. rewrite E. eexists. split; reflexivity.
  - rewrite E.
    generalize (match layerAttribute d with Some _ => Some d | None => best end).
    intros b. induction IH as [|c rest Hc _ IHrest]; [reflexivity|].
    cbn [List.map]. specialize (Hc b).
    destruct (findElement eid c) as [r|].
    + destruct Hc as (x & Hx & Ax). rewrite Hx. exists x. split; [reflexivity | exact Ax].
    + rewrite Hc. exact IHrest.
Qed.

Lemma closestLayerElement_setLayerAttribute eid i dom :
  findInForest eid dom <> None ->
  exists x, closestLayerElement eid (setLayerAttribute eid i dom) = Some x /\
            layerAttribute x = Some (Some i).
Proof.
  unfold setLayerAttribute.
  induction dom as [|e rest IH]; cbn [findInForest List.map closestLayerElement];
    [contradiction|].
  intros F. pose proof (closestIn_setLayerAttribute eid i e None) as C.
  destruct (findElement eid e) as [r|].
  - destruct C as (x & Hx & Ax). rewrite Hx. exists x. split; [reflexivity | exact Ax].
  - rewrite C. exact (IH F).
Qed.

(** X28: a child layer is found again by its element.  When the walk of
    [_updateChildLayers] meets an element of the page that carries the
    layer attribute or is a video, and the attribute, if it carries a
    number, does not carry the id of the content, mesh, target, content
    target or cursor object of a layer of the tree, the callback stops the
    walk there and pushes one layer id onto [childLayers]; right after it,
    [getLayerForElement] of that element is the layer with that id: the
    layer that the attribute named, or else a new child whose id the
    attribute now carries, provided the ids of the tree are below the id
    counter. *)
Theorem _tryConvertToWebLayer3D_layer_is_found_by_its_element
  (el : ElementData) (E : Element) (level : Z) (this this' : Layer) (w w' : World)
  (descend : bool) :
  findInForest (el_id el) (dom w) = Some E -> edata E = el ->
  layerAttribute el <> None \/ String.eqb (nodeName el) "video" = true ->
  (forall i, layerAttribute el = Some (Some i) -> allLayers (fun d => ~ partOf i d) this) ->
  allLayers (fun d => (id d < nextId w)%nat) this ->
  _tryConvertToWebLayer3D el level (this, w) = ((this', w'), descend) ->
  descend = false /\
  exists i child,
    childLayers (data this') = childLayers (data this) ++ [i] /\
    getLayerForElement (el_id el) (dom w') this' = Some child /\
    id (data child) = i.
Proof.
  intros F HE Hl _ Hfresh H. destruct this as [d cs].
  unfold _tryConvertToWebLayer3D in H.
  assert (H' : match lookupChild (layerAttribute el) (Node d cs) with
               | Some child =>
                   ((Node (set_childLayers (childLayers d ++ [id (data child)]) d) cs, w),
                    false)
               | None =>
                   ((Node (set_childLayers (childLayers d ++ [nextId w]) d)
                       (cs ++ [Node (newLayerData (nextId w) (el_id el) (rootLayer d)
                                       level (layerSeparation d)) []]),
                     set_nextId (nextId w + 6)
                       (set_dom (setLayerAttribute (el_id el) (nextId w) (dom w)) w)),
                    false)
               end = ((this', w'), descend)).
  { destruct (layerAttribute el) as [a|] eqn:A.
    - exact H.
    - destruct Hl as [Hl|Hl]; [contradiction|]. rewrite Hl in H. exact H. }
  clear H. destruct (lookupChild (layerAttribute el) (Node d cs)) as [child|] eqn:L.
  - inversion H'; subst. split; [reflexivity|].
    unfold lookupChild in L.
    destruct (layerAttribute (edata E)) as [[i|]|] eqn:A; try discriminate.
    destruct (getObjectById_set_childLayers i (childLayers d ++ [id (data child)]) d cs
                child L) as (x' & Hx & Hi).
    exists (id (data child)), x'. split; [reflexivity|].
    unfold getLayerForElement.
    rewrite (closestLayerElement_self _ _ E F) by (rewrite A; discriminate).
    rewrite A. split; [exact Hx|].
    rewrite Hi. symmetry. exact (getObjectById_id _ _ _ L).
  - inversion H'; subst. split; [reflexivity|].
    exists (nextId w),
      (Node (newLayerData (nextId w) (el_id (edata E)) (rootLayer d) level
               (layerSeparation d)) []).
    split; [reflexivity|].
    unfold getLayerForElement. cbn [dom set_nextId set_dom].
    destruct (closestLayerElement_setLayerAttribute (el_id (edata E)) (nextId w) (dom w))
      as (x & Hx & Ax); [rewrite F; discriminate|].
    rewrite Hx, Ax.
    inversion Hfresh as [? ? Hd Hcs]; subst.
    split; [|reflexivity].
    apply getObjectById_appended.
    + change (id (set_childLayers (childLayers d ++ [nextId w]) d)) with (id d). lia.
    + rewrite Forall_forall in Hcs |- *. intros c Hc.
      apply getObjectById_fresh. exact (Hcs c Hc).
    + reflexivity.
Qed.

(** ** The further properties on the small pages *)

Lemma _updateState_caches_declared_states_witness :
  (In "a" (declaredStates
             (edata (getElement (element (data Scenario.root))
                       (dom Scenario.statefulWorld)))) ->
   lookupState "a" (_states Scenario.firstStateData) =
   match lookupState "a" (_states (data Scenario.root)) with
   | Some hs => Some hs
   | None =>
       if inherited "a" then None
       else Some (repeat (mkHoverState None None)
                    (slotCount
                       (hoverDepthAttribute
                          (edata (getElement (element (data Scenario.root))
                                    (dom Scenario.statefulWorld))))))
   end) /\
  (~ In "a" (declaredStates
               (edata (getElement (element (data Scenario.root))
                         (dom Scenario.statefulWorld)))) ->
   lookupState "a" (_states Scenario.firstStateData) = None).
Proof.
  assert (H : _updateState (data Scenario.root) Scenario.statefulWorld =
              Ok (Scenario.firstStateData, Scenario.firstStateWorld))
    by (vm_compute; reflexivity).
  exact (_updateState_caches_declared_states (data Scenario.root) Scenario.statefulWorld
           Scenario.firstStateData Scenario.firstStateWorld "a" H).
Defined.

Lemma _updateState_disposes_withdrawn_textures_witness :
  disposedTextures Cases.withdrawnAfter =
  disposedTextures Cases.withdrawnWorld ++
  flat_map (fun kv => texturesOf (snd kv))
    (withdrawnEntries
       (declaredStates
          (edata (getElement (element (data Scenario.settledRoot))
                    (dom Cases.withdrawnWorld))))
       (_states (data Scenario.settledRoot))).
Proof.
  assert (H : _updateState (data Scenario.settledRoot) Cases.withdrawnWorld =
              Ok (Cases.withdrawnData, Cases.withdrawnAfter))
    by (vm_compute; reflexivity).
  exact (_updateState_disposes_withdrawn_textures (data Scenario.settledRoot)
           Cases.withdrawnWorld Cases.withdrawnData Cases.withdrawnAfter H).
Defined.

Lemma _updateState_selects_first_declared_class_witness :
  (exists pre post,
     classList (edata (getElement (element (data Scenario.settledRoot))
                         (dom Cases.classedWorld))) =
     pre ++ _state Cases.classedData :: post /\
     In (_state Cases.classedData)
       (declaredStates (edata (getElement (element (data Scenario.settledRoot))
                                 (dom Cases.classedWorld)))) /\
     forall c, In c pre ->
               ~ In c (declaredStates
                         (edata (getElement (element (data Scenario.settledRoot))
                                   (dom Cases.classedWorld))))) \/
  (_state Cases.classedData = "" /\
   forall c, In c (classList (edata (getElement (element (data Scenario.settledRoot))
                                       (dom Cases.classedWorld)))) ->
             ~ In c (declaredStates
                       (edata (getElement (element (data Scenario.settledRoot))
                                 (dom Cases.classedWorld))))).
Proof.
  assert (H : _updateState (data Scenario.settledRoot) Cases.classedWorld =
              Ok (Cases.classedData, Cases.classedAfter))
    by (vm_compute; reflexivity).
  exact (_updateState_selects_first_declared_class (data Scenario.settledRoot)
           Cases.classedWorld Cases.classedData Cases.classedAfter H).
Defined.

Lemma refresh_throws_on_bad_hover_depth_witness :
  refresh 1 false None (Node (data Scenario.root) []) Cases.badDepthWorld = Throw.
Proof.
  assert (H1 : badHoverDepth
                 (edata (getElement (element (data Scenario.root))
                           (dom Cases.badDepthWorld))))
    by (left; reflexivity).
  assert (H2 : lookupState
                 (stateFromClasses
                    (declaredStates
                       (edata (getElement (element (data Scenario.root))
                                 (dom Cases.badDepthWorld))))
                    (classList
                       (edata (getElement (element (data Scenario.root))
                                 (dom Cases.badDepthWorld)))))
                 (_states (data Scenario.root)) = None)
    by reflexivity.
  exact (refresh_throws_on_bad_hover_depth 0 false None (data Scenario.root) []
           Cases.badDepthWorld H1 H2).
Defined.

Lemma _updateTargetLayout_keeps_last_layout_when_hidden_witness :
  contentTargetOpacity Cases.hiddenChild = 0%Q /\
  position (target Cases.hiddenChild) = _lastTargetPosition Cases.markedChild /\
  scale (contentTarget Cases.hiddenChild) = _lastContentTargetScale Cases.markedChild /\
  _lastTargetPosition Cases.hiddenChild = _lastTargetPosition Cases.markedChild /\
  _lastContentTargetScale Cases.hiddenChild = _lastContentTargetScale Cases.markedChild.
Proof.
  assert (H1 : _updateTargetLayout (Some (data Scenario.refreshedRoot)) Cases.markedChild =
               Ok Cases.hiddenChild)
    by (vm_compute; reflexivity).
  assert (H2 : _needsRemoval Cases.markedChild = true \/
               (exists b, bounds Cases.markedChild = Ok (Some b) /\ degenerate b))
    by (left; reflexivity).
  exact (_updateTargetLayout_keeps_last_layout_when_hidden
           (Some (data Scenario.refreshedRoot)) Cases.markedChild Cases.hiddenChild H1 H2).
Defined.

Lemma _updateTargetLayout_idempotent_witness :
  _updateTargetLayout (Some (data Scenario.refreshedRoot)) Cases.placedChild =
  Ok Cases.placedChild.
Proof.
  assert (H : _updateTargetLayout (Some (data Scenario.refreshedRoot))
                (data Scenario.childAfter) = Ok Cases.placedChild)
    by (vm_compute; reflexivity).
  exact (_updateTargetLayout_idempotent (Some (data Scenario.refreshedRoot))
           (data Scenario.childAfter) Cases.placedChild H).
Defined.

Lemma refresh_shows_current_texture_or_keeps_last_witness :
  material_map (mesh (data Scenario.refreshedRoot)) =
  match texture (data Scenario.refreshedRoot) with
  | Ok (Some tex) => Some tex
  | _ => material_map (mesh (data Scenario.root))
  end /\
  opacity (mesh (data Scenario.refreshedRoot)) = opacity (mesh (data Scenario.root)) /\
  visible (mesh (data Scenario.refreshedRoot)) = visible (mesh (data Scenario.root)).
Proof.
  assert (H : refresh 3 false None Scenario.root Scenario.world =
              Ok (Scenario.refreshedRoot, Scenario.refreshedWorld))
    by (vm_compute; reflexivity).
  exact (refresh_shows_current_texture_or_keeps_last 3 false None Scenario.root
           Scenario.world Scenario.refreshedRoot Scenario.refreshedWorld H).
Defined.

Lemma refresh_appends_to_queue_witness :
  (exists added,
     _rasterizationQueue Scenario.refreshedWorld =
     _rasterizationQueue Scenario.world ++ added) /\
  (NoDup (_rasterizationQueue Scenario.world) ->
   NoDup (_rasterizationQueue Scenario.refreshedWorld)).
Proof.
  assert (H : refresh 3 false None Scenario.root Scenario.world =
              Ok (Scenario.refreshedRoot, Scenario.refreshedWorld))
    by (vm_compute; reflexivity).
  exact (refresh_appends_to_queue 3 false None Scenario.root Scenario.world
           Scenario.refreshedRoot Scenario.refreshedWorld H).
Defined.

Lemma refresh_queues_every_dirty_layer_witness :
  allLayers (fun d => needsRasterize d = true ->
                      In (id d) (_rasterizationQueue Cases.forcedWorld))
    Scenario.root /\
  (true = true ->
   allLayers (fun d => In (id d) (_rasterizationQueue Cases.forcedWorld))
     Cases.forcedRoot).
Proof.
  assert (H : refresh 3 true None Scenario.root Scenario.world =
              Ok (Cases.forcedRoot, Cases.forcedWorld))
    by (vm_compute; reflexivity).
  exact (refresh_queues_every_dirty_layer 3 true None Scenario.root Scenario.world
           Cases.forcedRoot Cases.forcedWorld H).
Defined.

Lemma refresh_writes_only_layer_attributes_witness :
  Forall2 (relatedE sameButLayerAttribute) (dom Scenario.world)
    (dom Scenario.refreshedWorld).
Proof.
  assert (H : refresh 3 false None Scenario.root Scenario.world =
              Ok (Scenario.refreshedRoot, Scenario.refreshedWorld))
    by (vm_compute; reflexivity).
  exact (refresh_writes_only_layer_attributes 3 false None Scenario.root Scenario.world
           Scenario.refreshedRoot Scenario.refreshedWorld H).
Defined.

Lemma refresh_returns_in_steady_state_witness :
  exists l' w',
    refresh 3 false None Scenario.refreshedRoot Scenario.refreshedWorld = Ok (l', w') /\
    dom w' = dom Scenario.refreshedWorld /\
    allLayers clean l' /\ allLayers (settled (dom Scenario.refreshedWorld)) l'.
Proof.
  assert (H1 : allLayers clean Scenario.refreshedRoot).
  { vm_compute. repeat constructor. }
  assert (H2 : allLayers (settled (dom Scenario.refreshedWorld)) Scenario.refreshedRoot).
  { assert (T : Scenario.refreshedRoot =
                 Node (data Scenario.refreshedRoot) [Node (data Scenario.childAfter) []])
      by (vm_compute; reflexivity).
    assert (S : forall d,
               _states d = _states (data Scenario.childAfter) \/
               _states d = _states (data Scenario.refreshedRoot) ->
               element d = 0%nat \/ element d = 1%nat ->
               settled (dom Scenario.refreshedWorld) d).
    { intros d Hs He. split; [|split].
      - intros k hs.
        assert (D : declaredStates
                      (edata (getElement (element d) (dom Scenario.refreshedWorld))) =
                    [""])
          by (destruct He as [-> | ->]; vm_compute; reflexivity).
        rewrite D.
        destruct Hs as [-> | ->]; vm_compute; destruct k as [|a k]; intros H;
          try discriminate H; left; reflexivity.
      - intros k hs.
        destruct Hs as [-> | ->]; vm_compute; destruct k as [|a k]; intros H X;
          subst hs; discriminate H.
      - intros k.
        assert (D : declaredStates
                      (edata (getElement (element d) (dom Scenario.refreshedWorld))) =
                    [""])
          by (destruct He as [-> | ->]; vm_compute; reflexivity).
        rewrite D. intros [<- | []].
        destruct Hs as [-> | ->]; vm_compute; discriminate. }
    rewrite T. constructor.
    - apply S; [right; reflexivity | left; reflexivity].
    - constructor; [|constructor]. constructor; [|constructor].
      apply S; [left; reflexivity | right; reflexivity]. }
  assert (H3 : parentMeasured None) by exact I.
  assert (H4 : (height Scenario.refreshedRoot <= 3)%nat) by (vm_compute; lia).
  exact (refresh_returns_in_steady_state Scenario.refreshedRoot 3 None
           Scenario.refreshedWorld H1 H2 H3 H4).
Defined.

Lemma update_keeps_opacities_consistent_witness :
  allLayers opacityConsistent Scenario.firstFrameRoot.
Proof.
  assert (H1 : (0 <= 1)%Q) by (vm_compute; discriminate).
  assert (H2 : allLayers opacityConsistent Scenario.root).
  { constructor; [|constructor]. split; [|split].
    - split; vm_compute; discriminate.
    - split; [discriminate | vm_compute; intros H; exfalso; apply H; reflexivity].
    - left. reflexivity. }
  assert (H3 : update 3 1 TRANSITION_DEFAULT [] Scenario.root Scenario.statefulWorld =
               Ok (Scenario.firstFrameRoot, Scenario.firstFrameWorld))
    by (vm_compute; reflexivity).
  exact (update_keeps_opacities_consistent 3 1 [] Scenario.root Scenario.statefulWorld
           Scenario.firstFrameRoot Scenario.firstFrameWorld H1 H2 H3).
Defined.

Lemma update_keeps_content_scales_positive_witness :
  allLayers scalesPositive Scenario.firstFrameRoot.
Proof.
  assert (H1 : (0 <= 1)%Q) by (vm_compute; discriminate).
  assert (H2 : allLayers scalesPositive Scenario.root).
  { constructor; [|constructor].
    split; [|split]; split; vm_compute; reflexivity. }
  assert (H3 : update 3 1 TRANSITION_DEFAULT [] Scenario.root Scenario.statefulWorld =
               Ok (Scenario.firstFrameRoot, Scenario.firstFrameWorld))
    by (vm_compute; reflexivity).
  exact (update_keeps_content_scales_positive 3 1 [] Scenario.root Scenario.statefulWorld
           Scenario.firstFrameRoot Scenario.firstFrameWorld H1 H2 H3).
Defined.

Lemma removed_child_makes_next_sibling_skip_the_frame_witness :
  exists pre' s' rest',
    children Cases.traversedRoot = pre' ++ s' :: rest' /\
    splices 1 [Cases.first] pre' /\
    related sameButObservers Cases.staying s' /\
    splices 1 [] rest'.
Proof.
  assert (H0 : comesTo 1 [Cases.first]).
  { apply comesTo_stay; [|constructor].
    intros [H _]. vm_compute in H. discriminate H. }
  assert (H1 : removable 1 (data Cases.leaving))
    by (split; vm_compute; reflexivity).
  assert (H2 : traverseLayers 3 TRANSITION_DEFAULT 1
                 (Node (data Scenario.refreshedRoot)
                    ([Cases.first] ++ Cases.leaving :: Cases.staying :: [])) =
               Ok (Cases.traversedRoot, Cases.traversedFlag))
    by (vm_compute; reflexivity).
  exact (removed_child_makes_next_sibling_skip_the_frame 3 1 (data Scenario.refreshedRoot)
           [Cases.first] Cases.leaving Cases.staying [] Cases.traversedRoot
           Cases.traversedFlag H0 H1 H2).
Defined.

Lemma rasterize_rejects_when_slots_are_missing_witness :
  snd (rasterizeLayer Scenario.statefulLayout true (fun _ => true) Cases.deeperData
         Cases.deeperAfter) = true.
Proof.
  assert (H1 : String.eqb
                 (nodeName (edata (getElement (element Cases.deeperData)
                                     (dom Cases.deeperAfter)))) "video" = false)
    by (vm_compute; reflexivity).
  assert (H2 : lookupState "a" (_states Cases.deeperData) = Some Cases.deeperSlots)
    by (vm_compute; reflexivity).
  assert (H3 : (List.length Cases.deeperSlots < slotCount (_hoverDepth Cases.deeperData))%nat)
    by (vm_compute; lia).
  exact (rasterize_rejects_when_slots_are_missing Scenario.statefulLayout true
           (fun _ => true) Cases.deeperData Cases.deeperAfter "a" Cases.deeperSlots
           H1 H2 H3).
Defined.

Lemma rasterize_commits_bounds_before_the_barrier_witness :
  (forall k hs n,
     lookupState k (_states (data Scenario.childAfter)) = Some hs ->
     (n < slotCount (_hoverDepth (data Scenario.childAfter)))%nat ->
     ~ degenerate (Scenario.childLayout k n) ->
     exists s,
       slotAt k n
         (_states (fst (fst (rasterizeLayer Scenario.childLayout false (fun _ => true)
                               (data Scenario.childAfter) Scenario.refreshedWorld)))) =
       Some s /\
       hs_bounds s = Some (Scenario.childLayout k n)) /\
  (false = false ->
   snd (rasterizeLayer Scenario.childLayout false (fun _ => true)
          (data Scenario.childAfter) Scenario.refreshedWorld) = true /\
   sameTextures (_states (data Scenario.childAfter))
     (_states (fst (fst (rasterizeLayer Scenario.childLayout false (fun _ => true)
                           (data Scenario.childAfter) Scenario.refreshedWorld))))).
Proof.
  assert (H1 : String.eqb
                 (nodeName (edata (getElement (element (data Scenario.childAfter))
                                     (dom Scenario.refreshedWorld)))) "video" = false)
    by (vm_compute; reflexivity).
  assert (H2 : cacheCovers (_hoverDepth (data Scenario.childAfter))
                 (_states (data Scenario.childAfter))).
  { intros k hs. vm_compute. destruct k as [|a k]; intros H; inversion H. lia. }
  exact (rasterize_commits_bounds_before_the_barrier Scenario.childLayout false
           (fun _ => true) (data Scenario.childAfter) Scenario.refreshedWorld H1 H2).
Defined.

Lemma hitTest_target_is_most_specific_witness :
  exists layer lb T,
    getObjectById (i_layer (hit_intersection Cases.testedHit)) Scenario.refreshedRoot =
    Some layer /\
    bounds (data layer) = Ok (Some lb) /\
    In T (elementsOf (getElement (element (data layer)) (dom Scenario.refreshedWorld))) /\
    el_id (edata T) = hit_target Cases.testedHit /\
    Forall (fun c => ~ pointInside lb (getBounds (edata c))
                       (fst (clientPoint (hit_intersection Cases.testedHit) lb))
                       (snd (clientPoint (hit_intersection Cases.testedHit) lb)))
      (childNodes T).
Proof.
  assert (H1 : distinctElements (dom Scenario.refreshedWorld)).
  { unfold distinctElements. vm_compute.
    constructor; [intros [H|[]]; discriminate H|]. constructor; [intros []|constructor]. }
  assert (H2 : hitTest [Cases.centreHit] (dom Scenario.refreshedWorld)
                 Scenario.refreshedRoot = Ok (Some Cases.testedHit))
    by (vm_compute; reflexivity).
  exact (hitTest_target_is_most_specific [Cases.centreHit] (dom Scenario.refreshedWorld)
           Scenario.refreshedRoot Cases.testedHit H1 H2).
Defined.

Lemma _tryConvertToWebLayer3D_layer_is_found_by_its_element_witness :
  false = false /\
  exists i child,
    childLayers (data Cases.convertedRoot) = childLayers (data Scenario.root) ++ [i] /\
    getLayerForElement (el_id (edata Scenario.childElement)) (dom Cases.convertedWorld)
      Cases.convertedRoot = Some child /\
    id (data child) = i.
Proof.
  assert (H1 : findInForest (el_id (edata Scenario.childElement)) (dom Scenario.world) =
               Some Scenario.childElement)
    by (vm_compute; reflexivity).
  assert (H2 : edata Scenario.childElement = edata Scenario.childElement) by reflexivity.
  assert (H3 : layerAttribute (edata Scenario.childElement) <> None \/
               String.eqb (nodeName (edata Scenario.childElement)) "video" = true)
    by (left; discriminate).
  assert (H3' : forall i, layerAttribute (edata Scenario.childElement) = Some (Some i) ->
                          allLayers (fun d => ~ partOf i d) Scenario.root)
    by (intros i H; discriminate H).
  assert (H4 : allLayers (fun d => (id d < nextId Scenario.world)%nat) Scenario.root).
  { constructor; [vm_compute; lia | constructor]. }
  assert (H5 : _tryConvertToWebLayer3D (edata Scenario.childElement) 1
                 (Scenario.root, Scenario.world) =
               ((Cases.convertedRoot, Cases.convertedWorld), false))
    by (vm_compute; reflexivity).
  exact (_tryConvertToWebLayer3D_layer_is_found_by_its_element
           (edata Scenario.childElement) Scenario.childElement 1 Scenario.root
           Cases.convertedRoot Scenario.world Cases.convertedWorld false
           H1 H2 H3 H3' H4 H5).
Defined.

Lemma class_record_passed_over_or_dirties_witness :
  ((forall c,
      classChanged None (edata (getElement 1 (dom Scenario.constructorWorld))) c ->
      passedOverClass (_states (data Scenario.childAfter)) c) ->
   _processMutations Scenario.constructorWorld [ClassAttributeRecord 1 None]
     Scenario.refreshedRoot = Scenario.refreshedRoot) /\
  (forall c,
     classChanged None (edata (getElement 1 (dom Scenario.constructorWorld))) c ->
     ~ passedOverClass (_states (data Scenario.childAfter)) c ->
     recordTarget (dom Scenario.constructorWorld) (ClassAttributeRecord 1 None) =
     Some 1%nat ->
     exists layer',
       getObjectById (id (data Scenario.childAfter))
         (_processMutations Scenario.constructorWorld [ClassAttributeRecord 1 None]
            Scenario.refreshedRoot) = Some layer' /\
       needsRasterize (data layer') = true /\
       allLayers (dirtyInside (getElement 1 (dom Scenario.constructorWorld))) layer').
Proof.
  assert (H1 : _isUpdating Scenario.constructorWorld = false) by (vm_compute; reflexivity).
  assert (H2 : getLayerForElement 1 (dom Scenario.constructorWorld)
                 Scenario.refreshedRoot = Some Scenario.childAfter)
    by (vm_compute; reflexivity).
  exact (class_record_passed_over_or_dirties Scenario.constructorWorld
           Scenario.refreshedRoot Scenario.childAfter 1%nat None H1 H2).
Defined.

